(* ===== verification/_CoqProject ===== *)
-Q . S2P
Prelude.v
Stream.v
Wrapping.v
Reassembler.v
Buffers.v
Parser.v
Checksum.v
TcpSegment.v
Ipv4.v
Ethernet.v
Typing.v
Receiver.v
Sender.v
Transfer.v
Recovery.v
Connection.v
ConnectionStreams.v
Handshake.v
Peers.v
Silence.v
Addresses.v
Interface.v
Router.v
Descriptor.v
Adapters.v
Stations.v
EthernetStation.v
Stack.v
Socket.v
EventLoop.v
SpongeSocket.v
SocketTheorems.v
SocketStack.v
SocketInstances.v
StreamCopy.v
Bouncer.v
Benchmark.v
Printing.v
Simulator.v
Lab7.v
Lab7Path.v
CString.v
Hexdump.v
Random.v
CommandLine.v
Programs.v
WebGet.v
TunDump.v
Tcpdump.v
