(* ===== verification/Prelude.v ===== *)
(** * Sponge: a verified model of a user-space TCP/IP stack

    Sponge (src/libsponge) is a TCP implementation in C++ with everything around it:
    IPv4, ARP and Ethernet below, a router, adapters that put segments into UDP datagrams
    or onto TUN and TAP devices, an event loop, and sockets that run a connection on a
    thread; src/apps are programs that use it. This library translates it into functions
    and proves what makes each part correct.

    ** The program and its parts

    An application writes to and reads from [ByteStream]s. A [TCPConnection] joins a
    [TCPSender], which cuts the outbound stream into segments and repeats what is not
    acknowledged, and a [TCPReceiver], which unwraps sequence numbers and hands the
    payloads to a [StreamReassembler] that writes the inbound stream. An adapter turns
    segments into datagrams and back. Datagrams leave through a [NetworkInterface],
    which finds Ethernet addresses with ARP; a [Router] forwards datagrams between
    interfaces. The formats are built on [Buffer]s, [NetParser], [NetUnparser] and
    [InternetChecksum]. A [TCPSpongeSocket] moves bytes between its owner and a
    connection, and segments between the connection and an adapter, by the rules it
    installs in an [EventLoop]; the programs install rules of their own.

    ** The files

    - Prelude: machine integers, bytes, slices of lists, record update, the exception
      and state monads, tactics and hint databases.
    - Stream (byte_stream): [ByteStream], its specification [Pipe], and the refinement.
    - Wrapping (wrapping_integers): [wrap], [unwrap] and the operators.
    - Reassembler (stream_reassembler): [OrderedSet] for std::set, [StreamReassembler].
    - Buffers, Parser, Checksum (util/buffer, util/parser, InternetChecksum of
      util/util): buffers and lists of buffers, big-endian fields, the checksum.
    - TcpSegment, Ipv4, Ethernet (tcp_helpers/tcp_header, tcp_segment, ipv4_header,
      ipv4_datagram, ethernet_header, ethernet_frame, arp_message): the formats. Typing:
      the types of what their parsers store.
    - Receiver, Sender, Connection (tcp_receiver, tcp_sender, tcp_connection,
      tcp_helpers/tcp_state): the TCP endpoints and their state machine.
    - Transfer: a sender and a receiver with a network between them. Recovery: the same two
      with acknowledgements and the timer. ConnectionStreams:
      what a connection does to its two streams, and how it ends. Handshake: opening a connection. Peers:
      two connections with a network between them. Silence: a connection whose peer is
      silent.
    - Addresses (util/address): socket addresses over the C library's name functions.
    - Interface, Router (network_interface, router): ARP and forwarding. [InterfaceTrace]
      is the interface seen from outside, by the frames that it takes and queues.
    - Descriptor, Socket (util/file_descriptor, util/socket, util/tun): descriptors,
      sockets and devices over the classes [Kernel] and [SocketKernel] of system calls.
    - Adapters (tcp_helpers/fd_adapter, tcp_over_ip, tuntap_adapter,
      lossy_fd_adapter): the class [Adapter], its instances, and the class [Channel]
      of what an adapter and its medium promise. Stations: the class [Station] of what
      an adapter promises to a connection, and its instances for UDP, TUN and lossy
      adapters; EthernetStation: the instance for Ethernet with ARP. Stack: two connections
      over two stations with a network of packets between them.
    - EventLoop (util/eventloop): the loop, and contracts between it and its rules, with or
      without the reason for which a rule is taken away.
    - SpongeSocket, SocketTheorems, SocketInstances (tcp_helpers/tcp_sponge_socket): the
      socket over the class [Environment], what it guarantees, and adapters and devices
      that meet its hypotheses. SocketStack: the socket as one side of the stack, with the
      traffic of its device (the class [Traffic]).
    - StreamCopy, Bouncer, Benchmark, Simulator, Lab7 (apps/bidirectional_stream_copy,
      bouncer, tcp_benchmark, network_simulator, lab7): the programs. Lab7Path: the way of
      a segment through the two routers of lab7.
    - Printing, Hexdump (util/util): the textual forms of the headers, and hexdump. Random
      (util/util): the clock and the random generator.
    - CString: strncmp, strtol and strtof of the C library. CommandLine: the command lines
      of apps/tcp_ipv4, tcp_udp and tcp_ip_ethernet. Programs: their main functions and
      tcp_native. WebGet, TunDump, Tcpdump (apps/webget, tun, udp_tcpdump): the other
      programs.

    A class of the source is a module with a record of its members under their names;
    a member function is a function from the object to the object, with the value it
    returns; a function that may throw returns a [result]. What is left of an object
    after an exception is not modelled. Loops are fixpoints on the data they consume or
    carry fuel. An unordered_map is a [gmap], a deque or queue a list. The local variables
    that a program's lambdas refer to are a record, and a rule of the event loop is
    functions on that record. A program with two threads is two models, each with the
    other thread in its environment.

    ** What the theorems show

    - The whole way: [stack_delivers], that two connections over stations and a network
      that loses, repeats and reorders packets never throw in the adapters, and that each
      application reads a prefix of what the other wrote; [socket_refines_station], that a
      socket is one side of such a stack, whose events are the packets of its device, the bytes
      of its owner and the ticks of its clock; [peers_deliver], that over a network that loses, repeats and reorders
      segments each application reads a prefix of what the other wrote, and all of it when
      the stream has ended; [transfer_delivers], the same for a sender and a receiver
      alone, and that everything arrives once every segment has arrived inside the window;
      [recovery_completes], that retransmission brings the whole stream across however much
      was lost, if the oldest segment and an acknowledgement get through often enough.
      They do not cover a segment without data, a FIN above all, that overtakes data, nor a
      repeated SYN with data or FIN, nor a segment 2^31 or more away, which the receiver does
      not handle, nor RSTs (their steps have the conditions).
      [three_way_handshake] opens a connection; [silent_peer_ends] ends one whose peer no
      longer answers, if its window is not closed, and [unanswered_connect_ends] one whose peer never did.
    - Streams: [byte_stream_refines_pipe] and [byte_stream_fifo], that the ring buffer
      is a bounded FIFO; [reassembler_in_order], [reassembler_end] and
      [reassembler_capacity], that reassembly gives the longest prefix that arrived,
      ends when all of it did, and stays within its capacity, for substrings that are
      [pushable].
    - Sequence numbers: [unwrap_closest] and [unwrap_wrap].
    - The sender: [sender_cuts_stream], [sender_keeps_unacked], [sender_ack],
      [fill_window_fills], [sender_flow_control], [sender_tick]; the receiver:
      [receiver_delivers], [receiver_ackno_window].
    - The connection: [connection_ends], the only ways in which it ends, told by its two
      streams; [segments_stamped], [rst_resets], [inactive_final].
    - Formats: round trips ([tcp_segment_roundtrip], [ipv4_datagram_roundtrip],
      [ethernet_frame_roundtrip], [arp_roundtrip], [parser_roundtrip]), what parsing
      accepts ([tcp_segment_parse_total], [parse_header_total], [arp_parse_accepts]) and
      stores ([parsers_typed]), the checksum against its definition
      ([checksum_reference]) and [buffer_list_remove_prefix].
    - The network: [interface_transmits], over all sequences of calls, and
      [interface_arp_discipline], which frames each call puts out; [arp_resolution] for two interfaces on a link,
      [longest_prefix_match], [route_hands_on] and [route_forwards_all].
    - Adapters: [tun_segment_roundtrip], [unwrap_filters], [lossy_channel];
      descriptors: [write_all_writes]. The instances of [Station] for all of them.
    - The event loop: [event_loop_contract], which the proofs on the socket and on the
      programs instantiate.
    - The socket: [socket_relays], that its loop passes on all bytes in order and never
      reports a busy wait or a short write; [connect_starts].
    - The programs: [stream_copy_relays] and [stream_copy_completes], that the copy relays
      and leaves only when both ends were passed on; [bouncer_relays] and
      [bouncer_sets_up]; [benchmark_sends]; [exchange_swaps], [check_compares] and
      [simulator_succeeds]; [lab7_network_relays], that lab7's thread refines the router,
      [lab7_topology], that its routers know the way, and [lab7_segment_crosses], that a
      segment gets from one end to the other; [get_URL_fetches], that webget prints the
      whole page; [tcpdump_shows_segment] and [process_inside]; [tun_shows_segment];
      [hexdump_layout].
    - The clock: [timestamps_steady].
    - Command lines: [tcp_udp_config], [tcp_ip_ethernet_config], what
      they are read as; [options_end], [tcp_ipv4_refuses], [arguments_read], where reading
      stops; [loss_rate_scales], the arithmetic of loss rates.

    Where the code does something other than it seems to intend, a lemma evaluates it on
    a concrete input: [empty_eof_ends_early], [empty_piece_duplicates],
    [empty_piece_overflows], [overtaking_fin_truncates], [zero_window_overrun],
    [syn_overrun], [closed_window_not_counted],
    [bad_checksum_accepted], [short_offset_accepted], [short_frame_accepted],
    [as_string_unsupported], [foreign_arp_learned], [long_option_accepted],
    [short_header_undefined], [cut_datagram_undefined], [bad_checksum_blank],
    [loopback_skipped], [file_option_unknown]. The first seven are excluded from the
    theorems by hypotheses ([pushable], [transfer], [behaved], [stalled]); the
    statements on what the parsers and the interface accept describe the code as it is.

    ** Bounds and fuel

    Counters are 64-bit and wrap; the theorems on streams assume fewer than 2^62 or 2^63
    bytes, and those on sequence numbers that a number is less than 2^31 from its
    reference point. A sender has less than 2^31 in flight. The fuel of a loop is shown
    to be enough by the theorem on the function that contains it: [merge_behind] gets one
    round more than there are cached pieces, [fill_loop] one more than the window,
    [write_loop] of a descriptor one more than the bytes to write, [drain] of the router
    the length of the queue, [match_loop] the 33 values of its counter, [add_pairs] of the
    bouncer one more than its 31489 pairs, [write_input] of the benchmark what
    [benchmark_sends] asks for. [get_options] and [parse_loop] get one round more than there
    are arguments, [extensions] one more than the bytes of the packet, [print_all] two more
    than the bytes of the page. [simulate_rounds] counts the 256 rounds of its loop.
    [dec_digits] and [hex_digits] get the 20 and 16 digits a 64-bit number can have; for
    [dec_digits] this is proved on the ranges of stoi and strtol ([stoi_to_string],
    [strtol_to_string]), for [hex_digits] by [to_hex_value]. The loops that wait for events
    ([tcp_turns], [copy_loop], [bounce_loop], [network_thread], [loop_while], [capture],
    [show_packets]) run as long as their environment lets them; their fuel counts the turns
    made, [None] means that the loop still runs, and the theorems hold in every state that
    any number of turns reaches.

    ** What is outside

    The C library's resolver ([Resolver], [ResolverSpec]), the kernel ([Kernel],
    [SocketKernel], [Environment], with what is relied on in [Sink], [Flags], [Owner],
    [Channels], [Ends], [Traffic], [Post] and [Wire]), the random device, the readings of the clock, the numbers
    that a lossy adapter draws and the result of shifting a 32-bit number by 32 are
    parameters. Debug output that computes nothing is
    left out, and so are joining threads and reference counting.

    libpcap ([Pcap]), inet_ntop and, for webget, the server ([WebServer]) are parameters too.

    Not modelled: the texts of some usage messages, and the interleaving of the instructions
    of two threads, which share no memory but what the models have as their environment. *)
From Stdlib Require Export ZArith Lia Strings.Byte.
From stdpp Require Export base tactics numbers option list gmap strings.

#[global] Open Scope Z_scope.

(** ** Machine integers

    Every integer of the source is a [Z] kept in the range of its C++ type.
    The four functions below are the conversions to the unsigned types; an
    arithmetic operation of the source is the operation on [Z] followed by the
    conversion to the type the expression has. *)
Definition u8 (x : Z) : Z := x mod 2 ^ 8.
Definition u16 (x : Z) : Z := x mod 2 ^ 16.
Definition u32 (x : Z) : Z := x mod 2 ^ 32.
Definition u64 (x : Z) : Z := x mod 2 ^ 64.

(** [static_cast<bool>] and the implicit conversions between [bool] and the
    integer types. *)
Definition Z_of_bool (b : bool) : Z := if b then 1 else 0.
Definition bool_of_Z (x : Z) : bool := negb (x =? 0).

Lemma u8_small x : 0 <= x < 2 ^ 8 -> u8 x = x.
Proof. apply Z.mod_small. Qed.
Lemma u16_small x : 0 <= x < 2 ^ 16 -> u16 x = x.
Proof. apply Z.mod_small. Qed.
Lemma u32_small x : 0 <= x < 2 ^ 32 -> u32 x = x.
Proof. apply Z.mod_small. Qed.
Lemma u64_small x : 0 <= x < 2 ^ 64 -> u64 x = x.
Proof. apply Z.mod_small. Qed.
Lemma u8_range x : 0 <= u8 x < 2 ^ 8.
Proof. by apply Z.mod_pos_bound. Qed.
Lemma u16_range x : 0 <= u16 x < 2 ^ 16.
Proof. by apply Z.mod_pos_bound. Qed.
Lemma u32_range x : 0 <= u32 x < 2 ^ 32.
Proof. by apply Z.mod_pos_bound. Qed.
Lemma u64_range x : 0 <= u64 x < 2 ^ 64.
Proof. by apply Z.mod_pos_bound. Qed.

(** [zmod]: linear arithmetic on goals that mention the conversions, by expanding
    each to its Euclidean equation. *)
Ltac zmod :=
  unfold u8, u16, u32, u64 in *; Z.to_euclidean_division_equations; lia.

Create HintDb sponge.
Create Rewrite HintDb width.
#[export] Hint Resolve u8_range u16_range u32_range u64_range : sponge.

(** [wsimpl] drops the conversions whose argument [lia] can bound, innermost first. *)
Ltac wstep :=
  match goal with
  | |- context [u64 ?x] => rewrite (u64_small x) by lia
  | |- context [u32 ?x] => rewrite (u32_small x) by lia
  | |- context [u16 ?x] => rewrite (u16_small x) by lia
  | |- context [u8 ?x] => rewrite (u8_small x) by lia
  end.
Ltac wsimpl := repeat wstep.
Ltac wsolve := wsimpl; try lia.

(** ** Bytes and strings

    A [char] of a [std::string] is a [byte]; a [std::string] is a list of them. *)
Abbreviation bytes := (list byte).

Definition byte_to_Z (b : byte) : Z := Z.of_N (Byte.to_N b).
Definition byte_of_Z (z : Z) : byte :=
  match Byte.of_N (Z.to_N (u8 z)) with Some b => b | None => x00 end.

#[export] Instance byte_eq_dec : EqDecision byte.
Proof. intros a b. apply Byte.byte_eq_dec. Defined.

Lemma byte_to_Z_range b : 0 <= byte_to_Z b < 256.
Proof. unfold byte_to_Z. pose proof (Byte.to_N_bounded b). lia. Qed.

Lemma byte_to_of_Z z : byte_to_Z (byte_of_Z z) = u8 z.
Proof.
  unfold byte_to_Z, byte_of_Z. pose proof (u8_range z).
  destruct (Byte.of_N _) as [b|] eqn:E.
  - apply Byte.to_of_N in E. rewrite E. lia.
  - apply Byte.of_N_None_iff in E. lia.
Qed.

Lemma byte_to_Z_inj a b : byte_to_Z a = byte_to_Z b -> a = b.
Proof.
  unfold byte_to_Z. intros H%N2Z.inj.
  pose proof (Byte.of_to_N a). pose proof (Byte.of_to_N b). congruence.
Qed.

Lemma byte_of_to_Z b : byte_of_Z (byte_to_Z b) = b.
Proof.
  apply byte_to_Z_inj. rewrite byte_to_of_Z. apply u8_small, byte_to_Z_range.
Qed.
#[export] Hint Resolve byte_to_Z_range : sponge.
#[export] Hint Rewrite byte_to_of_Z byte_of_to_Z : width.

(** [std::string::size()] *)
Definition zlen {A} (s : list A) : Z := Z.of_nat (length s).

Lemma zlen_nonneg {A} (s : list A) : 0 <= zlen s.
Proof. unfold zlen. lia. Qed.
Lemma zlen_nil {A} : zlen ([] : list A) = 0.
Proof. done. Qed.
Lemma zlen_cons {A} (x : A) s : zlen (x :: s) = 1 + zlen s.
Proof. unfold zlen. simpl. lia. Qed.
Lemma zlen_app {A} (s t : list A) : zlen (s ++ t) = zlen s + zlen t.
Proof. unfold zlen. rewrite length_app. lia. Qed.
Lemma zlen_take {A} n (s : list A) : zlen (take n s) = Z.min (Z.of_nat n) (zlen s).
Proof. unfold zlen. rewrite length_take. lia. Qed.
Lemma zlen_drop {A} n (s : list A) : zlen (drop n s) = Z.max 0 (zlen s - Z.of_nat n).
Proof. unfold zlen. rewrite length_drop. lia. Qed.
Lemma zlen_replicate {A} n (x : A) : zlen (replicate n x) = Z.of_nat n.
Proof. unfold zlen. by rewrite length_replicate. Qed.
Lemma zlen_insert {A} i (x : A) s : zlen (<[i:=x]> s) = zlen s.
Proof. unfold zlen. by rewrite length_insert. Qed.

Create Rewrite HintDb zlen.
#[export] Hint Rewrite @zlen_nil @zlen_cons @zlen_app @zlen_take @zlen_drop
  @zlen_replicate @zlen_insert : zlen.

(** [std::string::resize] *)
Definition resize (n : Z) (s : bytes) : bytes :=
  take (Z.to_nat n) s ++ replicate (Z.to_nat n - length s) x00.

Lemma zlen_resize n s : 0 <= n -> zlen (resize n s) = n.
Proof. intros Hn. unfold resize, zlen. rewrite length_app, length_take, length_replicate. lia. Qed.

Lemma resize_pad n s : zlen s <= n -> resize n s = s ++ replicate (Z.to_nat (n - zlen s)) x00.
Proof.
  intros H. unfold resize, zlen in *. rewrite take_ge by lia. do 2 f_equal. lia.
Qed.

(** A test with a one-bit mask. *)
Lemma bool_of_Z_land_pow2 x k : 0 <= k -> bool_of_Z (Z.land x (2 ^ k)) = Z.testbit x k.
Proof.
  intros Hk. unfold bool_of_Z. destruct (Z.testbit x k) eqn:E.
  - destruct (Z.eqb_spec (Z.land x (2 ^ k)) 0) as [H|]; [|done].
    assert (Z.testbit (Z.land x (2 ^ k)) k = true) as Ht
      by by rewrite Z.land_spec, E, Z.pow2_bits_true.
    by rewrite H, Z.bits_0 in Ht.
  - assert (Z.land x (2 ^ k) = 0) as ->; [|done]. apply Z.bits_inj'. intros i Hi.
    rewrite Z.land_spec, Z.bits_0, Z.pow2_bits_eqb by lia.
    destruct (Z.eqb_spec k i); [subst; by rewrite E|apply andb_false_r].
Qed.

(** ** Record update

    [s <| f := v |>] is the C++ assignment [s.f = v] on a copy of [s], and
    [s <| f ::= g |>] the compound assignment. A record type opts in with an
    instance of [Eta], its eta expansion. *)
Class Eta (R : Type) := eta : R -> R.
Class Setter {R T : Type} (proj : R -> T) := upd : (T -> T) -> R -> R.

Ltac derive_setter :=
  match goal with
  | |- @Setter ?R ?T ?proj =>
      let i := constr:(_ : Eta R) in
      let e := eval hnf in i in
      let p := eval pattern proj in e in
      match p with
      | ?F _ =>
          let r := constr:(fun (f : T -> T) (s : R) => F (fun s' => f (proj s')) s) in
          let r := eval cbv beta in r in exact r
      end
  end.
#[export] Hint Extern 0 (Setter _) => derive_setter : typeclass_instances.
Arguments upd {R T} proj {_} _ _ /.

Declare Scope record_scope.
Delimit Scope record_scope with rec.
Open Scope record_scope.
Notation "s <| f := v |>" := (upd f (fun _ => v) s)
  (at level 1, f at level 200, left associativity) : record_scope.
Notation "s <| f ::= g |>" := (upd f g s)
  (at level 1, f at level 200, left associativity) : record_scope.

(** ** Slices

    [slice s i j] is the substring of [s] from index [i] up to [j]. *)
Definition slice {A} (s : list A) (i j : Z) : list A :=
  take (Z.to_nat (j - i)) (drop (Z.to_nat i) s).

Lemma slice_empty {A} (s : list A) i : slice s i i = [].
Proof. unfold slice. by rewrite Z.sub_diag. Qed.

Lemma slice_all {A} (s : list A) : slice s 0 (zlen s) = s.
Proof. unfold slice, zlen. rewrite drop_0, take_ge; [done|lia]. Qed.

Lemma zlen_slice {A} (s : list A) i j :
  0 <= i <= j -> j <= zlen s -> zlen (slice s i j) = j - i.
Proof. intros. unfold slice. autorewrite with zlen. lia. Qed.

Lemma slice_app {A} (s : list A) i j k :
  0 <= i <= j -> j <= k -> slice s i j ++ slice s j k = slice s i k.
Proof.
  intros. unfold slice.
  replace (Z.to_nat j) with (Z.to_nat i + Z.to_nat (j - i))%nat by lia.
  rewrite <- drop_drop.
  replace (Z.to_nat (k - i)) with (Z.to_nat (j - i) + Z.to_nat (k - j))%nat by lia.
  apply take_take_drop.
Qed.

Lemma drop_slice {A} (s : list A) i j n :
  0 <= i -> 0 <= n -> drop (Z.to_nat n) (slice s i j) = slice s (i + n) j.
Proof.
  intros. unfold slice. rewrite skipn_firstn_comm, drop_drop. f_equal; [lia|f_equal; lia].
Qed.

Lemma take_slice {A} (s : list A) i j n :
  0 <= n <= j - i -> take (Z.to_nat n) (slice s i j) = slice s i (i + n).
Proof. intros. unfold slice. rewrite take_take. f_equal. lia. Qed.

(** A string literal's bytes. *)
Definition bytes_of_string (s : string) : bytes := String.list_byte_of_string s.

(** ** Exceptions and state

    A function of the source that can throw returns a [result]; a member
    function that also changes its object is in the monad [M], from the state
    before to the value returned and the state after. *)
Inductive exception :=
  | out_of_range (what : string)
  | runtime_error (what : string)
  | invalid_argument (what : string)
  | tagged_error (category : string) (attempt : bytes) (error_code : Z).

(** Behaviour the language leaves undefined, where a model has to go on to an outcome. *)
Definition undefined : exception := runtime_error "undefined behaviour".

Definition result (A : Type) : Type := exception + A.
Definition throw {A} (e : exception) : result A := inl e.
Definition ok {A} (a : A) : result A := inr a.
Definition bindR {A B} (m : result A) (k : A -> result B) : result B :=
  match m with inl e => inl e | inr a => k a end.

Definition M (St A : Type) : Type := St -> result (A * St).
Definition ret {St A} (a : A) : M St A := fun s => ok (a, s).
Definition bind {St A B} (m : M St A) (k : A -> M St B) : M St B := fun s =>
  bindR (m s) (fun '(a, s) => k a s).
Definition gets {St A} (f : St -> A) : M St A := fun s => ok (f s, s).
Definition modify {St} (f : St -> St) : M St unit := fun s => ok (tt, f s).
Definition lift {St A} (m : result A) : M St A := fun s => bindR m (fun a => ok (a, s)).

Declare Scope effect_scope.
Delimit Scope effect_scope with eff.
Open Scope effect_scope.
Notation "'let!' x := e 'in' k" := (bindR e (fun x => k))
  (at level 10, x pattern, e at level 200, k at level 200,
   format "'[v' 'let!'  x  :=  e  'in' '/' k ']'") : effect_scope.
Notation "'let*' x := e 'in' k" := (bind e (fun x => k))
  (at level 10, x pattern, e at level 200, k at level 200,
   format "'[v' 'let*'  x  :=  e  'in' '/' k ']'") : effect_scope.

(** A function that may also not end, or not within its fuel, gives [None] for that. *)
Definition bindO {A B} (m : option (result A)) (f : A -> option (result B)) : option (result B) :=
  match m with
  | Some (inr a) => f a
  | Some (inl e) => Some (throw e)
  | None => None
  end.
Notation "'let?' x := m 'in' f" := (bindO m (fun x => f))
  (at level 10, x pattern, m at level 200, f at level 200) : effect_scope.

Lemma bindR_ok {A B} (a : A) (k : A -> result B) : bindR (ok a) k = k a.
Proof. done. Qed.

Lemma bindR_inv {A B} (m : result A) (k : A -> result B) b :
  bindR m k = ok b -> exists a, m = ok a /\ k a = ok b.
Proof. destruct m as [e|a]; [done|]. by exists a. Qed.

Definition is_ok {A} (m : result A) : Prop := exists a, m = ok a.

(** [outcome E Q m]: [m] returns a value that satisfies [Q], or throws an exception that
    satisfies [E]. *)
Definition outcome {A} (E : exception -> Prop) (Q : A -> Prop) (m : result A) : Prop :=
  match m with inl e => E e | inr a => Q a end.

Lemma outcome_bind {A B} E (P : A -> Prop) (Q : B -> Prop) m k :
  outcome E P m -> (forall a, P a -> outcome E Q (k a)) -> outcome E Q (bindR m k).
Proof. destruct m; simpl; auto. Qed.
Lemma outcome_mono {A} (E E' : exception -> Prop) (P Q : A -> Prop) m :
  outcome E P m -> (forall e, E e -> E' e) -> (forall a, P a -> Q a) -> outcome E' Q m.
Proof. destruct m; simpl; auto. Qed.
Lemma outcome_and {A} (E E' : exception -> Prop) (P Q : A -> Prop) m :
  outcome E P m -> outcome E' Q m -> outcome (fun e => E e /\ E' e) (fun a => P a /\ Q a) m.
Proof. by destruct m. Qed.
Lemma outcome_ok {A} E (Q : A -> Prop) m a : outcome E Q m -> m = ok a -> Q a.
Proof. by intros H ->. Qed.
