(* ===== verification/Stream.v ===== *)
(** * [ByteStream] (libsponge/byte_stream.hh, byte_stream.cc)

    The flow-controlled in-memory byte stream: a ring buffer of [_capacity]
    bytes with a write index [_front], a read index [_rear], the number of
    buffered bytes and two running totals. [Module ByteStream] translates the
    class; [Module Pipe] is its specification, the sequence of all bytes ever
    written with the number already popped; [refines] relates the two and every
    operation is shown to simulate its specification. *)
From S2P Require Import Prelude.

Module ByteStream.

Record ByteStream := mkByteStream {
  buf : bytes;
  _capacity : Z;
  _front : Z;
  _rear : Z;
  _cur_size : Z;
  _read_count : Z;
  _write_count : Z;
  _input_ended : bool;
  _error : bool
}.
#[global] Instance eta_ByteStream : Eta ByteStream := fun s =>
  mkByteStream (buf s) (_capacity s) (_front s) (_rear s) (_cur_size s)
    (_read_count s) (_write_count s) (_input_ended s) (_error s).

(** [ByteStream::ByteStream]: [buf] is filled with blanks. *)
Definition make (capacity : Z) : ByteStream :=
  {| buf := replicate (Z.to_nat capacity) x20; _capacity := capacity;
     _front := 0; _rear := 0; _cur_size := 0; _read_count := 0;
     _write_count := 0; _input_ended := false; _error := false |}.

Definition remaining_capacity (s : ByteStream) : Z := u64 (_capacity s - _cur_size s).
Definition buffer_size (s : ByteStream) : Z := _cur_size s.
Definition buffer_empty (s : ByteStream) : bool := _cur_size s =? 0.
Definition input_ended (s : ByteStream) : bool := _input_ended s.
Definition error (s : ByteStream) : bool := _error s.
Definition eof (s : ByteStream) : bool := _input_ended s && buffer_empty s.
Definition bytes_written (s : ByteStream) : Z := _write_count s.
Definition bytes_read (s : ByteStream) : Z := _read_count s.
Definition end_input (s : ByteStream) : ByteStream := s <| _input_ended := true |>.
Definition set_error (s : ByteStream) : ByteStream := s <| _error := true |>.

(** [i + 1 == _capacity ? 0 : i + 1] *)
Definition next_index (capacity i : Z) : Z :=
  if u64 (i + 1) =? capacity then 0 else u64 (i + 1).

(** The loop of [write], over the [write_length] bytes it copies. *)
Fixpoint write_loop (chunk : bytes) (s : ByteStream) : ByteStream :=
  match chunk with
  | [] => s
  | b :: chunk' =>
      write_loop chunk'
        (s <| buf := <[Z.to_nat (_front s) := b]> (buf s) |>
           <| _front := next_index (_capacity s) (_front s) |>)
  end.

Definition write (data : bytes) (s : ByteStream) : ByteStream * Z :=
  if _input_ended s then (s, 0)
  else
    let remain_capacity := remaining_capacity s in
    let write_length := Z.min remain_capacity (zlen data) in
    let s := write_loop (take (Z.to_nat write_length) data) s in
    (s <| _cur_size ::= fun n => u64 (n + write_length) |>
       <| _write_count ::= fun n => u64 (n + write_length) |>, write_length).

(** The loop of [peek_output]; [ret[i] = buf[start]] reads inside [buf]. *)
Fixpoint peek_loop (n : nat) (s : ByteStream) (start : Z) : bytes :=
  match n with
  | O => []
  | S n => default x20 (buf s !! Z.to_nat start) ::
             peek_loop n s (next_index (_capacity s) start)
  end.

Definition peek_output (len : Z) (s : ByteStream) : bytes :=
  let peek_length := Z.min (_cur_size s) len in
  peek_loop (Z.to_nat peek_length) s (_rear s).

(** The division is undefined in the source when [_capacity] is zero; the
    theorems below are about streams of positive capacity. *)
Definition pop_output (len : Z) (s : ByteStream) : ByteStream :=
  let pop_length := Z.min (_cur_size s) len in
  s <| _rear := u64 (_rear s + pop_length) mod _capacity s |>
    <| _cur_size ::= fun n => u64 (n - pop_length) |>
    <| _read_count ::= fun n => u64 (n + pop_length) |>.

Definition read (len : Z) (s : ByteStream) : ByteStream * bytes :=
  let ret := peek_output len s in
  (pop_output len s, ret).

End ByteStream.

(** ** Specification *)
Module Pipe.

(** [written] is everything the writer put in, [popped] how many of these the
    reader took out. *)
Record Pipe := mkPipe {
  capacity : Z;
  written : bytes;
  popped : Z;
  ended : bool;
  failed : bool
}.
#[global] Instance eta_Pipe : Eta Pipe := fun p =>
  mkPipe (capacity p) (written p) (popped p) (ended p) (failed p).

Definition make (c : Z) : Pipe := mkPipe c [] 0 false false.
Definition pending (p : Pipe) : bytes := drop (Z.to_nat (popped p)) (written p).
Definition room (p : Pipe) : Z := capacity p - zlen (pending p).
Definition accepted (data : bytes) (p : Pipe) : bytes :=
  if ended p then [] else take (Z.to_nat (room p)) data.
Definition write (data : bytes) (p : Pipe) : Pipe * Z :=
  (p <| written ::= fun w => w ++ accepted data p |>, zlen (accepted data p)).
Definition peek (n : Z) (p : Pipe) : bytes := take (Z.to_nat n) (pending p).
Definition pop (n : Z) (p : Pipe) : Pipe :=
  p <| popped ::= fun k => k + zlen (peek n p) |>.
Definition read (n : Z) (p : Pipe) : Pipe * bytes := (pop n p, peek n p).
Definition end_input (p : Pipe) : Pipe := p <| ended := true |>.
Definition set_error (p : Pipe) : Pipe := p <| failed := true |>.

(** A [std::string] holds fewer than 2^63 bytes. *)
Record wf (p : Pipe) : Prop := mk_wf {
  wf_capacity : 0 < capacity p < 2 ^ 63;
  wf_popped : 0 <= popped p <= zlen (written p);
  wf_room : zlen (written p) - popped p <= capacity p
}.

Lemma zlen_pending p : wf p -> zlen (pending p) = zlen (written p) - popped p.
Proof. intros []. unfold pending. autorewrite with zlen. lia. Qed.

Lemma room_range p : wf p -> 0 <= room p <= capacity p.
Proof.
  intros H. pose proof (zlen_pending p H). destruct H. unfold room. lia.
Qed.

Lemma zlen_accepted data p :
  wf p -> zlen (accepted data p) = if ended p then 0 else Z.min (room p) (zlen data).
Proof.
  intros H. pose proof (room_range p H). unfold accepted.
  destruct (ended p); autorewrite with zlen; lia.
Qed.

End Pipe.

(** ** Refinement *)
Module StreamRefinement.
Import ByteStream.

(** The ring buffer [b] of size [cap] holds [cs] from index [rear] on. *)
Definition ring (b : bytes) (cap rear : Z) (cs : bytes) : Prop :=
  forall i : nat, (i < length cs)%nat ->
    b !! Z.to_nat ((rear + Z.of_nat i) mod cap) = cs !! i.

Record refines (s : ByteStream) (p : Pipe.Pipe) : Prop := mk_refines {
  ref_wf : Pipe.wf p;
  ref_capacity : _capacity s = Pipe.capacity p;
  ref_buf : zlen (buf s) = Pipe.capacity p;
  ref_rear : 0 <= _rear s < Pipe.capacity p;
  ref_size : _cur_size s = zlen (Pipe.pending p);
  ref_front : _front s = (_rear s + zlen (Pipe.pending p)) mod Pipe.capacity p;
  ref_ring : ring (buf s) (Pipe.capacity p) (_rear s) (Pipe.pending p);
  ref_read : _read_count s = u64 (Pipe.popped p);
  ref_written : _write_count s = u64 (zlen (Pipe.written p));
  ref_ended : _input_ended s = Pipe.ended p;
  ref_failed : _error s = Pipe.failed p
}.

Lemma next_index_spec cap i :
  0 <= i < cap -> cap < 2 ^ 63 -> next_index cap i = (i + 1) mod cap.
Proof.
  intros Hi Hc. unfold next_index. wsimpl. case_match; symmetry.
  - replace (i + 1) with cap by lia. apply Z_mod_same_full.
  - apply Z.mod_small. lia.
Qed.

Lemma next_index_step cap r k :
  0 < cap < 2 ^ 63 -> next_index cap ((r + k) mod cap) = (r + (k + 1)) mod cap.
Proof.
  intros Hc. rewrite next_index_spec by (try apply Z.mod_pos_bound; lia).
  rewrite Zplus_mod_idemp_l. f_equal; lia.
Qed.

Lemma ring_index_inj cap r i j :
  0 <= i < cap -> 0 <= j < cap -> (r + i) mod cap = (r + j) mod cap -> i = j.
Proof.
  intros Hi Hj E.
  assert ((i - j) mod cap = 0) as D.
  { replace (i - j) with ((r + i) - (r + j)) by lia.
    rewrite Zminus_mod, E, Z.sub_diag. apply Zmod_0_l. }
  apply Z.mod_divide in D; [|lia]. destruct D as [q Hq].
  assert (q = 0) by nia. nia.
Qed.

(** Storing one byte just behind the contents extends them. *)
Lemma ring_snoc b cap rear cs x :
  0 < cap -> 0 <= rear -> zlen b = cap -> zlen cs < cap -> ring b cap rear cs ->
  ring (<[Z.to_nat ((rear + zlen cs) mod cap) := x]> b) cap rear (cs ++ [x]).
Proof.
  intros Hc Hr Hb Hl H i Hi. rewrite length_app in Hi; simpl in Hi.
  pose proof (Z.mod_pos_bound (rear + zlen cs) cap Hc).
  pose proof (Z.mod_pos_bound (rear + Z.of_nat i) cap Hc).
  destruct (decide (i = length cs)) as [->|Hne].
  - rewrite list_lookup_middle by done.
    apply list_lookup_insert_eq. unfold zlen in *. lia.
  - rewrite lookup_app_l by lia. rewrite list_lookup_insert_ne; [apply H; lia|].
    intros E%Z2Nat.inj; [|lia..].
    apply ring_index_inj in E; unfold zlen in *; lia.
Qed.

Lemma write_loop_spec chunk s cap cs :
  0 < cap < 2 ^ 63 -> _capacity s = cap -> zlen (buf s) = cap -> 0 <= _rear s ->
  _front s = (_rear s + zlen cs) mod cap -> ring (buf s) cap (_rear s) cs ->
  zlen cs + zlen chunk <= cap ->
  exists b, write_loop chunk s =
      s <| buf := b |> <| _front := (_rear s + zlen (cs ++ chunk)) mod cap |> /\
    zlen b = cap /\ ring b cap (_rear s) (cs ++ chunk).
Proof.
  revert s cs. induction chunk as [|x chunk IH]; intros s cs Hc Ecap Eb Hr Ef Hring Hl.
  - rewrite app_nil_r. exists (buf s). split_and!; try done.
    destruct s; simpl in *. by rewrite <- Ef.
  - rewrite zlen_cons in Hl. pose proof (zlen_nonneg chunk).
    destruct (IH (s <| buf := <[Z.to_nat (_front s) := x]> (buf s) |>
                    <| _front := next_index (_capacity s) (_front s) |>) (cs ++ [x]))
      as (b & E & Hb & HR); simpl; autorewrite with zlen; try done; try lia.
    + rewrite Ecap, Ef, next_index_step by lia. f_equal; lia.
    + rewrite Ef. apply ring_snoc; try done; lia.
    + exists b. simpl in *. rewrite E, (cons_middle x cs chunk), app_assoc.
      split_and!; try done. do 2 f_equal. autorewrite with zlen. lia.
Qed.

Lemma peek_loop_spec n s cap cs k :
  0 < cap < 2 ^ 63 -> _capacity s = cap -> ring (buf s) cap (_rear s) cs ->
  (k + n <= length cs)%nat ->
  peek_loop n s ((_rear s + Z.of_nat k) mod cap) = take n (drop k cs).
Proof.
  revert k. induction n as [|n IH]; intros k Hc Ecap Hring Hk; [done|]. simpl.
  destruct (lookup_lt_is_Some_2 cs k) as [x Hx]; [lia|].
  rewrite (drop_S _ x) by done. simpl. f_equal.
  - rewrite Hring by lia. by rewrite Hx.
  - rewrite Ecap, next_index_step by lia.
    replace (Z.of_nat k + 1) with (Z.of_nat (S k)) by lia. apply IH; try done; lia.
Qed.

(** *** Simulation of the operations *)
Section Operations.
Context (s : ByteStream) (p : Pipe.Pipe) (R : refines s p).

Lemma buffer_size_ok : buffer_size s = zlen (Pipe.pending p).
Proof. by destruct R. Qed.

Lemma capacity_nonneg b : 0 <= ByteStream.remaining_capacity b.
Proof. unfold ByteStream.remaining_capacity. apply u64_range. Qed.

Lemma remaining_capacity_ok : remaining_capacity s = Pipe.room p.
Proof.
  destruct R as [W ? ? ? E]. pose proof (Pipe.room_range p W). destruct W.
  unfold remaining_capacity, Pipe.room in *. wsolve.
Qed.

Lemma eof_ok : eof s = Pipe.ended p && (zlen (Pipe.pending p) =? 0).
Proof. destruct R. unfold eof, buffer_empty. congruence. Qed.

Lemma take_accepted data :
  _input_ended s = false ->
  take (Z.to_nat (Z.min (remaining_capacity s) (zlen data))) data = Pipe.accepted data p.
Proof.
  intros E. rewrite remaining_capacity_ok. destruct R as [W]. unfold Pipe.accepted.
  pose proof (Pipe.room_range p W). replace (Pipe.ended p) with false by congruence.
  unfold zlen. destruct (Z.min_spec (Pipe.room p) (Z.of_nat (length data))) as [[? ->]|[? ->]]; [done|].
  rewrite Nat2Z.id. rewrite !take_ge by lia. done.
Qed.

Lemma pending_write data :
  Pipe.pending (Pipe.write data p).1 = Pipe.pending p ++ Pipe.accepted data p.
Proof.
  destruct R as [[? ? ?]]. unfold Pipe.pending; simpl.
  rewrite drop_app_le; [done|]. unfold zlen in *. lia.
Qed.

Lemma pipe_write_wf data : Pipe.wf (Pipe.write data p).1.
Proof.
  destruct R as [W]. pose proof (Pipe.zlen_accepted data p W) as E.
  pose proof (Pipe.room_range p W). pose proof (Pipe.zlen_pending p W).
  pose proof (zlen_nonneg data).
  destruct W. split; simpl; rewrite ?zlen_app; [lia|..];
    unfold Pipe.room in *; destruct (Pipe.ended p); lia.
Qed.

Lemma write_ok data :
  refines (write data s).1 (Pipe.write data p).1 /\
  (write data s).2 = (Pipe.write data p).2.
Proof.
  pose proof (pipe_write_wf data) as W'. pose proof (pending_write data) as EP.
  unfold write. destruct (_input_ended s) eqn:Ended.
  - simpl. assert (Pipe.accepted data p = []) as E.
    { unfold Pipe.accepted. destruct R. by replace (Pipe.ended p) with true by congruence. }
    rewrite E. split; [|done]. destruct p; simpl in *. by rewrite app_nil_r in *.
  - rewrite take_accepted by done. pose proof take_accepted data Ended as T.
    pose proof remaining_capacity_ok as ER. pose proof (zlen_nonneg data).
    destruct R as [W]. pose proof (Pipe.room_range p W). pose proof W as [].
    pose proof (Pipe.zlen_accepted data p W) as EA.
    replace (Pipe.ended p) with false in EA by congruence.
    destruct (write_loop_spec (Pipe.accepted data p) s (Pipe.capacity p) (Pipe.pending p))
      as (b & E & Hb & HR); try done; try lia.
    { rewrite EA. unfold Pipe.room. lia. }
    simpl in E, EP, W' |- *. rewrite E, ER, <- EA. simpl.
    split; [split|]; rewrite ?EP; simpl; try done.
    + rewrite zlen_app. rewrite ref_size0. unfold Pipe.room in *. wsolve.
    + rewrite ref_written0, zlen_app. zmod.
Qed.

Lemma peek_output_ok len : 0 <= len -> peek_output len s = Pipe.peek len p.
Proof.
  intros Hl. destruct R as [[Hc ? ?] Ec ? ? Es ? Hr]. unfold peek_output, Pipe.peek.
  pose proof (peek_loop_spec (Z.to_nat (Z.min (_cur_size s) len)) s _ _ 0 Hc Ec Hr) as E.
  rewrite Z.add_0_r, Z.mod_small, drop_0 in E by lia. rewrite E by (unfold zlen in *; lia).
  rewrite Es. unfold zlen.
  destruct (Z.min_spec (Z.of_nat (length (Pipe.pending p))) len) as [[? ->]|[? ->]]; [|done].
  rewrite Nat2Z.id, !take_ge by lia. done.
Qed.

Lemma pending_pop len : 0 <= len ->
  Pipe.pending (Pipe.pop len p) = drop (Z.to_nat len) (Pipe.pending p).
Proof.
  intros Hl. destruct R as [[? Hp ?]]. unfold Pipe.pop, Pipe.peek, Pipe.pending; simpl.
  rewrite Z2Nat.inj_add, <- drop_drop by (try apply zlen_nonneg; lia).
  set (q := drop _ (Pipe.written p)). unfold zlen. rewrite Nat2Z.id, length_take.
  destruct (Nat.min_spec (Z.to_nat len) (length q)) as [[? ->]|[? ->]]; [done|].
  rewrite !drop_ge by lia. done.
Qed.

Lemma zlen_peek len : 0 <= len ->
  zlen (Pipe.peek len p) = Z.min (zlen (Pipe.pending p)) len.
Proof. intros. unfold Pipe.peek. autorewrite with zlen. lia. Qed.

Lemma ring_drop b cap rear cs k :
  0 < cap -> (k <= length cs)%nat -> ring b cap rear cs ->
  ring b cap ((rear + Z.of_nat k) mod cap) (drop k cs).
Proof.
  intros Hc Hk H i Hi. rewrite length_drop in Hi.
  rewrite lookup_drop, Zplus_mod_idemp_l, <- Z.add_assoc, <- Nat2Z.inj_add.
  apply H. lia.
Qed.

Lemma pop_output_ok len : 0 <= len -> refines (pop_output len s) (Pipe.pop len p).
Proof.
  intros Hl. pose proof (pending_pop len Hl) as EP. pose proof (zlen_peek len Hl) as EL.
  pose proof (zlen_nonneg (Pipe.pending p)).
  destruct R as [W Ec Eb Hrear Es Ef Hr Erd ? ? ?].
  pose proof (Pipe.zlen_pending p W). pose proof W as [? ? ?].
  assert (Z.min (_cur_size s) len = zlen (Pipe.peek len p)) as Em by lia.
  split; rewrite ?EP; unfold pop_output; rewrite ?Em; simpl; try done.
  - split; simpl; lia.
  - rewrite Ec. apply Z.mod_pos_bound. lia.
  - autorewrite with zlen. wsolve.
  - rewrite Ef, Ec, Zplus_mod_idemp_l. f_equal. autorewrite with zlen. wsolve.
  - rewrite Ec, EL. wsimpl.
    rewrite <- (Z2Nat.id (Z.min _ _)) by lia.
    destruct (Z.min_spec (zlen (Pipe.pending p)) len) as [[? ->]|[? ->]].
    + unfold zlen in *. rewrite !drop_ge by lia. intros i Hi. simpl in Hi. lia.
    + apply ring_drop; [lia| |done]. unfold zlen in *. lia.
  - rewrite Erd. zmod.
Qed.

Lemma read_ok len : 0 <= len ->
  refines (read len s).1 (Pipe.read len p).1 /\ (read len s).2 = (Pipe.read len p).2.
Proof. intros. split; [by apply pop_output_ok|by apply peek_output_ok]. Qed.

Lemma end_input_ok : refines (end_input s) (Pipe.end_input p).
Proof. destruct R as [[]]. by split. Qed.

Lemma set_error_ok : refines (set_error s) (Pipe.set_error p).
Proof. destruct R as [[]]. by split. Qed.

End Operations.

Lemma make_ok c : 0 < c < 2 ^ 63 -> refines (make c) (Pipe.make c).
Proof.
  intros Hc. split; simpl; try done; unfold Pipe.pending; simpl; autorewrite with zlen; try lia.
  - split; simpl; autorewrite with zlen; lia.
  - intros i Hi. simpl in Hi. lia.
Qed.

End StreamRefinement.

(** ** Sequences of operations *)
Module StreamTrace.
Import ByteStream StreamRefinement.

Inductive op :=
| Write (data : bytes)
| Read (len : Z)
| Peek (len : Z)
| Pop (len : Z)
| EndInput
| SetError.

(** A length argument is a [size_t]. *)
Definition op_ok (o : op) : Prop :=
  match o with Read len | Peek len | Pop len => 0 <= len | _ => True end.

(** What an operation returns: the count of [write], the bytes of [read] and
    [peek_output]. *)
Definition step (o : op) (s : ByteStream) : ByteStream * (Z * bytes) :=
  match o with
  | Write data => let '(s, n) := write data s in (s, (n, []))
  | Read len => let '(s, out) := read len s in (s, (0, out))
  | Peek len => (s, (0, peek_output len s))
  | Pop len => (pop_output len s, (0, []))
  | EndInput => (end_input s, (0, []))
  | SetError => (set_error s, (0, []))
  end.

Definition pipe_step (o : op) (p : Pipe.Pipe) : Pipe.Pipe * (Z * bytes) :=
  match o with
  | Write data => let '(p, n) := Pipe.write data p in (p, (n, []))
  | Read len => let '(p, out) := Pipe.read len p in (p, (0, out))
  | Peek len => (p, (0, Pipe.peek len p))
  | Pop len => (Pipe.pop len p, (0, []))
  | EndInput => (Pipe.end_input p, (0, []))
  | SetError => (Pipe.set_error p, (0, []))
  end.

(** What the accessors tell about a stream, all eight of them. *)
Record view := mkView {
  size : Z;
  empty : bool;
  remaining : Z;
  total_written : Z;
  total_read : Z;
  ended : bool;
  at_end : bool;
  failed : bool
}.
Definition observe (s : ByteStream) : view :=
  mkView (buffer_size s) (buffer_empty s) (remaining_capacity s) (bytes_written s) (bytes_read s)
    (input_ended s) (eof s) (error s).
(** The totals are [size_t]s and wrap. *)
Definition pipe_observe (p : Pipe.Pipe) : view :=
  mkView (zlen (Pipe.pending p)) (bool_decide (Pipe.pending p = [])) (Pipe.room p)
    (u64 (zlen (Pipe.written p))) (u64 (Pipe.popped p))
    (Pipe.ended p) (Pipe.ended p && bool_decide (Pipe.pending p = [])) (Pipe.failed p).

Section Run.
Context {S O : Type} (step : op -> S -> S * (Z * bytes)) (observe : S -> O).
Fixpoint run (ops : list op) (s : S) : S * list (Z * bytes * O) :=
  match ops with
  | [] => (s, [])
  | o :: ops =>
      let '(s, r) := step o s in
      let '(s', rs) := run ops s in (s', (r, observe s) :: rs)
  end.
End Run.

Lemma step_ok o s p :
  op_ok o -> refines s p ->
  refines (step o s).1 (pipe_step o p).1 /\ (step o s).2 = (pipe_step o p).2.
Proof.
  intros Ho R. destruct o as [data|len|len|len| |]; simpl in *.
  - destruct (write_ok s p R data) as [R' E]. destruct (write data s). simpl in *. by rewrite E.
  - destruct (read_ok s p R len Ho). by split; [|f_equal].
  - split; [done|]. f_equal. by apply peek_output_ok.
  - split; [|done]. by apply pop_output_ok.
  - split; [|done]. by apply end_input_ok.
  - split; [|done]. by apply set_error_ok.
Qed.

Lemma observe_ok s p : refines s p -> observe s = pipe_observe p.
Proof.
  intros R. unfold observe, pipe_observe.
  assert (bool_decide (Pipe.pending p = []) = (zlen (Pipe.pending p) =? 0)) as ->.
  { destruct (Pipe.pending p) as [|x l]; [done|]. rewrite zlen_cons. pose proof (zlen_nonneg l).
    by rewrite (proj2 (Z.eqb_neq _ _)) by lia. }
  rewrite (remaining_capacity_ok _ _ R), (eof_ok _ _ R). unfold buffer_empty.
  rewrite <- (buffer_size_ok _ _ R). destruct R.
  unfold input_ended, error, bytes_written, bytes_read. by rewrite ref_ended0, ref_failed0, ref_written0, ref_read0.
Qed.

Lemma run_ok ops s p :
  Forall op_ok ops -> refines s p ->
  refines (run step observe ops s).1 (run pipe_step pipe_observe ops p).1 /\
  (run step observe ops s).2 = (run pipe_step pipe_observe ops p).2.
Proof.
  intros Hops. revert s p. induction Hops as [|o ops Ho _ IH]; intros s p R; [done|].
  simpl. destruct (step_ok o s p Ho R) as [R' E].
  destruct (step o s) as [s1 r1], (pipe_step o p) as [p1 r1']. simpl in *. subst r1'.
  destruct (IH _ _ R') as [R'' E'].
  destruct (run step observe ops s1), (run pipe_step pipe_observe ops p1). simpl in *.
  split; [done|]. by rewrite E', (observe_ok _ _ R').
Qed.

(** The bytes a call accepts and the bytes it removes. *)
Definition accepts (o : op) (s : ByteStream) : bytes :=
  match o with Write data => take (Z.to_nat (write data s).2) data | _ => [] end.
Definition removes (o : op) (s : ByteStream) : bytes :=
  match o with Read len | Pop len => peek_output len s | _ => [] end.

Fixpoint flow (ops : list op) (s : ByteStream) : bytes * bytes * ByteStream :=
  match ops with
  | [] => ([], [], s)
  | o :: ops =>
      let '(i, r, s') := flow ops (step o s).1 in (accepts o s ++ i, removes o s ++ r, s')
  end.

(** One call keeps [accepted = removed ++ pending]. *)
Lemma flow_step o s p :
  op_ok o -> refines s p ->
  Pipe.pending p ++ accepts o s = removes o s ++ Pipe.pending (pipe_step o p).1.
Proof.
  intros Ho R. destruct o as [data|len|len|len| |]; simpl in *; rewrite ?app_nil_r; try done.
  - pose proof (pending_write s p R data) as EP. simpl in EP. rewrite EP. f_equal. destruct (write_ok s p R data) as [_ ->].
    simpl. unfold Pipe.accepted. destruct (Pipe.ended p); [done|].
    unfold zlen. rewrite Nat2Z.id, length_take.
    destruct (Nat.min_spec (Z.to_nat (Pipe.room p)) (length data)) as [[? ->]|[? ->]]; [done|].
    by rewrite !take_ge by lia.
  - rewrite (peek_output_ok s p R), (pending_pop s p R) by done. unfold Pipe.peek. by rewrite take_drop.
  - rewrite (peek_output_ok s p R), (pending_pop s p R) by done. unfold Pipe.peek. by rewrite take_drop.
Qed.

Lemma flow_ok ops s p i r s' :
  Forall op_ok ops -> refines s p -> flow ops s = (i, r, s') ->
  exists p', refines s' p' /\ Pipe.pending p ++ i = r ++ Pipe.pending p'.
Proof.
  intros Hops. revert s p i r s'. induction Hops as [|o ops Ho _ IH]; intros s p i r s' R E.
  - simplify_eq/=. exists p. by rewrite app_nil_r.
  - simpl in E. destruct (flow ops (step o s).1) as [[i1 r1] s1] eqn:E1.
    simplify_eq/=. destruct (step_ok o s p Ho R) as [R1 _].
    destruct (IH _ _ _ _ _ R1 E1) as (p' & R' & EP). exists p'. split; [done|].
    by rewrite app_assoc, (flow_step o s p Ho R), <- !app_assoc, EP.
Qed.

Lemma write_loop_capacity chunk s : _capacity (write_loop chunk s) = _capacity s.
Proof. revert s. induction chunk as [|x chunk IH]; intros s; [done|]. simpl. by rewrite IH. Qed.

Lemma flow_capacity ops s x s' : flow ops s = (x, s') -> _capacity s' = _capacity s.
Proof.
  revert s x s'. induction ops as [|o ops IH]; intros s x s' E; simplify_eq/=; [done|].
  destruct (flow ops (step o s).1) as [[i1 r1] s1] eqn:E1. simplify_eq/=.
  rewrite (IH _ _ _ E1). destruct o; try done. simpl. unfold write.
  destruct (_input_ended s); [done|]. apply write_loop_capacity.
Qed.

(** C7. A [ByteStream] of any capacity behaves, over every sequence of calls,
    as the pipe of its specification: each call returns the same count or the
    same bytes, and after each call all eight accessors agree, the totals of bytes written
    and read among them. *)
Theorem byte_stream_refines_pipe capacity ops :
  0 < capacity < 2 ^ 63 -> Forall op_ok ops ->
  (run step observe ops (make capacity)).2 =
  (run pipe_step pipe_observe ops (Pipe.make capacity)).2.
Proof. intros Hc Hops. by apply run_ok; [|apply make_ok]. Qed.

Lemma byte_stream_refines_pipe_witness :
  (run step observe [Write [x61; x62; x63]; Read 2; Write [x64; x65]; EndInput; Read 9] (make 3)).2 =
  [(3, [], mkView 3 false 0 3 0 false false false); (0, [x61; x62], mkView 1 false 2 3 2 false false false);
   (2, [], mkView 3 false 0 5 2 false false false); (0, [], mkView 3 false 0 5 2 true false false);
   (0, [x63; x64; x65], mkView 0 true 3 5 5 true true false)].
Proof.
  rewrite (byte_stream_refines_pipe 3) by (repeat constructor; simpl; lia).
  vm_compute. reflexivity.
Defined.

(** No byte is lost, duplicated or reordered: over every sequence of calls
    the bytes the writer got accepted are the bytes the reader took out followed
    by those that [peek_output] still shows, of which there are [buffer_size],
    never more than the capacity. *)
Theorem byte_stream_fifo capacity ops i r s :
  0 < capacity < 2 ^ 63 -> Forall op_ok ops -> flow ops (make capacity) = (i, r, s) ->
  i = r ++ peek_output (buffer_size s) s /\
  zlen (peek_output (buffer_size s) s) = buffer_size s /\ buffer_size s <= capacity.
Proof.
  intros Hc Hops E.
  destruct (flow_ok ops _ _ i r s Hops (make_ok capacity Hc) E) as (p' & R & EP).
  assert (Pipe.capacity p' = capacity) as Ecap.
  { rewrite <- (ref_capacity _ _ R). by apply (flow_capacity _ _ _ _ E). }
  pose proof (zlen_nonneg (Pipe.pending p')).
  pose proof (Pipe.zlen_pending p' (ref_wf _ _ R)). destruct (ref_wf _ _ R).
  rewrite (buffer_size_ok _ _ R), (peek_output_ok _ _ R) by done.
  unfold Pipe.peek, zlen. rewrite Nat2Z.id, take_ge by done.
  split_and!; [done..|]. unfold zlen in *. lia.
Qed.

Lemma byte_stream_fifo_witness :
  flow [Write [x61; x62; x63; x64]; Read 2; Write [x65]; Pop 1] (make 3) =
    ([x61; x62; x63; x65], [x61; x62; x63], (flow [Write [x61; x62; x63; x64]; Read 2; Write [x65]; Pop 1] (make 3)).2) /\
  [x61; x62; x63; x65] = [x61; x62; x63] ++ [x65].
Proof.
  split; [vm_compute; reflexivity|].
  apply (byte_stream_fifo 3 [Write [x61; x62; x63; x64]; Read 2; Write [x65]; Pop 1] _ _
    (flow [Write [x61; x62; x63; x64]; Read 2; Write [x65]; Pop 1] (make 3)).2);
    [lia|repeat constructor; simpl; lia|vm_compute; reflexivity].
Defined.

End StreamTrace.
