(* ===== verification/Wrapping.v ===== *)
(** * [WrappingInt32] (libsponge/wrapping_integers.hh, wrapping_integers.cc)

    32-bit sequence numbers relative to an initial sequence number, and the
    conversions [wrap] and [unwrap] between them and 64-bit absolute sequence
    numbers. *)
From S2P Require Import Prelude.

(** [std::min_element] on a non-empty range: the first of the smallest. *)
Fixpoint min_element {A} (lt : A -> A -> bool) (best : A) (l : list A) : A :=
  match l with
  | [] => best
  | x :: l => min_element lt (if lt x best then x else best) l
  end.

Record WrappingInt32 := mkWrappingInt32 { raw_value : Z }.

#[export] Instance WrappingInt32_eq_dec : EqDecision WrappingInt32.
Proof. solve_decision. Defined.

(** The raw value is a [uint32_t]. *)
Definition wrapping_ok (a : WrappingInt32) : Prop := 0 <= raw_value a < 2 ^ 32.

Module Wrapping.

Definition wrap (n : Z) (isn : WrappingInt32) : WrappingInt32 :=
  let diff := u64 (n + raw_value isn) in
  let mask := u64 (u64 (Z.shiftl 1 32) - 1) in
  mkWrappingInt32 (u32 (Z.land diff mask)).

Definition distance (checkpoint a : Z) : Z :=
  if a <? checkpoint then u64 (checkpoint - a) else u64 (a - checkpoint).

Definition unwrap (n isn : WrappingInt32) (checkpoint : Z) : Z :=
  let diff := u32 (raw_value n - raw_value isn) in
  let mask := u64 (Z.shiftl (u64 (u64 (Z.shiftl 1 32) - 1)) 32) in
  min_element (fun a b => distance checkpoint a <? distance checkpoint b)
    (Z.lor (Z.land checkpoint mask) diff)
    [Z.lor (Z.land (u64 (checkpoint + u64 (Z.shiftl 1 32))) mask) diff;
     Z.lor (Z.land (u64 (checkpoint - u64 (Z.shiftl 1 32))) mask) diff].

(** [operator-(WrappingInt32, WrappingInt32)]: the 32-bit difference read as an
    [int32_t]. *)
Definition sub (a b : WrappingInt32) : Z :=
  let d := u32 (raw_value a - raw_value b) in
  if d <? 2 ^ 31 then d else d - 2 ^ 32.
Definition eqb (a b : WrappingInt32) : bool := raw_value a =? raw_value b.
Definition neqb (a b : WrappingInt32) : bool := negb (eqb a b).
(** [operator+(WrappingInt32, uint32_t)] *)
Definition plus (a : WrappingInt32) (b : Z) : WrappingInt32 :=
  mkWrappingInt32 (u32 (raw_value a + b)).
(** [operator-(WrappingInt32, uint32_t)] *)
Definition minus (a : WrappingInt32) (b : Z) : WrappingInt32 := plus a (u32 (- b)).

End Wrapping.
Import Wrapping.

(** ** Closed forms *)

Lemma wrap_eq n isn : wrap n isn = mkWrappingInt32 (u32 (n + raw_value isn)).
Proof.
  unfold wrap. f_equal. change (u64 _) with (Z.ones 32) at 2.
  rewrite Z.land_ones by lia. zmod.
Qed.

Lemma wrap_ok n isn : wrapping_ok (wrap n isn).
Proof. rewrite wrap_eq. apply u32_range. Qed.

(** The high half of [c] with the low half replaced by [d]. *)
Lemma epoch_lor c d :
  0 <= d < 2 ^ 32 ->
  Z.lor (Z.land (u64 c) (u64 (Z.shiftl (u64 (u64 (Z.shiftl 1 32) - 1)) 32))) d =
  u64 c / 2 ^ 32 * 2 ^ 32 + d.
Proof.
  intros Hd. change (u64 (Z.shiftl _ 32)) with (Z.shiftl (Z.ones 32) 32).
  pose proof (u64_range c). set (x := u64 c) in *.
  assert (Z.land x (Z.shiftl (Z.ones 32) 32) = x / 2 ^ 32 * 2 ^ 32) as ->.
  { rewrite <- Z.shiftr_div_pow2, <- Z.shiftl_mul_pow2 by lia.
    replace (Z.shiftr x 32) with (Z.land (Z.shiftr x 32) (Z.ones 32)).
    - rewrite Z.shiftl_land. apply Z.bits_inj'. intros i Hi.
      rewrite !Z.land_spec. destruct (decide (i < 32)).
      + by rewrite !(Z.shiftl_spec_low (Z.ones _)), !andb_false_r by lia.
      + rewrite (Z.shiftl_spec (Z.shiftr x 32)), Z.shiftr_spec by lia.
        by rewrite Z.sub_add.
    - rewrite Z.land_ones, Z.shiftr_div_pow2 by lia. apply Z.mod_small. zmod. }
  rewrite <- Z.lxor_lor, <- Z.add_nocarry_lxor; try done;
    rewrite <- Z.shiftl_mul_pow2 by lia; apply Z.bits_inj'; intros i Hi;
    rewrite Z.land_spec, Z.bits_0; destruct (decide (i < 32));
    try by rewrite Z.shiftl_spec_low.
  - rewrite <- (Z.mod_small d (2 ^ 32)) by lia.
    by rewrite Z.mod_pow2_bits_high, andb_false_r by lia.
  - rewrite <- (Z.mod_small d (2 ^ 32)) by lia.
    by rewrite Z.mod_pow2_bits_high, andb_false_r by lia.
Qed.

Lemma unwrap_eq n isn c :
  0 <= c < 2 ^ 64 ->
  let d := u32 (raw_value n - raw_value isn) in
  let cand x := u64 x / 2 ^ 32 * 2 ^ 32 + d in
  unwrap n isn c =
  min_element (fun a b => distance c a <? distance c b) (cand c)
    [cand (c + 2 ^ 32); cand (c - 2 ^ 32)].
Proof.
  intros Hc d cand. unfold unwrap.
  pose proof (u32_range (raw_value n - raw_value isn)) as Hd. fold d in Hd |- *.
  pose proof (epoch_lor c d Hd) as E. rewrite (u64_small c) in E at 1 by lia.
  change (Z.shiftl 1 32) with (2 ^ 32) in *. rewrite E, !epoch_lor by done.
  by rewrite !(u64_small (2 ^ 32)).
Qed.

Lemma distance_abs c a : 0 <= c < 2 ^ 64 -> 0 <= a < 2 ^ 64 -> distance c a = Z.abs (a - c).
Proof. intros. unfold distance. case_match; wsolve. Qed.

Lemma min_element_in {A} lt (x : A) l : min_element lt x l ∈ x :: l.
Proof.
  revert x. induction l as [|y l IH]; intros x; simpl; [by left|].
  specialize (IH (if lt y x then y else x)). revert IH. rewrite !elem_of_cons.
  destruct (lt y x); tauto.
Qed.

(** With a comparator that compares a key, the chosen element has the least key. *)
Lemma min_element_le {A} (key : A -> Z) x l y :
  y ∈ x :: l -> key (min_element (fun a b => key a <? key b) x l) <= key y.
Proof.
  revert x y. induction l as [|z l IH]; intros x y Hy; simpl.
  - apply list_elem_of_singleton in Hy as ->. lia.
  - set (b := if key z <? key x then z else x).
    assert (key b <= key z /\ key b <= key x) as [].
    { unfold b. case_match; lia. }
    pose proof (IH b b ltac:(by left)).
    apply elem_of_cons in Hy as [->|[->|Hy]%elem_of_cons]; [lia..|].
    apply IH. by right.
Qed.

(** The candidates of [unwrap] in terms of the epoch [e] of the checkpoint. *)
Lemma unwrap_candidates n isn c :
  0 <= c < 2 ^ 64 ->
  let d := u32 (raw_value n - raw_value isn) in
  let e := c / 2 ^ 32 in
  exists e', unwrap n isn c = e' * 2 ^ 32 + d /\ 0 <= e' < 2 ^ 32 /\
    forall k, k = e \/ k = e + 1 /\ e + 1 < 2 ^ 32 \/ k = e - 1 /\ 0 < e ->
      Z.abs (e' * 2 ^ 32 + d - c) <= Z.abs (k * 2 ^ 32 + d - c).
Proof.
  intros Hc d e. rewrite unwrap_eq by done. fold d.
  pose proof (u32_range (raw_value n - raw_value isn)) as Hd. fold d in Hd.
  rewrite (u64_small c) by done. fold e.
  set (f := u64 (c + 2 ^ 32) / 2 ^ 32). set (g := u64 (c - 2 ^ 32) / 2 ^ 32).
  assert (0 <= e < 2 ^ 32 /\ 0 <= f < 2 ^ 32 /\ 0 <= g < 2 ^ 32) as (He & Hf & Hg).
  { unfold e, f, g. zmod. }
  assert (e + 1 < 2 ^ 32 -> f = e + 1) as Ef by (unfold e, f; zmod).
  assert (0 < e -> g = e - 1) as Eg by (unfold e, g; zmod).
  set (l := [_; _]). set (x := e * 2 ^ 32 + d).
  pose proof (min_element_in (fun a b => distance c a <? distance c b) x l) as Hin.
  pose proof (min_element_le (distance c) x l) as Hle.
  set (b := min_element _ x l) in *.
  assert (exists e', b = e' * 2 ^ 32 + d /\ 0 <= e' < 2 ^ 32) as (e' & Eb & He').
  { unfold l, x in Hin. rewrite !elem_of_cons, elem_of_nil in Hin.
    destruct Hin as [-> | [-> | [-> | []]]]; eauto. }
  exists e'. split; [done|]. split; [done|]. rewrite <- Eb. intros k Hk.
  rewrite <- !distance_abs by lia. apply Hle. unfold l, x.
  destruct Hk as [-> | [[-> H] | [-> H]]]; rewrite ?Ef, ?Eg by done; rewrite !elem_of_cons; auto.
Qed.

Lemma unwrap_range n isn c : 0 <= c < 2 ^ 64 -> 0 <= unwrap n isn c < 2 ^ 64.
Proof.
  intros Hc. destruct (unwrap_candidates n isn c Hc) as (e' & -> & He & _).
  pose proof (u32_range (raw_value n - raw_value isn)). lia.
Qed.

Lemma wrap_unwrap n isn c :
  wrapping_ok n -> 0 <= c < 2 ^ 64 -> wrap (unwrap n isn c) isn = n.
Proof.
  intros Hn Hc. destruct (unwrap_candidates n isn c Hc) as (e' & -> & He & _).
  rewrite wrap_eq. destruct n as [n]; unfold wrapping_ok in Hn; simpl in *. f_equal. zmod.
Qed.

Lemma wrap_eq_iff m isn n :
  wrapping_ok n -> wrap m isn = n <-> u32 m = u32 (raw_value n - raw_value isn).
Proof.
  intros Hn. rewrite wrap_eq. destruct n as [n]; unfold wrapping_ok in Hn; simpl in *.
  split; [intros [= E]|intros E; f_equal]; zmod.
Qed.

Lemma unwrap_closest_lemma n isn c m :
  wrapping_ok n -> 0 <= c < 2 ^ 64 -> 0 <= m < 2 ^ 64 -> wrap m isn = n ->
  Z.abs (unwrap n isn c - c) <= Z.abs (m - c).
Proof.
  intros Hn Hc Hm E. apply wrap_eq_iff in E; [|done].
  destruct (unwrap_candidates n isn c Hc) as (e' & -> & He & Hmin).
  pose proof (u32_range (raw_value n - raw_value isn)) as Hd.
  set (d := u32 (raw_value n - raw_value isn)) in *. set (e := c / 2 ^ 32) in *.
  assert (m = m / 2 ^ 32 * 2 ^ 32 + d) as -> by (rewrite <- E; zmod).
  set (k := m / 2 ^ 32) in *. assert (0 <= k < 2 ^ 32) by (unfold k; zmod).
  assert (0 <= c - e * 2 ^ 32 < 2 ^ 32) by (unfold e; zmod).
  pose proof (Hmin e). destruct (decide (k = e \/ k = e + 1 \/ k = e - 1)); [apply Hmin; lia|lia].
Qed.

Lemma unwrap_wrap_lemma x isn c :
  0 <= c < 2 ^ 64 -> 0 <= x < 2 ^ 64 -> Z.abs (x - c) < 2 ^ 31 ->
  unwrap (wrap x isn) isn c = x.
Proof.
  intros Hc Hx Hd. pose proof (wrap_ok x isn) as Hok.
  pose proof (unwrap_closest_lemma _ isn c x Hok Hc Hx eq_refl).
  pose proof (wrap_unwrap (wrap x isn) isn c Hok Hc) as E.
  pose proof (unwrap_range (wrap x isn) isn c Hc).
  set (y := unwrap _ _ _) in *. clearbody y.
  rewrite (wrap_eq y), (wrap_eq x) in E. injection E as E. zmod.
Qed.

(** C16. [unwrap n isn checkpoint] is a 64-bit absolute sequence number that
    wraps to [n] and no other such number is closer to the checkpoint. *)
Theorem unwrap_closest n isn checkpoint :
  wrapping_ok n -> 0 <= checkpoint < 2 ^ 64 ->
  0 <= unwrap n isn checkpoint < 2 ^ 64 /\
  wrap (unwrap n isn checkpoint) isn = n /\
  forall m, 0 <= m < 2 ^ 64 -> wrap m isn = n ->
    Z.abs (unwrap n isn checkpoint - checkpoint) <= Z.abs (m - checkpoint).
Proof.
  intros Hn Hc. split; [by apply unwrap_range|]. split; [by apply wrap_unwrap|].
  intros. by apply unwrap_closest_lemma.
Qed.

Lemma unwrap_closest_witness :
  unwrap (mkWrappingInt32 (2 ^ 32 - 10)) (mkWrappingInt32 0) (3 * 2 ^ 32) = 3 * 2 ^ 32 - 10 /\
  Z.abs (3 * 2 ^ 32 - 10 - 3 * 2 ^ 32) <= Z.abs (2 ^ 32 - 10 - 3 * 2 ^ 32).
Proof.
  split; [vm_compute; reflexivity|].
  apply (unwrap_closest (mkWrappingInt32 (2 ^ 32 - 10)) (mkWrappingInt32 0) (3 * 2 ^ 32));
    [unfold wrapping_ok; simpl; lia|lia|lia|vm_compute; reflexivity].
Defined.

(** Round trip: an absolute sequence number less than 2^31 away from the
    checkpoint is recovered from its 32-bit form, whatever the ISN. *)
Theorem unwrap_wrap x isn checkpoint :
  0 <= checkpoint < 2 ^ 64 -> 0 <= x < 2 ^ 64 -> Z.abs (x - checkpoint) < 2 ^ 31 ->
  unwrap (wrap x isn) isn checkpoint = x.
Proof. apply unwrap_wrap_lemma. Qed.

Lemma unwrap_wrap_witness :
  unwrap (wrap (2 ^ 40 + 7) (mkWrappingInt32 4294967290)) (mkWrappingInt32 4294967290) (2 ^ 40) =
  2 ^ 40 + 7.
Proof. apply (unwrap_wrap (2 ^ 40 + 7)); vm_compute; intuition congruence. Defined.
