(* ===== verification/Reassembler.v ===== *)
(** * [StreamReassembler] (libsponge/stream_reassembler.hh, stream_reassembler.cc)

    Substrings of a byte stream arrive out of order and overlapping; the class
    keeps those that are not contiguous yet in a [std::set] of (index, string)
    pairs and writes what became contiguous to its output stream.

    [Module OrderedSet] models the [std::set] and [Module StreamReassembler]
    the class. The correctness theorems are about an arbitrary source stream
    [src] whose substrings are pushed in any order. *)
From S2P Require Import Prelude Stream.

(** ** [std::set<std::pair<size_t, std::string>>] as a sorted list *)
Module OrderedSet.

Definition E : Type := Z * bytes.

(** [std::string::operator<]: lexicographic on unsigned characters. *)
Fixpoint bytes_ltb (s t : bytes) : bool :=
  match s, t with
  | _, [] => false
  | [], _ :: _ => true
  | a :: s, b :: t =>
      if byte_to_Z a <? byte_to_Z b then true
      else if byte_to_Z b <? byte_to_Z a then false
      else bytes_ltb s t
  end.

(** [std::pair::operator<] *)
Definition ltb (x y : E) : bool :=
  if x.1 <? y.1 then true
  else if y.1 <? x.1 then false
  else bytes_ltb x.2 y.2.

(** The position of the first element not less than [x], as the elements before
    it and those from it on. *)
Fixpoint lower_bound (x : E) (l : list E) : list E * list E :=
  match l with
  | [] => ([], [])
  | y :: l' =>
      if ltb y x then let '(before, from) := lower_bound x l' in (y :: before, from)
      else ([], l)
  end.

Definition insert (x : E) (l : list E) : list E :=
  let '(before, from) := lower_bound x l in
  match from with
  | y :: _ => if ltb x y then before ++ x :: from else l
  | [] => before ++ [x]
  end.

Lemma lower_bound_app x l : (lower_bound x l).1 ++ (lower_bound x l).2 = l.
Proof.
  induction l as [|y l IH]; [done|]. simpl. destruct (ltb y x); [|done].
  destruct (lower_bound x l). simpl in *. by rewrite IH.
Qed.

Lemma lower_bound_before x l : Forall (fun y => ltb y x = true) (lower_bound x l).1.
Proof.
  induction l as [|y l IH]; [constructor|]. simpl. destruct (ltb y x) eqn:E; [|constructor].
  destruct (lower_bound x l). by constructor.
Qed.

Lemma lower_bound_from x l y f :
  (lower_bound x l).2 = y :: f -> ltb y x = false.
Proof.
  induction l as [|z l IH]; [done|]. simpl. destruct (ltb z x) eqn:E.
  - destruct (lower_bound x l). done.
  - simpl. congruence.
Qed.

Lemma lower_bound_split x b f :
  Forall (fun y => ltb y x = true) b ->
  match f with y :: _ => ltb y x = false | [] => True end ->
  lower_bound x (b ++ f) = (b, f).
Proof.
  intros Hb Hf. induction Hb as [|y b Hy _ IH]; simpl.
  - destruct f as [|y f]; [done|]. simpl. by rewrite Hf.
  - by rewrite Hy, IH.
Qed.

Lemma bytes_ltb_app s t u : bytes_ltb s t = true -> bytes_ltb s (t ++ u) = true.
Proof.
  revert t. induction s as [|a s IH]; intros [|b t]; try done. simpl.
  repeat case_match; auto.
Qed.

Lemma ltb_lt x y : x.1 < y.1 -> ltb x y = true.
Proof. intros. unfold ltb. case_match; [done|lia]. Qed.
Lemma ltb_gt x y : y.1 < x.1 -> ltb x y = false.
Proof. intros. unfold ltb. repeat case_match; try done; lia. Qed.
Lemma ltb_le x y : ltb x y = true -> x.1 <= y.1.
Proof. unfold ltb. repeat case_match; try done; lia. Qed.
Lemma ltb_ge x y : ltb x y = false -> y.1 <= x.1.
Proof. unfold ltb. repeat case_match; try done; lia. Qed.
Lemma ltb_app x i s u : ltb x (i, s) = true -> ltb x (i, s ++ u) = true.
Proof. unfold ltb; simpl. repeat case_match; auto using bytes_ltb_app. Qed.

End OrderedSet.

Module StreamReassembler.
Import OrderedSet.

Record StreamReassembler := mkStreamReassembler {
  _unassembled_bytes : Z;
  _head_index : Z;
  _auxiliary_cache : list E;
  _eof : bool;
  _output : ByteStream.ByteStream;
  _capacity : Z
}.
#[global] Instance eta_StreamReassembler : Eta StreamReassembler := fun r =>
  mkStreamReassembler (_unassembled_bytes r) (_head_index r) (_auxiliary_cache r)
    (_eof r) (_output r) (_capacity r).

Definition make (capacity : Z) : StreamReassembler :=
  mkStreamReassembler 0 0 [] false (ByteStream.make capacity) capacity.

Definition stream_out (r : StreamReassembler) : ByteStream.ByteStream := _output r.
Definition unassembled_bytes (r : StreamReassembler) : Z := _unassembled_bytes r.
Definition empty (r : StreamReassembler) : bool := _unassembled_bytes r =? 0.

(** [merge(E &pa, const E &pb)]: the new [pa] and the returned overlap. *)
Definition merge (pa pb : E) : E * Z :=
  if u64 (pa.1 + zlen pa.2) <=? pb.1 then (pa, 0)
  else if u64 (pb.1 + zlen pb.2) <=? u64 (pa.1 + zlen pa.2) then (pa, zlen pb.2)
  else
    let start_index := u64 (u64 (pa.1 + zlen pa.2) - pb.1) in
    ((pa.1, pa.2 ++ drop (Z.to_nat start_index) pb.2), start_index).

(** [assemble_string]: every iteration removes the first cached entry. *)
Fixpoint assemble_loop (cache : list E) (r : StreamReassembler) : StreamReassembler :=
  match cache with
  | [] => r <| _auxiliary_cache := [] |>
  | (i, str) :: cache' =>
      if _head_index r <? i then r <| _auxiliary_cache := cache |>
      else
        let '(output, write_len) := ByteStream.write str (_output r) in
        assemble_loop cache'
          (r <| _output := output |>
             <| _unassembled_bytes ::= fun n => u64 (n - zlen str) |>
             <| _head_index ::= fun n => u64 (n + write_len) |>)
  end.
Definition assemble_string (r : StreamReassembler) : StreamReassembler :=
  assemble_loop (_auxiliary_cache r) r.

(** The loop that merges the entries behind the new one. [stop] is
    [start_index + write_len]. Every iteration but the last erases an entry, so
    as many iterations as there are entries, and one more, are enough. *)
Fixpoint merge_behind (fuel : nat) (stop : Z) (node : E) (r : StreamReassembler)
    : StreamReassembler * E :=
  match fuel with
  | O => (r, node)
  | S fuel =>
      match lower_bound node (_auxiliary_cache r) with
      | (_, []) => (r, node)
      | (before, it :: rest) =>
          if u64 (it.1 + zlen it.2) <=? stop then
            merge_behind fuel stop node
              (r <| _unassembled_bytes ::= fun n => u64 (n - zlen it.2) |>
                 <| _auxiliary_cache := before ++ rest |>)
          else
            let '(node, overlap_size) := merge node it in
            let r := if negb (overlap_size =? 0)
                     then r <| _auxiliary_cache := before ++ rest |> else r in
            (r <| _unassembled_bytes ::= fun n => u64 (n - overlap_size) |>, node)
      end
  end.

(** The merge with the entry in front, and the insertion. *)
Definition merge_front (write_len : Z) (node : E) (r : StreamReassembler) : StreamReassembler :=
  let '(before, from) := lower_bound node (_auxiliary_cache r) in
  match last before with
  | Some pre_node =>
      let '(pre_node, overlap_size) := merge pre_node node in
      let r :=
        if overlap_size =? 0 then r <| _auxiliary_cache ::= insert node |>
        else r <| _auxiliary_cache :=
                 insert pre_node (take (length before - 1) before ++ from) |> in
      r <| _unassembled_bytes ::= fun n => u64 (n + write_len) |>
        <| _unassembled_bytes ::= fun n => u64 (n - overlap_size) |>
  | None =>
      r <| _auxiliary_cache ::= insert node |>
        <| _unassembled_bytes ::= fun n => u64 (n + write_len) |>
  end.

Definition end_if_done (r : StreamReassembler) : StreamReassembler :=
  if _eof r && empty r then r <| _output ::= ByteStream.end_input |> else r.

Definition push_substring (data : bytes) (index : Z) (eof : bool) (r : StreamReassembler)
    : StreamReassembler :=
  let limit := u64 (_head_index r + ByteStream.remaining_capacity (_output r)) in
  let r := if u64 (index + zlen data) <=? limit then r <| _eof ::= fun b => b || eof |> else r in
  if (limit <=? index) || (u64 (index + zlen data) <=? _head_index r) then end_if_done r
  else
    let start_index := Z.max index (_head_index r) in
    let write_len := u64 (Z.min limit (u64 (index + zlen data)) - start_index) in
    let node := (start_index,
      take (Z.to_nat write_len) (drop (Z.to_nat (u64 (start_index - index))) data)) in
    let '(r, node) :=
      merge_behind (S (length (_auxiliary_cache r))) (u64 (start_index + write_len)) node r in
    let r := merge_front write_len node r in
    let r := assemble_string r in
    end_if_done r.

End StreamReassembler.

(** ** Correctness *)
Module ReassemblerInvariant.
Import OrderedSet StreamReassembler.

Section Source.
(** The stream the pushed substrings come from. *)
Context (src : bytes) (src_small : zlen src < 2 ^ 63).

(** An entry holds a non-empty substring of the source at its index. *)
Definition entry_ok (x : E) : Prop :=
  0 <= x.1 /\ 0 < zlen x.2 /\ x.1 + zlen x.2 <= zlen src /\
  x.2 = slice src x.1 (x.1 + zlen x.2).
Definition entry_end (x : E) : Z := x.1 + zlen x.2.

(** The entries of [l] lie in [lo, hi), in order and without overlap. *)
Fixpoint chain (lo : Z) (l : list E) (hi : Z) : Prop :=
  match l with
  | [] => lo <= hi
  | x :: l => lo <= x.1 /\ entry_ok x /\ chain (entry_end x) l hi
  end.

Fixpoint total (l : list E) : Z :=
  match l with [] => 0 | x :: l => zlen x.2 + total l end.

(** The indices an entry, or a set of entries, covers. *)
Definition covers (x : E) (k : Z) : Prop := x.1 <= k < entry_end x.
Definition covered (l : list E) (k : Z) : Prop := exists x, x ∈ l /\ covers x k.

Lemma covered_nil k : ~ covered [] k.
Proof. by intros (x & ?%not_elem_of_nil & _). Qed.
Lemma covered_cons x l k : covered (x :: l) k <-> covers x k \/ covered l k.
Proof.
  unfold covered. split.
  - intros (y & [->|Hy]%elem_of_cons & Hk); eauto.
  - intros [Hk|(y & Hy & Hk)]; eexists; (split; [apply elem_of_cons|eassumption]); auto.
Qed.
Lemma covered_app l m k : covered (l ++ m) k <-> covered l k \/ covered m k.
Proof.
  induction l as [|x l IH]; simpl.
  - pose proof (covered_nil k). tauto.
  - rewrite !covered_cons, IH. tauto.
Qed.

Lemma total_app l m : total (l ++ m) = total l + total m.
Proof. induction l as [|x l IH]; simpl; lia. Qed.
Lemma total_nonneg l : 0 <= total l.
Proof. induction l as [|x l IH]; simpl; [lia|]. pose proof (zlen_nonneg x.2). lia. Qed.

Lemma chain_le lo l hi : chain lo l hi -> lo + total l <= hi.
Proof.
  revert lo. induction l as [|x l IH]; intros lo H; simpl in *; [lia|].
  destruct H as (H & _ & H'). apply IH in H'. unfold entry_end in *. lia.
Qed.

Lemma chain_app lo l m hi :
  chain lo (l ++ m) hi <-> exists mid, chain lo l mid /\ chain mid m hi.
Proof.
  revert lo. induction l as [|x l IH]; intros lo; simpl.
  - split; [intros H; exists lo; split; [lia|done]|]. intros (mid & H & Hc). destruct m as [|y m]; simpl in *; [lia|].
    destruct Hc. split; [lia|done].
  - rewrite IH. split.
    + intros (? & ? & mid & ? & ?). by exists mid.
    + intros (mid & (? & ? & ?) & ?). split_and!; eauto.
Qed.

Lemma chain_weaken lo lo' l hi hi' : lo' <= lo -> hi <= hi' -> chain lo l hi -> chain lo' l hi'.
Proof.
  intros Hlo Hhi. revert lo lo' Hlo. induction l as [|x l IH]; intros lo lo' Hlo H; simpl in *; [lia|].
  destruct H as (? & ? & H). split_and!; [lia|done|]. by eapply IH; [|apply H].
Qed.

Lemma chain_covered lo l hi k : chain lo l hi -> covered l k -> lo <= k < hi.
Proof.
  revert lo. induction l as [|x l IH]; intros lo H Hk; [by apply covered_nil in Hk|].
  simpl in H. destruct H as (? & [? [? ?]] & Hc). pose proof (chain_le _ _ _ Hc).
  pose proof (total_nonneg l). unfold entry_end in *.
  apply covered_cons in Hk as [Hk|Hk]; [unfold covers, entry_end in Hk; lia|].
  specialize (IH _ Hc Hk). lia.
Qed.

Lemma chain_Forall lo l hi : chain lo l hi -> Forall (fun x => lo <= x.1 /\ entry_end x <= hi) l.
Proof.
  revert lo. induction l as [|x l IH]; intros lo H; constructor; simpl in H;
    destruct H as (? & (? & ? & ?) & H').
  - pose proof (chain_le _ _ _ H'). pose proof (total_nonneg l). lia.
  - eapply Forall_impl; [by apply IH|]. simpl. unfold entry_end. intros ? [? ?]. lia.
Qed.

Lemma entry_extend i s m :
  entry_ok (i, s) -> i + zlen s <= m <= zlen src ->
  entry_ok (i, s ++ slice src (i + zlen s) m) /\
  entry_end (i, s ++ slice src (i + zlen s) m) = m.
Proof.
  intros (Hi & Hs & He & E) Hm. simpl in *. unfold entry_ok, entry_end; simpl.
  assert (zlen (slice src (i + zlen s) m) = m - (i + zlen s)) as El by (apply zlen_slice; lia).
  rewrite zlen_app, El. split; [|lia]. split_and!; try lia.
  rewrite E at 1. rewrite slice_app by lia. f_equal. lia.
Qed.

(** *** [merge] *)

(** Merging an entry with one that starts inside it or right behind it: either
    they do not overlap, or the second is contained, or the first is extended
    to the end of the second. *)
Lemma merge_spec pa pb :
  entry_ok pa -> entry_ok pb -> pa.1 <= pb.1 ->
  let '(pa', overlap) := merge pa pb in
  (entry_end pa <= pb.1 /\ pa' = pa /\ overlap = 0) \/
  (pb.1 < entry_end pa /\ entry_end pb <= entry_end pa /\ pa' = pa /\ overlap = zlen pb.2) \/
  (pb.1 < entry_end pa < entry_end pb /\ entry_ok pa' /\ pa'.1 = pa.1 /\
   (exists u, pa'.2 = pa.2 ++ u) /\
   entry_end pa' = entry_end pb /\ overlap = entry_end pa - pb.1).
Proof.
  intros Ha Hb Hle. pose proof Ha as (? & ? & ? & Ea). pose proof Hb as (? & ? & ? & Eb).
  unfold merge. fold (entry_end pa) (entry_end pb).
  rewrite !u64_small by (unfold entry_end in *; lia).
  destruct (Z.leb_spec (entry_end pa) pb.1); [by left|].
  destruct (Z.leb_spec (entry_end pb) (entry_end pa)); [right; left; tauto|].
  right; right. rewrite u64_small by (unfold entry_end in *; lia).
  rewrite Eb, drop_slice by lia.
  replace (pb.1 + (entry_end pa - pb.1)) with (pa.1 + zlen pa.2) by (unfold entry_end; lia).
  destruct pa as [i s]. simpl in *.
  destruct (entry_extend i s (pb.1 + zlen pb.2) Ha) as [Hok Hend]; [unfold entry_end in *; simpl in *; lia|].
  split_and!; try done; try lia. by eexists.
Qed.

Lemma covers_extend (x x' y : E) k :
  x'.1 = x.1 -> entry_end x' = entry_end y -> x.1 <= y.1 <= entry_end x ->
  entry_end x <= entry_end y ->
  covers x' k <-> covers x k \/ covers y k.
Proof. unfold covers. intros -> -> ? ?. lia. Qed.

(** *** The two merging steps *)

Lemma merge_behind_spec before from r fuel (node : E) mid W :
  (length from <= fuel)%nat ->
  _auxiliary_cache r = before ++ from ->
  Forall (fun y => ltb y node = true) before ->
  entry_ok node -> entry_end node <= W -> chain mid from W ->
  Forall (fun y => ltb y node = false) from ->
  _unassembled_bytes r = total before + total from -> total before + total from < 2 ^ 64 ->
  exists node' from',
    merge_behind fuel (entry_end node) node r =
      (r <| _auxiliary_cache := before ++ from' |>
         <| _unassembled_bytes := total before + total from' + (zlen node'.2 - zlen node.2) |>,
       node') /\
    entry_ok node' /\ node'.1 = node.1 /\ (exists u, node'.2 = node.2 ++ u) /\
    entry_end node <= entry_end node' <= W /\ chain (Z.max mid (entry_end node')) from' W /\
    (node' = node \/ mid < entry_end node') /\
    forall k, covered from' k \/ covers node' k <-> covered from k \/ covers node k.
Proof.
  revert r fuel mid. induction from as [|x from IH];
    intros r fuel mid Hfuel Ec Hbef Hn HW Hch Hfr Eu Hu; (destruct fuel as [|fuel]; [simpl in Hfuel; try lia|]); simpl in Hch.
  - exists node, []. split_and!; try done; simpl; try lia; eauto using app_nil_r.
    destruct r; simpl in *. subst. do 2 f_equal; lia.
  - exists node, []. split_and!; try done; simpl; try lia; eauto using app_nil_r.
    simpl. rewrite Ec, lower_bound_split by done. destruct r; simpl in *. subst. do 2 f_equal; lia.
  - simpl in Hfuel. destruct Hch as (Hx & Hxok & Hch). inversion_clear Hfr as [|? ? Hxn Hfr'].
    pose proof (ltb_ge _ _ Hxn) as Hge. pose proof (total_nonneg before). pose proof (total_nonneg from).
    pose proof Hxok as (? & ? & ? & _). simpl in Eu, Hu. simpl.
    rewrite Ec, lower_bound_split by done. fold (entry_end x).
    rewrite u64_small by (unfold entry_end; lia).
    destruct (Z.leb_spec (entry_end x) (entry_end node)) as [Hle|Hgt].
    + destruct (IH (r <| _unassembled_bytes ::= fun n => u64 (n - zlen x.2) |>
                      <| _auxiliary_cache := before ++ from |>) fuel (entry_end x))
        as (node' & from' & E & Hok & E1 & Hpre & Hend & Hc' & Hmid & Hcov);
        simpl; try done; try lia.
      { rewrite Eu. wsolve. }
      exists node', from'. split_and!; try done; try lia.
      * eapply chain_weaken; [| |exact Hc']; unfold entry_end in *; lia.
      * destruct Hmid; [by left|right]. unfold entry_end in *. lia.
      * intros k. rewrite Hcov, covered_cons.
        assert (covers x k -> covers node k) by (unfold covers; lia). tauto.
    + pose proof (merge_spec node x Hn Hxok Hge) as Hm.
      destruct (merge node x) as [node' ov].
      destruct Hm as [(Hsep & -> & ->)|[(? & ? & _)|(Hov & Hok & E1 & Hpre & Hend & ->)]]; [|lia|].
      * exists node, (x :: from). split_and!; simpl; try done; try lia; eauto using app_nil_r.
        -- destruct r; simpl in *; subst. do 2 f_equal. simpl. wsolve.
        -- split_and!; [lia|done..].
      * exists node', from. pose proof (chain_le _ _ _ Hch). rewrite Hend.
        replace (negb _) with true by (destruct (Z.eqb_spec (entry_end node - x.1) 0); [lia|done]).
        split_and!; try done; try lia.
        -- destruct r; simpl in *; subst. do 2 f_equal.
           unfold entry_end in *. wsolve.
        -- eapply chain_weaken; [| |exact Hch]; unfold entry_end in *; lia.
        -- intros k. rewrite covered_cons, (covers_extend node node' x) by (try done; lia). tauto.
Qed.

Lemma insert_at x b f :
  Forall (fun y => ltb y x = true) b ->
  match f with y :: _ => x.1 < y.1 | [] => True end ->
  insert x (b ++ f) = b ++ x :: f.
Proof.
  intros Hb Hf. unfold insert. rewrite lower_bound_split; [|done|].
  - destruct f as [|y f]; [done|]. by rewrite ltb_lt.
  - destruct f as [|y f]; [done|]. by apply ltb_gt.
Qed.

(** Entries behind [lo] start after an entry that ends at or before [lo]. *)
Lemma chain_head lo l hi (x : E) :
  chain lo l hi -> entry_ok x -> entry_end x <= lo ->
  match l with y :: _ => x.1 < y.1 | [] => True end.
Proof.
  destruct l as [|y l]; [done|]. intros (? & _) (? & ? & _) ?. unfold entry_end in *. lia.
Qed.

Lemma chain_before lo l (x : E) hi :
  chain lo l hi -> hi <= x.1 -> Forall (fun y => ltb y x = true) l.
Proof.
  revert lo. induction l as [|y l IH]; intros lo H Hx; constructor; simpl in H;
    destruct H as (_ & (? & ? & _) & H); [|by eapply IH].
  pose proof (chain_le _ _ _ H). pose proof (total_nonneg l). apply ltb_lt.
  unfold entry_end in *. lia.
Qed.

Lemma chain_splice lo b m (x : E) k from W :
  chain lo b m -> m <= x.1 -> entry_ok x -> entry_end x <= k -> chain k from W -> chain lo (b ++ x :: from) W.
Proof.
  intros Hb Hm Hx Hk Hf. apply chain_app. exists m. split; [done|]. simpl. split_and!; try done.
  by eapply chain_weaken; [| |exact Hf]; lia.
Qed.

(** Nothing is cached before the new entry. *)
Lemma merge_front_first from r (node : E) lo mid W write_len :
  _auxiliary_cache r = from -> entry_ok node -> lo <= node.1 -> lo <= mid -> entry_end node <= W ->
  match from with y :: _ => node.1 < y.1 | [] => True end ->
  chain (Z.max mid (entry_end node)) from W -> 0 <= write_len <= zlen node.2 ->
  _unassembled_bytes r = total from + (zlen node.2 - write_len) -> 0 <= lo -> W < 2 ^ 64 ->
  exists l,
    merge_front write_len node r = r <| _auxiliary_cache := l |> <| _unassembled_bytes := total l |> /\
    chain lo l W /\ forall k, covered l k <-> covers node k \/ covered from k.
Proof.
  intros Ec Hn Hlo Hlm HW Hfn Hcf Hwl Eu Hlo0 HW64. pose proof (total_nonneg from).
  pose proof (chain_le _ _ _ Hcf). pose proof Hn as (? & ? & ? & _). unfold merge_front.
  rewrite Ec. change from with ([] ++ from) at 1.
  rewrite lower_bound_split; [|done|destruct from; [done|by apply ltb_gt]]. simpl.
  exists (node :: from). split_and!.
  - destruct r; simpl in *; subst. f_equal; [|by apply (insert_at node [] from)].
    unfold entry_end in *. wsolve.
  - apply (chain_splice lo [] lo node (Z.max mid (entry_end node))); simpl; done || lia.
  - intros k. by rewrite covered_cons.
Qed.

Lemma merge_front_spec before from r (node : E) lo mid W write_len :
  _auxiliary_cache r = before ++ from ->
  Forall (fun y => ltb y node = true) before ->
  entry_ok node -> lo <= node.1 -> entry_end node <= W ->
  chain lo before mid -> chain (Z.max mid (entry_end node)) from W ->
  (zlen node.2 = write_len \/ mid < entry_end node) -> 0 <= write_len <= zlen node.2 ->
  _unassembled_bytes r = total before + total from + (zlen node.2 - write_len) ->
  0 <= lo -> W < 2 ^ 64 ->
  exists l,
    merge_front write_len node r =
      r <| _auxiliary_cache := l |> <| _unassembled_bytes := total l |> /\
    chain lo l W /\
    forall k, covered l k <-> covered before k \/ covers node k \/ covered from k.
Proof.
  intros Ec Hbef Hn Hlo HW Hcb Hcf Hmid Hwl Eu Hlo0 HW64.
  assert (match from with y :: _ => node.1 < y.1 | [] => True end) as Hfn
    by (eapply chain_head; [exact Hcf|done|lia]).
  pose proof (total_nonneg before). pose proof (total_nonneg from).
  pose proof (chain_le _ _ _ Hcf). pose proof (chain_le _ _ _ Hcb).
  pose proof Hn as (? & ? & ? & _).
  destruct before as [|pre b _] using rev_ind; simpl.
  - destruct (merge_front_first from r node lo mid W write_len) as (l&El&Hl&Hk); try done.
    exists l. split_and!; try done. intros k. rewrite Hk. pose proof (covered_nil k). tauto.
  - unfold merge_front. rewrite Ec, lower_bound_split; [|done|destruct from; [done|by apply ltb_gt]].
    rewrite last_snoc. apply Forall_app in Hbef as [Hb Hpre]. inversion_clear Hpre as [|? ? Hpn _].
    pose proof (ltb_le _ _ Hpn) as Hpre.
    apply chain_app in Hcb as (m1 & Hcb & Hm1 & Hpok & Hpm). simpl in Hpm.
    pose proof (chain_le _ _ _ Hcb). pose proof (total_nonneg b).
    rewrite total_app in *. simpl in *. pose proof Hpok as (? & ? & ? & _).
    rewrite length_app, Nat.add_sub, take_app_length.
    pose proof (merge_spec pre node Hpok Hn Hpre) as Hm.
    destruct (merge pre node) as [pre' ov].
    destruct Hm as [(Hsep & -> & ->)|[(Hin & Hle & -> & ->)|(Hov & Hok & E1 & [u Hu] & Hend & ->)]].
    + exists (b ++ pre :: node :: from). simpl. split_and!.
      * destruct r; simpl in *; subst. f_equal.
        -- rewrite total_app; simpl. unfold entry_end in *. zmod.
        -- rewrite (insert_at node (b ++ [pre]) from); [|by apply Forall_app_2; [|constructor]|done].
           by rewrite <- app_assoc.
      * apply chain_app. exists m1. split; [done|]. simpl. split_and!; try done; try lia.
        by eapply chain_weaken; [| |exact Hcf]; lia.
      * intros k. rewrite !covered_app, !covered_cons. pose proof (covered_nil k). tauto.
    + exists (b ++ pre :: from). replace (zlen node.2 =? 0) with false by lia. split_and!.
      * destruct r; simpl in *; subst. f_equal.
        -- rewrite total_app; simpl. unfold entry_end in *. zmod.
        -- apply insert_at; [by eapply chain_before|]. eapply chain_head; [exact Hcf|done|lia].
      * by eapply chain_splice; [exact Hcb| | | |exact Hcf]; try lia.
      * intros k. rewrite !covered_app, !covered_cons. pose proof (covered_nil k).
        assert (covers node k -> covers pre k) by (unfold covers; lia). tauto.
    + exists (b ++ pre' :: from). replace (entry_end pre - node.1 =? 0) with false by lia.
      split_and!.
      * destruct r; simpl in *; subst. f_equal.
        -- rewrite total_app; simpl. unfold entry_end in *. zmod.
        -- apply insert_at; [eapply chain_before; [exact Hcb|lia]|]. eapply chain_head; [exact Hcf|done|lia].
      * by eapply chain_splice; [exact Hcb|lia| |rewrite Hend|exact Hcf]; try lia.
      * intros k. rewrite !covered_app, !covered_cons, (covers_extend pre pre' node) by (try done; lia).
        pose proof (covered_nil k). tauto.
Qed.

(** *** The invariant *)

Definition starts_after (k : Z) (l : list E) : Prop :=
  match l with x :: _ => k < x.1 | [] => True end.

(** The first index the output stream has no room for. *)
Definition window_end (p : Pipe.Pipe) : Z := Pipe.popped p + Pipe.capacity p.

Record core (r : StreamReassembler) (p : Pipe.Pipe) : Prop := mk_core {
  inv_output : StreamRefinement.refines (_output r) p;
  inv_written : Pipe.written p = slice src 0 (_head_index r);
  inv_head : 0 <= _head_index r <= zlen src;
  inv_cache : chain (_head_index r) (_auxiliary_cache r) (window_end p);
  inv_gap : starts_after (_head_index r) (_auxiliary_cache r);
  inv_total : _unassembled_bytes r = total (_auxiliary_cache r)
}.
(** If the end of the stream is known, its last byte is there; and between calls
    the output has ended exactly when the end is known and nothing is cached. *)
Record inv (r : StreamReassembler) (p : Pipe.Pipe) : Prop := mk_inv {
  inv_core : core r p;
  inv_eof : _eof r = true -> _head_index r = zlen src \/ covered (_auxiliary_cache r) (zlen src - 1);
  inv_ended : Pipe.ended p = _eof r && empty r
}.

(** The bytes that have arrived: assembled or cached. *)
Definition have (r : StreamReassembler) (k : Z) : Prop :=
  0 <= k < _head_index r \/ covered (_auxiliary_cache r) k.

Lemma head_written p n : Pipe.written p = slice src 0 n -> 0 <= n <= zlen src ->
  zlen (Pipe.written p) = n.
Proof. intros -> ?. rewrite zlen_slice; lia. Qed.

(** The code's [_head_index + _output.remaining_capacity()]. *)
Lemma limit_eq o p n :
  StreamRefinement.refines o p -> Pipe.written p = slice src 0 n -> 0 <= n <= zlen src ->
  u64 (n + ByteStream.remaining_capacity o) = window_end p /\
  Pipe.room p = window_end p - n /\ n <= window_end p < 2 ^ 64.
Proof.
  intros R Ew Hn. rewrite (StreamRefinement.remaining_capacity_ok o p R).
  pose proof (head_written p n Ew Hn). destruct (StreamRefinement.ref_wf _ _ R) as [? ? ?].
  pose proof (Pipe.zlen_pending p (StreamRefinement.ref_wf _ _ R)).
  unfold Pipe.room, window_end in *. split_and!; wsolve.
Qed.

(** Writing the next bytes of the source when there is room for all of them. *)
Lemma write_next o p n str :
  StreamRefinement.refines o p -> Pipe.written p = slice src 0 n -> 0 <= n <= zlen src ->
  Pipe.ended p = false -> entry_ok (n, str) -> n + zlen str <= window_end p ->
  exists o', ByteStream.write str o = (o', zlen str) /\
    StreamRefinement.refines o' (p <| Pipe.written := slice src 0 (n + zlen str) |>).
Proof.
  intros R Ew Hn Hend (_ & Hs & Hle & Estr) Hroom. simpl in *.
  destruct (limit_eq o p n R Ew Hn) as (_ & Eroom & _).
  destruct (StreamRefinement.write_ok o p R str) as [R' E].
  assert (Pipe.accepted str p = str) as Ea.
  { unfold Pipe.accepted. rewrite Hend. apply take_ge. unfold zlen in *. lia. }
  destruct (ByteStream.write str o) as [o' c]. simpl in *. rewrite Ea in E, R'.
  exists o'. subst c. split; [done|]. rewrite Ew in R'.
  rewrite Estr in R' at 1. by rewrite slice_app in R' by lia.
Qed.

Lemma assemble_loop_spec l r p n :
  _head_index r = n -> _unassembled_bytes r = total l -> total l < 2 ^ 64 ->
  StreamRefinement.refines (_output r) p -> Pipe.written p = slice src 0 n ->
  0 <= n <= zlen src -> Pipe.ended p = false -> chain n l (window_end p) ->
  exists n' l' o',
    assemble_loop l r =
      r <| _auxiliary_cache := l' |> <| _unassembled_bytes := total l' |>
        <| _head_index := n' |> <| _output := o' |> /\
    StreamRefinement.refines o' (p <| Pipe.written := slice src 0 n' |>) /\
    n <= n' <= zlen src /\ chain n' l' (window_end p) /\ starts_after n' l' /\
    forall k, (0 <= k < n' \/ covered l' k) <-> (0 <= k < n \/ covered l k).
Proof.
  revert r p n. induction l as [|[i str] l IH]; intros r p n En Eu Hu R Ew Hn Hend Hch; simpl in *.
  - exists n, [], (_output r). split_and!; try done; try lia.
    + destruct r; simpl in *. by subst.
    + destruct p; simpl in *. by subst.
  - destruct Hch as (Hi & Hok & Hch). pose proof Hok as (? & ? & ? & _). simpl in *.
    pose proof (total_nonneg l). rewrite En.
    destruct (Z.ltb_spec n i) as [Hlt|Hge].
    + exists n, ((i, str) :: l), (_output r). simpl. split_and!; try done; try lia.
      * destruct r; simpl in *. by subst.
      * destruct p; simpl in *. by subst.
    + assert (i = n) as -> by lia. pose proof (chain_le _ _ _ Hch). unfold entry_end in Hch; simpl in Hch.
      destruct (write_next (_output r) p n str R Ew Hn Hend Hok) as (o' & Ewr & R');
        [unfold entry_end in *; simpl in *; lia|].
      rewrite Ewr.
      destruct (IH (r <| _output := o' |> <| _unassembled_bytes ::= fun x => u64 (x - zlen str) |>
                      <| _head_index ::= fun x => u64 (x + zlen str) |>)
                   (p <| Pipe.written := slice src 0 (n + zlen str) |>) (n + zlen str))
        as (n' & l' & o'' & E & R'' & Hn' & Hch' & Hgap & Hcov); simpl; try done; try lia.
      { rewrite En. wsolve. } { rewrite Eu. wsolve. }
      exists n', l', o''. simpl in E. rewrite En in E. split_and!; try done; try lia.
      intros k. rewrite Hcov, covered_cons. unfold covers, entry_end; simpl.
      split; [intros [?|?]|intros [?|[?|?]]]; try tauto; lia.
Qed.

(** *** [push_substring] *)

Lemma have_ended r p : inv r p -> Pipe.ended p = true -> _head_index r = zlen src.
Proof.
  intros [[? ? ? Hch ? Et] Heof Hend] He. rewrite Hend in He. unfold empty in He.
  apply andb_true_iff in He as [He Hz]. destruct (Heof He) as [?|Hcov]; [done|].
  destruct (_auxiliary_cache r) as [|x l]; [by apply covered_nil in Hcov|].
  simpl in *. destruct Hch as (_ & (_ & ? & _) & _). pose proof (total_nonneg l). lia.
Qed.

Definition same_reader (p p' : Pipe.Pipe) : Prop :=
  Pipe.popped p' = Pipe.popped p /\ Pipe.capacity p' = Pipe.capacity p /\
  Pipe.failed p' = Pipe.failed p.

Lemma end_if_done_ok r p :
  core r p ->
  (_eof r = true -> _head_index r = zlen src \/ covered (_auxiliary_cache r) (zlen src - 1)) ->
  (Pipe.ended p = true -> _eof r && empty r = true) ->
  exists p', inv (end_if_done r) p' /\ same_reader p p' /\
    (forall k, have (end_if_done r) k <-> have r k) /\ _eof (end_if_done r) = _eof r.
Proof.
  intros [R ? ? ? ? ?] Heof Hend. unfold end_if_done. destruct (_eof r && empty r) eqn:E.
  - exists (Pipe.end_input p). split; [split|]; try done.
    split; try done. by apply StreamRefinement.end_input_ok.
  - exists p. split; [split|]; try done. rewrite E. destruct (Pipe.ended p); [|done].
    symmetry. by apply Hend.
Qed.

(** What may be pushed: a substring of the source, marked as the last one only
    if it reaches the end, and not an empty one beyond the next byte needed. *)
Record pushable (r : StreamReassembler) (data : bytes) (index : Z) (eof : bool) : Prop := mk_pushable {
  push_index : 0 <= index;
  push_end : index + zlen data <= zlen src;
  push_data : data = slice src index (index + zlen data);
  push_eof : eof = true -> index + zlen data = zlen src;
  push_nonempty : data <> [] \/ index <= _head_index r
}.

Lemma ltb_from lo l hi (x : E) :
  chain lo l hi -> match l with y :: _ => ltb y x = false | [] => True end ->
  Forall (fun y => ltb y x = false) l.
Proof.
  destruct l as [|y l]; [done|]. intros (_ & (? & ? & _) & Hch) Hy. constructor; [done|].
  apply chain_Forall in Hch. eapply Forall_impl; [exact Hch|]. simpl. intros z [Hz _].
  apply ltb_gt. apply ltb_ge in Hy. unfold entry_end in Hz. lia.
Qed.

(** Both merging steps together: the new piece [start, stop) joins the cache. *)
Lemma merge_both r W start stop :
  chain (_head_index r) (_auxiliary_cache r) W -> 0 <= _head_index r ->
  _unassembled_bytes r = total (_auxiliary_cache r) -> W < 2 ^ 64 ->
  _head_index r <= start < stop -> stop <= W -> stop <= zlen src ->
  let '(r', node') :=
    merge_behind (S (length (_auxiliary_cache r))) stop (start, slice src start stop) r in
  exists l,
    merge_front (stop - start) node' r' =
      r <| _auxiliary_cache := l |> <| _unassembled_bytes := total l |> /\
    chain (_head_index r) l W /\
    forall k, covered l k <-> covered (_auxiliary_cache r) k \/ start <= k < stop.
Proof.
  intros Hch Hh Et HW64 Hs HW Hsrc.
  set (node := (start, slice src start stop)). set (cache := _auxiliary_cache r) in *.
  assert (zlen (slice src start stop) = stop - start) as Ez by (apply zlen_slice; lia).
  assert (entry_end node = stop) as Eend by (unfold entry_end; simpl; lia).
  assert (entry_ok node) as Hok.
  { unfold entry_ok; simpl. rewrite Ez. split_and!; try lia. f_equal. lia. }
  pose proof (lower_bound_app node cache) as Eapp. pose proof (lower_bound_before node cache) as Hb.
  pose proof (lower_bound_from node cache) as Hf.
  destruct (lower_bound node cache) as [before from]. simpl in Eapp, Hb, Hf.
  pose proof (chain_le _ _ _ Hch). rewrite <- Eapp, total_app in *.
  pose proof (total_nonneg before). pose proof (total_nonneg from).
  apply chain_app in Hch as (mid & Hcb & Hcf).
  destruct (merge_behind_spec before from r (S (length (before ++ from))) node mid W)
    as (node' & from' & E & Hok' & E1 & [u Hpre] & Hend' & Hcf' & Hmid & Hcov); try done; try lia.
  { rewrite length_app. lia. }
  { eapply ltb_from; [exact Hcf|]. destruct from; [done|]. by eapply Hf. }
  rewrite Eend in E. rewrite E.
  assert (zlen node.2 = stop - start) as En by done.
  edestruct (merge_front_spec before from' (r <| _auxiliary_cache := before ++ from' |>
      <| _unassembled_bytes := total before + total from' + (zlen node'.2 - zlen node.2) |>)
      node' (_head_index r) mid W (stop - start)) as (l & El & Hl & Hcl); try done; try lia.
  - eapply Forall_impl; [exact Hb|]. intros y Hy.
    rewrite (surjective_pairing node'), E1, Hpre. by apply ltb_app.
  - simpl in *. lia.
  - destruct Hmid as [->|?]; [by left|by right].
  - rewrite Hpre, zlen_app, En. pose proof (zlen_nonneg u). lia.
  - simpl. lia.
  - exists l. rewrite El. split_and!; [done..|]. intros k. rewrite Hcl, covered_app.
    specialize (Hcov k).
    assert (covers node k <-> start <= k < stop) as Hk by (unfold covers; by rewrite Eend). tauto.
Qed.

Section Push.
Context (r : StreamReassembler) (p : Pipe.Pipe) (I : inv r p).
Context (data : bytes) (index : Z) (eof : bool) (Hp : pushable r data index eof).

Let W := window_end p.
Let stop := Z.min W (index + zlen data).
Let start := Z.max index (_head_index r).
Let eof' := _eof r || (index + zlen data <=? W) && eof.

(** The bytes there are after the push. *)
Definition pushed (k : Z) : Prop := have r k \/ index <= k < index + zlen data /\ k < W.

Lemma zlen_nonempty : data <> [] \/ index <= _head_index r -> 0 < zlen data \/ index <= _head_index r.
Proof.
  intros [Hd|?]; [left|by right]. destruct data as [|x l]; [done|].
  rewrite zlen_cons. pose proof (zlen_nonneg l). lia.
Qed.

Lemma eof_known : eof' = true -> have r (zlen src - 1) \/ _head_index r = zlen src \/ pushed (zlen src - 1).
Proof.
  destruct I as [[? ? ? ? ? ?] Heof _], Hp as [? ? ? Heof2 Hne]. unfold eof'.
  destruct (_eof r); simpl.
  - intros _. destruct (Heof eq_refl); [tauto|]. left. by right.
  - intros [Hle He]%andb_true_iff. apply Z.leb_le in Hle. specialize (Heof2 He).
    apply zlen_nonempty in Hne. pose proof (zlen_nonneg data).
    destruct (decide (zlen data = 0)); [right; left; lia|]. right; right; right. lia.
Qed.

(** The window and the arguments, without the 64-bit conversions. *)
Lemma push_unfold :
  push_substring data index eof r =
  let r := r <| _eof := eof' |> in
  if (W <=? index) || (index + zlen data <=? _head_index r) then end_if_done r
  else
    let '(r, node) :=
      merge_behind (S (length (_auxiliary_cache r))) stop (start, slice src start stop) r in
    end_if_done (assemble_string (merge_front (stop - start) node r)).
Proof.
  destruct I as [[R Ew Hh ? ? ?] _ _], Hp as [Hi Hl Hd ? ?].
  destruct (limit_eq _ _ _ R Ew Hh) as (El & _ & HW). fold W in El, HW.
  pose proof (zlen_nonneg data). unfold push_substring.
  rewrite El, (u64_small (index + zlen data)) by lia.
  replace (if index + zlen data <=? W then _ else r) with (r <| _eof := eof' |>).
  2: { unfold eof'. case_match; [done|]. destruct r; simpl. by rewrite orb_false_r. }
  cbn [_head_index upd]. destruct (Z.leb_spec W index) as [?|Hlt]; [done|].
  destruct (Z.leb_spec (index + zlen data) (_head_index r)) as [?|Hgt]; [done|].
  cbn [orb]. fold stop start.
  assert (start <= stop /\ index <= start /\ 0 <= start) as (? & ? & ?) by (unfold start, stop; lia).
  assert (stop < 2 ^ 64) by (unfold stop; lia).
  rewrite (u64_small (stop - start)), (u64_small (start - index)), (u64_small (start + (stop - start))) by lia.
  replace (start + (stop - start)) with stop by lia.
  replace (take _ (drop _ data)) with (slice src start stop); [done|].
  rewrite Hd at 1. rewrite drop_slice, take_slice by (unfold stop; lia).
  f_equal; lia.
Qed.

(** A full window: the piece is empty, passes through the cache and leaves no
    trace. *)
Lemma push_full r0 :
  core r0 p -> Pipe.ended p = false -> _head_index r0 = W ->
  exists o, assemble_string (merge_front 0 (W, []) r0) = r0 <| _output := o |> /\
    StreamRefinement.refines o p.
Proof.
  intros [R Ew Hh Hch ? Et] Hend Eh. fold W in Hch.
  destruct (limit_eq _ _ _ R Ew Hh) as (_ & _ & HW). fold W in HW.
  assert (_auxiliary_cache r0 = []) as Ec.
  { destruct (_auxiliary_cache r0) as [|x l]; [done|]. pose proof (chain_le _ _ _ Hch).
    simpl in Hch, H. pose proof (total_nonneg l). destruct Hch as (_ & (_ & ? & _) & _). lia. }
  rewrite Ec in Et. simpl in Et.
  destruct (StreamRefinement.write_ok _ _ R []) as [R' E].
  assert (Pipe.accepted [] p = []) as Ea.
  { unfold Pipe.accepted. rewrite Hend. by destruct (Z.to_nat _). }
  exists (ByteStream.write [] (_output r0)).1. unfold merge_front. rewrite Ec. simpl.
  rewrite Et. simpl. unfold assemble_string. simpl.
  rewrite Eh, Ec. simpl. rewrite Z.ltb_irrefl.
  destruct (ByteStream.write [] (_output r0)) as [o c]. simpl in *.
  rewrite Ea in *. rewrite zlen_nil in E. subst c. split.
  - destruct r0; simpl in *; subst. f_equal. wsolve.
  - destruct p; simpl in *. by rewrite app_nil_r in R'.
Qed.

(** Adding the piece [start, stop) and assembling. *)
Lemma push_piece r0 :
  core r0 p -> Pipe.ended p = false -> _head_index r0 <= start < stop -> stop <= zlen src ->
  let '(r1, node) :=
    merge_behind (S (length (_auxiliary_cache r0))) stop (start, slice src start stop) r0 in
  let r2 := assemble_string (merge_front (stop - start) node r1) in
  exists n l o,
    r2 = r0 <| _auxiliary_cache := l |> <| _unassembled_bytes := total l |>
            <| _head_index := n |> <| _output := o |> /\
    StreamRefinement.refines o (p <| Pipe.written := slice src 0 n |>) /\
    _head_index r0 <= n <= zlen src /\ chain n l W /\ starts_after n l /\
    forall k, have r2 k <-> have r0 k \/ start <= k < stop.
Proof.
  intros [R Ew Hh Hch ? Et] Hend Hs Hsrc. fold W in Hch.
  destruct (limit_eq _ _ _ R Ew Hh) as (_ & _ & HW). fold W in HW.
  pose proof (merge_both r0 W start stop Hch ltac:(lia) Et ltac:(lia) Hs
    ltac:(unfold stop; lia) Hsrc) as M.
  destruct (merge_behind _ _ _ _) as [r1 node]. destruct M as (l & E & Hl & Hcov). rewrite E.
  unfold assemble_string. pose proof (chain_le _ _ _ Hl).
  destruct (assemble_loop_spec l (r0 <| _auxiliary_cache := l |> <| _unassembled_bytes := total l |>)
    p (_head_index r0)) as (n & l' & o & E2 & R' & Hn & Hl' & Hgap & Hcov2); try done; try lia.
  simpl in E2 |- *. rewrite E2. exists n, l', o. split_and!; try done; try lia.
  intros k. unfold have at 1; simpl. rewrite Hcov2, Hcov. unfold have. tauto.
Qed.

Lemma push_pieces_have k :
  0 <= _head_index r -> index < W -> _head_index r < index + zlen data ->
  have r k \/ start <= k < stop <-> pushed k.
Proof.
  destruct Hp. intros Hh Hi Hl. unfold pushed, have, start, stop.
  destruct (decide (0 <= k < _head_index r)); [tauto|]. split; intros [?|?]; tauto || (right; lia).
Qed.

(** The bytes at hand decide the end-of-stream clause of the invariant. *)
Lemma eof_clause r' :
  eof' = true -> 0 <= _head_index r <= _head_index r' -> _head_index r' <= zlen src ->
  (forall k, have r' k <-> pushed k) ->
  _head_index r' = zlen src \/ covered (_auxiliary_cache r') (zlen src - 1).
Proof.
  intros E Hh Hle Hk.
  assert (_head_index r = zlen src \/ pushed (zlen src - 1)) as [?|H].
  { destruct (eof_known E) as [?|[?|?]]; auto. right. by left. }
  - left. lia.
  - apply Hk in H as [?|?]; [left; lia|by right].
Qed.

(** A push that stores nothing. *)
Lemma push_nothing :
  W <= index \/ index + zlen data <= _head_index r ->
  exists p', inv (end_if_done (r <| _eof := eof' |>)) p' /\ same_reader p p' /\
    _eof (end_if_done (r <| _eof := eof' |>)) = eof' /\
    forall k, have (end_if_done (r <| _eof := eof' |>)) k <-> pushed k.
Proof.
  intros Hcase. destruct I as [[R Ew Hh Hch Hgap Et] Heof Hend]. pose proof Hp as [Hi Hl Hd He Hne].
  set (r0 := r <| _eof := eof' |>).
  assert (forall k, have r0 k <-> pushed k) as Hk.
  { intros k. change (have r0 k) with (have r k). unfold pushed.
    split; [tauto|]. intros [?|?]; [done|]. destruct Hcase; [lia|left; lia]. }
  destruct (end_if_done_ok r0 p) as (p' & I' & S' & Hk' & E').
  - by split.
  - intros E. by apply eof_clause; [..|exact Hk]; simpl; [|lia..].
  - rewrite Hend. unfold r0, eof'; simpl. change (empty _) with (empty r). by destruct (_eof r).
  - exists p'. split_and!; try done; try apply S'. intros k. by rewrite Hk'.
Qed.

(** A push that stores [start, stop). *)
Lemma push_something :
  index < W -> _head_index r < index + zlen data -> start < stop ->
  let '(r1, node) :=
    merge_behind (S (length (_auxiliary_cache r))) stop (start, slice src start stop)
      (r <| _eof := eof' |>) in
  let r' := end_if_done (assemble_string (merge_front (stop - start) node r1)) in
  exists p', inv r' p' /\ same_reader p p' /\ _eof r' = eof' /\ forall k, have r' k <-> pushed k.
Proof.
  intros HWi Hnew Hs. pose proof I as [[R Ew Hh Hch Hgap Et] Heof Hend]. pose proof Hp as [Hi Hl Hd He Hne].
  assert (Pipe.ended p = false) as Hnend.
  { destruct (Pipe.ended p) eqn:E; [|done]. pose proof (have_ended r p I E). lia. }
  set (r0 := r <| _eof := eof' |>).
  pose proof (push_piece r0 ltac:(by split) Hnend) as P.
  change (_head_index r0) with (_head_index r) in P.
  specialize (P ltac:(unfold start in *; lia) ltac:(unfold stop; lia)).
  change (_auxiliary_cache r0) with (_auxiliary_cache r) in P.
  destruct (merge_behind _ _ _ _) as [r1 node]. cbn zeta in *.
  destruct P as (n & l & o & E & Ro & Hn & Hl' & Hgap' & Hcov).
  set (r2 := assemble_string _) in *.
  assert (_head_index r2 = n /\ _auxiliary_cache r2 = l /\ _unassembled_bytes r2 = total l /\
    _output r2 = o /\ _eof r2 = eof') as (E1 & E2 & E3 & E4 & E5) by (by rewrite E).
  assert (forall k, have r2 k <-> pushed k) as Hk.
  { intros k. rewrite Hcov. change (have r0 k) with (have r k). apply push_pieces_have; lia. }
  destruct (end_if_done_ok r2 (p <| Pipe.written := slice src 0 n |>)) as (p' & I' & S' & Hk' & E').
  - split; rewrite ?E1, ?E2, ?E3, ?E4; simpl; try done; lia.
  - rewrite E5. intros Eeof. apply eof_clause; try done; lia.
  - simpl. by rewrite Hnend.
  - exists p'. split_and!; try done; try apply S'; [congruence|]. intros k. by rewrite Hk'.
Qed.

Lemma push_ok :
  exists p', inv (push_substring data index eof r) p' /\ same_reader p p' /\
    _eof (push_substring data index eof r) = eof' /\
    forall k, have (push_substring data index eof r) k <-> pushed k.
Proof.
  rewrite push_unfold. cbn zeta. cbn [_head_index _auxiliary_cache upd].
  destruct (Z.leb_spec W index) as [HWi|HWi]; [by apply push_nothing; left|].
  destruct (Z.leb_spec (index + zlen data) (_head_index r)) as [Hold|Hnew];
    [by apply push_nothing; right|].
  cbn [orb]. destruct (decide (start < stop)) as [Hs|Hs].
  { pose proof (push_something HWi Hnew Hs) as P. by destruct (merge_behind _ _ _ _). }
  pose proof I as [[R Ew Hh Hch Hgap Et] Heof Hend]. pose proof Hp as [Hi Hl Hd He Hne].
  destruct (limit_eq _ _ _ R Ew Hh) as (_ & _ & HW). fold W in HW, Hch.
  assert (_head_index r = W /\ start = W /\ stop = W) as (EW & Es & Et').
  { apply zlen_nonempty in Hne. unfold start, stop in *. lia. }
  assert (Pipe.ended p = false) as Hnend.
  { destruct (Pipe.ended p) eqn:E; [|done]. pose proof (have_ended r p I E). lia. }
  assert (_auxiliary_cache r = []) as Ec.
  { destruct (_auxiliary_cache r) as [|x l]; [done|]. pose proof (chain_le _ _ _ Hch) as Hle.
    simpl in Hch, Hle. pose proof (total_nonneg l). destruct Hch as (_ & (_ & ? & _) & _). lia. }
  rewrite Es, Et', slice_empty, Z.sub_diag, Ec. simpl merge_behind.
  destruct (push_full (r <| _eof := eof' |>)) as (o & E & Ro); [by split|done..|].
  simpl in E. rewrite Ec in E. rewrite E.
  assert (forall k, have (r <| _eof := eof' |> <| _output := o |>) k <-> pushed k) as Hk.
  { intros k. rewrite <- (push_pieces_have k) by lia. rewrite Es, Et'.
    change (have _ k) with (have r k). split; [tauto|]. intros [?|?]; [done|lia]. }
  edestruct (end_if_done_ok (r <| _eof := eof' |> <| _output := o |>) p) as (p' & I' & S' & Hk' & E').
  - by split.
  - intros Eeof. by apply eof_clause; [..|exact Hk]; simpl; [|lia..].
  - simpl. by rewrite Hnend.
  - simpl in I', Hk', E'. setoid_rewrite Hk in Hk'. rewrite Ec in I', Hk', E'. by exists p'.
Qed.

End Push.

(** The reader takes bytes out of the output stream. *)
Lemma read_inv r p n :
  inv r p -> 0 <= n ->
  inv (r <| _output ::= fun o => (ByteStream.read n o).1 |>) (Pipe.pop n p) /\
  (ByteStream.read n (_output r)).2 = Pipe.peek n p.
Proof.
  intros [[R Ew Hh Hch Hgap Et] Heof Hend] Hn.
  destruct (StreamRefinement.read_ok _ _ R n Hn) as [R' E]. split; [|done].
  split; [split|..]; try done.
  eapply chain_weaken; [reflexivity| |exact Hch]. unfold window_end; simpl.
  pose proof (zlen_nonneg (Pipe.peek n p)). lia.
Qed.

Lemma make_inv cap : 0 < cap < 2 ^ 63 -> inv (make cap) (Pipe.make cap).
Proof.
  intros Hc. pose proof (zlen_nonneg src). split; [split|..]; simpl; try done; try lia.
  - by apply StreamRefinement.make_ok.
  - unfold window_end; simpl. lia.
Qed.

(** *** Runs

    [reach cap r consumed acc fin]: from a reassembler of capacity [cap], pushes
    of substrings of [src] and reads of the output lead to [r]; the reader got
    [consumed], the indices in [acc] were pushed while inside the window, and
    [fin] tells whether a piece that was wholly inside the window was the last. *)
Inductive reach (cap : Z) : StreamReassembler -> bytes -> (Z -> Prop) -> bool -> Prop :=
| reach_make : reach cap (make cap) [] (fun _ => False) false
| reach_push r consumed acc fin data index eof :
    reach cap r consumed acc fin -> pushable r data index eof ->
    reach cap (push_substring data index eof r) consumed
      (fun k => acc k \/ index <= k < index + zlen data /\ k < zlen consumed + cap)
      (fin || (index + zlen data <=? zlen consumed + cap) && eof)
| reach_read r consumed acc fin n :
    reach cap r consumed acc fin -> 0 <= n ->
    reach cap (r <| _output ::= fun o => (ByteStream.read n o).1 |>)
      (consumed ++ (ByteStream.read n (_output r)).2) acc fin.

Lemma reach_inv cap r consumed acc fin :
  0 < cap < 2 ^ 63 -> reach cap r consumed acc fin ->
  exists p, inv r p /\ Pipe.capacity p = cap /\ consumed = take (Z.to_nat (Pipe.popped p)) (Pipe.written p) /\
    (forall k, have r k <-> acc k) /\ _eof r = fin.
Proof.
  intros Hc. induction 1 as [|r consumed acc fin data index eof _ IH Hp|r consumed acc fin n _ IH Hn].
  - exists (Pipe.make cap). split_and!; try done; [by apply make_inv|].
    intros k. unfold have; simpl. pose proof (covered_nil k). split; [intros [?|?]; [lia|done]|done].
  - destruct IH as (p & I & Ec & Ecs & Hk & Ee).
    destruct (push_ok r p I data index eof Hp) as (p' & I' & (Epop & Ecap & _) & Ee' & Hk').
    assert (zlen consumed = Pipe.popped p) as El.
    { destruct I as [[R _ _ _ _ _] _ _]. destruct (StreamRefinement.ref_wf _ _ R) as [_ ? _].
      rewrite Ecs, zlen_take. lia. }
    assert (zlen consumed + cap = window_end p) as -> by (unfold window_end; lia).
    exists p'. split_and!; try done.
    + lia.
    + rewrite Epop, Ecs. pose proof I as [[R Ew Hh _ _ _] _ _].
      pose proof I' as [[R' Ew' Hh' _ _ _] _ _].
      destruct (StreamRefinement.ref_wf _ _ R) as [_ Hpop _].
      destruct (StreamRefinement.ref_wf _ _ R') as [_ Hpop' _].
      rewrite (head_written _ _ Ew Hh) in Hpop. rewrite (head_written _ _ Ew' Hh') in Hpop'.
      rewrite Ew, Ew', !take_slice by lia. done.
    + intros k. rewrite Hk'. unfold pushed. by rewrite Hk.
    + rewrite Ee', <- Ee. done.
  - destruct IH as (p & I & Ec & Ecs & Hk & Ee). destruct (read_inv r p n I Hn) as [I' E].
    exists (Pipe.pop n p). split_and!; try done. rewrite E, Ecs. simpl.
    destruct I as [[R _ _ _ _ _] _ _]. destruct (StreamRefinement.ref_wf _ _ R) as [_ ? _].
    rewrite Z2Nat.inj_add by (try apply zlen_nonneg; lia). rewrite <- take_take_drop. f_equal.
    unfold Pipe.peek, Pipe.pending. set (q := drop _ _).
    unfold zlen. rewrite Nat2Z.id, length_take.
    destruct (Nat.min_spec (Z.to_nat n) (length q)) as [[? ->]|[? ->]]; [done|].
    by rewrite !take_ge by lia.
Qed.

End Source.

(** An empty substring that is not the last, beyond every index, changes nothing. *)
Lemma push_beyond src cap r consumed acc fin :
  zlen src < 2 ^ 63 -> 0 < cap < 2 ^ 63 -> reach src cap r consumed acc fin ->
  push_substring [] (2 ^ 64 - 1) false r = r.
Proof.
  intros Hs Hc H. destruct (reach_inv src Hs cap r consumed acc fin Hc H) as (p & I & _).
  unfold push_substring. set (limit := u64 _). pose proof (u64_range (_head_index r + ByteStream.remaining_capacity (_output r))) as Hl.
  fold limit in Hl. assert (forall b : bool, (if b then r <| _eof ::= fun b => b || false |> else r) = r) as ->.
  { intros []; [|done]. destruct r. simpl. by rewrite orb_false_r. }
  destruct (Z.leb_spec limit (2 ^ 64 - 1)); [|lia]. cbn [orb]. unfold end_if_done.
  destruct I as [[R _ _ _ _ _] _ Hend]. destruct (_eof r && empty r) eqn:E; [|done].
  pose proof (StreamRefinement.ref_ended _ _ R) as He. rewrite Hend in He.
  destruct r as [? ? ? ? [] ?]. simpl in *. by subst.
Qed.

Lemma reach_in_order src cap r consumed acc fin :
  zlen src < 2 ^ 63 -> 0 < cap < 2 ^ 63 -> reach src cap r consumed acc fin ->
  let n := ByteStream.bytes_written (stream_out r) in
  consumed ++ ByteStream.peek_output (2 ^ 64 - 1) (stream_out r) = slice src 0 n /\
  0 <= n <= zlen src /\ (forall k, 0 <= k < n -> acc k) /\ ~ acc n.
Proof.
  intros Hs Hc H. destruct (reach_inv src Hs cap r consumed acc fin Hc H) as (p & I & Ec & Ecs & Hk & _).
  destruct I as [[R Ew Hh Hch Hgap _] _ _]. cbn zeta.
  assert (ByteStream.bytes_written (stream_out r) = _head_index r) as ->.
  { unfold ByteStream.bytes_written, stream_out. rewrite (StreamRefinement.ref_written _ _ R).
    rewrite (head_written src _ _ Ew Hh). wsolve. }
  destruct (StreamRefinement.ref_wf _ _ R) as [? Hpop Hroom].
  rewrite (StreamRefinement.peek_output_ok _ _ R) by lia.
  rewrite <- Ew, Ecs. split_and!; [|lia..| |].
  - unfold Pipe.peek, Pipe.pending. rewrite (take_ge (drop _ _)); [apply take_drop|].
    rewrite length_drop. unfold zlen in *. lia.
  - intros k Hk0. apply Hk. by left.
  - rewrite <- Hk. intros [?|Hcov]; [lia|].
    destruct (_auxiliary_cache r) as [|x l]; [by apply covered_nil in Hcov|].
    simpl in Hgap, Hch. destruct Hch as (_ & Hx & Hch).
    apply covered_cons in Hcov as [[? ?]|Hcov]; [lia|].
    apply (chain_covered _ _ _ _ _ Hch) in Hcov. destruct Hx as (_ & ? & _). unfold entry_end in *. lia.
Qed.

(** The reader's bytes and the buffered ones make up the assembled ones. *)
Lemma reach_buffer src cap r consumed acc fin :
  zlen src < 2 ^ 63 -> 0 < cap < 2 ^ 63 -> reach src cap r consumed acc fin ->
  0 <= ByteStream.buffer_size (stream_out r) /\
  ByteStream.bytes_written (stream_out r) = zlen consumed + ByteStream.buffer_size (stream_out r).
Proof.
  intros Hs Hc H. destruct (reach_inv src Hs cap r consumed acc fin Hc H) as (p & I & Ec & Ecs & _).
  destruct I as [[R Ew Hh _ _ _] _ _]. unfold stream_out.
  pose proof (Pipe.zlen_pending p (StreamRefinement.ref_wf _ _ R)).
  pose proof (head_written src _ _ Ew Hh). destruct (StreamRefinement.ref_wf _ _ R) as [? ? ?].
  rewrite (StreamRefinement.buffer_size_ok _ _ R). unfold ByteStream.bytes_written.
  rewrite (StreamRefinement.ref_written _ _ R), Ecs. autorewrite with zlen. wsimpl. lia.
Qed.

(** C6. In order and nothing but the source: what the reader consumed, followed
    by what the output stream still holds, is exactly the prefix of the source
    that [bytes_written] counts; every byte of it was pushed, and the next byte
    was not, so the prefix is as long as it can be. The substrings come in any order, overlap
    and repeat, but an empty one does not come ahead of the next byte needed ([pushable]):
    the code accepts those and mishandles them ([empty_piece_duplicates],
    [empty_eof_ends_early]). *)
Theorem reassembler_in_order src cap r consumed acc fin :
  zlen src < 2 ^ 63 -> 0 < cap < 2 ^ 63 -> reach src cap r consumed acc fin ->
  let n := ByteStream.bytes_written (stream_out r) in
  consumed ++ ByteStream.peek_output (2 ^ 64 - 1) (stream_out r) = slice src 0 n /\
  0 <= n <= zlen src /\ (forall k, 0 <= k < n -> acc k) /\ ~ acc n.
Proof. apply reach_in_order. Qed.

Lemma reach_end src cap r consumed acc fin :
  zlen src < 2 ^ 63 -> 0 < cap < 2 ^ 63 -> reach src cap r consumed acc fin ->
  ByteStream.input_ended (stream_out r) = true <->
  fin = true /\ forall k, 0 <= k < zlen src -> acc k.
Proof.
  intros Hs Hc H. destruct (reach_inv src Hs cap r consumed acc fin Hc H) as (p & I & Ec & Ecs & Hk & Ee).
  pose proof I as [[R Ew Hh Hch Hgap Et] Heof Hend]. unfold ByteStream.input_ended, stream_out.
  rewrite (StreamRefinement.ref_ended _ _ R). split.
  - intros E. pose proof (have_ended src r p I E). split.
    + rewrite Hend in E. by apply andb_true_iff in E as [<- _].
    + intros k Hk0. apply Hk. left. lia.
  - intros [-> Hall]. rewrite Hend, Ee. simpl. unfold empty. rewrite Et.
    destruct (_auxiliary_cache r) as [|x l] eqn:Ecache; [done|].
    simpl in Hgap, Hch. destruct Hch as (? & (? & ? & ? & _) & Hch).
    assert (have r (_head_index r)) as [?|Hcov] by (apply Hk, Hall; lia); [lia|].
    rewrite Ecache in Hcov. apply covered_cons in Hcov as [[? _]|Hcov]; [lia|].
    apply (chain_covered _ _ _ _ _ Hch) in Hcov. unfold entry_end in *. lia.
Qed.

(** C26. The output stream ends exactly when its last byte is known and every byte
    of the source has arrived, if no empty substring comes ahead of the next byte needed
    ([pushable]; without this it is false, [empty_eof_ends_early]). *)
Theorem reassembler_end src cap r consumed acc fin :
  zlen src < 2 ^ 63 -> 0 < cap < 2 ^ 63 -> reach src cap r consumed acc fin ->
  ByteStream.input_ended (stream_out r) = true <->
  fin = true /\ forall k, 0 <= k < zlen src -> acc k.
Proof. apply reach_end. Qed.

Lemma reach_capacity src cap r consumed acc fin :
  zlen src < 2 ^ 63 -> 0 < cap < 2 ^ 63 -> reach src cap r consumed acc fin ->
  0 <= unassembled_bytes r /\
  ByteStream.buffer_size (stream_out r) + unassembled_bytes r <= cap.
Proof.
  intros Hs Hc H. destruct (reach_inv src Hs cap r consumed acc fin Hc H) as (p & I & Ec & _ & _ & _).
  destruct I as [[R Ew Hh Hch Hgap Et] _ _]. unfold unassembled_bytes, stream_out.
  rewrite (StreamRefinement.buffer_size_ok _ _ R), Et.
  pose proof (Pipe.zlen_pending p (StreamRefinement.ref_wf _ _ R)).
  pose proof (head_written src _ _ Ew Hh). pose proof (chain_le src _ _ _ Hch).
  unfold window_end in *. pose proof (total_nonneg (_auxiliary_cache r)). lia.
Qed.

(** C27. Bytes waiting to be read and bytes waiting to be assembled never exceed
    the capacity together, if no empty substring comes ahead of the next byte needed
    ([pushable]; without this it is false, [empty_piece_overflows]). *)
Theorem reassembler_capacity src cap r consumed acc fin :
  zlen src < 2 ^ 63 -> 0 < cap < 2 ^ 63 -> reach src cap r consumed acc fin ->
  0 <= unassembled_bytes r /\
  ByteStream.buffer_size (stream_out r) + unassembled_bytes r <= cap.
Proof. apply reach_capacity. Qed.

(** *** Witnesses *)

Definition demo_src : bytes := [x61; x62; x63; x64; x65].

(** The tail first, then an overlapping head, then one read. *)
Definition demo_state : StreamReassembler :=
  (push_substring [x61; x62; x63; x64] 0 false (push_substring [x64; x65] 3 true (make 8)))
    <| _output ::= fun o => (ByteStream.read 2 o).1 |>.

Lemma demo_reach : exists acc, reach demo_src 8 demo_state [x61; x62] acc true.
Proof.
  pose proof (reach_make demo_src 8) as H.
  apply (reach_push demo_src 8 _ _ _ _ [x64; x65] 3 true) in H;
    [|split; try (vm_compute; intuition congruence); by left].
  apply (reach_push demo_src 8 _ _ _ _ [x61; x62; x63; x64] 0 false) in H;
    [|split; try (vm_compute; intuition congruence); by left].
  apply (reach_read demo_src 8 _ _ _ _ 2) in H; [|lia].
  eexists. match type of H with
  | reach _ _ _ ?c _ ?f =>
      replace c with [x61; x62] in H by (vm_compute; reflexivity);
      replace f with true in H by (vm_compute; reflexivity)
  end. exact H.
Qed.

Lemma reassembler_in_order_witness :
  [x61; x62] ++ ByteStream.peek_output (2 ^ 64 - 1) (stream_out demo_state) = slice demo_src 0 5.
Proof.
  destruct demo_reach as [acc H].
  apply (reassembler_in_order demo_src 8 demo_state [x61; x62] acc true);
    [vm_compute; reflexivity|lia|done].
Defined.

Lemma reassembler_end_witness : ByteStream.input_ended (stream_out demo_state) = true /\
  exists acc : Z -> Prop, forall k, 0 <= k < 5 -> acc k.
Proof.
  split; [vm_compute; reflexivity|]. destruct demo_reach as [acc H]. exists acc.
  apply (reassembler_end demo_src 8 demo_state [x61; x62] acc true);
    [vm_compute; reflexivity|lia|done|vm_compute; reflexivity].
Defined.

Lemma reassembler_capacity_witness :
  ByteStream.buffer_size (stream_out demo_state) + unassembled_bytes demo_state <= 8.
Proof.
  destruct demo_reach as [acc H].
  apply (reassembler_capacity demo_src 8 demo_state [x61; x62] acc true);
    [vm_compute; reflexivity|lia|done].
Defined.

(** *** Empty substrings beyond the next byte

    [pushable] excludes them for a reason. An empty piece that carries the end of
    the stream ends the output before the bytes in front of it have arrived... *)
Lemma empty_eof_ends_early :
  let r := push_substring [] 5 true (make 8) in
  ByteStream.input_ended (stream_out r) = true /\
  ByteStream.bytes_written (stream_out r) = 0 /\
  ByteStream.bytes_written (stream_out (push_substring [x61; x62; x63; x64; x65] 0 false r)) = 0.
Proof. vm_compute. done. Qed.

(** ... and an empty piece inside a cached one splits the neighbourhood search,
    so that overlapping pieces are both kept and bytes come out twice. *)
Lemma empty_piece_duplicates :
  let r := push_substring [] 3 false (push_substring [x62; x63; x64; x65; x66] 1 false (make 16)) in
  let r := push_substring [x61] 0 false (push_substring [x65; x66; x67] 4 false r) in
  ByteStream.peek_output 16 (stream_out r) =
    [x61; x62; x63; x64; x65; x66; x65; x66; x67].
Proof. vm_compute. done. Qed.

(** The overlapping pieces are counted twice, and more is cached than there is room for. *)
Lemma empty_piece_overflows :
  let r := push_substring [] 3 false (push_substring [x62; x63; x64; x65; x66] 1 false (make 7)) in
  unassembled_bytes (push_substring [x65; x66; x67] 4 false r) = 8.
Proof. vm_compute. done. Qed.

End ReassemblerInvariant.
