(* ===== verification/Buffers.v ===== *)
(** * [Buffer], [BufferList], [BufferViewList] (libsponge/util/buffer.hh, buffer.cc)

    Read-only strings that can discard bytes from the front. A [Buffer] shares
    its storage with its copies; the storage is never written, so a value per
    copy is the same. Every class is related to the string it stands for. *)
From S2P Require Import Prelude.

Module Buffer.

Record Buffer := mkBuffer { _storage : option bytes; _starting_offset : Z }.
#[global] Instance eta_Buffer : Eta Buffer := fun b =>
  mkBuffer (_storage b) (_starting_offset b).

(** [Buffer()] and [Buffer(std::string &&)] *)
Definition empty : Buffer := mkBuffer None 0.
Definition make (str : bytes) : Buffer := mkBuffer (Some str) 0.

(** [str()]: the storage from the starting offset on. *)
Definition str (b : Buffer) : bytes :=
  match _storage b with
  | None => []
  | Some s => drop (Z.to_nat (_starting_offset b)) s
  end.

(** [at(n)]: [std::string_view::at] throws outside the view. *)
Definition at_ (n : Z) (b : Buffer) : result Z :=
  match str b !! Z.to_nat n with
  | Some c => ok (byte_to_Z c)
  | None => throw (out_of_range "basic_string_view::at")
  end.

Definition size (b : Buffer) : Z := zlen (str b).
Definition copy (b : Buffer) : bytes := str b.

Definition remove_prefix (n : Z) (b : Buffer) : result Buffer :=
  if size b <? n then throw (out_of_range "Buffer::remove_prefix")
  else
    let b := b <| _starting_offset ::= fun o => u64 (o + n) |> in
    ok (match _storage b with
        | Some s => if _starting_offset b =? zlen s then b <| _storage := None |> else b
        | None => b
        end).

(** The offset stays inside the storage. *)
Definition wf (b : Buffer) : Prop :=
  0 <= _starting_offset b < 2 ^ 64 /\
  match _storage b with
  | Some s => _starting_offset b <= zlen s < 2 ^ 63
  | None => True
  end.

Lemma empty_wf : wf empty.
Proof. unfold wf. simpl. lia. Qed.

Lemma make_wf s : zlen s < 2 ^ 63 -> wf (make s).
Proof. unfold wf, make. simpl. pose proof (zlen_nonneg s). lia. Qed.

Lemma str_make s : str (make s) = s.
Proof. done. Qed.

Lemma size_range b : wf b -> 0 <= size b < 2 ^ 63.
Proof.
  unfold wf, size, str. destruct (_storage b); autorewrite with zlen; lia.
Qed.

Lemma remove_prefix_ok n b :
  wf b -> 0 <= n <= size b ->
  exists b', remove_prefix n b = ok b' /\ wf b' /\ str b' = drop (Z.to_nat n) (str b).
Proof.
  intros Hwf Hn. pose proof (size_range b Hwf). unfold remove_prefix.
  destruct (Z.ltb_spec (size b) n); [lia|]. eexists. split; [reflexivity|].
  destruct b as [[s|] o]; unfold wf, size, str in *; simpl in *;
    autorewrite with zlen in *.
  - rewrite u64_small by lia. destruct (Z.eqb_spec (o + n) (zlen s)); simpl.
    + split; [lia|]. rewrite drop_drop. symmetry. apply drop_ge.
      unfold zlen in *. lia.
    + split; [lia|]. rewrite drop_drop. f_equal. lia.
  - rewrite u64_small by lia. rewrite drop_nil. split; [lia|done].
Qed.

Lemma remove_prefix_throws n b :
  size b < n -> remove_prefix n b = throw (out_of_range "Buffer::remove_prefix").
Proof. intros. unfold remove_prefix. by destruct (Z.ltb_spec (size b) n); [|lia]. Qed.

End Buffer.

Module BufferList.
Import Buffer.

(** [_buffers] *)
Definition BufferList : Type := list Buffer.

Definition empty : BufferList := [].
Definition of_buffer (buffer : Buffer) : BufferList := [buffer].
Definition append (other l : BufferList) : BufferList := l ++ other.
Definition of_string (s : bytes) : BufferList := append (of_buffer (make s)) empty.

(** [operator Buffer()] *)
Definition to_buffer (l : BufferList) : result Buffer :=
  match l with
  | [] => ok Buffer.empty
  | [b] => ok b
  | _ => throw (runtime_error
      "BufferList: please use concatenate() to combine a multi-Buffer BufferList into one Buffer")
  end.

Fixpoint concatenate (l : BufferList) : bytes :=
  match l with [] => [] | b :: l => str b ++ concatenate l end.

(** The loop accumulates in [ret]. *)
Definition size (l : BufferList) : Z :=
  fold_left (fun ret b => u64 (ret + Buffer.size b)) l 0.

(** Every iteration but the last removes the front buffer. *)
Fixpoint remove_prefix (n : Z) (l : BufferList) : result BufferList :=
  if n <=? 0 then ok l
  else
    match l with
    | [] => throw (out_of_range "BufferList::remove_prefix")
    | b :: l' =>
        if n <? zlen (str b) then
          let! b := Buffer.remove_prefix n b in ok (b :: l')
        else remove_prefix (u64 (n - zlen (str b))) l'
    end.

Definition wf (l : BufferList) : Prop := Forall Buffer.wf l /\ zlen (concatenate l) < 2 ^ 63.

Lemma concatenate_app l k : concatenate (l ++ k) = concatenate l ++ concatenate k.
Proof. induction l; simpl; [done|]. by rewrite IHl, app_assoc. Qed.

Lemma size_fold l n :
  0 <= n -> n + zlen (concatenate l) < 2 ^ 64 ->
  fold_left (fun ret b => u64 (ret + Buffer.size b)) l n = n + zlen (concatenate l).
Proof.
  revert n. induction l as [|b l IH]; intros n Hn; simpl; autorewrite with zlen; [lia|].
  pose proof (zlen_nonneg (str b)). pose proof (zlen_nonneg (concatenate l)).
  intros. unfold Buffer.size. rewrite u64_small by lia. rewrite IH; lia.
Qed.

Lemma size_concatenate l : wf l -> size l = zlen (concatenate l).
Proof. intros []. unfold size. rewrite size_fold; lia. Qed.

Lemma to_buffer_ok l b : to_buffer l = ok b -> str b = concatenate l.
Proof.
  destruct l as [|b' [|? ?]]; simpl; unfold ok, throw; intros; simplify_eq; [done|].
  by rewrite app_nil_r.
Qed.

Lemma wf_cons b l : wf (b :: l) -> Buffer.wf b /\ wf l.
Proof.
  intros [Hb Hs]. inversion Hb; subst. simpl in Hs. autorewrite with zlen in Hs.
  pose proof (zlen_nonneg (str b)). split; [done|]. split; [done|lia].
Qed.

Lemma remove_prefix_spec n l :
  wf l -> 0 <= n < 2 ^ 64 ->
  (n <= zlen (concatenate l) /\
   exists l', remove_prefix n l = ok l' /\ wf l' /\
     concatenate l' = drop (Z.to_nat n) (concatenate l)) \/
  (zlen (concatenate l) < n /\
   remove_prefix n l = throw (out_of_range "BufferList::remove_prefix")).
Proof.
  revert n. induction l as [|b l IH]; intros n Hwf Hn; simpl.
  - destruct (Z.leb_spec n 0); [left|right]; autorewrite with zlen; split; try lia; [|done].
    eexists. split; [done|]. split; [done|by rewrite drop_nil].
  - apply wf_cons in Hwf as Hw. destruct Hw as [Hb Hl]. destruct Hwf as [HF Hs].
    simpl in Hs. autorewrite with zlen in *. pose proof (zlen_nonneg (concatenate l)).
    pose proof (zlen_nonneg (str b)). destruct (Z.leb_spec n 0).
    { left. split; [lia|]. exists (b :: l). replace n with 0 by lia.
      split; [done|]. split; [|done]. split; [done|]. simpl. by autorewrite with zlen. }
    destruct (Z.ltb_spec n (zlen (str b))).
    + left. split; [lia|].
      destruct (Buffer.remove_prefix_ok n b Hb) as (b'&->&Hb'&Hstr); [unfold Buffer.size; lia|].
      exists (b' :: l). split; [done|]. inversion HF; subst. split.
      * split; [by constructor|]. simpl. rewrite Hstr. autorewrite with zlen. lia.
      * simpl. rewrite Hstr, drop_app_le; [done|unfold zlen in *; lia].
    + rewrite u64_small by lia.
      destruct (IH (n - zlen (str b)) Hl) as [(?&l'&->&Hl'&E)|(?&->)]; [lia| |].
      * left. split; [lia|]. exists l'. rewrite E, drop_app_ge by (unfold zlen in *; lia).
        split; [done|]. split; [done|]. f_equal. unfold zlen in *; lia.
      * right. split; [lia|done].
Qed.

End BufferList.

Module BufferViewList.

(** [_views] *)
Definition BufferViewList : Type := list bytes.

Definition of_string (s : bytes) : BufferViewList := [s].
Definition of_buffer_list (buffers : BufferList.BufferList) : BufferViewList :=
  map Buffer.str buffers.

Fixpoint remove_prefix (n : Z) (l : BufferViewList) : result BufferViewList :=
  if n <=? 0 then ok l
  else
    match l with
    | [] => throw (out_of_range "BufferListView::remove_prefix")
    | v :: l' =>
        if n <? zlen v then ok (drop (Z.to_nat n) v :: l')
        else remove_prefix (u64 (n - zlen v)) l'
    end.

Definition size (l : BufferViewList) : Z :=
  fold_left (fun ret v => u64 (ret + zlen v)) l 0.

(** An [iovec] is the view as base and length. *)
Definition as_iovecs (l : BufferViewList) : list (bytes * Z) :=
  map (fun x => (x, zlen x)) l.

(** A view of a [BufferList] follows it through [remove_prefix]. *)
Lemma remove_prefix_views n (l : BufferList.BufferList) :
  BufferList.wf l -> 0 <= n < 2 ^ 64 ->
  match BufferList.remove_prefix n l with
  | inr l' => remove_prefix n (of_buffer_list l) = ok (of_buffer_list l')
  | inl _ => remove_prefix n (of_buffer_list l) =
      throw (out_of_range "BufferListView::remove_prefix")
  end.
Proof.
  revert n. induction l as [|b l IH]; intros n Hwf Hn; simpl;
    destruct (Z.leb_spec n 0); try done.
  apply BufferList.wf_cons in Hwf as [Hb Hl].
  destruct (Z.ltb_spec n (zlen (Buffer.str b))).
  - destruct (Buffer.remove_prefix_ok n b Hb) as (b'&->&_&<-); [unfold Buffer.size; lia|done].
  - pose proof (zlen_nonneg (Buffer.str b)). apply IH; [done|]. rewrite u64_small; lia.
Qed.

End BufferViewList.

(** ** Theorems *)

(** [BufferList::remove_prefix] is the removal of the first [n] bytes of the
    concatenated string, and throws exactly when there are fewer than [n]. *)
Theorem buffer_list_remove_prefix n (l : BufferList.BufferList) :
  BufferList.wf l -> 0 <= n < 2 ^ 64 ->
  match BufferList.remove_prefix n l with
  | inr l' => n <= BufferList.size l /\ BufferList.wf l' /\
      BufferList.size l' = BufferList.size l - n /\
      BufferList.concatenate l' = drop (Z.to_nat n) (BufferList.concatenate l)
  | inl e => BufferList.size l < n /\ e = out_of_range "BufferList::remove_prefix"
  end.
Proof.
  intros Hwf Hn. rewrite (BufferList.size_concatenate l Hwf).
  destruct (BufferList.remove_prefix_spec n l Hwf) as [(?&l'&->&Hl'&E)|(?&->)]; [lia| |done].
  simpl. rewrite (BufferList.size_concatenate l' Hl'), E. autorewrite with zlen.
  split; [lia|]. split; [done|]. split; [lia|done].
Qed.

Lemma buffer_list_remove_prefix_witness :
  match BufferList.remove_prefix 3 [Buffer.make [x61; x62]; Buffer.make [x63; x64]] with
  | inr l' => 3 <= 4 /\ BufferList.wf l' /\ BufferList.size l' = 4 - 3 /\
      BufferList.concatenate l' = drop 3 [x61; x62; x63; x64]
  | inl e => 4 < 3 /\ e = out_of_range "BufferList::remove_prefix"
  end.
Proof.
  apply (buffer_list_remove_prefix 3 [Buffer.make [x61; x62]; Buffer.make [x63; x64]]); [|lia].
  split; [repeat constructor; simpl; try lia; done|done].
Defined.
