(* ===== verification/Parser.v ===== *)
(** * [NetParser], [NetUnparser] (libsponge/util/parser.hh, parser.cc)

    Reading and writing integers in network byte order. The parser keeps the
    unread bytes and a sticky error. [parses] and [reads] below are the two
    judgements with which the message formats are verified: what a parser
    returns on a given string, and how many bytes it takes from any string. *)
From S2P Require Import Prelude Buffers.

Inductive ParseResult :=
  | NoError
  | BadChecksum
  | PacketTooShort
  | WrongIPVersion
  | HeaderTooShort
  | TruncatedPacket
  | Unsupported.

#[export] Instance ParseResult_eq_dec : EqDecision ParseResult.
Proof. solve_decision. Defined.

(** The enumerators are numbered in order. *)
Definition ParseResult_to_Z (r : ParseResult) : Z :=
  match r with
  | NoError => 0 | BadChecksum => 1 | PacketTooShort => 2 | WrongIPVersion => 3
  | HeaderTooShort => 4 | TruncatedPacket => 5 | Unsupported => 6
  end.

Definition _names : list string :=
  ["NoError"; "BadChecksum"; "PacketTooShort"; "WrongIPVersion"; "HeaderTooShort";
   "TruncatedPacket"].

(** [as_string]; [None] is an access outside the array. *)
Definition as_string (r : ParseResult) : option string :=
  _names !! Z.to_nat (ParseResult_to_Z r).

(** [Unsupported] has no entry: [as_string] reads past the end of the array. *)
Lemma as_string_unsupported r : as_string r = None <-> r = Unsupported.
Proof. by destruct r. Qed.

Module NetUnparser.

(** [_unparse_int]: the remaining [n] bytes, the most significant first. *)
Fixpoint _unparse_int (n : nat) (val : Z) (s : bytes) : bytes :=
  match n with
  | O => s
  | S n =>
      let the_byte := Z.land (Z.shiftr val (Z.of_nat n * 8)) 255 in
      _unparse_int n val (s ++ [byte_of_Z the_byte])
  end.

Definition u32 (s : bytes) (val : Z) : bytes := _unparse_int 4 val s.
Definition u16 (s : bytes) (val : Z) : bytes := _unparse_int 2 val s.
Definition u8 (s : bytes) (val : Z) : bytes := _unparse_int 1 val s.

End NetUnparser.

Module NetParser.

Record NetParser := mkNetParser { _buffer : Buffer.Buffer; _error : ParseResult }.
#[global] Instance eta_NetParser : Eta NetParser := fun p =>
  mkNetParser (_buffer p) (_error p).

Definition make (buffer : Buffer.Buffer) : NetParser := mkNetParser buffer NoError.
Definition buffer (p : NetParser) : Buffer.Buffer := _buffer p.
Definition get_error (p : NetParser) : ParseResult := _error p.
Definition set_error (res : ParseResult) (p : NetParser) : NetParser := p <| _error := res |>.
Definition error (p : NetParser) : bool := negb (bool_decide (get_error p = NoError)).

Definition _check_size (size : Z) (p : NetParser) : NetParser :=
  if Buffer.size (_buffer p) <? size then set_error PacketTooShort p else p.

(** The loop of [_parse_int], from index [i] on; [w] is the width of the type. *)
Fixpoint parse_loop (n : nat) (w i : Z) (b : Buffer.Buffer) (ret : Z) : result Z :=
  match n with
  | O => ok ret
  | S n =>
      let ret := Z.shiftl ret 8 mod 2 ^ w in
      let! c := Buffer.at_ i b in
      parse_loop n w (i + 1) b ((ret + c) mod 2 ^ w)
  end.

(** [_parse_int<T>] for a type of [len] bytes *)
Definition _parse_int (len : nat) : M NetParser Z := fun p =>
  let p := _check_size (Z.of_nat len) p in
  if error p then ok (0, p)
  else
    let! ret := parse_loop len (8 * Z.of_nat len) 0 (_buffer p) 0 in
    let! b := Buffer.remove_prefix (Z.of_nat len) (_buffer p) in
    ok (ret, p <| _buffer := b |>).

Definition u32 : M NetParser Z := _parse_int 4.
Definition u16 : M NetParser Z := _parse_int 2.
Definition u8 : M NetParser Z := _parse_int 1.

Definition remove_prefix (n : Z) : M NetParser unit := fun p =>
  let p := _check_size n p in
  if error p then ok (tt, p)
  else
    let! b := Buffer.remove_prefix n (_buffer p) in
    ok (tt, p <| _buffer := b |>).

End NetParser.

(** ** Big-endian integers *)

(** The number whose base-256 digits, the most significant first, are [s]. *)
Fixpoint be_decode (s : bytes) : Z :=
  match s with
  | [] => 0
  | c :: s => byte_to_Z c * 2 ^ (8 * zlen s) + be_decode s
  end.

(** The [n] low base-256 digits of [val]. *)
Fixpoint be_encode (n : nat) (val : Z) : bytes :=
  match n with
  | O => []
  | S n => byte_of_Z (val / 2 ^ (8 * Z.of_nat n)) :: be_encode n val
  end.

Lemma zlen_be_encode n v : zlen (be_encode n v) = Z.of_nat n.
Proof. induction n; simpl; [done|]. autorewrite with zlen. lia. Qed.
#[export] Hint Rewrite zlen_be_encode : zlen.

Lemma length_be_encode n v : length (be_encode n v) = n.
Proof. pose proof (zlen_be_encode n v). unfold zlen in *. lia. Qed.

Lemma unparse_int_eq n v s : NetUnparser._unparse_int n v s = s ++ be_encode n v.
Proof.
  revert s. induction n as [|n IH]; intros s; simpl; [by rewrite app_nil_r|].
  rewrite IH, <- app_assoc. simpl. do 2 f_equal.
  rewrite Z.shiftr_div_pow2, (Z.land_ones _ 8) by lia.
  replace (Z.of_nat n * 8) with (8 * Z.of_nat n) by lia.
  unfold byte_of_Z. by rewrite (u8_small (_ mod _)) by (apply Z.mod_pos_bound; lia).
Qed.

Lemma be_decode_encode n v : be_decode (be_encode n v) = v mod 2 ^ (8 * Z.of_nat n).
Proof.
  induction n as [|n IH]; [simpl; by rewrite Z.mod_1_r|].
  simpl be_encode. simpl be_decode. rewrite IH, byte_to_of_Z, zlen_be_encode.
  set (k := 8 * Z.of_nat n). assert (0 < 2 ^ k) by (apply Z.pow_pos_nonneg; lia).
  replace (8 * Z.of_nat (S n)) with (k + 8) by lia.
  rewrite Z.pow_add_r by lia. rewrite Z.rem_mul_r by lia. unfold u8. lia.
Qed.

Lemma be_decode_range s : 0 <= be_decode s < 2 ^ (8 * zlen s).
Proof.
  induction s as [|c s IH]; [done|]. simpl. autorewrite with zlen.
  pose proof (byte_to_Z_range c). pose proof (zlen_nonneg s).
  replace (8 * (1 + zlen s)) with (8 + 8 * zlen s) by lia.
  rewrite Z.pow_add_r by lia. nia.
Qed.

Lemma be_encode_decode s : be_encode (length s) (be_decode s) = s.
Proof.
  induction s as [|c s IH]; [done|]. simpl. fold (zlen s).
  pose proof (be_decode_range s). pose proof (zlen_nonneg s). f_equal.
  - rewrite Z.div_add_l, Z.div_small, Z.add_0_r by lia. apply byte_of_to_Z.
  - etrans; [|exact IH]. clear IH.
    assert (forall n, (n <= length s)%nat -> be_encode n (byte_to_Z c * 2 ^ (8 * zlen s) + be_decode s)
      = be_encode n (be_decode s)) as E; [|by apply E].
    induction n as [|n IHn]; intros; simpl; [done|]. f_equal; [|apply IHn; lia].
    apply byte_to_Z_inj. rewrite !byte_to_of_Z. unfold u8.
    replace (8 * zlen s) with (8 * (zlen s - Z.of_nat n - 1) + 8 + 8 * Z.of_nat n) by lia.
    rewrite !Z.pow_add_r by (unfold zlen; lia). rewrite Z.mul_assoc, Z.div_add_l by lia.
    rewrite Z.mul_assoc, Z.add_comm, Z.mod_add by lia. done.
Qed.

(** ** Judgements on parsers *)

(** [at_bytes p s]: no error so far and [s] is what is left to read. *)
Definition at_bytes (p : NetParser.NetParser) (s : bytes) : Prop :=
  Buffer.wf (NetParser._buffer p) /\ NetParser._error p = NoError /\
  Buffer.str (NetParser._buffer p) = s.

(** The parser ran out of data. *)
Definition short (p : NetParser.NetParser) : Prop :=
  Buffer.wf (NetParser._buffer p) /\ NetParser._error p = PacketTooShort.

(** On [s], [m] returns [a] and leaves [t]. *)
Definition parses {A} (m : M NetParser.NetParser A) (s : bytes) (a : A) (t : bytes) : Prop :=
  forall p, at_bytes p s -> exists p', m p = ok (a, p') /\ at_bytes p' t.

(** [m] never throws; it takes [n] bytes, or reports that there are fewer. *)
Definition reads {A} (n : Z) (m : M NetParser.NetParser A) : Prop :=
  0 <= n /\
  (forall p s, at_bytes p s -> n <= zlen s ->
     exists a p', m p = ok (a, p') /\ at_bytes p' (drop (Z.to_nat n) s)) /\
  (forall p s, at_bytes p s -> zlen s < n -> exists a p', m p = ok (a, p') /\ short p') /\
  (forall p, short p -> exists a p', m p = ok (a, p') /\ short p').

Lemma make_at_bytes b : Buffer.wf b -> at_bytes (NetParser.make b) (Buffer.str b).
Proof. done. Qed.

Lemma parses_ret {A} (a : A) s : parses (ret a) s a s.
Proof. intros p H. by exists p. Qed.

Lemma parses_bind {A B} (m : M _ A) (k : A -> M _ B) s a t b u :
  parses m s a t -> parses (k a) t b u -> parses (bind m k) s b u.
Proof.
  intros Hm Hk p H. destruct (Hm p H) as (p'&E&H'). destruct (Hk p' H') as (p''&E'&H'').
  exists p''. unfold bind. rewrite E. done.
Qed.

Lemma parses_gets {A} (f : NetParser.NetParser -> A) s a :
  (forall p, at_bytes p s -> f p = a) -> parses (gets f) s a s.
Proof. intros Hf p H. exists p. unfold gets. by rewrite (Hf p H). Qed.

Lemma parses_bind_gets {A B} (f : NetParser.NetParser -> A) (k : A -> M _ B) s b u :
  (forall p, at_bytes p s -> parses (k (f p)) s b u) -> parses (bind (gets f) k) s b u.
Proof. intros H p Hp. apply (H p Hp p Hp). Qed.

Lemma reads_ret {A} (a : A) : reads 0 (ret a).
Proof.
  split; [done|]. repeat split; intros.
  - exists a, p. by rewrite drop_0.
  - pose proof (zlen_nonneg s). lia.
  - by exists a, p.
Qed.

Lemma reads_gets {A} (f : NetParser.NetParser -> A) : reads 0 (gets f).
Proof.
  split; [done|]. repeat split; intros.
  - exists (f p), p. by rewrite drop_0.
  - pose proof (zlen_nonneg s). lia.
  - by exists (f p), p.
Qed.

Lemma reads_bind {A B} n k (m : M NetParser.NetParser A) (f : A -> M NetParser.NetParser B) :
  reads n m -> (forall a, reads k (f a)) -> 0 <= k -> reads (n + k) (bind m f).
Proof.
  intros (?&Hm1&Hm2&Hm3) Hf Hk. split; [lia|]. unfold bind.
  split; [|split].
  - intros p s Hp Hs. destruct (Hm1 p s Hp) as (a&p'&->&Hp'); [lia|]. simpl.
    destruct (Hf a) as (_&Hf1&_). destruct (Hf1 p' _ Hp') as (b&p''&->&Hp'').
    { autorewrite with zlen. lia. }
    exists b, p''. split; [done|]. rewrite drop_drop in Hp''.
    by replace (Z.to_nat (n + k)) with (Z.to_nat n + Z.to_nat k)%nat by lia.
  - intros p s Hp Hs. destruct (decide (n <= zlen s)) as [Hn|Hn].
    + destruct (Hm1 p s Hp Hn) as (a&p'&->&Hp'). simpl.
      destruct (Hf a) as (_&_&Hf2&_). apply (Hf2 p' _ Hp').
      autorewrite with zlen. lia.
    + destruct (Hm2 p s Hp) as (a&p'&->&Hp'); [lia|]. simpl. by apply (Hf a).
  - intros p Hp. destruct (Hm3 p Hp) as (a&p'&->&Hp'). simpl. by apply (Hf a).
Qed.

(** The loop of [_parse_int] computes [be_decode]. *)
Lemma parse_loop_eq n w i b ret :
  (n <= length (drop (Z.to_nat i) (Buffer.str b)))%nat -> 0 <= i -> 0 <= w ->
  0 <= ret < 2 ^ w -> ret * 2 ^ (8 * Z.of_nat n) + 2 ^ (8 * Z.of_nat n) <= 2 ^ w ->
  NetParser.parse_loop n w i b ret =
  ok (ret * 2 ^ (8 * Z.of_nat n) + be_decode (take n (drop (Z.to_nat i) (Buffer.str b)))).
Proof.
  revert i ret. induction n as [|n IH]; intros i ret Hlen Hi Hw Hret Hb; simpl.
  { unfold ok. f_equal. change (2 ^ (8 * 0)) with 1. lia. }
  set (s := Buffer.str b) in *. unfold Buffer.at_. fold s.
  destruct (s !! Z.to_nat i) as [c|] eqn:E.
  2: { apply lookup_ge_None in E. rewrite length_drop in Hlen. lia. }
  pose proof (byte_to_Z_range c).
  replace (8 * Z.of_nat (S n)) with (8 + 8 * Z.of_nat n) in * by lia.
  rewrite Z.pow_add_r in * by lia. set (k := 2 ^ (8 * Z.of_nat n)) in *.
  assert (0 < k) by (apply Z.pow_pos_nonneg; lia).
  change (2 ^ 8) with 256 in *.
  rewrite Z.shiftl_mul_pow2 by lia. change (2 ^ 8) with 256. simpl.
  rewrite (Z.mod_small (ret * 256)) by nia.
  rewrite Z.mod_small by nia. rewrite (drop_S _ _ _ E).
  replace (S (Z.to_nat i)) with (Z.to_nat (i + 1)) by lia.
  rewrite (drop_S _ _ _ E) in Hlen. simpl in Hlen.
  rewrite IH; [|replace (Z.to_nat (i + 1)) with (S (Z.to_nat i)) by lia; fold s; lia|lia|lia|nia|fold k; nia].
  fold k s. simpl be_decode. unfold ok. f_equal. rewrite zlen_take.
  replace (Z.min _ _) with (Z.of_nat n).
  2: { unfold zlen. replace (Z.to_nat (i + 1)) with (S (Z.to_nat i)) by lia. lia. }
  fold k. lia.
Qed.

Lemma check_size_ok n p s :
  at_bytes p s -> n <= zlen s -> NetParser._check_size n p = p /\ NetParser.error p = false.
Proof.
  intros (?&He&Hs) Hn. unfold NetParser._check_size, NetParser.error, NetParser.get_error.
  unfold Buffer.size. rewrite Hs, He. by destruct (Z.ltb_spec (zlen s) n); [lia|].
Qed.

Lemma check_size_short n p s :
  at_bytes p s -> zlen s < n ->
  short (NetParser._check_size n p) /\ NetParser.error (NetParser._check_size n p) = true.
Proof.
  intros (?&He&Hs) Hn. unfold NetParser._check_size, Buffer.size. rewrite Hs.
  by destruct (Z.ltb_spec (zlen s) n); [|lia].
Qed.

Lemma check_size_stuck n p :
  short p -> short (NetParser._check_size n p) /\
  NetParser.error (NetParser._check_size n p) = true.
Proof.
  intros [? He]. unfold NetParser._check_size. destruct (_ <? _); [done|].
  split; [done|]. unfold NetParser.error, NetParser.get_error. by rewrite He.
Qed.

Lemma parses_int len s :
  Z.of_nat len <= zlen s ->
  parses (NetParser._parse_int len) s (be_decode (take len s)) (drop len s).
Proof.
  intros Hlen p Hp. destruct (check_size_ok _ _ _ Hp Hlen) as [E1 E2].
  destruct Hp as (Hwf&He&Hs). unfold NetParser._parse_int. rewrite E1, E2.
  assert (0 < 2 ^ (8 * Z.of_nat len)) by (apply Z.pow_pos_nonneg; lia).
  rewrite parse_loop_eq by (rewrite ?Hs; change (Z.to_nat 0) with 0%nat; rewrite ?drop_0; unfold zlen in *; lia).
  destruct (Buffer.remove_prefix_ok (Z.of_nat len) (NetParser._buffer p) Hwf) as (b&Eb&Hb&Hstr).
  { unfold Buffer.size. rewrite Hs. lia. }
  simpl. rewrite Eb. simpl. eexists. split.
  - rewrite Hs, drop_0. reflexivity.
  - repeat split; [apply Hb..|done|]. simpl. by rewrite Hstr, Hs, Nat2Z.id.
Qed.

Lemma reads_int len : reads (Z.of_nat len) (NetParser._parse_int len).
Proof.
  split; [lia|]. split; [|split].
  - intros p s Hp Hs. destruct (parses_int len s Hs p Hp) as (p'&->&Hp').
    rewrite Nat2Z.id. eauto.
  - intros p s Hp Hs. destruct (check_size_short _ _ _ Hp Hs) as [? E].
    unfold NetParser._parse_int. rewrite E. eauto.
  - intros p Hp. destruct (check_size_stuck (Z.of_nat len) p Hp) as [? E].
    unfold NetParser._parse_int. rewrite E. eauto.
Qed.

Lemma reads_u32 : reads 4 NetParser.u32.
Proof. apply (reads_int 4). Qed.
Lemma reads_u16 : reads 2 NetParser.u16.
Proof. apply (reads_int 2). Qed.
Lemma reads_u8 : reads 1 NetParser.u8.
Proof. apply (reads_int 1). Qed.

Lemma parses_encoded len v t :
  0 <= v < 2 ^ (8 * Z.of_nat len) ->
  parses (NetParser._parse_int len) (be_encode len v ++ t) v t.
Proof.
  intros Hv. assert (length (be_encode len v) = len) as Hl.
  { pose proof (zlen_be_encode len v). unfold zlen in *. lia. }
  pose proof (parses_int len (be_encode len v ++ t)) as H.
  rewrite take_app_length', drop_app_length' in H by done.
  rewrite be_decode_encode, Z.mod_small in H by done. apply H.
  autorewrite with zlen. pose proof (zlen_nonneg t). lia.
Qed.

Lemma parses_u32 v t :
  0 <= v < 2 ^ 32 -> parses NetParser.u32 (be_encode 4 v ++ t) v t.
Proof. apply (parses_encoded 4). Qed.
Lemma parses_u16 v t :
  0 <= v < 2 ^ 16 -> parses NetParser.u16 (be_encode 2 v ++ t) v t.
Proof. apply (parses_encoded 2). Qed.
Lemma parses_u8 v t :
  0 <= v < 2 ^ 8 -> parses NetParser.u8 (be_encode 1 v ++ t) v t.
Proof. apply (parses_encoded 1). Qed.

Lemma parses_remove_prefix s t :
  parses (NetParser.remove_prefix (zlen s)) (s ++ t) tt t.
Proof.
  intros p Hp. pose proof (zlen_nonneg t). pose proof (zlen_nonneg s).
  assert (zlen s <= zlen (s ++ t)) as Hle by (autorewrite with zlen; lia).
  destruct (check_size_ok _ _ _ Hp Hle) as [E1 E2]. destruct Hp as (Hwf&He&Hs).
  unfold NetParser.remove_prefix. rewrite E1, E2.
  destruct (Buffer.remove_prefix_ok (zlen s) (NetParser._buffer p) Hwf) as (b&->&Hb&Hstr).
  { unfold Buffer.size. rewrite Hs. lia. }
  simpl. eexists. split; [reflexivity|]. split; [done|]. split; [done|]. simpl.
  rewrite Hstr, Hs. apply drop_app_length'. unfold zlen. lia.
Qed.

(** Skipping [n] bytes and then asking for the error. *)
Lemma parses_skip {B} n s t b u (k : bool -> ParseResult -> M NetParser.NetParser B) :
  n = zlen s -> parses (k false NoError) t b u ->
  parses (let* _ := NetParser.remove_prefix n in
          let* e := gets NetParser.error in
          let* err := gets NetParser.get_error in
          k e err) (s ++ t) b u.
Proof.
  intros -> Hk. eapply parses_bind; [apply parses_remove_prefix|].
  apply parses_bind with (a := false) (t := t);
    [|apply parses_bind with (a := NoError) (t := t); [|done]];
    apply parses_gets; intros p (?&E&?); [|done].
  unfold NetParser.error, NetParser.get_error. by rewrite E.
Qed.

Lemma reads_remove_prefix n : 0 <= n -> reads n (NetParser.remove_prefix n).
Proof.
  intros Hn. split; [done|]. split; [|split].
  - intros p s Hp Hs. pose proof (parses_remove_prefix (take (Z.to_nat n) s) (drop (Z.to_nat n) s)) as H.
    rewrite take_drop in H. replace (zlen (take _ s)) with n in H by (autorewrite with zlen; lia).
    destruct (H p Hp) as (p'&->&Hp'). eauto.
  - intros p s Hp Hs. destruct (check_size_short _ _ _ Hp Hs) as [? E].
    unfold NetParser.remove_prefix. rewrite E. eauto.
  - intros p Hp. destruct (check_size_stuck n p Hp) as [? E].
    unfold NetParser.remove_prefix. rewrite E. eauto.
Qed.

Create HintDb parse.
#[export] Hint Resolve parses_u32 parses_u16 parses_u8 parses_ret parses_remove_prefix : parse.
#[export] Hint Resolve reads_u32 reads_u16 reads_u8 reads_ret reads_gets reads_remove_prefix : parse.

Lemma unparse_u32 s v : NetUnparser.u32 s v = s ++ be_encode 4 v.
Proof. apply unparse_int_eq. Qed.
Lemma unparse_u16 s v : NetUnparser.u16 s v = s ++ be_encode 2 v.
Proof. apply unparse_int_eq. Qed.
Lemma unparse_u8 s v : NetUnparser.u8 s v = s ++ be_encode 1 v.
Proof. apply unparse_int_eq. Qed.
Create Rewrite HintDb unparse.
#[export] Hint Rewrite unparse_u32 unparse_u16 unparse_u8 : unparse.

(** [pstep] runs one read of a parser on a string that starts with the encoding
    of what it reads. *)
Ltac pstep := eapply parses_bind; [solve [eauto with parse]|].

(** ** Theorems *)

(** An integer written by [NetUnparser] after a string and read back by
    [NetParser] is the integer, whatever follows it, and nothing else is
    consumed; conversely the bytes an integer was read from are what
    [NetUnparser] writes for it. *)
Theorem parser_roundtrip (len : nat) (v : Z) (b : Buffer.Buffer) (t : bytes) :
  0 <= v < 2 ^ (8 * Z.of_nat len) -> Buffer.wf b ->
  (Buffer.str b = NetUnparser._unparse_int len v [] ++ t ->
   exists p', NetParser._parse_int len (NetParser.make b) = ok (v, p') /\
     NetParser.get_error p' = NoError /\ Buffer.str (NetParser.buffer p') = t) /\
  (forall x p', NetParser._parse_int len (NetParser.make b) = ok (x, p') ->
   NetParser.get_error p' = NoError ->
   NetUnparser._unparse_int len x [] ++ Buffer.str (NetParser.buffer p') = Buffer.str b).
Proof.
  intros Hv Hb. rewrite unparse_int_eq. simpl. split.
  - intros Hs. destruct (parses_encoded len v t Hv (NetParser.make b)) as (p'&E&_&He&Ht).
    { by rewrite <- Hs. }
    by exists p'.
  - intros x p' E He. rewrite unparse_int_eq. simpl.
    destruct (decide (Z.of_nat len <= zlen (Buffer.str b))) as [Hlen|Hlen].
    + destruct (parses_int len _ Hlen _ (make_at_bytes b Hb)) as (p''&E'&_&_&Hs).
      rewrite E in E'. unfold ok in E'. simplify_eq. unfold NetParser.buffer. rewrite Hs.
      replace len with (length (take len (Buffer.str b))) at 1
        by (rewrite length_take; unfold zlen in *; lia).
      by rewrite be_encode_decode, take_drop.
    + destruct (reads_int len) as (_&_&Hshort&_).
      destruct (Hshort _ _ (make_at_bytes b Hb)) as (a&p''&E'&_&Hp'); [lia|].
      rewrite E in E'. unfold ok in E'. simplify_eq. unfold NetParser.get_error in He. congruence.
Qed.

Lemma parser_roundtrip_witness :
  exists p', NetParser._parse_int 2 (NetParser.make (Buffer.make [x12; x34; xff])) = ok (4660, p') /\
    NetParser.get_error p' = NoError /\ Buffer.str (NetParser.buffer p') = [xff].
Proof.
  apply (parser_roundtrip 2 4660 (Buffer.make [x12; x34; xff]) [xff]);
    [split; done | split; simpl; [done|split; done] | reflexivity].
Defined.
