(* ===== verification/Checksum.v ===== *)
(** * [InternetChecksum] (libsponge/util/util.hh, util.cc)

    The 16-bit one's complement checksum of IPv4 and TCP. The class adds bytes
    into a 32-bit sum and folds the carries at the end; the reference is the
    end-around-carry addition of the 16-bit words. *)
From S2P Require Import Prelude Buffers Parser.

Module InternetChecksum.

Record InternetChecksum := mkInternetChecksum { _sum : Z; _parity : bool }.
#[global] Instance eta_InternetChecksum : Eta InternetChecksum := fun c =>
  mkInternetChecksum (_sum c) (_parity c).

Definition make (initial_sum : Z) : InternetChecksum := mkInternetChecksum initial_sum false.

(** One iteration of the loop of [add]. *)
Definition add_byte (c : InternetChecksum) (b : byte) : InternetChecksum :=
  let val := byte_to_Z b in
  let val := if negb (_parity c) then u16 (Z.shiftl val 8) else val in
  c <| _sum ::= fun n => u32 (n + val) |> <| _parity ::= negb |>.

Definition add (data : bytes) (c : InternetChecksum) : InternetChecksum :=
  fold_left add_byte data c.

(** The loop of [value]. Two iterations bring any 32-bit sum below 2^16, see
    [fold_carries_spec]. *)
Fixpoint fold_carries (fuel : nat) (ret : Z) : Z :=
  match fuel with
  | O => ret
  | S fuel =>
      if 65535 <? ret then fold_carries fuel (u32 (Z.shiftr ret 16 + Z.land ret 65535))
      else ret
  end.

Definition value (c : InternetChecksum) : Z := u16 (Z.lnot (fold_carries 2 (_sum c))).

End InternetChecksum.

(** ** Reference *)

(** One's complement addition of two 16-bit words: the carry is added back. *)
Definition oc_add (a b : Z) : Z := if 65535 <? a + b then a + b - 65535 else a + b.
Definition oc_sum (ws : list Z) : Z := fold_left oc_add ws 0.

(** The big-endian 16-bit words of a string, the last one padded with a zero. *)
Fixpoint words (s : bytes) : list Z :=
  match s with
  | a :: b :: s => byte_to_Z a * 256 + byte_to_Z b :: words s
  | [a] => [byte_to_Z a * 256]
  | [] => []
  end.

Definition sum (ws : list Z) : Z := fold_right Z.add 0 ws.

Section Checksum.
Import InternetChecksum.

(** What the bytes of [s] add to the sum, exactly. *)
Fixpoint weight (parity : bool) (s : bytes) : Z :=
  match s with
  | [] => 0
  | b :: s => (if parity then byte_to_Z b else byte_to_Z b * 256) + weight (negb parity) s
  end.

Lemma weight_words s : weight false s = sum (words s).
Proof.
  enough (forall n t, (length t <= n)%nat -> weight false t = sum (words t)) as H by by eapply H.
  induction n as [|n IH]; intros [|a [|b t]] Hn; simpl in *; try lia.
  rewrite IH by lia. unfold sum. simpl. lia.
Qed.

Lemma weight_range p s : 0 <= weight p s <= 65280 * zlen s.
Proof.
  revert p. induction s as [|b s IH]; intros p; simpl; [done|].
  autorewrite with zlen. pose proof (byte_to_Z_range b). specialize (IH (negb p)).
  destruct p; lia.
Qed.

Fixpoint flips (s : bytes) (p : bool) : bool :=
  match s with [] => p | _ :: s => flips s (negb p) end.

Lemma weight_app p s t : weight p (s ++ t) = weight p s + weight (flips s p) t.
Proof. revert p. induction s as [|b s IH]; intros p; simpl; [done|]. rewrite IH. lia. Qed.

Lemma add_eq s c :
  0 <= _sum c < 2 ^ 32 ->
  add s c = mkInternetChecksum (u32 (_sum c + weight (_parity c) s)) (flips s (_parity c)).
Proof.
  revert c. induction s as [|b s IH]; intros [n p] Hn; simpl in *.
  { by rewrite Z.add_0_r, u32_small. }
  pose proof (byte_to_Z_range b). change (add (b :: s) ?c) with (add s (add_byte c b)).
  rewrite IH by apply u32_range. simpl. f_equal.
  rewrite Z.shiftl_mul_pow2 by lia. change (2 ^ 8) with 256.
  destruct p; simpl; rewrite ?u16_small by lia; unfold u32;
    rewrite Zplus_mod_idemp_l; f_equal; lia.
Qed.

(** Adding in pieces is adding the concatenation. *)
Lemma add_app s t c : add t (add s c) = add (s ++ t) c.
Proof. unfold add. by rewrite fold_left_app. Qed.

Lemma carry_step n :
  0 <= n < 2 ^ 32 ->
  u32 (Z.shiftr n 16 + Z.land n 65535) = n - 65535 * (n / 65536).
Proof.
  intros. change 65535 with (Z.ones 16) at 1.
  rewrite Z.shiftr_div_pow2, Z.land_ones by lia.
  change (2 ^ 16) with 65536. rewrite u32_small; zmod.
Qed.

Lemma fold_carries_spec n :
  0 <= n < 2 ^ 32 ->
  0 <= fold_carries 2 n <= 65535 /\ fold_carries 2 n mod 65535 = n mod 65535 /\
  (fold_carries 2 n = 0 <-> n = 0).
Proof.
  intros Hn. cbn [fold_carries].
  destruct (Z.ltb_spec 65535 n); [rewrite (carry_step n Hn)|repeat split; lia].
  assert (0 < n - 65535 * (n / 65536) <= 131070) by zmod.
  destruct (Z.ltb_spec 65535 (n - 65535 * (n / 65536))).
  - rewrite carry_step by lia. set (m := n - _) in *. assert (m / 65536 <= 1) by zmod.
    split; [zmod|]. split; [|zmod]. subst m. zmod.
  - split; [lia|]. split; [zmod|lia].
Qed.

Lemma value_eq c : 0 <= _sum c < 2 ^ 32 -> value c = 65535 - fold_carries 2 (_sum c).
Proof.
  intros H. unfold value. destruct (fold_carries_spec _ H) as [? _].
  unfold Z.lnot. set (f := fold_carries _ _) in *. zmod.
Qed.

Lemma value_zero_iff c :
  0 <= _sum c < 2 ^ 32 -> value c = 0 <-> 0 < _sum c /\ _sum c mod 65535 = 0.
Proof.
  intros H. rewrite (value_eq c H). destruct (fold_carries_spec _ H) as (?&E&E0).
  split; intros; [|zmod].
  assert (fold_carries 2 (_sum c) = 65535) as Ef by lia. rewrite Ef in *. split; [lia|].
  by rewrite <- E.
Qed.

Lemma oc_sum_spec ws a :
  Forall (fun w => 0 <= w <= 65535) ws -> 0 <= a <= 65535 ->
  let s := fold_left oc_add ws a in
  0 <= s <= 65535 /\ s mod 65535 = (a + sum ws) mod 65535 /\ (s = 0 <-> a + sum ws = 0).
Proof.
  intros Hws. revert a. induction Hws as [|w ws Hw Hws IH]; intros a Ha; simpl.
  { rewrite Z.add_0_r. lia. }
  assert (0 <= sum ws) by (clear IH; unfold sum; induction Hws; simpl; lia).
  destruct (IH (oc_add a w)) as (?&E&?); [unfold oc_add; case_match; lia|].
  split; [lia|]. unfold sum in *. simpl. unfold oc_add in *.
  destruct (Z.ltb_spec 65535 (a + w)).
  - split; [rewrite E; zmod|lia].
  - split; [rewrite E; f_equal; lia|lia].
Qed.

Lemma words_range s : Forall (fun w => 0 <= w <= 65535) (words s).
Proof.
  enough (forall n t, (length t <= n)%nat -> Forall (fun w => 0 <= w <= 65535) (words t)) as H
    by by eapply H.
  induction n as [|n IH]; intros [|a [|b t]] Hn; simpl in *; try lia; repeat constructor;
    try (pose proof (byte_to_Z_range a)); try (pose proof (byte_to_Z_range b)); try lia.
  apply IH. lia.
Qed.

Lemma even_flips s : Z.even (zlen s) = true -> flips s false = false.
Proof.
  enough (forall p, flips s p = if Z.even (zlen s) then p else negb p) as ->; [by intros ->|].
  induction s as [|b s IH]; intros p; [done|]. cbn [flips]. rewrite IH, zlen_cons, Z.even_add.
  destruct (Z.even (zlen s)), p; done.
Qed.

(** The sum of [data] after an initial sum, when nothing is lost to the width. *)
Lemma sum_add n s :
  0 <= n -> n + weight false s < 2 ^ 32 -> _sum (add s (make n)) = n + weight false s.
Proof.
  intros. pose proof (weight_range false s). rewrite add_eq by (simpl; lia). simpl. wsolve.
Qed.

(** Two bytes at an even offset add the word they encode. *)
Lemma weight_word v s : 0 <= v < 2 ^ 16 -> weight false (be_encode 2 v ++ s) = v + weight false s.
Proof.
  intros. rewrite weight_app. simpl. autorewrite with width. zmod.
Qed.

(** A string whose checksum field, at an even offset, holds the checksum of the
    same string with a zero field, has checksum zero. *)
Lemma checksum_fills n pre post :
  0 <= n -> n + 65280 * (zlen pre + 2 + zlen post) < 2 ^ 32 -> Z.even (zlen pre) = true ->
  let c := value (add (pre ++ be_encode 2 0 ++ post) (make n)) in
  0 <= c < 2 ^ 16 /\ value (add (pre ++ be_encode 2 c ++ post) (make n)) = 0.
Proof.
  intros Hn Hb Hev c. pose proof (weight_range false pre). pose proof (weight_range false post).
  assert (forall v, 0 <= v < 2 ^ 16 -> _sum (add (pre ++ be_encode 2 v ++ post) (make n)) =
    n + weight false pre + v + weight false post) as Hsum.
  { intros v Hv. pose proof (zlen_nonneg pre). pose proof (zlen_nonneg post).
    assert (weight false (pre ++ be_encode 2 v ++ post) = weight false pre + (v + weight false post)) as E.
    { by rewrite weight_app, even_flips, weight_word. }
    pose proof (weight_range false (pre ++ be_encode 2 v ++ post)) as Hr.
    autorewrite with zlen in Hr. rewrite sum_add by lia. lia. }
  set (w := n + weight false pre + 0 + weight false post).
  assert (0 <= w < 2 ^ 32) as Hw by (pose proof (zlen_nonneg pre); pose proof (zlen_nonneg post); lia).
  assert (c = 65535 - fold_carries 2 w) as Hc.
  { unfold c. rewrite value_eq; rewrite (Hsum 0) by lia; done. }
  destruct (fold_carries_spec w Hw) as (?&E&E0). assert (0 <= c < 2 ^ 16) as Hcr by lia.
  split; [done|]. apply value_zero_iff; rewrite (Hsum c Hcr).
  - pose proof (zlen_nonneg pre). pose proof (zlen_nonneg post). lia.
  - split; [lia|]. replace (_ + c + _) with (w + c) by (unfold w; lia). rewrite Hc. zmod.
Qed.

(** ** Theorems *)

(** C36. [InternetChecksum], whose 32-bit sum is folded once at the end, is the
    complement of the end-around-carry sum of the 16-bit words: of the words [ws]
    whose plain sum is the initial value (the pseudo-header) and of the data. The
    data may be added in any pieces. *)
Theorem checksum_reference (ws : list Z) (pieces : list bytes) :
  Forall (fun w => 0 <= w <= 65535) ws ->
  sum ws + 65280 * zlen (concat pieces) < 2 ^ 32 ->
  value (fold_left (fun c s => add s c) pieces (make (sum ws))) =
  65535 - oc_sum (ws ++ words (concat pieces)).
Proof.
  intros Hws Hb. set (s := concat pieces) in *.
  assert (forall l c, fold_left (fun c s => add s c) l c = add (concat l) c) as ->.
  { induction l as [|x l IH]; intros c; simpl; [done|]. by rewrite IH, add_app. }
  fold s. assert (0 <= sum ws) by (unfold sum; clear Hb; induction Hws; simpl; lia).
  pose proof (weight_range false s).
  rewrite value_eq; rewrite sum_add by lia; [|lia]. f_equal. unfold oc_sum.
  destruct (oc_sum_spec (ws ++ words s) 0) as (?&E&E0);
    [apply Forall_app; split; [done|apply words_range]|lia|].
  destruct (fold_carries_spec (sum ws + weight false s)) as (?&F&F0); [lia|].
  assert (sum (ws ++ words s) = sum ws + weight false s) as Es.
  { rewrite weight_words. unfold sum. rewrite foldr_app.
    clear. induction ws; simpl; lia. }
  rewrite Es in *. zmod.
Qed.

Lemma checksum_reference_witness :
  value (fold_left (fun c s => add s c) [[x01; x02; x03]; [x04; xff]] (make (sum [65535; 7]))) =
  65535 - oc_sum ([65535; 7] ++ words (concat [[x01; x02; x03]; [x04; xff]])).
Proof.
  apply (checksum_reference [65535; 7] [[x01; x02; x03]; [x04; xff]]);
    [repeat constructor; lia | done].
Defined.

End Checksum.
