(* ===== verification/TcpSegment.v ===== *)
(** * [TCPHeader], [TCPSegment] (libsponge/tcp_helpers/tcp_header.*, tcp_segment.* )

    The TCP header and segment, their wire format and their checksum. *)
From S2P Require Import Prelude Wrapping Buffers Parser Checksum.

Module TCPHeader.

Definition LENGTH : Z := 20.

Record TCPHeader := mkTCPHeader {
  sport : Z;
  dport : Z;
  seqno : WrappingInt32;
  ackno : WrappingInt32;
  doff : Z;
  urg : bool;
  ack : bool;
  psh : bool;
  rst : bool;
  syn : bool;
  fin : bool;
  win : Z;
  cksum : Z;
  uptr : Z
}.
#[global] Instance eta_TCPHeader : Eta TCPHeader := fun h =>
  mkTCPHeader (sport h) (dport h) (seqno h) (ackno h) (doff h) (urg h) (ack h) (psh h)
    (rst h) (syn h) (fin h) (win h) (cksum h) (uptr h).

(** The member initialisers. *)
Definition default_header : TCPHeader :=
  mkTCPHeader 0 0 (mkWrappingInt32 0) (mkWrappingInt32 0) (LENGTH / 4)
    false false false false false false 0 0 0.

(** The assignments of [parse]: every member is read. *)
Definition parse_fields : M NetParser.NetParser TCPHeader :=
  let* sport := NetParser.u16 in
  let* dport := NetParser.u16 in
  let* seqno := NetParser.u32 in
  let* ackno := NetParser.u32 in
  let* doff_b := NetParser.u8 in
  let* fl_b := NetParser.u8 in
  let* win := NetParser.u16 in
  let* cksum := NetParser.u16 in
  let* uptr := NetParser.u16 in
  ret (mkTCPHeader sport dport (mkWrappingInt32 seqno) (mkWrappingInt32 ackno)
         (Z.shiftr doff_b 4)
         (bool_of_Z (Z.land fl_b 32)) (bool_of_Z (Z.land fl_b 16))
         (bool_of_Z (Z.land fl_b 8)) (bool_of_Z (Z.land fl_b 4))
         (bool_of_Z (Z.land fl_b 2)) (bool_of_Z (Z.land fl_b 1)) win cksum uptr).

Definition parse : M NetParser.NetParser (TCPHeader * ParseResult) :=
  let* h := parse_fields in
  if doff h <? 5 then ret (h, HeaderTooShort)
  else
    let* _ := NetParser.remove_prefix (u64 (doff h * 4 - LENGTH)) in
    let* e := gets NetParser.error in
    let* err := gets NetParser.get_error in
    ret (h, if e then err else NoError).

Definition flag_byte (h : TCPHeader) : Z :=
  Z.lor (if urg h then 32 else 0) (Z.lor (if ack h then 16 else 0)
    (Z.lor (if psh h then 8 else 0) (Z.lor (if rst h then 4 else 0)
      (Z.lor (if syn h then 2 else 0) (if fin h then 1 else 0))))).

Definition serialize (h : TCPHeader) : result bytes :=
  if doff h <? 5 then throw (runtime_error "TCP header too short")
  else
    let s := NetUnparser.u16 [] (sport h) in
    let s := NetUnparser.u16 s (dport h) in
    let s := NetUnparser.u32 s (raw_value (seqno h)) in
    let s := NetUnparser.u32 s (raw_value (ackno h)) in
    let s := NetUnparser.u8 s (u8 (Z.shiftl (doff h) 4)) in
    let s := NetUnparser.u8 s (u8 (flag_byte h)) in
    let s := NetUnparser.u16 s (win h) in
    let s := NetUnparser.u16 s (cksum h) in
    let s := NetUnparser.u16 s (uptr h) in
    ok (resize (4 * doff h) s).

(** [operator==] *)
Definition eqb (a b : TCPHeader) : bool :=
  Wrapping.eqb (seqno a) (seqno b) && Wrapping.eqb (ackno a) (ackno b) &&
  (doff a =? doff b) && Bool.eqb (urg a) (urg b) && Bool.eqb (ack a) (ack b) &&
  Bool.eqb (psh a) (psh b) && Bool.eqb (rst a) (rst b) && Bool.eqb (syn a) (syn b) &&
  Bool.eqb (fin a) (fin b) && (win a =? win b) && (uptr a =? uptr b).

(** The members are in the ranges of their types and [doff] fits its four bits. *)
Record wf (h : TCPHeader) : Prop := mk_wf {
  wf_sport : 0 <= sport h < 2 ^ 16;
  wf_dport : 0 <= dport h < 2 ^ 16;
  wf_seqno : wrapping_ok (seqno h);
  wf_ackno : wrapping_ok (ackno h);
  wf_doff : 5 <= doff h <= 15;
  wf_win : 0 <= win h < 2 ^ 16;
  wf_cksum : 0 <= cksum h < 2 ^ 16;
  wf_uptr : 0 <= uptr h < 2 ^ 16
}.

End TCPHeader.

Module TCPSegment.

Record TCPSegment := mkTCPSegment {
  _header : TCPHeader.TCPHeader;
  _payload : Buffer.Buffer
}.
#[global] Instance eta_TCPSegment : Eta TCPSegment := fun s =>
  mkTCPSegment (_header s) (_payload s).

Definition default_segment : TCPSegment :=
  mkTCPSegment TCPHeader.default_header Buffer.empty.

Definition header (s : TCPSegment) : TCPHeader.TCPHeader := _header s.
Definition payload (s : TCPSegment) : Buffer.Buffer := _payload s.

(** [parse] on the segment [seg]; a bad checksum leaves it unchanged. The result
    of [TCPHeader::parse] is discarded. *)
Definition parse (buffer : Buffer.Buffer) (datagram_layer_checksum : Z) (seg : TCPSegment)
    : result (TCPSegment * ParseResult) :=
  let check := InternetChecksum.make datagram_layer_checksum in
  let check := InternetChecksum.add (Buffer.str buffer) check in
  if bool_of_Z (InternetChecksum.value check) then ok (seg, BadChecksum)
  else
    let! ((h, _), p) := TCPHeader.parse (NetParser.make buffer) in
    ok (mkTCPSegment h (NetParser.buffer p), NetParser.get_error p).

Definition length_in_sequence_space (s : TCPSegment) : Z :=
  u64 (u64 (zlen (Buffer.str (payload s)) + (if TCPHeader.syn (header s) then 1 else 0)) +
       (if TCPHeader.fin (header s) then 1 else 0)).

Definition serialize (datagram_layer_checksum : Z) (s : TCPSegment)
    : result BufferList.BufferList :=
  let header_out := (_header s) <| TCPHeader.cksum := 0 |> in
  let check := InternetChecksum.make datagram_layer_checksum in
  let! zeroed := TCPHeader.serialize header_out in
  let check := InternetChecksum.add zeroed check in
  let check := InternetChecksum.add (Buffer.str (_payload s)) check in
  let header_out := header_out <| TCPHeader.cksum := InternetChecksum.value check |> in
  let! filled := TCPHeader.serialize header_out in
  ok (BufferList.append (BufferList.of_buffer (_payload s))
        (BufferList.append (BufferList.of_string filled) BufferList.empty)).

End TCPSegment.

(** ** The wire format *)
Module TcpWire.
Import TCPHeader.

(** What precedes the checksum field, and what follows it. *)
Definition front (h : TCPHeader) : bytes :=
  be_encode 2 (sport h) ++ be_encode 2 (dport h) ++ be_encode 4 (raw_value (seqno h)) ++
  be_encode 4 (raw_value (ackno h)) ++ be_encode 1 (doff h * 16) ++
  be_encode 1 (flag_byte h) ++ be_encode 2 (win h).
Definition back (h : TCPHeader) : bytes :=
  be_encode 2 (uptr h) ++ replicate (Z.to_nat (4 * doff h - 20)) x00.

Lemma tcp_zlen_front h : zlen (front h) = 16.
Proof. unfold front. autorewrite with zlen. lia. Qed.
Lemma tcp_zlen_back h : 5 <= doff h -> zlen (back h) = 4 * doff h - 18.
Proof. intros. unfold back. autorewrite with zlen. lia. Qed.

Lemma flag_byte_range h : 0 <= flag_byte h < 64.
Proof. unfold flag_byte. by destruct (urg h), (ack h), (psh h), (rst h), (syn h), (fin h). Qed.

Lemma tcp_serialize_wire h :
  5 <= doff h <= 15 -> serialize h = ok (front h ++ be_encode 2 (cksum h) ++ back h).
Proof.
  intros Hd. unfold serialize. destruct (Z.ltb_spec (doff h) 5); [lia|].
  autorewrite with unparse. pose proof (flag_byte_range h).
  rewrite Z.shiftl_mul_pow2 by lia. change (2 ^ 4) with 16. wsimpl.
  rewrite resize_pad by (autorewrite with zlen; lia). autorewrite with zlen.
  unfold front, back. by rewrite <- !app_assoc.
Qed.

Lemma flags_roundtrip h :
  bool_of_Z (Z.land (flag_byte h) 32) = urg h /\ bool_of_Z (Z.land (flag_byte h) 16) = ack h /\
  bool_of_Z (Z.land (flag_byte h) 8) = psh h /\ bool_of_Z (Z.land (flag_byte h) 4) = rst h /\
  bool_of_Z (Z.land (flag_byte h) 2) = syn h /\ bool_of_Z (Z.land (flag_byte h) 1) = fin h.
Proof. unfold flag_byte. by destruct (urg h), (ack h), (psh h), (rst h), (syn h), (fin h). Qed.

Lemma tcp_parses_fields h t :
  wf h -> parses parse_fields (front h ++ be_encode 2 (cksum h) ++ back h ++ t) h
    (replicate (Z.to_nat (4 * doff h - 20)) x00 ++ t).
Proof.
  intros []. pose proof (flag_byte_range h). unfold front, back, parse_fields.
  rewrite <- !app_assoc.
  do 4 pstep. eapply parses_bind; [apply parses_u8; lia|].
  eapply parses_bind; [apply parses_u8; lia|]. do 3 pstep.
  replace (mkTCPHeader _ _ _ _ _ _ _ _ _ _ _ _ _ _) with h; [apply parses_ret|].
  destruct (flags_roundtrip h) as (->&->&->&->&->&->).
  rewrite Z.shiftr_div_pow2 by lia. change (2 ^ 4) with 16. rewrite Z.div_mul by lia.
  by destruct h as [? ? [] []].
Qed.

(** [TCPHeader::parse] on a serialised header followed by [t]. *)
Lemma tcp_parses_header h t :
  wf h -> parses parse (front h ++ be_encode 2 (cksum h) ++ back h ++ t) (h, NoError) t.
Proof.
  intros H. unfold parse. eapply parses_bind; [by apply tcp_parses_fields|].
  destruct H. destruct (Z.ltb_spec (doff h) 5); [lia|]. unfold LENGTH.
  apply (parses_skip _ _ _ _ _ (fun e err => ret (h, if e then err else NoError)));
    [rewrite zlen_replicate; wsolve|apply parses_ret].
Qed.

Lemma tcp_front_cksum h c : front (h <| cksum := c |>) = front h.
Proof. done. Qed.
Lemma tcp_back_cksum h c : back (h <| cksum := c |>) = back h.
Proof. done. Qed.

End TcpWire.

(** ** Parsing arbitrary bytes *)
Module TcpParse.
Import TCPHeader.

Lemma tcp_reads_fields : reads 20 parse_fields.
Proof.
  unfold parse_fields.
  change 20 with (2 + (2 + (4 + (4 + (1 + (1 + (2 + (2 + (2 + 0))))))))).
  repeat (apply reads_bind; [solve [auto with parse]|intros|lia]). apply reads_ret.
Qed.

(** The data offset field of the header at the start of [s]. *)
Definition data_offset (s : bytes) : Z := be_decode (take 1 (drop 12 s)) / 16.

Lemma data_offset_range s : 0 <= data_offset s <= 15.
Proof.
  unfold data_offset. pose proof (be_decode_range (take 1 (drop 12 s))) as H.
  assert (2 ^ (8 * zlen (take 1 (drop 12 s))) <= 256) as Hp.
  { change 256 with (2 ^ 8). apply Z.pow_le_mono_r; [lia|]. autorewrite with zlen. lia. }
  zmod.
Qed.

Lemma parses_data_offset p s h p' :
  at_bytes p s -> 20 <= zlen s -> parse_fields p = ok (h, p') -> doff h = data_offset s.
Proof.
  intros Hp Hs E.
  assert (exists h', parses parse_fields s h' (drop 20 s) /\ doff h' = data_offset s)
    as (h'&H&Hd).
  { eexists. split.
    - unfold parse_fields.
      repeat (eapply parses_bind; [apply parses_int; autorewrite with zlen; lia|];
              rewrite ?drop_drop; simpl Nat.add).
      apply parses_ret.
    - simpl doff. rewrite Z.shiftr_div_pow2 by lia. done. }
  destruct (H p Hp) as (p''&E'&_). rewrite E in E'. unfold ok in E'. by simplify_eq.
Qed.

(** What [TCPHeader::parse] does on [s]: it reads the fixed part, and the options
    when the data offset covers the fixed part. *)
Lemma header_parse_cases p s :
  at_bytes p s ->
  exists h r p', parse p = ok (h, r, p') /\
    ((zlen s < 20 /\ short p') \/
     (20 <= zlen s /\ doff h = data_offset s /\ data_offset s < 5 /\
        r = HeaderTooShort /\ at_bytes p' (drop 20 s)) \/
     (20 <= zlen s /\ doff h = data_offset s /\ 5 <= data_offset s /\
        4 * data_offset s <= zlen s /\ r = NoError /\
        at_bytes p' (drop (Z.to_nat (4 * data_offset s)) s)) \/
     (20 <= zlen s < 4 * data_offset s /\ r = PacketTooShort /\ short p')).
Proof.
  intros Hp. unfold parse, bind. destruct tcp_reads_fields as (_&R1&R2&_).
  pose proof (data_offset_range s) as Hr.
  destruct (decide (20 <= zlen s)) as [Hs|Hs].
  - destruct (R1 p s Hp Hs) as (h&p1&E&Hp1). rewrite E. simpl.
    pose proof (parses_data_offset p s h p1 Hp Hs E) as Hd. rewrite Hd. unfold LENGTH.
    destruct (Z.ltb_spec (data_offset s) 5) as [H5|H5].
    { exists h, HeaderTooShort, p1. split; [done|]. right. left. done. }
    rewrite u64_small by lia.
    destruct (reads_remove_prefix (data_offset s * 4 - 20)) as (_&Q1&Q2&_); [lia|].
    destruct (decide (4 * data_offset s <= zlen s)) as [H4|H4].
    + destruct (Q1 p1 _ Hp1) as ([]&p2&->&Hp2); [autorewrite with zlen; lia|].
      rewrite drop_drop in Hp2. destruct (Hp2) as (?&He&?).
      do 3 eexists. split; [reflexivity|]. right. right. left.
      unfold NetParser.error, NetParser.get_error. rewrite He. split; [lia|].
      repeat (split; [done || lia|]).
      replace (Z.to_nat (4 * data_offset s)) with (Z.to_nat 20 + Z.to_nat (data_offset s * 4 - 20))%nat by lia.
      done.
    + destruct (Q2 p1 _ Hp1) as ([]&p2&->&Hp2); [autorewrite with zlen; lia|].
      destruct (Hp2) as (?&He). do 3 eexists. split; [reflexivity|]. right. right. right.
      unfold NetParser.error, NetParser.get_error. rewrite He. split; [lia|]. done.
  - destruct (R2 p s Hp) as (h&p1&->&Hp1); [lia|]. simpl.
    destruct (doff h <? 5) eqn:E5; [do 3 eexists; split; [reflexivity|]; left; split; [lia|done]|].
    unfold LENGTH. pose proof (u64_range (doff h * 4 - 20)).
    destruct (reads_remove_prefix (u64 (doff h * 4 - 20))) as (_&_&_&Q3); [lia|].
    destruct (Q3 p1 Hp1) as ([]&p2&->&Hp2). do 3 eexists. split; [reflexivity|].
    left. split; [lia|done].
Qed.

End TcpParse.

(** ** Theorems *)
Module TcpSegmentTheorems.
Import TCPSegment TcpWire TcpParse.

(** A segment the sender can put on the wire below checksum [ck]: the 32-bit sum
    of the checksum does not overflow. *)
Definition sendable (ck : Z) (s : TCPSegment) : Prop :=
  TCPHeader.wf (header s) /\ Buffer.wf (payload s) /\ 0 <= ck /\
  ck + 65280 * (4 * TCPHeader.doff (header s) + Buffer.size (payload s)) < 2 ^ 32.

(** The serialised segment, and that its checksum is zero. *)
Lemma serialize_segment ck s :
  sendable ck s ->
  exists c, 0 <= c < 2 ^ 16 /\
    let h := (header s) <| TCPHeader.cksum := c |> in
    let wire := (front h ++ be_encode 2 c ++ back h) in
    serialize ck s = ok [Buffer.make wire; payload s] /\
    InternetChecksum.value
      (InternetChecksum.add (wire ++ Buffer.str (payload s)) (InternetChecksum.make ck)) = 0.
Proof.
  intros (Hh&_&Hck&Hb). set (pl := Buffer.str (payload s)).
  assert (5 <= TCPHeader.doff (header s) <= 15) as Hd by apply Hh.
  destruct (checksum_fills ck (front (header s)) (back (header s) ++ pl)) as [Hc Hv]; [done| |by rewrite tcp_zlen_front|].
  { rewrite tcp_zlen_front, zlen_app, tcp_zlen_back by lia. fold (Buffer.size (payload s)) in *.
    unfold Buffer.size in Hb. fold pl in Hb. lia. }
  set (c := InternetChecksum.value _) in Hc. exists c. split; [done|].
  cbv zeta. rewrite tcp_front_cksum, tcp_back_cksum. split.
  - unfold serialize. rewrite tcp_serialize_wire by done. rewrite bindR_ok.
    rewrite add_app, tcp_front_cksum, tcp_back_cksum, <- !app_assoc. fold pl. fold (header s). fold c.
    by rewrite tcp_serialize_wire, bindR_ok.
  - rewrite <- !app_assoc. exact Hv.
Qed.

Lemma serialized_segment_wf ck s l :
  sendable ck s -> serialize ck s = ok l ->
  BufferList.wf l /\ zlen (BufferList.concatenate l) = 4 * TCPHeader.doff (header s) + Buffer.size (payload s).
Proof.
  intros Hs El. destruct (serialize_segment ck s Hs) as (c&_&E&_). cbv zeta in E.
  rewrite El, tcp_front_cksum, tcp_back_cksum in E. destruct Hs as (Hh&Hp&Hck&Hb). destruct Hh.
  set (w := front _ ++ _ ++ _) in E. assert (zlen w = 4 * TCPHeader.doff (header s)) as Hw.
  { unfold w. autorewrite with zlen. rewrite tcp_zlen_front, tcp_zlen_back by lia. lia. }
  clearbody w. unfold ok in E. injection E as ->. pose proof (Buffer.size_range _ Hp).
  assert (zlen (BufferList.concatenate [Buffer.make w; payload s]) =
    4 * TCPHeader.doff (header s) + Buffer.size (payload s)) as Hz.
  { cbn [BufferList.concatenate]. by rewrite Buffer.str_make, app_nil_r, zlen_app, Hw. }
  split; [|exact Hz]. split; [|lia].
  constructor; [apply Buffer.make_wf; lia|]. by constructor.
Qed.

(** [parse] on the bytes that [serialize] writes. *)
Lemma parse_serialized_segment ck s :
  sendable ck s ->
  exists l, serialize ck s = ok l /\
    forall b seg, Buffer.wf b -> Buffer.str b = BufferList.concatenate l ->
    exists c p, parse b ck seg =
      ok (mkTCPSegment ((header s) <| TCPHeader.cksum := c |>) p, NoError) /\
      Buffer.str p = Buffer.str (payload s) /\ Buffer.wf p.
Proof.
  intros H. destruct (serialize_segment ck s H) as (c&Hc&E&Hv). eexists. split; [exact E|].
  intros b seg Hb Hs. cbn [BufferList.concatenate] in Hs.
  rewrite app_nil_r, Buffer.str_make in Hs. exists c. unfold parse. rewrite Hs. unfold bool_of_Z. rewrite Hv. simpl negb. cbv iota.
  set (h := (header s) <| TCPHeader.cksum := c |>) in *.
  assert (TCPHeader.wf h) as Hh by (destruct H as [[] _]; by constructor).
  destruct (tcp_parses_header h (Buffer.str (payload s)) Hh (NetParser.make b)) as (p&Ep&Hw&He&Hp).
  { change (TCPHeader.cksum h) with c. rewrite <- !app_assoc in Hs. rewrite <- Hs. by apply make_at_bytes. }
  rewrite Ep. exists (NetParser._buffer p). simpl. unfold NetParser.get_error. by rewrite He.
Qed.

(** C35. A segment that [serialize] writes is read back by [parse]: the checksum
    is accepted, and header and payload are those sent, the header with the
    checksum filled in. *)
Theorem tcp_segment_roundtrip ck s :
  sendable ck s ->
  exists l, serialize ck s = ok l /\
    forall b seg, Buffer.wf b -> Buffer.str b = BufferList.concatenate l ->
    exists c p, parse b ck seg =
      ok (mkTCPSegment ((header s) <| TCPHeader.cksum := c |>) p, NoError) /\
      Buffer.str p = Buffer.str (payload s).
Proof.
  intros H. destruct (parse_serialized_segment ck s H) as (l&E&P). exists l. split; [done|].
  intros b seg Hb Hs. destruct (P b seg Hb Hs) as (c&p&E'&Hp&_). by exists c, p.
Qed.

(** [parse] is total, with the result its bytes call for. *)
Lemma parse_segment_verdict b ck seg :
  Buffer.wf b ->
  let s := Buffer.str b in
  let good := InternetChecksum.value (InternetChecksum.add s (InternetChecksum.make ck)) = 0 in
  exists seg' r, parse b ck seg = ok (seg', r) /\
    (r = BadChecksum <-> ~ good) /\
    (r = PacketTooShort <-> good /\ zlen s < Z.max 20 (4 * data_offset s)) /\
    (r = NoError <-> good /\ Z.max 20 (4 * data_offset s) <= zlen s) /\
    (~ good -> seg' = seg) /\
    (r = NoError -> TCPHeader.doff (header seg') = data_offset s /\
      Buffer.str (payload seg') = drop (Z.to_nat (Z.max 20 (4 * data_offset s))) s).
Proof.
  intros Hb s good. unfold parse. fold s. unfold good, bool_of_Z.
  destruct (Z.eqb_spec (InternetChecksum.value (InternetChecksum.add s (InternetChecksum.make ck))) 0)
    as [G|G]; simpl negb; cbv iota.
  2: { exists seg, BadChecksum. split; [done|]. split; [tauto|].
       split; [split; [done|tauto]|]. split; [split; [done|tauto]|]. done. }
  destruct (header_parse_cases _ s (make_at_bytes b Hb)) as (h&r&p'&->&Hcases). simpl.
  exists (mkTCPSegment h (NetParser.buffer p')), (NetParser.get_error p'). split; [done|].
  simpl. unfold NetParser.get_error, NetParser.buffer, at_bytes, short in *.
  pose proof (data_offset_range s).
  destruct Hcases as [(?&?&->)|[(?&?&?&_&?&->&?)|[(?&?&?&?&_&?&->&?)|(?&_&?&->)]]];
    (split; [by split; [|intros []]|]); (split; [split; [try done; lia|try done; lia]|]);
    (split; [split; [try done; lia|try done; lia]|]); (split; [done|]); try done; intros _.
  - rewrite Z.max_l by lia. done.
  - rewrite Z.max_r by lia. done.
Qed.

Lemma parse_segment_total b ck seg : Buffer.wf b -> exists seg' r, parse b ck seg = ok (seg', r).
Proof. intros Hb. destruct (parse_segment_verdict b ck seg Hb) as (seg'&r&E&_). by exists seg', r. Qed.

(** [parse] never throws, whatever the bytes. It reports a bad checksum
    exactly when the checksum is not zero, and otherwise that the segment is
    too short exactly when it does not hold the fixed header or the header its
    data offset claims. In all other cases it succeeds and the payload is what
    follows the header, which for a data offset below five is the fixed part. *)
Theorem tcp_segment_parse_total b ck seg :
  Buffer.wf b ->
  let s := Buffer.str b in
  let good := InternetChecksum.value (InternetChecksum.add s (InternetChecksum.make ck)) = 0 in
  exists seg' r, parse b ck seg = ok (seg', r) /\
    (r = BadChecksum <-> ~ good) /\
    (r = PacketTooShort <-> good /\ zlen s < Z.max 20 (4 * data_offset s)) /\
    (r = NoError <-> good /\ Z.max 20 (4 * data_offset s) <= zlen s) /\
    (~ good -> seg' = seg) /\
    (r = NoError -> TCPHeader.doff (header seg') = data_offset s /\
      Buffer.str (payload seg') = drop (Z.to_nat (Z.max 20 (4 * data_offset s))) s).
Proof. exact (parse_segment_verdict b ck seg). Qed.

Definition demo_segment : TCPSegment :=
  mkTCPSegment (TCPHeader.mkTCPHeader 80 4000 (mkWrappingInt32 7) (mkWrappingInt32 9) 6
    false true true false false true 500 0 0) (Buffer.make [x68; x69; x21]).

Lemma demo_sendable : sendable 1234 demo_segment.
Proof. repeat split; simpl; try done; by unfold wrapping_ok. Qed.

Lemma tcp_segment_roundtrip_witness :
  exists l, serialize 1234 demo_segment = ok l /\
    forall b seg, Buffer.wf b -> Buffer.str b = BufferList.concatenate l ->
    exists c p, parse b 1234 seg =
      ok (mkTCPSegment ((header demo_segment) <| TCPHeader.cksum := c |>) p, NoError) /\
      Buffer.str p = Buffer.str (payload demo_segment).
Proof. apply (tcp_segment_roundtrip 1234 demo_segment). apply demo_sendable. Defined.

Lemma tcp_segment_parse_total_witness :
  exists seg' r, parse (Buffer.make [xff; xff]) 0 demo_segment = ok (seg', r) /\ r = PacketTooShort.
Proof.
  destruct (tcp_segment_parse_total (Buffer.make [xff; xff]) 0 demo_segment)
    as (seg'&r&E&_&Hs&_).
  - split; [split; done|split; done].
  - exists seg', r. split; [exact E|]. apply Hs. split; [vm_compute; reflexivity|done].
Defined.

(** A data offset below five is reported by [TCPHeader::parse] and dropped by
    [TCPSegment::parse]: the segment is accepted. *)
Definition short_offset : bytes := replicate 12 x00 ++ [x40; x10] ++ [x00; x00; xbf; xef; x00; x00].
Lemma short_offset_accepted :
  exists seg, parse (Buffer.make short_offset) 0 default_segment = ok (seg, NoError) /\
    TCPHeader.doff (header seg) = 4.
Proof. eexists. split; [vm_compute; reflexivity|reflexivity]. Qed.

End TcpSegmentTheorems.
