(* ===== verification/Ipv4.v ===== *)
(** * [IPv4Header], [IPv4Datagram] (libsponge/tcp_helpers/ipv4_header.*, ipv4_datagram.* )

    The IPv4 header and datagram, their wire format and header checksum, and the
    pseudo-header sum that TCP adds to its own checksum. *)
From S2P Require Import Prelude Buffers Parser Checksum.

Module IPv4Header.

Definition LENGTH : Z := 20.
Definition DEFAULT_TTL : Z := 128.
Definition PROTO_TCP : Z := 6.

Record IPv4Header := mkIPv4Header {
  ver : Z;
  hlen : Z;
  tos : Z;
  len : Z;
  id : Z;
  df : bool;
  mf : bool;
  offset : Z;
  ttl : Z;
  proto : Z;
  cksum : Z;
  src : Z;
  dst : Z
}.
#[global] Instance eta_IPv4Header : Eta IPv4Header := fun h =>
  mkIPv4Header (ver h) (hlen h) (tos h) (len h) (id h) (df h) (mf h) (offset h) (ttl h)
    (proto h) (cksum h) (src h) (dst h).

Definition default_header : IPv4Header :=
  mkIPv4Header 4 (LENGTH / 4) 0 0 0 true false 0 DEFAULT_TTL PROTO_TCP 0 0 0.

(** The assignments of [parse]. *)
Definition parse_fields : M NetParser.NetParser IPv4Header :=
  let* first_byte := NetParser.u8 in
  let* tos := NetParser.u8 in
  let* len := NetParser.u16 in
  let* id := NetParser.u16 in
  let* fo_val := NetParser.u16 in
  let* ttl := NetParser.u8 in
  let* proto := NetParser.u8 in
  let* cksum := NetParser.u16 in
  let* src := NetParser.u32 in
  let* dst := NetParser.u32 in
  ret (mkIPv4Header (Z.shiftr first_byte 4) (Z.land first_byte 15) tos len id
         (bool_of_Z (Z.land fo_val 16384)) (bool_of_Z (Z.land fo_val 8192))
         (Z.land fo_val 8191) ttl proto cksum src dst).

(** The options are skipped and the checksum is taken over the header's bytes in
    [original], the buffer before anything was read. *)
Definition check_header (original : bytes) (h : IPv4Header)
    : M NetParser.NetParser (IPv4Header * ParseResult) :=
  let* _ := NetParser.remove_prefix (u64 (hlen h * 4 - LENGTH)) in
  let* e := gets NetParser.error in
  let* err := gets NetParser.get_error in
  if e then ret (h, err)
  else
    let check := InternetChecksum.add (take (Z.to_nat (4 * hlen h)) original)
                   (InternetChecksum.make 0) in
    if bool_of_Z (InternetChecksum.value check) then ret (h, BadChecksum)
    else ret (h, NoError).

(** [parse] on the header [h0], which an early return leaves unchanged. *)
Definition parse (h0 : IPv4Header) : M NetParser.NetParser (IPv4Header * ParseResult) :=
  let* original_serialized_version := gets NetParser.buffer in
  let data_size := Buffer.size original_serialized_version in
  if data_size <? LENGTH then ret (h0, PacketTooShort)
  else
    let* h := parse_fields in
    if data_size <? 4 * hlen h then ret (h, PacketTooShort)
    else if negb (ver h =? 4) then ret (h, WrongIPVersion)
    else if hlen h <? 5 then ret (h, HeaderTooShort)
    else if negb (data_size =? len h) then ret (h, TruncatedPacket)
    else check_header (Buffer.str original_serialized_version) h.

Definition serialize (h : IPv4Header) : result bytes :=
  if negb (ver h =? 4) then throw (runtime_error "wrong IP version")
  else if 4 * hlen h <? LENGTH then throw (runtime_error "IP header too short")
  else
    let first_byte := u8 (Z.lor (Z.shiftl (ver h) 4) (Z.land (hlen h) 15)) in
    let s := NetUnparser.u8 [] first_byte in
    let s := NetUnparser.u8 s (tos h) in
    let s := NetUnparser.u16 s (len h) in
    let s := NetUnparser.u16 s (id h) in
    let fo_val := u16 (Z.lor (Z.lor (if df h then 16384 else 0) (if mf h then 8192 else 0))
                         (Z.land (offset h) 8191)) in
    let s := NetUnparser.u16 s fo_val in
    let s := NetUnparser.u8 s (ttl h) in
    let s := NetUnparser.u8 s (proto h) in
    let s := NetUnparser.u16 s (cksum h) in
    let s := NetUnparser.u32 s (src h) in
    let s := NetUnparser.u32 s (dst h) in
    ok (resize (4 * hlen h) s).

Definition payload_length (h : IPv4Header) : Z := u16 (len h - 4 * hlen h).

Definition pseudo_cksum (h : IPv4Header) : Z :=
  let pcksum := u32 (Z.shiftr (src h) 16 + Z.land (src h) 65535) in
  let pcksum := u32 (pcksum + u32 (Z.shiftr (dst h) 16 + Z.land (dst h) 65535)) in
  let pcksum := u32 (pcksum + proto h) in
  u32 (pcksum + payload_length h).

(** The members are in the ranges of their types, and of their fields. *)
Record wf (h : IPv4Header) : Prop := mk_wf {
  wf_ver : ver h = 4;
  wf_hlen : 5 <= hlen h <= 15;
  wf_tos : 0 <= tos h < 2 ^ 8;
  wf_len : 0 <= len h < 2 ^ 16;
  wf_id : 0 <= id h < 2 ^ 16;
  wf_offset : 0 <= offset h < 2 ^ 13;
  wf_ttl : 0 <= ttl h < 2 ^ 8;
  wf_proto : 0 <= proto h < 2 ^ 8;
  wf_cksum : 0 <= cksum h < 2 ^ 16;
  wf_src : 0 <= src h < 2 ^ 32;
  wf_dst : 0 <= dst h < 2 ^ 32
}.

End IPv4Header.

Module IPv4Datagram.

Record IPv4Datagram := mkIPv4Datagram {
  _header : IPv4Header.IPv4Header;
  _payload : BufferList.BufferList
}.
#[global] Instance eta_IPv4Datagram : Eta IPv4Datagram := fun d =>
  mkIPv4Datagram (_header d) (_payload d).

Definition default_datagram : IPv4Datagram :=
  mkIPv4Datagram IPv4Header.default_header BufferList.empty.

Definition header (d : IPv4Datagram) : IPv4Header.IPv4Header := _header d.
Definition payload (d : IPv4Datagram) : BufferList.BufferList := _payload d.

(** [parse] on the datagram [d]. The result of [IPv4Header::parse] is discarded. *)
Definition parse (buffer : Buffer.Buffer) (d : IPv4Datagram)
    : result (IPv4Datagram * ParseResult) :=
  let! ((h, _), p) := IPv4Header.parse (_header d) (NetParser.make buffer) in
  let d := mkIPv4Datagram h (BufferList.of_buffer (NetParser.buffer p)) in
  if negb (BufferList.size (_payload d) =? IPv4Header.payload_length (_header d))
  then ok (d, PacketTooShort)
  else ok (d, NetParser.get_error p).

Definition serialize (d : IPv4Datagram) : result BufferList.BufferList :=
  if negb (BufferList.size (_payload d) =? IPv4Header.payload_length (_header d))
  then throw (runtime_error "IPv4Datagram::serialize: payload is wrong size")
  else
    let header_out := (_header d) <| IPv4Header.cksum := 0 |> in
    let! header_zero_checksum := IPv4Header.serialize header_out in
    let check := InternetChecksum.add header_zero_checksum (InternetChecksum.make 0) in
    let header_out := header_out <| IPv4Header.cksum := InternetChecksum.value check |> in
    let! filled := IPv4Header.serialize header_out in
    ok (BufferList.append (_payload d)
          (BufferList.append (BufferList.of_string filled) BufferList.empty)).

End IPv4Datagram.

(** ** The wire format *)
Module Ipv4Wire.
Import IPv4Header.

Definition fo_val (h : IPv4Header) : Z :=
  Z.lor (Z.lor (if df h then 16384 else 0) (if mf h then 8192 else 0))
    (Z.land (offset h) 8191).

Definition front (h : IPv4Header) : bytes :=
  be_encode 1 (64 + hlen h) ++ be_encode 1 (tos h) ++ be_encode 2 (len h) ++
  be_encode 2 (id h) ++ be_encode 2 (fo_val h) ++ be_encode 1 (ttl h) ++
  be_encode 1 (proto h).
Definition back (h : IPv4Header) : bytes :=
  be_encode 4 (src h) ++ be_encode 4 (dst h) ++ replicate (Z.to_nat (4 * hlen h - 20)) x00.

Lemma ipv4_zlen_front h : zlen (front h) = 10.
Proof. unfold front. autorewrite with zlen. lia. Qed.
Lemma ipv4_zlen_back h : 5 <= hlen h -> zlen (back h) = 4 * hlen h - 12.
Proof. intros. unfold back. autorewrite with zlen. lia. Qed.

Lemma fo_val_range h : 0 <= fo_val h < 2 ^ 16.
Proof.
  assert (fo_val h = Z.land (fo_val h) (Z.ones 16)) as ->.
  - unfold fo_val. rewrite Z.land_lor_distr_l, <- Z.land_assoc. f_equal.
    by destruct (df h), (mf h).
  - rewrite Z.land_ones by lia. by apply Z.mod_pos_bound.
Qed.

Lemma fo_val_fields h :
  0 <= offset h < 2 ^ 13 ->
  bool_of_Z (Z.land (fo_val h) 16384) = df h /\ bool_of_Z (Z.land (fo_val h) 8192) = mf h /\
  Z.land (fo_val h) 8191 = offset h.
Proof.
  intros Ho. change 16384 with (2 ^ 14). change 8192 with (2 ^ 13).
  rewrite !bool_of_Z_land_pow2 by lia. unfold fo_val. rewrite !Z.lor_spec, !Z.land_spec.
  rewrite Z.land_lor_distr_l, <- Z.land_assoc.
  change (Z.land 8191 8191) with (Z.ones 13). rewrite Z.land_ones, Z.mod_small by lia.
  change (Z.testbit 8191 14) with false. change (Z.testbit 8191 13) with false.
  rewrite !andb_false_r. by destruct (df h), (mf h).
Qed.

Lemma first_byte_fields h :
  5 <= hlen h <= 15 ->
  u8 (Z.lor (Z.shiftl 4 4) (Z.land (hlen h) 15)) = 64 + hlen h /\
  Z.shiftr (64 + hlen h) 4 = 4 /\ Z.land (64 + hlen h) 15 = hlen h.
Proof.
  intros H. assert (exists n : nat, (5 <= n <= 15)%nat /\ hlen h = Z.of_nat n) as (n&Hn&->).
  { exists (Z.to_nat (hlen h)). lia. }
  do 16 (destruct n as [|n]; [try lia; done|]). lia.
Qed.

Lemma ipv4_serialize_wire h :
  ver h = 4 -> 5 <= hlen h <= 15 ->
  serialize h = ok (front h ++ be_encode 2 (cksum h) ++ back h).
Proof.
  intros Hv Hd. unfold serialize. rewrite Hv. cbn [negb]. unfold LENGTH.
  destruct (Z.ltb_spec (4 * hlen h) 20); [lia|]. fold (fo_val h).
  destruct (first_byte_fields h Hd) as (->&_). pose proof (fo_val_range h). wsimpl.
  autorewrite with unparse.
  rewrite resize_pad by (autorewrite with zlen; lia). autorewrite with zlen.
  unfold front, back. by rewrite <- !app_assoc.
Qed.

Lemma ipv4_parses_fields h t :
  wf h -> parses parse_fields (front h ++ be_encode 2 (cksum h) ++ back h ++ t) h
    (replicate (Z.to_nat (4 * hlen h - 20)) x00 ++ t).
Proof.
  intros []. unfold front, back, parse_fields. rewrite <- !app_assoc.
  eapply parses_bind; [apply parses_u8; lia|]. do 3 pstep.
  eapply parses_bind; [apply parses_u16, fo_val_range|]. do 5 pstep.
  replace (mkIPv4Header _ _ _ _ _ _ _ _ _ _ _ _ _) with h; [apply parses_ret|].
  destruct (fo_val_fields h wf_offset0) as (->&->&->).
  destruct (first_byte_fields h wf_hlen0) as (_&->&->). destruct h; simpl in *. by subst.
Qed.

(** [IPv4Header::parse] on a serialised header followed by a payload of the length
    the header claims. *)
Lemma ipv4_parses_header h h0 t :
  wf h -> len h = 4 * hlen h + zlen t ->
  InternetChecksum.value (InternetChecksum.add (front h ++ be_encode 2 (cksum h) ++ back h)
    (InternetChecksum.make 0)) = 0 ->
  parses (parse h0) (front h ++ be_encode 2 (cksum h) ++ back h ++ t) (h, NoError) t.
Proof.
  intros Hwf Hlen Hck. destruct (Hwf) as [Hv Hh]. pose proof (zlen_nonneg t).
  assert (zlen ((front h ++ be_encode 2 (cksum h)) ++ back h) = 4 * hlen h) as Hl.
  { autorewrite with zlen. rewrite ipv4_zlen_front, ipv4_zlen_back; lia. }
  set (s := front h ++ be_encode 2 (cksum h) ++ back h ++ t). assert (zlen s = len h) as Hz.
  { unfold s. rewrite !app_assoc, zlen_app. lia. }
  apply parses_bind_gets. intros p (_&_&Hs). unfold NetParser.buffer, Buffer.size.
  rewrite Hs, Hz. unfold LENGTH. destruct (Z.ltb_spec (len h) 20); [lia|].
  eapply parses_bind; [by apply ipv4_parses_fields|].
  destruct (Z.ltb_spec (len h) (4 * hlen h)); [lia|]. rewrite Hv, Z.eqb_refl. cbn [negb].
  destruct (Z.ltb_spec (hlen h) 5); [lia|]. rewrite Z.eqb_refl. cbn [negb].
  unfold check_header, LENGTH.
  apply (parses_skip _ _ _ _ _ (fun e err => if e then ret (h, err) else _));
    [rewrite zlen_replicate; wsolve|].
  unfold s. rewrite !app_assoc, take_app_length', <- app_assoc, Hck; [apply parses_ret|].
  unfold zlen in Hl. lia.
Qed.

Lemma ipv4_front_cksum h c : front (h <| cksum := c |>) = front h.
Proof. done. Qed.
Lemma ipv4_back_cksum h c : back (h <| cksum := c |>) = back h.
Proof. done. Qed.

End Ipv4Wire.

(** ** Parsing arbitrary bytes *)
Module Ipv4Parse.
Import IPv4Header.

Definition version_of (s : bytes) : Z := be_decode (take 1 s) / 16.
Definition hlen_of (s : bytes) : Z := be_decode (take 1 s) mod 16.
Definition len_of (s : bytes) : Z := be_decode (take 2 (drop 2 s)).

(** The first of the checks of [parse] that fails. *)
Definition verdict (s : bytes) : ParseResult :=
  if zlen s <? 20 then PacketTooShort
  else if zlen s <? 4 * hlen_of s then PacketTooShort
  else if negb (version_of s =? 4) then WrongIPVersion
  else if hlen_of s <? 5 then HeaderTooShort
  else if negb (zlen s =? len_of s) then TruncatedPacket
  else if bool_of_Z (InternetChecksum.value (InternetChecksum.add
         (take (Z.to_nat (4 * hlen_of s)) s) (InternetChecksum.make 0))) then BadChecksum
  else NoError.

Lemma hlen_of_range s : 0 <= hlen_of s < 16.
Proof. unfold hlen_of. by apply Z.mod_pos_bound. Qed.

Lemma ipv4_reads_fields : reads 20 parse_fields.
Proof.
  unfold parse_fields.
  change 20 with (1 + (1 + (2 + (2 + (2 + (1 + (1 + (2 + (4 + (4 + 0)))))))))).
  repeat (apply reads_bind; [solve [auto with parse]|intros|lia]). apply reads_ret.
Qed.

Lemma parses_header_fields p s h p' :
  at_bytes p s -> 20 <= zlen s -> parse_fields p = ok (h, p') ->
  ver h = version_of s /\ hlen h = hlen_of s /\ len h = len_of s.
Proof.
  intros Hp Hs E.
  assert (exists h', parses parse_fields s h' (drop 20 s) /\
    ver h' = version_of s /\ hlen h' = hlen_of s /\ len h' = len_of s) as (h'&H&Hd).
  { eexists. split.
    - unfold parse_fields.
      repeat (eapply parses_bind; [apply parses_int; autorewrite with zlen; lia|];
              rewrite ?drop_drop; simpl Nat.add).
      apply parses_ret.
    - unfold version_of, hlen_of. simpl ver. simpl hlen.
      rewrite Z.shiftr_div_pow2, (Z.land_ones _ 4) by lia. done. }
  destruct (H p Hp) as (p''&E'&_). rewrite E in E'. unfold ok in E'. by simplify_eq.
Qed.

(** The last checks, once the options are there to be skipped. *)
Lemma check_header_result p s original h :
  at_bytes p s -> 5 <= hlen h < 16 -> hlen h * 4 - 20 <= zlen s ->
  exists p', check_header original h p =
    ok ((h, if bool_of_Z (InternetChecksum.value (InternetChecksum.add
           (take (Z.to_nat (4 * hlen h)) original) (InternetChecksum.make 0)))
         then BadChecksum else NoError), p') /\
    at_bytes p' (drop (Z.to_nat (hlen h * 4 - 20)) s).
Proof.
  intros Hp Hh Hs. unfold check_header, LENGTH. rewrite u64_small by lia.
  set (n := hlen h * 4 - 20) in *.
  rewrite <- (take_drop (Z.to_nat n) s) in Hp.
  apply (parses_skip n (take (Z.to_nat n) s) (drop (Z.to_nat n) s) _ _
    (fun e err => if e then ret (h, err) else _)); [autorewrite with zlen; lia| |exact Hp].
  simpl. case_match; apply parses_ret.
Qed.

End Ipv4Parse.

(** ** Theorems *)
Module Ipv4Theorems.
Import IPv4Datagram Ipv4Wire Ipv4Parse.

(** [IPv4Header::parse] is total, with the result [verdict] gives. *)
Lemma parse_header_total (h0 : IPv4Header.IPv4Header) (b : Buffer.Buffer) :
  Buffer.wf b ->
  exists h p', IPv4Header.parse h0 (NetParser.make b) = ok (h, verdict (Buffer.str b), p') /\
    NetParser.get_error p' = NoError.
Proof.
  intros Hb. set (s := Buffer.str b). unfold IPv4Header.parse, bind at 1, gets.
  rewrite bindR_ok. unfold NetParser.buffer, NetParser.make, Buffer.size. cbn [NetParser._buffer].
  fold s. unfold verdict, IPv4Header.LENGTH. destruct (Z.ltb_spec (zlen s) 20); [by do 2 eexists|].
  destruct ipv4_reads_fields as (_&R&_). pose proof (make_at_bytes b Hb) as Hp. fold s in Hp.
  destruct (R _ _ Hp) as (h&p&E&Hp'); [lia|]. unfold bind. unfold NetParser.make in E. rewrite E.
  rewrite bindR_ok. destruct (parses_header_fields _ _ _ _ Hp ltac:(lia) E) as (Hv&Hh&Hl).
  rewrite Hv, Hh, Hl. pose proof (hlen_of_range s). destruct (Hp') as (_&He&_).
  destruct (Z.ltb_spec (zlen s) (4 * hlen_of s)); [by do 2 eexists|].
  destruct (version_of s =? 4); [|by do 2 eexists]. cbn [negb].
  destruct (Z.ltb_spec (hlen_of s) 5); [by do 2 eexists|].
  destruct (zlen s =? len_of s); [|by do 2 eexists]. cbn [negb].
  destruct (check_header_result p _ s h Hp') as (p'&->&_&He'&_); [lia|autorewrite with zlen; lia|].
  rewrite Hh. by exists h, p'.
Qed.

Lemma parse_datagram_total b d0 : Buffer.wf b -> exists d r, parse b d0 = ok (d, r).
Proof.
  intros Hb. destruct (parse_header_total (_header d0) b Hb) as (h&p&E&_).
  unfold parse. rewrite E, bindR_ok. cbv beta iota zeta.
  destruct (negb _); by do 2 eexists.
Qed.

(** A datagram that [serialize] accepts. *)
Definition sendable (d : IPv4Datagram) : Prop :=
  IPv4Header.wf (header d) /\ BufferList.wf (payload d) /\
  IPv4Header.len (header d) = 4 * IPv4Header.hlen (header d) + BufferList.size (payload d).

Lemma serialize_datagram d :
  sendable d ->
  exists c, 0 <= c < 2 ^ 16 /\
    let h := (header d) <| IPv4Header.cksum := c |> in
    let wire := (front h ++ be_encode 2 c ++ back h) in
    serialize d = ok (Buffer.make wire :: payload d) /\
    InternetChecksum.value (InternetChecksum.add wire (InternetChecksum.make 0)) = 0.
Proof.
  intros (Hh&Hwf&Hlen). destruct (Hh) as [Hv Hd].
  destruct (checksum_fills 0 (front (header d)) (back (header d))) as [Hc Hv'];
    [done|rewrite ipv4_zlen_front, ipv4_zlen_back by lia; lia|by rewrite ipv4_zlen_front|].
  set (c := InternetChecksum.value _) in Hc. exists c. split; [done|].
  cbv zeta. rewrite ipv4_front_cksum, ipv4_back_cksum. split; [|exact Hv'].
  unfold serialize, IPv4Header.payload_length. fold (header d) (payload d).
  pose proof (BufferList.size_concatenate _ Hwf) as Hsz.
  pose proof (zlen_nonneg (BufferList.concatenate (payload d))).
  rewrite Hlen, u16_small by lia. replace (_ - _) with (BufferList.size (payload d)) by lia.
  rewrite Z.eqb_refl. cbn [negb].
  do 2 (rewrite ipv4_serialize_wire, bindR_ok by done; rewrite ?ipv4_front_cksum, ?ipv4_back_cksum).
  reflexivity.
Qed.

Lemma zlen_serialized d l :
  sendable d -> serialize d = ok l -> zlen (BufferList.concatenate l) = IPv4Header.len (header d).
Proof.
  intros Hd El. destruct (serialize_datagram d Hd) as (c&_&E&_). cbv zeta in E.
  rewrite El, ipv4_front_cksum, ipv4_back_cksum in E. destruct Hd as (Hh&Hp&Hl). destruct Hh.
  set (w := front _ ++ _ ++ _) in E. assert (zlen w = 4 * IPv4Header.hlen (header d)) as Hw.
  { unfold w. autorewrite with zlen. rewrite ipv4_zlen_front, ipv4_zlen_back by lia. lia. }
  clearbody w. unfold ok in E. injection E as ->. cbn [BufferList.concatenate].
  rewrite Buffer.str_make, zlen_app, Hw, <- BufferList.size_concatenate by done. lia.
Qed.

(** [parse] on the bytes that [serialize] writes. *)
Lemma parse_serialized_datagram d :
  sendable d ->
  exists l, serialize d = ok l /\
    forall b d0, Buffer.wf b -> Buffer.str b = BufferList.concatenate l ->
    exists c p, let h := (header d) <| IPv4Header.cksum := c |> in
      IPv4Header.parse (header d0) (NetParser.make b) = ok (h, NoError, p) /\
      parse b d0 = ok (mkIPv4Datagram h [NetParser.buffer p], NoError) /\
      Buffer.str (NetParser.buffer p) = BufferList.concatenate (payload d) /\
      Buffer.wf (NetParser.buffer p) /\ 0 <= c < 2 ^ 16.
Proof.
  intros H. destruct (serialize_datagram d H) as (c&Hc&E&Hv). destruct H as (Hh&Hwf&Hlen).
  eexists. split; [exact E|]. intros b d0 Hb Hs. cbn [BufferList.concatenate] in Hs.
  rewrite Buffer.str_make in Hs. exists c. cbv zeta in *.
  set (h := (header d) <| IPv4Header.cksum := c |>) in *.
  set (pl := BufferList.concatenate (payload d)) in *.
  pose proof (BufferList.size_concatenate _ Hwf) as Hsz. fold pl in Hsz.
  assert (IPv4Header.wf h) as Hh' by (destruct Hh; by constructor).
  assert (IPv4Header.len h = 4 * IPv4Header.hlen h + zlen pl) as Hl
    by (change (IPv4Header.len h) with (IPv4Header.len (header d)); rewrite Hlen, Hsz; done).
  destruct (ipv4_parses_header h (header d0) pl Hh' Hl Hv (NetParser.make b)) as (p&Ep&Hp&He&Hp').
  { change (IPv4Header.cksum h) with c. rewrite <- !app_assoc in Hs. rewrite <- Hs.
    by apply make_at_bytes. }
  exists p. split; [exact Ep|]. split; [|done]. unfold parse. fold (header d0). rewrite Ep, bindR_ok.
  cbn [_payload _header]. unfold BufferList.size, BufferList.of_buffer, IPv4Header.payload_length.
  simpl fold_left. unfold Buffer.size, NetParser.buffer. rewrite Hp'.
  destruct Hh'. pose proof (zlen_nonneg pl). rewrite Hl. wsimpl.
  replace (4 * _ + zlen pl - _) with (0 + zlen pl) by lia. rewrite Z.eqb_refl. cbn [negb].
  unfold NetParser.get_error. by rewrite He.
Qed.

(** A datagram that [serialize] writes is read back by [parse]: the header
    check accepts it, checksum included, and header and payload are those sent,
    the header with the checksum filled in. *)
Theorem ipv4_datagram_roundtrip d :
  sendable d ->
  exists l, serialize d = ok l /\
    forall b d0, Buffer.wf b -> Buffer.str b = BufferList.concatenate l ->
    exists c p, let h := (header d) <| IPv4Header.cksum := c |> in
      IPv4Header.parse (header d0) (NetParser.make b) = ok (h, NoError, p) /\
      parse b d0 = ok (mkIPv4Datagram h [NetParser.buffer p], NoError) /\
      Buffer.str (NetParser.buffer p) = BufferList.concatenate (payload d).
Proof.
  intros H. destruct (parse_serialized_datagram d H) as (l&E&P). exists l. split; [done|].
  intros b d0 Hb Hs. destruct (P b d0 Hb Hs) as (c&p&E1&E2&E3&_). by exists c, p.
Qed.

Definition demo_datagram : IPv4Datagram :=
  mkIPv4Datagram (IPv4Header.mkIPv4Header 4 6 1 27 9 true false 3 64 6 0 167772161 167772162)
    [Buffer.make [x61]; Buffer.make [x62; x63]].

Lemma ipv4_datagram_roundtrip_witness :
  exists l, serialize demo_datagram = ok l /\
    forall b d0, Buffer.wf b -> Buffer.str b = BufferList.concatenate l ->
    exists c p, let h := (header demo_datagram) <| IPv4Header.cksum := c |> in
      IPv4Header.parse (header d0) (NetParser.make b) = ok (h, NoError, p) /\
      parse b d0 = ok (mkIPv4Datagram h [NetParser.buffer p], NoError) /\
      Buffer.str (NetParser.buffer p) = BufferList.concatenate (payload demo_datagram).
Proof.
  apply (ipv4_datagram_roundtrip demo_datagram).
  repeat split; simpl; try done. repeat constructor; done.
Defined.

(** The result of the header check is dropped by [IPv4Datagram::parse]: a header
    whose checksum is wrong, or whose version is 6, is accepted. *)
Definition bad_header (first : byte) : bytes :=
  [first; x00; x00; x14] ++ replicate 16 x00.
Lemma bad_checksum_accepted :
  verdict (bad_header x45) = BadChecksum /\ verdict (bad_header x65) = WrongIPVersion /\
  exists d d', parse (Buffer.make (bad_header x45)) default_datagram = ok (d, NoError) /\
               parse (Buffer.make (bad_header x65)) default_datagram = ok (d', NoError).
Proof.
  split; [vm_compute; reflexivity|]. split; [vm_compute; reflexivity|].
  do 2 eexists. split; vm_compute; reflexivity.
Qed.

End Ipv4Theorems.
