(* ===== verification/Ethernet.v ===== *)
(** * [EthernetHeader], [EthernetFrame], [ARPMessage]
    (libsponge/tcp_helpers/ethernet_header.*, ethernet_frame.*, arp_message.* )

    The link layer's formats. *)
From S2P Require Import Prelude Buffers Parser Ipv4.

(** [std::array<uint8_t, 6>] *)
Definition EthernetAddress : Type := list Z.
Definition address_ok (a : EthernetAddress) : Prop :=
  length a = 6%nat /\ Forall (fun x => 0 <= x < 2 ^ 8) a.

Definition ETHERNET_BROADCAST : EthernetAddress := [255; 255; 255; 255; 255; 255].

(** A value-initialised [EthernetAddress]. *)
Definition zero_address : EthernetAddress := replicate 6 0.

(** The loops over an address. *)
Fixpoint read_bytes (n : nat) : M NetParser.NetParser (list Z) :=
  match n with
  | O => ret []
  | S n => let* x := NetParser.u8 in
           let* l := read_bytes n in
           ret (x :: l)
  end.
Definition parse_address : M NetParser.NetParser EthernetAddress := read_bytes 6.
Definition unparse_address (s : bytes) (a : EthernetAddress) : bytes :=
  fold_left NetUnparser.u8 a s.

Module EthernetHeader.

Definition LENGTH : Z := 14.
Definition TYPE_IPv4 : Z := 2048.
Definition TYPE_ARP : Z := 2054.

Record EthernetHeader := mkEthernetHeader {
  dst : EthernetAddress;
  src : EthernetAddress;
  type : Z
}.
#[global] Instance eta_EthernetHeader : Eta EthernetHeader := fun h =>
  mkEthernetHeader (dst h) (src h) (type h).

Definition default_header : EthernetHeader := mkEthernetHeader zero_address zero_address 0.

Definition parse (h0 : EthernetHeader) : M NetParser.NetParser (EthernetHeader * ParseResult) :=
  let* b := gets NetParser.buffer in
  if Buffer.size b <? LENGTH then ret (h0, PacketTooShort)
  else
    let* dst := parse_address in
    let* src := parse_address in
    let* type := NetParser.u16 in
    let* err := gets NetParser.get_error in
    ret (mkEthernetHeader dst src type, err).

Definition serialize (h : EthernetHeader) : bytes :=
  let s := unparse_address [] (dst h) in
  let s := unparse_address s (src h) in
  NetUnparser.u16 s (type h).

Definition wf (h : EthernetHeader) : Prop :=
  address_ok (dst h) /\ address_ok (src h) /\ 0 <= type h < 2 ^ 16.

End EthernetHeader.

Module EthernetFrame.

Record EthernetFrame := mkEthernetFrame {
  _header : EthernetHeader.EthernetHeader;
  _payload : BufferList.BufferList
}.
#[global] Instance eta_EthernetFrame : Eta EthernetFrame := fun f =>
  mkEthernetFrame (_header f) (_payload f).

Definition default_frame : EthernetFrame :=
  mkEthernetFrame EthernetHeader.default_header BufferList.empty.

Definition header (f : EthernetFrame) : EthernetHeader.EthernetHeader := _header f.
Definition payload (f : EthernetFrame) : BufferList.BufferList := _payload f.

(** The result of [EthernetHeader::parse] is discarded. *)
Definition parse (buffer : Buffer.Buffer) (f : EthernetFrame) : result (EthernetFrame * ParseResult) :=
  let! ((h, _), p) := EthernetHeader.parse (_header f) (NetParser.make buffer) in
  ok (mkEthernetFrame h (BufferList.of_buffer (NetParser.buffer p)), NetParser.get_error p).

Definition serialize (f : EthernetFrame) : BufferList.BufferList :=
  BufferList.append (_payload f)
    (BufferList.append (BufferList.of_string (EthernetHeader.serialize (_header f)))
       BufferList.empty).

End EthernetFrame.

Module ARPMessage.

Definition LENGTH : Z := 28.
Definition TYPE_ETHERNET : Z := 1.
Definition OPCODE_REQUEST : Z := 1.
Definition OPCODE_REPLY : Z := 2.

Record ARPMessage := mkARPMessage {
  hardware_type : Z;
  protocol_type : Z;
  hardware_address_size : Z;
  protocol_address_size : Z;
  opcode : Z;
  sender_ethernet_address : EthernetAddress;
  sender_ip_address : Z;
  target_ethernet_address : EthernetAddress;
  target_ip_address : Z
}.
#[global] Instance eta_ARPMessage : Eta ARPMessage := fun m =>
  mkARPMessage (hardware_type m) (protocol_type m) (hardware_address_size m)
    (protocol_address_size m) (opcode m) (sender_ethernet_address m) (sender_ip_address m)
    (target_ethernet_address m) (target_ip_address m).

Definition default_message : ARPMessage :=
  mkARPMessage TYPE_ETHERNET EthernetHeader.TYPE_IPv4 6 4 0 zero_address 0 zero_address 0.

Definition supported (m : ARPMessage) : bool :=
  (hardware_type m =? TYPE_ETHERNET) && (protocol_type m =? EthernetHeader.TYPE_IPv4) &&
  (hardware_address_size m =? 6) && (protocol_address_size m =? 4) &&
  ((opcode m =? OPCODE_REQUEST) || (opcode m =? OPCODE_REPLY)).

(** The body of [parse] once the size is checked. *)
Definition parse_fields (m : ARPMessage) : M NetParser.NetParser (ARPMessage * ParseResult) :=
  let* ht := NetParser.u16 in
  let* pt := NetParser.u16 in
  let* hs := NetParser.u8 in
  let* ps := NetParser.u8 in
  let* op := NetParser.u16 in
  let m := m <| hardware_type := ht |> <| protocol_type := pt |>
             <| hardware_address_size := hs |> <| protocol_address_size := ps |>
             <| opcode := op |> in
  if negb (supported m) then ret (m, Unsupported)
  else
    let* se := parse_address in
    let* si := NetParser.u32 in
    let* te := parse_address in
    let* ti := NetParser.u32 in
    let* err := gets NetParser.get_error in
    ret (m <| sender_ethernet_address := se |> <| sender_ip_address := si |>
           <| target_ethernet_address := te |> <| target_ip_address := ti |>, err).

Definition parse (buffer : Buffer.Buffer) (m : ARPMessage) : result (ARPMessage * ParseResult) :=
  let p := NetParser.make buffer in
  if Buffer.size (NetParser.buffer p) <? LENGTH then ok (m, PacketTooShort)
  else let! (r, _) := parse_fields m p in ok r.

Definition serialize (m : ARPMessage) : result bytes :=
  if negb (supported m) then throw (runtime_error
    "ARPMessage::serialize(): unsupported field combination (must be Ethernet/IP, and request or reply)")
  else
    let s := NetUnparser.u16 [] (hardware_type m) in
    let s := NetUnparser.u16 s (protocol_type m) in
    let s := NetUnparser.u8 s (hardware_address_size m) in
    let s := NetUnparser.u8 s (protocol_address_size m) in
    let s := NetUnparser.u16 s (opcode m) in
    let s := unparse_address s (sender_ethernet_address m) in
    let s := NetUnparser.u32 s (sender_ip_address m) in
    let s := unparse_address s (target_ethernet_address m) in
    ok (NetUnparser.u32 s (target_ip_address m)).

(** The members of a message that can be on the wire. *)
Record wf (m : ARPMessage) : Prop := mk_wf {
  wf_supported : supported m = true;
  wf_sender : address_ok (sender_ethernet_address m);
  wf_sender_ip : 0 <= sender_ip_address m < 2 ^ 32;
  wf_target : address_ok (target_ethernet_address m);
  wf_target_ip : 0 <= target_ip_address m < 2 ^ 32
}.

End ARPMessage.

(** ** Addresses on the wire *)

Fixpoint address_bytes (a : EthernetAddress) : bytes :=
  match a with [] => [] | x :: a => be_encode 1 x ++ address_bytes a end.

Lemma unparse_address_eq s a : unparse_address s a = s ++ address_bytes a.
Proof.
  unfold unparse_address. revert s. induction a as [|x a IH]; intros s; simpl.
  - by rewrite app_nil_r.
  - rewrite IH, unparse_u8, <- app_assoc. done.
Qed.
#[export] Hint Rewrite unparse_address_eq : unparse.

Lemma zlen_address_bytes a : zlen (address_bytes a) = zlen a.
Proof. induction a; [done|]. cbn [address_bytes]. autorewrite with zlen. lia. Qed.

Lemma parses_read_bytes a t :
  Forall (fun x => 0 <= x < 2 ^ 8) a -> parses (read_bytes (length a)) (address_bytes a ++ t) a t.
Proof.
  induction 1 as [|x a Hx Ha IH]; cbn [address_bytes read_bytes length]; [apply parses_ret|].
  rewrite <- app_assoc. pstep. eapply parses_bind; [apply IH|]. apply parses_ret.
Qed.

Lemma parses_address a t : address_ok a -> parses parse_address (address_bytes a ++ t) a t.
Proof. intros [Hl Ha]. unfold parse_address. rewrite <- Hl. by apply parses_read_bytes. Qed.
#[export] Hint Resolve parses_address : parse.

Lemma parses_get_error s : parses (gets NetParser.get_error) s NoError s.
Proof. apply parses_gets. by intros p (_&He&_). Qed.
#[export] Hint Resolve parses_get_error : parse.

(** Every string of six bytes is an address. *)
Definition bytes_address (s : bytes) : EthernetAddress := map byte_to_Z s.

Lemma address_bytes_of s : address_bytes (bytes_address s) = s.
Proof.
  induction s as [|c s IH]; [done|]. simpl. rewrite IH. f_equal.
  change (2 ^ 0) with 1. by rewrite Z.div_1_r, byte_of_to_Z.
Qed.

Lemma bytes_address_ok s : length s = 6%nat -> address_ok (bytes_address s).
Proof.
  intros H. unfold bytes_address. split; [by rewrite length_map|].
  apply Forall_forall. intros x (c&->&_)%list_elem_of_fmap. apply byte_to_Z_range.
Qed.

(** ** Theorems *)
Module EthernetTheorems.
Import EthernetFrame.

(** [parse] on the bytes that [serialize] writes. *)
Lemma parse_serialized_frame f b f0 :
  EthernetHeader.wf (header f) -> Buffer.wf b ->
  Buffer.str b = BufferList.concatenate (serialize f) ->
  exists p, parse b f0 = ok (mkEthernetFrame (header f) [p], NoError) /\
    Buffer.str p = BufferList.concatenate (payload f) /\ Buffer.wf p.
Proof.
  intros (Hd&Hs&Ht) Hb E. set (pl := BufferList.concatenate (payload f)).
  set (h := header f) in *.
  assert (Buffer.str b = address_bytes (EthernetHeader.dst h) ++ address_bytes (EthernetHeader.src h) ++
    be_encode 2 (EthernetHeader.type h) ++ pl) as Hw.
  { rewrite E. change (BufferList.concatenate _) with (EthernetHeader.serialize h ++ pl).
    unfold EthernetHeader.serialize. autorewrite with unparse. by rewrite <- !app_assoc. }
  assert (parses (EthernetHeader.parse (_header f0)) (Buffer.str b) (h, NoError) pl) as P.
  { apply parses_bind_gets. intros p (_&_&Hp). unfold NetParser.buffer, Buffer.size, EthernetHeader.LENGTH.
    rewrite Hp, Hw. autorewrite with zlen. rewrite !zlen_address_bytes. unfold zlen.
    destruct Hd as [Hd1 Hd2] eqn:E1, Hs as [Hs1 Hs2] eqn:E2. rewrite Hd1, Hs1.
    destruct (Z.ltb_spec (Z.of_nat 6 + (Z.of_nat 6 + (Z.of_nat 2 + Z.of_nat (length pl)))) 14); [lia|].
    do 4 pstep. destruct h. apply parses_ret. }
  destruct (P (NetParser.make b)) as (p&Ep&Hw'&He&Hp); [by apply make_at_bytes|].
  exists (NetParser.buffer p). unfold parse. rewrite Ep, bindR_ok. split; [|done].
  unfold NetParser.get_error. by rewrite He.
Qed.

(** [parse] is total on frames of any length. *)
Lemma parse_frame_total b f0 :
  Buffer.wf b -> exists f p, parse b f0 = ok (f, NoError) /\ payload f = [p] /\ Buffer.wf p.
Proof.
  intros Hb. set (s := Buffer.str b). destruct (Z.ltb_spec (zlen s) 14) as [Hlt|Hge].
  - unfold parse, EthernetHeader.parse, bind at 1, gets. rewrite bindR_ok.
    unfold NetParser.buffer, NetParser.make, Buffer.size. cbn [NetParser._buffer]. fold s. unfold EthernetHeader.LENGTH.
    destruct (Z.ltb_spec (zlen s) 14); [|lia]. by do 2 eexists.
  - set (d := take 6 s). set (r := take 6 (drop 6 s)). set (t := take 2 (drop 12 s)).
    assert (length d = 6%nat /\ length r = 6%nat /\ length t = 2%nat) as (Hd&Hr&Ht).
    { unfold d, r, t, zlen in *. rewrite !length_take, !length_drop. lia. }
    set (f := mkEthernetFrame (EthernetHeader.mkEthernetHeader (bytes_address d) (bytes_address r) (be_decode t))
                [Buffer.make (drop 14 s)]).
    destruct (parse_serialized_frame f b f0) as (p&E&_&Hp).
    + split; [by apply bytes_address_ok|]. split; [by apply bytes_address_ok|].
      pose proof (be_decode_range t) as Hr'. unfold zlen in Hr'. rewrite Ht in Hr'. exact Hr'.
    + done.
    + change (BufferList.concatenate (serialize f)) with (EthernetHeader.serialize (header f) ++ drop 14 s ++ []).
      unfold EthernetHeader.serialize. autorewrite with unparse. cbn [header _header f EthernetHeader.dst EthernetHeader.src EthernetHeader.type].
      rewrite !address_bytes_of, app_nil_r. rewrite <- Ht at 1. rewrite be_encode_decode. fold s. unfold d, r, t.
      rewrite <- !app_assoc. change 14%nat with (12 + 2)%nat. rewrite <- drop_drop, (take_drop 2).
      change 12%nat with (6 + 6)%nat. rewrite <- drop_drop, (take_drop 6). by rewrite take_drop.
    + by do 2 eexists.
Qed.

(** A frame that [serialize] writes is read back by [parse]: header and
    payload are those sent. *)
Theorem ethernet_frame_roundtrip f b f0 :
  EthernetHeader.wf (header f) -> Buffer.wf b ->
  Buffer.str b = BufferList.concatenate (serialize f) ->
  exists p, parse b f0 = ok (mkEthernetFrame (header f) [p], NoError) /\
    Buffer.str p = BufferList.concatenate (payload f).
Proof.
  intros H1 H2 H3. destruct (parse_serialized_frame f b f0 H1 H2 H3) as (p&E1&E2&_). by exists p.
Qed.

Definition demo_frame : EthernetFrame :=
  mkEthernetFrame (EthernetHeader.mkEthernetHeader ETHERNET_BROADCAST [2; 0; 0; 0; 0; 1]
    EthernetHeader.TYPE_ARP) [Buffer.make [x61]; Buffer.make [x62; x63]].

Lemma ethernet_frame_roundtrip_witness :
  exists p, parse (Buffer.make (BufferList.concatenate (serialize demo_frame))) default_frame =
      ok (mkEthernetFrame (header demo_frame) [p], NoError) /\
    Buffer.str p = BufferList.concatenate (payload demo_frame).
Proof.
  apply (ethernet_frame_roundtrip demo_frame
    (Buffer.make (BufferList.concatenate (serialize demo_frame))) default_frame).
  - repeat split; simpl; try done; repeat constructor; done.
  - apply Buffer.make_wf. done.
  - reflexivity.
Defined.

(** A frame shorter than its header is reported by [EthernetHeader::parse] and
    accepted by [EthernetFrame::parse], which drops the result. *)
Lemma short_frame_accepted :
  exists f, parse (Buffer.make [x01; x02]) default_frame = ok (f, NoError).
Proof. eexists. vm_compute. reflexivity. Qed.

End EthernetTheorems.

Module ArpTheorems.
Import ARPMessage.

(** The members are in the ranges of their types. *)
Definition in_range (m : ARPMessage) : Prop :=
  0 <= hardware_type m < 2 ^ 16 /\ 0 <= protocol_type m < 2 ^ 16 /\
  0 <= hardware_address_size m < 2 ^ 8 /\ 0 <= protocol_address_size m < 2 ^ 8 /\
  0 <= opcode m < 2 ^ 16 /\ address_ok (sender_ethernet_address m) /\
  0 <= sender_ip_address m < 2 ^ 32 /\ address_ok (target_ethernet_address m) /\
  0 <= target_ip_address m < 2 ^ 32.

Definition wire (m : ARPMessage) : bytes :=
  be_encode 2 (hardware_type m) ++ be_encode 2 (protocol_type m) ++
  be_encode 1 (hardware_address_size m) ++ be_encode 1 (protocol_address_size m) ++
  be_encode 2 (opcode m) ++ address_bytes (sender_ethernet_address m) ++
  be_encode 4 (sender_ip_address m) ++ address_bytes (target_ethernet_address m) ++
  be_encode 4 (target_ip_address m).

Lemma arp_serialize_wire m : supported m = true -> serialize m = ok (wire m).
Proof.
  intros H. unfold serialize. rewrite H. cbn [negb]. autorewrite with unparse.
  unfold wire. by rewrite <- !app_assoc.
Qed.

Lemma zlen_wire m : in_range m -> zlen (wire m) = 28.
Proof.
  intros (_&_&_&_&_&[Hs _]&_&[Ht _]&_). unfold wire. autorewrite with zlen.
  rewrite !zlen_address_bytes. unfold zlen. rewrite Hs, Ht. done.
Qed.

Lemma wf_in_range m : wf m -> in_range m.
Proof.
  intros [Hs]. unfold supported, TYPE_ETHERNET, EthernetHeader.TYPE_IPv4, OPCODE_REQUEST, OPCODE_REPLY in Hs.
  rewrite !andb_true_iff, orb_true_iff, !Z.eqb_eq in Hs. unfold in_range.
  repeat (split; [done || lia|]). lia.
Qed.

(** [parse_fields] on the wire form of a message. *)
Lemma arp_parses_fields m m0 t :
  in_range m ->
  exists m', parses (parse_fields m0) (wire m ++ t)
    (if supported m then (m, NoError) else (m', Unsupported))
    (if supported m then t else drop 8 (wire m ++ t)).
Proof.
  intros (?&?&?&?&?&?&?&?&?). eexists. unfold wire, parse_fields. rewrite <- !app_assoc.
  do 5 pstep.
  match goal with |- parses (if negb ?b then _ else _) _ _ _ => replace b with (supported m) by done end.
  destruct (supported m); cbn [negb]; [|apply parses_ret].
  do 5 pstep. destruct m. apply parses_ret.
Qed.

(** Every string of at least 28 bytes starts with the wire form of a message. *)
Lemma wire_surjective s : 28 <= zlen s -> exists m, in_range m /\ s = wire m ++ drop 28 s.
Proof.
  intros Hs.
  assert (forall i n, (i + n <= 28)%nat -> length (take n (drop i s)) = n) as Hl.
  { intros. rewrite length_take, length_drop. unfold zlen in Hs. lia. }
  assert (forall i n, (i + n <= 28)%nat ->
    be_encode n (be_decode (take n (drop i s))) = take n (drop i s)) as He.
  { intros i n Hin. rewrite <- (Hl i n Hin) at 1. apply be_encode_decode. }
  assert (forall i n, (i + n <= 28)%nat ->
    0 <= be_decode (take n (drop i s)) < 2 ^ (8 * Z.of_nat n)) as Hr.
  { intros i n Hin. pose proof (be_decode_range (take n (drop i s))) as R. unfold zlen in R. by rewrite Hl in R. }
  exists (mkARPMessage (be_decode (take 2 (drop 0 s))) (be_decode (take 2 (drop 2 s)))
    (be_decode (take 1 (drop 4 s))) (be_decode (take 1 (drop 5 s))) (be_decode (take 2 (drop 6 s)))
    (bytes_address (take 6 (drop 8 s))) (be_decode (take 4 (drop 14 s)))
    (bytes_address (take 6 (drop 18 s))) (be_decode (take 4 (drop 24 s)))).
  split.
  - assert (forall i, (i + 6 <= 28)%nat -> address_ok (bytes_address (take 6 (drop i s)))) as Ha.
    { intros. apply bytes_address_ok. rewrite length_take, length_drop. unfold zlen in Hs. lia. }
    refine (conj (Hr 0 2 _)%nat (conj (Hr 2 2 _)%nat (conj (Hr 4 1 _)%nat (conj (Hr 5 1 _)%nat
      (conj (Hr 6 2 _)%nat (conj (Ha 8 _)%nat (conj (Hr 14 4 _)%nat (conj (Ha 18 _)%nat
      (Hr 24 4 _)%nat)))))))); lia.
  - unfold wire. cbn [hardware_type protocol_type hardware_address_size protocol_address_size opcode
      sender_ethernet_address sender_ip_address target_ethernet_address target_ip_address].
    rewrite !address_bytes_of. rewrite !He by lia.
    rewrite <- !app_assoc. rewrite <- (drop_0 s) at 1.
    repeat match goal with |- drop ?i s = take ?n (drop ?i s) ++ _ =>
      rewrite <- (take_drop n (drop i s)) at 1; rewrite drop_drop; simpl Nat.add; f_equal end.
Qed.

(** [parse] on the bytes that [serialize] writes. *)
Lemma parse_wire m b m0 t :
  wf m -> Buffer.wf b -> Buffer.str b = wire m ++ t -> parse b m0 = ok (m, NoError).
Proof.
  intros Hwf Hb Hs. pose proof (wf_in_range m Hwf) as Hr. destruct (arp_parses_fields m m0 t Hr) as [m' P].
  rewrite (wf_supported m Hwf) in P.
  destruct (P (NetParser.make b)) as (p&Ep&_); [rewrite <- Hs; by apply make_at_bytes|].
  unfold parse. rewrite Ep, bindR_ok. unfold NetParser.buffer, Buffer.size, LENGTH. simpl.
  rewrite Hs, zlen_app, zlen_wire by done. pose proof (zlen_nonneg t).
  by destruct (Z.ltb_spec (28 + zlen t) 28); [lia|].
Qed.

(** An ARP message that [serialize] writes, followed by anything (an Ethernet
    frame may be padded), is read back by [parse]; [serialize] throws exactly on
    the unsupported messages. *)
Theorem arp_roundtrip m :
  (supported m = false <-> exists e, serialize m = inl e) /\
  (wf m -> exists s, serialize m = ok s /\ zlen s = 28 /\
     forall b m0 t, Buffer.wf b -> Buffer.str b = s ++ t -> parse b m0 = ok (m, NoError)).
Proof.
  split.
  { split; [intros H; unfold serialize; rewrite H; by eexists|].
    intros [e He]. destruct (supported m) eqn:E; [|done]. by rewrite arp_serialize_wire in He. }
  intros Hwf. exists (wire m). split; [apply arp_serialize_wire, Hwf|].
  split; [by apply zlen_wire, wf_in_range|]. intros b m0 t. by apply parse_wire.
Qed.

(** [parse] is total, with the verdict its bytes call for. *)
Lemma parse_message_total b m0 :
  Buffer.wf b ->
  exists m r, parse b m0 = ok (m, r) /\
    (r = PacketTooShort <-> zlen (Buffer.str b) < 28) /\
    (r = NoError -> supported m = true /\ serialize m = ok (take 28 (Buffer.str b))) /\
    (forall m', supported m' = true -> in_range m' -> take 28 (Buffer.str b) = wire m' ->
       r = NoError /\ m = m').
Proof.
  intros Hb. set (s := Buffer.str b). unfold parse, NetParser.buffer, Buffer.size, LENGTH.
  cbn [NetParser._buffer NetParser.make]. fold s. destruct (Z.ltb_spec (zlen s) 28) as [Hlt|Hge].
  { exists m0, PacketTooShort. split; [done|]. split; [done|]. split; [done|].
    intros m' _ Hr Hw%(f_equal zlen). rewrite (zlen_wire m' Hr) in Hw.
    autorewrite with zlen in Hw. lia. }
  assert (forall m t, in_range m -> s = wire m ++ t -> exists m', parse_fields m0 (NetParser.make b) =
    ok m' /\ m'.1 = if supported m then (m, NoError) else (m'.1.1, Unsupported)) as P.
  { intros m t Hr Es. destruct (arp_parses_fields m m0 t Hr) as [m' P].
    destruct (P (NetParser.make b)) as (p&Ep&_); [rewrite <- Es; by apply make_at_bytes|].
    eexists. split; [exact Ep|]. by destruct (supported m). }
  destruct (wire_surjective s Hge) as (m&Hr&Es). destruct (P m _ Hr Es) as ([[m1 r] p]&Ep&Em).
  exists m1, r. rewrite Ep, bindR_ok. split; [done|]. simpl in Em.
  assert (take 28 s = wire m) as Ht.
  { rewrite Es. apply take_app_length'. pose proof (zlen_wire m Hr). unfold zlen in *. lia. }
  split; [split; [|lia]; destruct (supported m); by simplify_eq|]. split.
  - destruct (supported m) eqn:Esup; [|by simplify_eq]. simplify_eq. intros _.
    split; [done|]. by rewrite Ht, arp_serialize_wire.
  - intros m' Hsup Hr' Hw.
    destruct (P m' (drop 28 s) Hr') as ([[m2 r2] p2]&Ep2&Em2); [by rewrite <- Hw, take_drop|].
    rewrite Ep in Ep2. unfold ok in Ep2. simplify_eq. simpl in Em2.
    rewrite Hsup in Em2. by simplify_eq.
Qed.

(** [ARPMessage::parse] never throws; it accepts exactly the strings that
    start with a supported message, and [serialize] gives that message's bytes
    back. *)
Theorem arp_parse_accepts b m0 :
  Buffer.wf b ->
  exists m r, parse b m0 = ok (m, r) /\
    (r = PacketTooShort <-> zlen (Buffer.str b) < 28) /\
    (r = NoError -> supported m = true /\ serialize m = ok (take 28 (Buffer.str b))) /\
    (forall m', supported m' = true -> in_range m' -> take 28 (Buffer.str b) = wire m' ->
       r = NoError /\ m = m').
Proof. exact (parse_message_total b m0). Qed.

Definition demo_message : ARPMessage :=
  default_message <| opcode := OPCODE_REPLY |> <| sender_ethernet_address := [2; 0; 0; 0; 0; 7] |>
    <| sender_ip_address := 167772161 |> <| target_ip_address := 167772162 |>.

Lemma arp_roundtrip_witness :
  exists s, serialize demo_message = ok s /\ zlen s = 28 /\
    forall b m0 t, Buffer.wf b -> Buffer.str b = s ++ t -> parse b m0 = ok (demo_message, NoError).
Proof.
  apply (arp_roundtrip demo_message).
  constructor; try done; split; try done; repeat constructor; done.
Defined.

Lemma arp_parse_accepts_witness :
  exists m r, parse (Buffer.make [x00; x01]) default_message = ok (m, r) /\ r = PacketTooShort.
Proof.
  destruct (arp_parse_accepts (Buffer.make [x00; x01]) default_message) as (m&r&E&Hs&_).
  - apply Buffer.make_wf. done.
  - exists m, r. split; [exact E|]. apply Hs. done.
Defined.

End ArpTheorems.
