(* ===== verification/Typing.v ===== *)
(** * The types of what is parsed

    The model keeps the members of the C++ structs as unbounded integers. On any string
    the parsers of the four protocols return, without an exception, and what they store
    fits the types of the members. *)
From S2P Require Import Prelude Wrapping Buffers Parser Checksum TcpSegment Ipv4 Ethernet.

Module Typing.

(** ** Types *)
Definition uint (w x : Z) : Prop := 0 <= x < 2 ^ w.

(** [TCPHeader], [IPv4Header], [EthernetHeader] and [ARPMessage], with bit fields where
    the value has fewer bits than the member. *)
Record tcp_header (h : TCPHeader.TCPHeader) : Prop := mk_tcp_header {
  t_sport : uint 16 (TCPHeader.sport h);
  t_dport : uint 16 (TCPHeader.dport h);
  t_seqno : wrapping_ok (TCPHeader.seqno h);
  t_ackno : wrapping_ok (TCPHeader.ackno h);
  t_doff : uint 4 (TCPHeader.doff h);
  t_win : uint 16 (TCPHeader.win h);
  t_tcp_cksum : uint 16 (TCPHeader.cksum h);
  t_uptr : uint 16 (TCPHeader.uptr h)
}.
Record ipv4_header (h : IPv4Header.IPv4Header) : Prop := mk_ipv4_header {
  t_ver : uint 4 (IPv4Header.ver h);
  t_hlen : uint 4 (IPv4Header.hlen h);
  t_tos : uint 8 (IPv4Header.tos h);
  t_len : uint 16 (IPv4Header.len h);
  t_id : uint 16 (IPv4Header.id h);
  t_offset : uint 13 (IPv4Header.offset h);
  t_ttl : uint 8 (IPv4Header.ttl h);
  t_proto : uint 8 (IPv4Header.proto h);
  t_cksum : uint 16 (IPv4Header.cksum h);
  t_src : uint 32 (IPv4Header.src h);
  t_dst : uint 32 (IPv4Header.dst h)
}.
Record ethernet_header (h : EthernetHeader.EthernetHeader) : Prop := mk_ethernet_header {
  t_eth_dst : address_ok (EthernetHeader.dst h);
  t_eth_src : address_ok (EthernetHeader.src h);
  t_type : uint 16 (EthernetHeader.type h)
}.
Record arp_message (m : ARPMessage.ARPMessage) : Prop := mk_arp_message {
  t_hardware_type : uint 16 (ARPMessage.hardware_type m);
  t_protocol_type : uint 16 (ARPMessage.protocol_type m);
  t_hardware_address_size : uint 8 (ARPMessage.hardware_address_size m);
  t_protocol_address_size : uint 8 (ARPMessage.protocol_address_size m);
  t_opcode : uint 16 (ARPMessage.opcode m);
  t_sender_ethernet_address : address_ok (ARPMessage.sender_ethernet_address m);
  t_sender_ip_address : uint 32 (ARPMessage.sender_ip_address m);
  t_target_ethernet_address : address_ok (ARPMessage.target_ethernet_address m);
  t_target_ip_address : uint 32 (ARPMessage.target_ip_address m)
}.

(** ** The judgement *)

(** From a parser with a well-formed buffer, [m] returns a value of type [T] and leaves a
    well-formed buffer. *)
Definition typed {A} (T : A -> Prop) (m : M NetParser.NetParser A) : Prop :=
  forall p, Buffer.wf (NetParser.buffer p) ->
    exists a p', m p = ok (a, p') /\ T a /\ Buffer.wf (NetParser.buffer p').
Create HintDb typed.

Lemma typed_ret {A} (T : A -> Prop) a : T a -> typed T (ret a).
Proof. intros Ha p Hp. by exists a, p. Qed.
Lemma typed_gets {A} (f : NetParser.NetParser -> A) (T : A -> Prop) :
  (forall p, Buffer.wf (NetParser.buffer p) -> T (f p)) -> typed T (gets f).
Proof. intros Hf p Hp. exists (f p), p. auto. Qed.
Lemma typed_bind {A B} (S : A -> Prop) (T : B -> Prop) (m : M NetParser.NetParser A) k :
  typed S m -> (forall a, S a -> typed T (k a)) -> typed T (bind m k).
Proof.
  intros Hm Hk p Hp. destruct (Hm p Hp) as (a&p1&E&Ha&Hp1). destruct (Hk a Ha p1 Hp1) as (b&p2&E2&?&?).
  exists b, p2. unfold bind. rewrite E. done.
Qed.
Lemma typed_if {A} (T : A -> Prop) (b : bool) (m m' : M NetParser.NetParser A) :
  typed T m -> typed T m' -> typed T (if b then m else m').
Proof. by destruct b. Qed.

(** A size that is checked is there. *)
Lemma checked n p :
  NetParser.error (NetParser._check_size n p) = false ->
  NetParser._check_size n p = p /\ NetParser._error p = NoError /\ n <= Buffer.size (NetParser._buffer p).
Proof.
  unfold NetParser._check_size. destruct (Z.ltb_spec (Buffer.size (NetParser._buffer p)) n); [done|].
  unfold NetParser.error, NetParser.get_error. intros E%negb_false_iff%bool_decide_eq_true. done.
Qed.
Lemma check_size_buffer n p : NetParser.buffer (NetParser._check_size n p) = NetParser.buffer p.
Proof. unfold NetParser._check_size. by destruct (_ <? _). Qed.

Lemma typed_int n : typed (uint (8 * Z.of_nat n)) (NetParser._parse_int n).
Proof.
  intros p Hp. destruct (NetParser.error (NetParser._check_size (Z.of_nat n) p)) eqn:E.
  - unfold NetParser._parse_int. rewrite E. eexists _, _. split; [done|]. rewrite check_size_buffer.
    split; [split; [done|by apply Z.pow_pos_nonneg; lia]|done].
  - destruct (checked _ _ E) as (_&He&Hs). unfold Buffer.size in Hs.
    destruct (parses_int n (Buffer.str (NetParser._buffer p)) Hs p) as (p'&E'&Hp'&_); [done|].
    eexists _, p'. split; [exact E'|]. split; [|done]. pose proof (be_decode_range (take n (Buffer.str (NetParser._buffer p)))) as Hr.
    rewrite zlen_take in Hr. unfold zlen in Hr, Hs. unfold uint.
    replace (Z.min _ _) with (Z.of_nat n) in Hr by lia. done.
Qed.
Lemma typed_u8 : typed (uint 8) NetParser.u8.
Proof. apply (typed_int 1). Qed.
Lemma typed_u16 : typed (uint 16) NetParser.u16.
Proof. apply (typed_int 2). Qed.
Lemma typed_u32 : typed (uint 32) NetParser.u32.
Proof. apply (typed_int 4). Qed.
Lemma typed_remove_prefix n : 0 <= n -> typed (fun _ => True) (NetParser.remove_prefix n).
Proof.
  intros Hn p Hp. unfold NetParser.remove_prefix. destruct (NetParser.error _) eqn:E.
  - eexists _, _. split; [done|]. by rewrite check_size_buffer.
  - destruct (checked _ _ E) as (->&_&Hs).
    destruct (Buffer.remove_prefix_ok n (NetParser._buffer p) Hp) as (b&->&Hb&_); [lia|]. by eexists _, _.
Qed.
#[local] Hint Resolve typed_u8 typed_u16 typed_u32 : typed.

Lemma typed_address : typed address_ok parse_address.
Proof.
  unfold parse_address, address_ok. generalize 6%nat as n.
  induction n as [|n IH]; cbn [read_bytes]; [by apply typed_ret|].
  eapply typed_bind; [apply typed_u8|]. intros x Hx. eapply typed_bind; [apply IH|]. intros l [Hl Hf].
  apply typed_ret. split; [cbn; lia|]. by constructor.
Qed.
#[local] Hint Resolve typed_address : typed.

(** Reads one field after the other. *)
Ltac typed_fields := repeat (eapply typed_bind; [solve [eauto with typed]|intros ? ?]).

Lemma land_uint x w : 0 <= w -> 0 <= x -> uint w (Z.land x (Z.ones w)).
Proof. intros Hw Hx. unfold uint. rewrite Z.land_ones by done. apply Z.mod_pos_bound. lia. Qed.
Lemma shiftr_uint x w k : 0 <= w -> 0 <= k -> uint (w + k) x -> uint w (Z.shiftr x k).
Proof.
  intros Hw Hk [H0 H1]. unfold uint. rewrite Z.shiftr_div_pow2 by done. rewrite Z.pow_add_r in H1 by done.
  split; [by apply Z.div_pos; [|apply Z.pow_pos_nonneg; lia]|]. apply Z.div_lt_upper_bound; [lia|]. lia.
Qed.

(** ** The parsers *)
Lemma typed_tcp_header : typed (fun r => tcp_header r.1) TCPHeader.parse.
Proof.
  unfold TCPHeader.parse. eapply typed_bind with (S := tcp_header).
  - unfold TCPHeader.parse_fields. typed_fields. apply typed_ret. constructor; cbn; try done. by apply (shiftr_uint _ 4 4).
  - intros h Hh. apply typed_if; [by apply typed_ret|].
    eapply typed_bind; [apply typed_remove_prefix; unfold u64; apply Z.mod_pos_bound; lia|]. intros _ _.
    do 2 (eapply typed_bind; [by apply (typed_gets _ (fun _ => True))|]; intros ? _). by apply typed_ret.
Qed.

Lemma typed_ipv4_header h0 : ipv4_header h0 -> typed (fun r => ipv4_header r.1) (IPv4Header.parse h0).
Proof.
  intros H0. unfold IPv4Header.parse. eapply typed_bind; [by apply (typed_gets _ (fun _ => True))|]. intros b _.
  apply typed_if; [by apply typed_ret|]. eapply typed_bind with (S := ipv4_header).
  - unfold IPv4Header.parse_fields. typed_fields. apply typed_ret. constructor; cbn; try done.
    + by apply (shiftr_uint _ 4 4).
    + apply (land_uint _ 4); [done|apply H].
    + apply (land_uint _ 13); [done|apply H4].
  - intros h Hh. do 4 (apply typed_if; [by apply typed_ret|]). unfold IPv4Header.check_header.
    eapply typed_bind; [apply typed_remove_prefix; unfold u64; apply Z.mod_pos_bound; lia|]. intros _ _.
    do 2 (eapply typed_bind; [by apply (typed_gets _ (fun _ => True))|]; intros ? _).
    by repeat (apply typed_if || apply typed_ret).
Qed.

Lemma typed_ethernet_header h0 : ethernet_header h0 -> typed (fun r => ethernet_header r.1) (EthernetHeader.parse h0).
Proof.
  intros H0. unfold EthernetHeader.parse. eapply typed_bind; [by apply (typed_gets _ (fun _ => True))|]. intros b _.
  apply typed_if; [by apply typed_ret|]. typed_fields.
  eapply typed_bind; [by apply (typed_gets _ (fun _ => True))|]. intros ? _. by apply typed_ret.
Qed.

Lemma typed_arp m0 : arp_message m0 -> typed (fun r => arp_message r.1) (ARPMessage.parse_fields m0).
Proof.
  intros []. unfold ARPMessage.parse_fields. typed_fields. cbv zeta. apply typed_if; [by apply typed_ret; constructor|].
  typed_fields. eapply typed_bind; [by apply (typed_gets _ (fun _ => True))|]. intros ? _. apply typed_ret. by constructor.
Qed.

Lemma ipv4_datagram_typed b d :
  Buffer.wf b -> ipv4_header (IPv4Datagram.header d) ->
  exists d' r, IPv4Datagram.parse b d = ok (d', r) /\
    ipv4_header (IPv4Datagram.header d') /\ Forall Buffer.wf (IPv4Datagram.payload d').
Proof.
  intros Hb Hh. unfold IPv4Datagram.parse.
  destruct (typed_ipv4_header _ Hh (NetParser.make b) Hb) as ([h r]&p&E&?&?).
  change (IPv4Datagram._header d) with (IPv4Datagram.header d). rewrite E, bindR_ok.
  destruct (negb _); eexists _, _; (split; [done|]; split; [done|]; by apply Forall_singleton).
Qed.

Lemma arp_typed b m :
  Buffer.wf b -> arp_message m -> exists m' r, ARPMessage.parse b m = ok (m', r) /\ arp_message m'.
Proof.
  intros Hb Hm. unfold ARPMessage.parse. destruct (_ <? _); [by eexists m, _|].
  destruct (typed_arp m Hm (NetParser.make b) Hb) as ([m' r]&p&E&?&?). rewrite E. by eexists _, _.
Qed.

(** C40. On any string the four parsers return without an exception, and every member they
    store has a value of its type; the payload is a well-formed buffer. *)
Theorem parsers_typed b :
  Buffer.wf b ->
  (forall ck seg, tcp_header (TCPSegment.header seg) -> Buffer.wf (TCPSegment.payload seg) ->
     exists seg' r, TCPSegment.parse b ck seg = ok (seg', r) /\
       tcp_header (TCPSegment.header seg') /\ Buffer.wf (TCPSegment.payload seg')) /\
  (forall d, ipv4_header (IPv4Datagram.header d) ->
     exists d' r, IPv4Datagram.parse b d = ok (d', r) /\
       ipv4_header (IPv4Datagram.header d') /\ Forall Buffer.wf (IPv4Datagram.payload d')) /\
  (forall f, ethernet_header (EthernetFrame.header f) ->
     exists f' r, EthernetFrame.parse b f = ok (f', r) /\
       ethernet_header (EthernetFrame.header f') /\ Forall Buffer.wf (EthernetFrame.payload f')) /\
  (forall m, arp_message m -> exists m' r, ARPMessage.parse b m = ok (m', r) /\ arp_message m').
Proof.
  intros Hb. split; [|split; [|split]].
  - intros ck seg Hh Hp. unfold TCPSegment.parse. cbv zeta. destruct (bool_of_Z _); [by eexists seg, _|].
    destruct (typed_tcp_header (NetParser.make b) Hb) as ([h r]&p&->&?&?). by eexists _, _.
  - intros d. by apply ipv4_datagram_typed.
  - intros f Hh. unfold EthernetFrame.parse.
    destruct (typed_ethernet_header _ Hh (NetParser.make b) Hb) as ([h r]&p&E&?&?).
    change (EthernetFrame._header f) with (EthernetFrame.header f). rewrite E, bindR_ok.
    eexists _, _. split; [done|]. split; [done|]. by apply Forall_singleton.
  - intros m. by apply arp_typed.
Qed.

(** Twenty bytes of a datagram that ends after its header. *)
Definition demo_bytes : bytes := [x45; x00; x00; x14; x00; x00; x40; x00; x40; x06; x00; x00; x0a; x00; x00; x01; x0a; x00; x00; x02].

Lemma parsers_typed_witness :
  exists d r, IPv4Datagram.parse (Buffer.make demo_bytes) IPv4Datagram.default_datagram = ok (d, r) /\
    ipv4_header (IPv4Datagram.header d).
Proof.
  destruct (parsers_typed (Buffer.make demo_bytes)) as (_&Hd&_).
  - apply Buffer.make_wf. reflexivity.
  - destruct (Hd IPv4Datagram.default_datagram) as (d&r&E&H&_).
    + constructor; (split; [intros E; discriminate E|reflexivity]).
    + exists d, r. split; [exact E|exact H].
Defined.

End Typing.
