(* ===== verification/Receiver.v ===== *)
(** * [TCPReceiver] (libsponge/tcp_receiver.hh, tcp_receiver.cc)

    The receiving half of a connection: it turns the sequence numbers of the
    segments into stream indices, reassembles, and computes the acknowledgement
    number and the window to advertise. *)
From S2P Require Import Prelude Stream Wrapping Reassembler Buffers TcpSegment.

Module TCPReceiver.

Record TCPReceiver := mkTCPReceiver {
  _reassembler : StreamReassembler.StreamReassembler;
  _capacity : Z;
  _isn : WrappingInt32;
  _set_isn : bool
}.
#[global] Instance eta_TCPReceiver : Eta TCPReceiver := fun r =>
  mkTCPReceiver (_reassembler r) (_capacity r) (_isn r) (_set_isn r).

Definition make (capacity : Z) : TCPReceiver :=
  mkTCPReceiver (StreamReassembler.make capacity) capacity (mkWrappingInt32 0) false.

Definition unassembled_bytes (r : TCPReceiver) : Z :=
  StreamReassembler.unassembled_bytes (_reassembler r).
Definition stream_out (r : TCPReceiver) : ByteStream.ByteStream :=
  StreamReassembler.stream_out (_reassembler r).

Definition segment_received (seg : TCPSegment.TCPSegment) (r : TCPReceiver) : TCPReceiver :=
  let header := TCPSegment.header seg in
  let payload := TCPSegment.payload seg in
  if negb (_set_isn r) && negb (TCPHeader.syn header) then r
  else
    let '(r, bias) :=
      if negb (_set_isn r) then
        (r <| _isn := TCPHeader.seqno header |> <| _set_isn := TCPHeader.syn header |>, 0)
      else (r, 1) in
    let checkpoint := ByteStream.bytes_written (stream_out r) in
    let absolute_seqno := Wrapping.unwrap (TCPHeader.seqno header) (_isn r) checkpoint in
    r <| _reassembler ::= StreamReassembler.push_substring (Buffer.copy payload)
           (u64 (absolute_seqno - bias)) (TCPHeader.fin header) |>.

Definition ackno (r : TCPReceiver) : option WrappingInt32 :=
  if negb (_set_isn r) then None
  else
    let bytes_written := ByteStream.bytes_written (stream_out r) in
    let seq_count := u64 (u64 (Z_of_bool (_set_isn r) + bytes_written) +
                          Z_of_bool (ByteStream.input_ended (stream_out r))) in
    Some (Wrapping.wrap seq_count (_isn r)).

Definition window_size (r : TCPReceiver) : Z :=
  u64 (_capacity r - ByteStream.buffer_size (stream_out r)).

End TCPReceiver.

Module ReceiverTheorems.
Import TCPReceiver ReassemblerInvariant.

Section Peer.
(** The peer's stream and initial sequence number. *)
Context (src : bytes) (isn : WrappingInt32) (cap : Z).
Context (src_small : zlen src < 2 ^ 63) (isn_ok : wrapping_ok isn) (cap_ok : 0 < cap < 2 ^ 63).

Definition data (seg : TCPSegment.TCPSegment) : bytes := Buffer.str (TCPSegment.payload seg).

(** The payload of [seg] is the part of the stream from [index] on, and FIN is set
    only if it reaches the end. *)
Definition carries (r : TCPReceiver) (seg : TCPSegment.TCPSegment) (index : Z) : Prop :=
  pushable src (_reassembler r) (data seg) index (TCPHeader.fin (TCPSegment.header seg)).

(** The sequence number of [seg] is that of absolute position [a], which is closer
    than 2^31 to the last byte assembled. *)
Definition numbered (r : TCPReceiver) (seg : TCPSegment.TCPSegment) (a : Z) : Prop :=
  TCPHeader.seqno (TCPSegment.header seg) = Wrapping.wrap a isn /\
  Z.abs (a - ByteStream.bytes_written (stream_out r)) < 2 ^ 31.

(** [received r consumed acc fin]: segments of the peer and reads lead to [r]; the
    ghosts are those of [reach]. Segments before the SYN are ignored, and a SYN
    without data may be repeated. *)
Inductive received : TCPReceiver -> bytes -> (Z -> Prop) -> bool -> Prop :=
| received_none : received (make cap) [] (fun _ => False) false
| received_early r consumed acc fin seg :
    received r consumed acc fin -> _set_isn r = false ->
    TCPHeader.syn (TCPSegment.header seg) = false ->
    received (segment_received seg r) consumed acc fin
| received_syn r consumed acc fin seg :
    received r consumed acc fin -> _set_isn r = false ->
    TCPHeader.syn (TCPSegment.header seg) = true ->
    TCPHeader.seqno (TCPSegment.header seg) = isn -> carries r seg 0 ->
    received (segment_received seg r) consumed
      (fun k => acc k \/ 0 <= k < 0 + zlen (data seg) /\ k < zlen consumed + cap)
      (fin || (0 + zlen (data seg) <=? zlen consumed + cap) && TCPHeader.fin (TCPSegment.header seg))
| received_syn_again r consumed acc fin seg :
    received r consumed acc fin -> _set_isn r = true -> numbered r seg 0 ->
    data seg = [] -> TCPHeader.fin (TCPSegment.header seg) = false ->
    received (segment_received seg r) consumed acc fin
| received_data r consumed acc fin seg index :
    received r consumed acc fin -> _set_isn r = true -> numbered r seg (1 + index) ->
    carries r seg index ->
    received (segment_received seg r) consumed
      (fun k => acc k \/ index <= k < index + zlen (data seg) /\ k < zlen consumed + cap)
      (fin || (index + zlen (data seg) <=? zlen consumed + cap) && TCPHeader.fin (TCPSegment.header seg))
| received_read r consumed acc fin n :
    received r consumed acc fin -> 0 <= n ->
    received (r <| _reassembler ::= fun a => a <| StreamReassembler._output ::=
                     fun o => (ByteStream.read n o).1 |> |>)
      (consumed ++ (ByteStream.read n (stream_out r)).2) acc fin.

Lemma written_range r consumed acc fin :
  reach src cap r consumed acc fin ->
  0 <= ByteStream.bytes_written (StreamReassembler.stream_out r) < 2 ^ 63.
Proof. intros H. destruct (reach_in_order src cap r _ _ _ src_small cap_ok H) as (_&?&_). lia. Qed.

Lemma unwrap_numbered r seg a consumed acc fin :
  reach src cap (_reassembler r) consumed acc fin -> _isn r = isn ->
  numbered r seg a -> 0 <= a < 2 ^ 63 + 1 ->
  Wrapping.unwrap (TCPHeader.seqno (TCPSegment.header seg)) (_isn r)
    (ByteStream.bytes_written (stream_out r)) = a.
Proof.
  intros Hr -> [-> Hn] Ha. pose proof (written_range _ _ _ _ Hr). unfold stream_out in *.
  apply unwrap_wrap_lemma; try done; lia.
Qed.

Lemma received_inv r consumed acc fin :
  received r consumed acc fin ->
  reach src cap (_reassembler r) consumed acc fin /\ _capacity r = cap /\
  if _set_isn r then _isn r = isn else forall k, ~ acc k.
Proof.
  induction 1 as [|r consumed acc fin seg _ IH Hs Hsyn|r consumed acc fin seg _ IH Hs Hsyn Hseq Hc
    |r consumed acc fin seg _ IH Hs Hn Hd Hf|r consumed acc fin seg index _ IH Hs Hn Hc
    |r consumed acc fin n _ IH Hn].
  - split; [apply reach_make|]. split; [done|]. intros k; tauto.
  - unfold segment_received. by rewrite Hs, Hsyn.
  - destruct IH as (Hr&Hcap&Hi). rewrite Hs in Hi. unfold segment_received. rewrite Hs, Hsyn. simpl.
    unfold stream_out. cbn [_reassembler].
    assert (ByteStream.bytes_written (StreamReassembler.stream_out (_reassembler r)) = 0) as ->.
    { destruct (reach_in_order src cap _ _ _ _ src_small cap_ok Hr) as (_&Hn&Ha&_).
      destruct (decide (ByteStream.bytes_written (StreamReassembler.stream_out (_reassembler r)) = 0)); [done|].
      destruct (Hi 0). apply Ha. lia. }
    rewrite Hseq. replace (Wrapping.unwrap isn isn 0) with 0.
    + split; [by apply reach_push|done].
    + symmetry. replace isn with (Wrapping.wrap 0 isn) at 1; [by apply unwrap_wrap_lemma|].
      rewrite wrap_eq. destruct isn as [v]. unfold wrapping_ok in isn_ok. simpl in *. by rewrite u32_small.
  - destruct IH as (Hr&Hcap&Hi). rewrite Hs in Hi. unfold segment_received. rewrite Hs. simpl.
    fold (stream_out r). rewrite (unwrap_numbered r seg 0 _ _ _ Hr Hi Hn) by lia. rewrite Hs.
    unfold data in Hd. unfold Buffer.copy. rewrite Hd, Hf. change (u64 (0 - 1)) with (2 ^ 64 - 1).
    rewrite (push_beyond src cap _ _ _ _ src_small cap_ok Hr). done.
  - destruct IH as (Hr&Hcap&Hi). rewrite Hs in Hi. unfold segment_received. rewrite Hs. simpl.
    pose proof Hc as [Hp1 Hp2 _ _ _]. pose proof (zlen_nonneg (data seg)).
    fold (stream_out r). rewrite (unwrap_numbered r seg (1 + index) _ _ _ Hr Hi Hn) by lia. rewrite Hs.
    replace (u64 (1 + index - 1)) with index by (rewrite u64_small; lia).
    split; [by apply reach_push|done].
  - destruct IH as (Hr&Hcap&Hi). split; [by apply reach_read|done].
Qed.

End Peer.

(** C8. The receiver delivers the peer's stream: what the reader consumed and what
    is waiting for it is the prefix of the stream up to the first byte that has
    not arrived, and the stream ends only when all of it is there. Nothing is
    delivered before the SYN. Segments come in any order, overlap and repeat, but a segment
    without data, a FIN above all, does not come ahead of missing data, a SYN is repeated only
    without data and FIN, and none is 2^31 or more away ([received]): the code accepts these
    and mishandles them ([overtaking_fin_truncates]). *)
Theorem receiver_delivers src isn cap r consumed acc fin :
  zlen src < 2 ^ 63 -> wrapping_ok isn -> 0 < cap < 2 ^ 63 ->
  received src isn cap r consumed acc fin ->
  let n := ByteStream.bytes_written (stream_out r) in
  consumed ++ ByteStream.peek_output (2 ^ 64 - 1) (stream_out r) = slice src 0 n /\
  (forall k, 0 <= k < n -> acc k) /\ ~ acc n /\
  (ByteStream.input_ended (stream_out r) = true <->
     fin = true /\ forall k, 0 <= k < zlen src -> acc k) /\
  (_set_isn r = false -> n = 0).
Proof.
  intros Hs Hi Hc H. destruct (received_inv _ _ _ Hs Hi Hc _ _ _ _ H) as (Hr&_&Hset).
  destruct (reach_in_order _ _ _ _ _ _ Hs Hc Hr) as (E&Hn&Ha&Hna). cbn zeta.
  split; [exact E|]. split; [exact Ha|]. split; [exact Hna|].
  split; [apply (reach_end _ _ _ _ _ _ Hs Hc Hr)|]. intros Hf. rewrite Hf in Hset.
  destruct (decide (ByteStream.bytes_written (stream_out r) = 0)); [done|].
  destruct (Hset 0). apply Ha. unfold stream_out in *. lia.
Qed.

(** A SYN is what makes the acknowledgement number. *)
Lemma syn_makes_ackno seg r :
  ackno (segment_received seg r) = None <-> ackno r = None /\ TCPHeader.syn (TCPSegment.header seg) = false.
Proof.
  unfold ackno, segment_received.
  destruct (_set_isn r) eqn:E, (TCPHeader.syn (TCPSegment.header seg)) eqn:E'; cbn; rewrite ?E; cbn;
    (split; [intros ?; split|intros [? ?]]); congruence.
Qed.

(** C25. The acknowledgement number is the sequence number of the first position that has not
    arrived: after the SYN, the bytes [acc] that have arrived without a gap, and the FIN, which
    counts exactly when it and every byte have arrived. There is none before a SYN, and a SYN
    is what makes one. The window is the room left in the output stream, and ends where the
    receiver stops to accept. The segments are those of [received]: for a FIN that overtakes
    data the code acknowledges bytes that are missing ([overtaking_fin_truncates]). *)
Theorem receiver_ackno_window src isn cap r consumed acc fin :
  zlen src < 2 ^ 63 -> wrapping_ok isn -> 0 < cap < 2 ^ 63 ->
  received src isn cap r consumed acc fin ->
  exists n (all : bool),
    (forall k, 0 <= k < n -> acc k) /\ ~ acc n /\ 0 <= n <= zlen src /\
    (all = true <-> fin = true /\ n = zlen src) /\
    ackno r = (if _set_isn r then Some (Wrapping.wrap (1 + n + Z_of_bool all) isn) else None) /\
    (forall seg, ackno (segment_received seg r) = None <->
       ackno r = None /\ TCPHeader.syn (TCPSegment.header seg) = false) /\
    window_size r = cap - ByteStream.buffer_size (stream_out r) /\
    0 <= window_size r <= cap /\ n + window_size r = zlen consumed + cap.
Proof.
  intros Hs Hi Hc H. destruct (received_inv _ _ _ Hs Hi Hc _ _ _ _ H) as (Hr&Hcap&Hset).
  destruct (reach_in_order _ _ _ _ _ _ Hs Hc Hr) as (_&Hn&Ha&Hna).
  destruct (reach_capacity _ _ _ _ _ _ Hs Hc Hr) as (Hu&Hb).
  destruct (reach_buffer _ _ _ _ _ _ Hs Hc Hr) as (Hb0&Hbn).
  pose proof (reach_end _ _ _ _ _ _ Hs Hc Hr) as He. unfold window_size, stream_out. rewrite Hcap.
  exists (ByteStream.bytes_written (stream_out r)), (ByteStream.input_ended (stream_out r)).
  fold (stream_out r) in *. set (n := ByteStream.bytes_written (stream_out r)) in *.
  do 3 (split; [done|]). split; [|split; [|split; [intros seg; apply syn_makes_ackno|wsimpl; lia]]].
  - rewrite He. split; intros [? Hall]; (split; [done|]); [|intros k ?; apply Ha; lia].
    destruct (decide (n = zlen src)); [done|]. destruct Hna. apply Hall. lia.
  - unfold ackno. fold n. destruct (_set_isn r); [|done]. cbn [negb Z_of_bool]. rewrite Hset.
    assert (0 <= Z_of_bool (ByteStream.input_ended (stream_out r)) <= 1) by (by destruct (ByteStream.input_ended _)).
    by wsimpl.
Qed.

(** *** Witnesses: a wrapping ISN, and the tail arrives before the head. *)
Definition segment (seqno : Z) (syn fin : bool) (payload : bytes) : TCPSegment.TCPSegment :=
  TCPSegment.mkTCPSegment
    (TCPHeader.default_header <| TCPHeader.seqno := mkWrappingInt32 seqno |>
       <| TCPHeader.syn := syn |> <| TCPHeader.fin := fin |>) (Buffer.make payload).

Definition demo_isn : WrappingInt32 := mkWrappingInt32 4294967294.
Definition demo_syn : TCPReceiver := segment_received (segment 4294967294 true false []) (make 8).
Definition demo_tail : TCPReceiver := segment_received (segment 2 false true [x64; x65]) demo_syn.
Definition demo_head : TCPReceiver :=
  segment_received (segment 4294967295 false false [x61; x62; x63]) demo_tail.

Lemma demo_received : exists acc fin, received demo_src demo_isn 8 demo_head [] acc fin.
Proof.
  do 2 eexists. unfold demo_head, demo_tail, demo_syn.
  eapply (received_data _ _ _ _ _ _ _ _ 0).
  1: eapply (received_data _ _ _ _ _ _ _ _ 3).
  1: eapply received_syn; [apply received_none|done..|].
  - split; try (vm_compute; intuition congruence); by right.
  - done.
  - split; vm_compute; done.
  - split; try (vm_compute; intuition congruence); by left.
  - done.
  - split; vm_compute; done.
  - split; try (vm_compute; intuition congruence); by left.
Qed.

Lemma receiver_delivers_witness :
  [] ++ ByteStream.peek_output (2 ^ 64 - 1) (stream_out demo_head) = slice demo_src 0 5.
Proof.
  destruct demo_received as (acc & fin & H).
  apply (receiver_delivers demo_src demo_isn 8 demo_head [] acc fin); [done|done|lia|done].
Defined.

Lemma receiver_ackno_window_witness :
  ackno demo_head = Some (Wrapping.wrap (1 + 5 + 1) demo_isn) /\ window_size demo_head = 8 - 5.
Proof.
  destruct demo_received as (acc & fin & H).
  destruct (receiver_ackno_window demo_src demo_isn 8 demo_head [] acc fin)
    as (n & all & _ & _ & _ & Hall & Ha & _ & Hw & _ & Hn); [done|done|lia|done|].
  split; [vm_compute; reflexivity|exact Hw].
Defined.

(** *** A FIN without data that overtakes the last bytes

    The reassembler takes it for the end of the stream: the stream ends and is
    acknowledged, FIN included, without the missing bytes, and they are refused
    when they arrive. *)
Lemma overtaking_fin_truncates :
  let r := segment_received (segment 2 false true []) demo_syn in
  let r' := segment_received (segment 4294967295 false false [x61; x62; x63]) r in
  ByteStream.input_ended (stream_out r) = true /\
  ackno r = Some (Wrapping.wrap (1 + 0 + 1) demo_isn) /\
  ByteStream.bytes_written (stream_out r') = 0.
Proof. vm_compute. done. Qed.

End ReceiverTheorems.
