(* ===== verification/Sender.v ===== *)
(** * [TCPSender] (libsponge/tcp_sender.hh, tcp_sender.cc)

    The sending half of a connection: it cuts the outgoing stream into segments
    that fit the peer's window, keeps those not acknowledged, and retransmits the
    oldest when the timer runs out. *)
From S2P Require Import Prelude Stream Wrapping Buffers TcpSegment.

(** libsponge/tcp_helpers/tcp_config.hh *)
Module TCPConfig.

Definition DEFAULT_CAPACITY : Z := 64000.
Definition MAX_PAYLOAD_SIZE : Z := 1000.
Definition TIMEOUT_DFLT : Z := 1000.
Definition MAX_RETX_ATTEMPTS : Z := 8.

Record TCPConfig := mkTCPConfig {
  rt_timeout : Z;
  recv_capacity : Z;
  send_capacity : Z;
  fixed_isn : option WrappingInt32
}.
#[global] Instance eta_TCPConfig : Eta TCPConfig := fun c =>
  mkTCPConfig (rt_timeout c) (recv_capacity c) (send_capacity c) (fixed_isn c).

Definition default_config : TCPConfig :=
  mkTCPConfig TIMEOUT_DFLT DEFAULT_CAPACITY DEFAULT_CAPACITY None.

End TCPConfig.

Module TCPSender.
Import TCPSegment.

(** [_tcp_seg_cache] holds the segments with the time they were last sent. *)
Record TCPSender := mkTCPSender {
  _isn : WrappingInt32;
  _segments_out : list TCPSegment;
  _initial_retransmission_timeout : Z;
  _stream : ByteStream.ByteStream;
  _next_seqno : Z;
  _window_size : Z;
  _window_used_size : Z;
  _now_time_ms : Z;
  _tcp_seg_cache : list (Z * TCPSegment);
  _retransmission_timeout : Z;
  _latest_ackno : WrappingInt32;
  _syned : bool;
  _fin : bool;
  _fin_sent : bool;
  _retransmission_count : Z
}.
#[global] Instance eta_TCPSender : Eta TCPSender := fun s =>
  mkTCPSender (_isn s) (_segments_out s) (_initial_retransmission_timeout s) (_stream s)
    (_next_seqno s) (_window_size s) (_window_used_size s) (_now_time_ms s) (_tcp_seg_cache s)
    (_retransmission_timeout s) (_latest_ackno s) (_syned s) (_fin s) (_fin_sent s)
    (_retransmission_count s).

(** The constructor; [random] is what [random_device()()] returns. *)
Definition make (random : Z) (capacity retx_timeout : Z) (fixed_isn : option WrappingInt32)
    : TCPSender :=
  let isn := default (mkWrappingInt32 random) fixed_isn in
  mkTCPSender isn [] retx_timeout (ByteStream.make capacity) 0 1 0 0 [] retx_timeout isn
    false false false 0.

Definition stream_in (s : TCPSender) : ByteStream.ByteStream := _stream s.
Definition segments_out (s : TCPSender) : list TCPSegment := _segments_out s.
Definition next_seqno_absolute (s : TCPSender) : Z := _next_seqno s.
Definition next_seqno (s : TCPSender) : WrappingInt32 := Wrapping.wrap (_next_seqno s) (_isn s).

Definition bytes_in_flight (s : TCPSender) : Z :=
  u64 (_next_seqno s - Wrapping.unwrap (_latest_ackno s) (_isn s) (_next_seqno s)).

(** [unsigned int] *)
Definition consecutive_retransmissions (s : TCPSender) : Z := u32 (_retransmission_count s).

(** The loop of [remove_acked_seg]. *)
Fixpoint remove_acked_loop (latest isn : WrappingInt32) (next : Z) (cache : list (Z * TCPSegment))
    : list (Z * TCPSegment) :=
  match cache with
  | [] => []
  | (_, seg) :: cache' =>
      let absolute_latest_ackno := Wrapping.unwrap latest isn next in
      let absolute_right_end_no :=
        Wrapping.unwrap (Wrapping.plus (TCPHeader.seqno (header seg))
                           (u32 (length_in_sequence_space seg))) isn next in
      if absolute_right_end_no <=? absolute_latest_ackno
      then remove_acked_loop latest isn next cache'
      else cache
  end.
Definition remove_acked_seg (s : TCPSender) : TCPSender :=
  s <| _tcp_seg_cache ::= remove_acked_loop (_latest_ackno s) (_isn s) (_next_seqno s) |>.

Definition compare (a b isn : WrappingInt32) (checkpoint : Z) : bool :=
  let aa := Wrapping.unwrap a isn checkpoint in
  let bb := Wrapping.unwrap b isn checkpoint in
  bb <? aa.

(** Queueing a new segment and a copy of it for retransmission. *)
Definition push_segment (seg : TCPSegment) (s : TCPSender) : TCPSender :=
  s <| _segments_out ::= fun q => q ++ [seg] |>
    <| _tcp_seg_cache ::= fun c => c ++ [(_now_time_ms s, seg)] |>.

(** [fill_window] when the window is zero and nothing of it is used. *)
Definition fill_zero_window (s : TCPSender) : TCPSender :=
  let '(s, seg) :=
    if negb (ByteStream.buffer_empty (_stream s)) then
      let '(stream, content) := ByteStream.read 1 (_stream s) in
      (s <| _stream := stream |>, default_segment <| _payload := Buffer.make content |>)
    else if ByteStream.eof (_stream s) && negb (_fin s) then
      (s <| _fin := true |>, default_segment <| _header ::= fun h => h <| TCPHeader.fin := true |> |>)
    else (s, default_segment) in
  if length_in_sequence_space seg =? 0 then s
  else
    let seg := seg <| _header ::= fun h =>
                 h <| TCPHeader.seqno := Wrapping.wrap (_next_seqno s) (_isn s) |> |> in
    push_segment seg
      (s <| _next_seqno ::= fun n => u64 (n + 1) |>
         <| _window_used_size ::= fun n => u64 (n + 1) |>).

(** [window_unused_size] *)
Definition window_unused (s : TCPSender) : Z :=
  if _window_used_size s <? _window_size s then u64 (_window_size s - _window_used_size s) else 0.

(** The segment an iteration of the loop of [fill_window] builds, and the sender
    with the flags set and the stream read. *)
Definition next_segment (window_unused_size : Z) (s : TCPSender) : TCPSender * TCPSegment :=
  let is_syn_seg := negb (_syned s) in
  let payload_size :=
    Z.max 1 (Z.min (u64 (window_unused_size - Z_of_bool is_syn_seg)) TCPConfig.MAX_PAYLOAD_SIZE) in
  let '(stream, content) := ByteStream.read payload_size (_stream s) in
  let is_fin_seg := ByteStream.eof stream && negb (_fin s) &&
    (u64 (zlen content + Z_of_bool is_syn_seg) <? window_unused_size) in
  (s <| _syned := true |> <| _stream := stream |> <| _fin := if is_fin_seg then true else _fin s |>,
   mkTCPSegment
     (TCPHeader.default_header
        <| TCPHeader.seqno := Wrapping.wrap (_next_seqno s) (_isn s) |>
        <| TCPHeader.syn := is_syn_seg |> <| TCPHeader.fin := is_fin_seg |>)
     (Buffer.make content)).

(** One iteration of the loop, and whether the loop goes on. *)
Definition fill_step (s : TCPSender) : TCPSender * bool :=
  if negb (negb (ByteStream.buffer_empty (_stream s)) || negb (_syned s) || negb (_fin s))
  then (s, false)
  else if window_unused s =? 0 then (s, false)
  else
    let '(s', seg) := next_segment (window_unused s) s in
    let total_size := length_in_sequence_space seg in
    if total_size =? 0 then (s', false)
    else
      (push_segment seg
         (s' <| _window_used_size ::= fun n => u64 (n + total_size) |>
             <| _next_seqno ::= fun n => u64 (n + total_size) |>), true).

(** The loop. Every iteration that goes on uses up window, so one more iteration
    than the window has room is enough: [fill_loop_spec]. *)
Fixpoint fill_loop (fuel : nat) (s : TCPSender) : TCPSender :=
  match fuel with
  | O => s
  | S fuel => let '(s', continue) := fill_step s in if continue then fill_loop fuel s' else s'
  end.

Definition fill_window (s : TCPSender) : TCPSender :=
  if (_window_size s =? 0) && (_window_used_size s =? 0) then fill_zero_window s
  else fill_loop (S (Z.to_nat (_window_size s))) s.

(** The new window, and how much of it is used. *)
Definition update_window (ackno : WrappingInt32) (window_size : Z) (s : TCPSender) : TCPSender :=
  let a := Wrapping.unwrap (Wrapping.plus (_latest_ackno s) (u32 (_window_used_size s)))
             (_isn s) (_next_seqno s) in
  let b := Wrapping.unwrap ackno (_isn s) (_next_seqno s) in
  let used := if b <? a then u64 (a - b) else 0 in
  s <| _window_size := window_size |>
    <| _window_used_size := if window_size <? used then window_size else used |>.

Definition ack_received (ackno : WrappingInt32) (window_size : Z) (s : TCPSender) : TCPSender :=
  if compare (_latest_ackno s) ackno (_isn s) (_next_seqno s) ||
     (_next_seqno s <? Wrapping.unwrap ackno (_isn s) (_next_seqno s))
  then s
  else
    let s := update_window ackno window_size s in
    if Wrapping.eqb ackno (_latest_ackno s) then s
    else
      let s := s <| _retransmission_timeout := _initial_retransmission_timeout s |>
                 <| _retransmission_count := 0 |>
                 <| _latest_ackno := ackno |> in
      let s := remove_acked_seg s in
      s <| _tcp_seg_cache ::= fun c =>
             match c with (_, seg) :: c' => (_now_time_ms s, seg) :: c' | [] => [] end |>.

Definition tick (ms_since_last_tick : Z) (s : TCPSender) : TCPSender :=
  let s := s <| _now_time_ms ::= fun t => u64 (t + ms_since_last_tick) |> in
  let s := remove_acked_seg s in
  match _tcp_seg_cache s with
  | [] => s
  | (sent, seg) :: cache' =>
      if _retransmission_timeout s <=? u64 (_now_time_ms s - sent) then
        let s := s <| _tcp_seg_cache := (_now_time_ms s, seg) :: cache' |>
                   <| _segments_out ::= fun q => q ++ [seg] |> in
        if negb (_window_size s =? 0) then
          s <| _retransmission_count ::= fun n => u64 (n + 1) |>
            <| _retransmission_timeout ::= fun t => u32 (t * 2) |>
        else s
      else s
  end.

Definition send_empty_segment (s : TCPSender) : TCPSender :=
  let empty_seg := default_segment <| _header ::= fun h =>
    h <| TCPHeader.seqno := Wrapping.wrap (_next_seqno s) (_isn s) |> |> in
  s <| _segments_out ::= fun q => q ++ [empty_seg] |>.

End TCPSender.

(** ** What the sender has sent

    The log is the sequence of the new segments, in the order in which
    [fill_window] queued them; retransmissions are not in it. *)
Module SenderLog.
Import TCPSegment.

Definition data (seg : TCPSegment) : bytes := Buffer.str (payload seg).
Definition syn (seg : TCPSegment) : bool := TCPHeader.syn (header seg).
Definition fin (seg : TCPSegment) : bool := TCPHeader.fin (header seg).

(** The sequence numbers a segment occupies. *)
Definition seg_len (seg : TCPSegment) : Z :=
  zlen (data seg) + Z_of_bool (syn seg) + Z_of_bool (fin seg).

Fixpoint log_len (log : list TCPSegment) : Z :=
  match log with [] => 0 | seg :: log => seg_len seg + log_len log end.

Fixpoint payloads (log : list TCPSegment) : bytes :=
  match log with [] => [] | seg :: log => data seg ++ payloads log end.

(** The segments occupy consecutive sequence numbers from position [a] on. *)
Fixpoint numbered (isn : WrappingInt32) (a : Z) (log : list TCPSegment) : Prop :=
  match log with
  | [] => True
  | seg :: log =>
      TCPHeader.seqno (header seg) = Wrapping.wrap a isn /\ 0 < seg_len seg /\
      numbered isn (a + seg_len seg) log
  end.

(** The SYN is on the first segment and only there, the FIN on the last or nowhere. *)
Definition syn_first (log : list TCPSegment) : Prop :=
  match log with
  | [] => True
  | seg :: log => syn seg = true /\ Forall (fun x => syn x = false) log
  end.
Definition fin_last (has_fin : bool) (log : list TCPSegment) : Prop :=
  if has_fin then exists l x, log = l ++ [x] /\ fin x = true /\ Forall (fun y => fin y = false) l
  else Forall (fun y => fin y = false) log.

Lemma seg_len_eq seg :
  zlen (data seg) < 2 ^ 63 -> length_in_sequence_space seg = seg_len seg.
Proof.
  intros H. unfold length_in_sequence_space, seg_len, syn, fin, data in *.
  pose proof (zlen_nonneg (Buffer.str (payload seg))).
  destruct (TCPHeader.syn _), (TCPHeader.fin _); simpl; wsolve.
Qed.

Lemma seg_len_nonneg seg : 0 <= seg_len seg.
Proof.
  unfold seg_len. pose proof (zlen_nonneg (data seg)). destruct (syn seg), (fin seg); simpl; lia.
Qed.
Lemma log_len_nonneg log : 0 <= log_len log.
Proof. induction log as [|x log IH]; simpl; [lia|]. pose proof (seg_len_nonneg x). lia. Qed.
Lemma log_len_app l k : log_len (l ++ k) = log_len l + log_len k.
Proof. induction l; simpl; lia. Qed.
Lemma payloads_app l k : payloads (l ++ k) = payloads l ++ payloads k.
Proof. induction l; simpl; [done|]. by rewrite IHl, app_assoc. Qed.
Lemma numbered_app isn a l k :
  numbered isn a (l ++ k) <-> numbered isn a l /\ numbered isn (a + log_len l) k.
Proof.
  revert a. induction l as [|x l IH]; intros a; simpl.
  - rewrite Z.add_0_r. tauto.
  - rewrite IH, Z.add_assoc. tauto.
Qed.

(** The facts about the log of a sender that has taken [Pipe.popped p] bytes out of
    its stream. *)
Record log_ok (isn : WrappingInt32) (p : Pipe.Pipe) (syned has_fin : bool) (next : Z)
    (log : list TCPSegment) : Prop := mk_log_ok {
  log_numbered : numbered isn 0 log;
  log_next : next = log_len log;
  log_payloads : payloads log = take (Z.to_nat (Pipe.popped p)) (Pipe.written p);
  log_syn : syn_first log;
  log_syned : syned = negb (bool_decide (log = []));
  log_fin : fin_last has_fin log;
  log_ended : has_fin = true -> Pipe.ended p = true /\ Pipe.popped p = zlen (Pipe.written p);
  log_sizes : Forall (fun x => zlen (data x) <= TCPConfig.MAX_PAYLOAD_SIZE) log
}.

Lemma pop_take n p :
  Pipe.wf p -> 0 <= n ->
  take (Z.to_nat (Pipe.popped (Pipe.pop n p))) (Pipe.written p) =
  take (Z.to_nat (Pipe.popped p)) (Pipe.written p) ++ Pipe.peek n p.
Proof.
  intros [_ Hp _] Hn. simpl. unfold Pipe.peek, Pipe.pending. set (q := drop _ _).
  rewrite Z2Nat.inj_add by (try apply zlen_nonneg; lia). rewrite <- take_take_drop. f_equal.
  fold q. unfold zlen. rewrite Nat2Z.id, length_take.
  destruct (Nat.min_spec (Z.to_nat n) (length q)) as [[? ->]|[? ->]]; [done|].
  by rewrite !take_ge by lia.
Qed.

(** Sending one more segment with the next [n] bytes of the stream. *)
Lemma log_ok_snoc isn p syned has_fin next log seg n :
  log_ok isn p syned has_fin next log -> Pipe.wf p -> 0 <= n ->
  TCPHeader.seqno (header seg) = Wrapping.wrap next isn -> data seg = Pipe.peek n p ->
  syn seg = negb syned -> 0 < seg_len seg -> zlen (data seg) <= TCPConfig.MAX_PAYLOAD_SIZE ->
  (fin seg = true -> has_fin = false /\ Pipe.ended p = true /\
     Pipe.popped (Pipe.pop n p) = zlen (Pipe.written p)) ->
  log_ok isn (Pipe.pop n p) true (has_fin || fin seg) (next + seg_len seg) (log ++ [seg]).
Proof.
  intros [Hnum Hnext Hpay Hsyn Hsyned Hfin Hend Hsz] Hwf Hn Eseq Edata Esyn Hlen Hmax Hf.
  assert (has_fin = false) as Enf.
  { destruct has_fin; [|done]. exfalso. destruct (Hend eq_refl) as [_ Epop].
    assert (fin seg = false) as E1 by (destruct (fin seg); [by destruct (Hf eq_refl)|done]).
    assert (data seg = []) as E2.
    { rewrite Edata. unfold Pipe.peek, Pipe.pending. rewrite drop_ge, take_nil; [done|].
      unfold zlen in Epop. lia. }
    destruct Hfin as (l&x&->&_). rewrite bool_decide_eq_false_2 in Hsyned by by destruct l.
    unfold seg_len in Hlen. rewrite E1, E2, Esyn, Hsyned in Hlen. done. }
  subst has_fin. simpl in *. split.
  - apply numbered_app. split; [done|]. simpl. rewrite Eseq, Hnext. done.
  - rewrite log_len_app. simpl. lia.
  - rewrite payloads_app. simpl. rewrite app_nil_r, Hpay, Edata. symmetry. by apply pop_take.
  - destruct log as [|x log]; simpl in *.
    + by rewrite Esyn, Hsyned.
    + destruct Hsyn as [? ?]. split; [done|]. apply Forall_app. split; [done|].
      rewrite Hsyned in Esyn. by constructor.
  - rewrite bool_decide_eq_false_2; [done|]. by destruct log.
  - destruct (fin seg) eqn:E; simpl; [by exists log, seg|]. apply Forall_app. by repeat constructor.
  - intros E. by destruct (Hf E) as (_&?&?).
  - apply Forall_app. by repeat constructor.
Qed.

End SenderLog.

(** ** Invariant of the sender *)
Module SenderInvariant.
Import TCPSegment TCPSender SenderLog.

(** The position up to which the peer has acknowledged, as the code computes it. *)
Definition acked (s : TCPSender) : Z :=
  Wrapping.unwrap (_latest_ackno s) (_isn s) (_next_seqno s).

(** The part of the invariant that does not depend on acknowledgements. [p] is the
    outgoing stream as a pipe. *)
Record base (s : TCPSender) (p : Pipe.Pipe) (log : list TCPSegment) : Prop := mk_base {
  base_stream : StreamRefinement.refines (_stream s) p;
  base_small : zlen (Pipe.written p) < 2 ^ 62;
  base_isn : wrapping_ok (_isn s);
  base_log : log_ok (_isn s) p (_syned s) (_fin s) (_next_seqno s) log;
  base_window : 0 <= _window_size s < 2 ^ 16;
  base_used : 0 <= _window_used_size s <= 65536;
  base_unsyned : _syned s = false -> _window_size s = 1 /\ _window_used_size s = 0;
  base_out : Forall (fun x => x ∈ log \/ seg_len x = 0) (_segments_out s)
}.

(** [s'] is [s] after queueing the new segments [new]. *)
Record frame (s s' : TCPSender) (new : list TCPSegment) : Prop := mk_frame {
  frame_isn : _isn s' = _isn s;
  frame_latest : _latest_ackno s' = _latest_ackno s;
  frame_window : _window_size s' = _window_size s;
  frame_used : _window_used_size s' = _window_used_size s + log_len new;
  frame_next : _next_seqno s' = _next_seqno s + log_len new;
  frame_out : _segments_out s' = _segments_out s ++ new;
  frame_cache : map snd (_tcp_seg_cache s') = map snd (_tcp_seg_cache s) ++ new;
  frame_now : _now_time_ms s' = _now_time_ms s;
  frame_rto : _retransmission_timeout s' = _retransmission_timeout s;
  frame_rto0 : _initial_retransmission_timeout s' = _initial_retransmission_timeout s;
  frame_count : _retransmission_count s' = _retransmission_count s
}.

(** The stream afterwards: only bytes were taken out. *)
Definition taken (p p' : Pipe.Pipe) : Prop :=
  Pipe.written p' = Pipe.written p /\ Pipe.ended p' = Pipe.ended p /\
  Pipe.capacity p' = Pipe.capacity p /\ Pipe.failed p' = Pipe.failed p.

Lemma frame_trans s s1 s2 l k : frame s s1 l -> frame s1 s2 k -> frame s s2 (l ++ k).
Proof.
  intros [] []. split; try congruence; rewrite ?log_len_app; try lia.
  - rewrite app_assoc. congruence.
  - rewrite app_assoc. congruence.
Qed.

Lemma frame_refl s : frame s s [].
Proof. split; cbn [log_len]; rewrite ?app_nil_r; done || lia. Qed.

Lemma count_syn_fin log has_fin :
  syn_first log -> fin_last has_fin log ->
  log_len log = zlen (payloads log) + Z_of_bool (negb (bool_decide (log = []))) + Z_of_bool has_fin.
Proof.
  assert (forall l, Forall (fun x => syn x = false) l -> Forall (fun x => fin x = false) l ->
    log_len l = zlen (payloads l)) as H0.
  { induction 1 as [|x l Hx Hl IH]; simpl; [done|]. intros [? ?]%Forall_cons.
    autorewrite with zlen. unfold seg_len. rewrite IH, Hx by done. rewrite H. simpl. lia. }
  assert (forall l, syn_first l -> Forall (fun x => fin x = false) l ->
    log_len l = zlen (payloads l) + Z_of_bool (negb (bool_decide (l = [])))) as H1.
  { intros [|x l]; simpl; [done|]. intros [Hx Hl] [Hf Hfl]%Forall_cons.
    autorewrite with zlen. unfold seg_len. rewrite H0, Hx, Hf by done. simpl. lia. }
  intros Hs Hf. destruct has_fin; simpl in Hf; [|rewrite H1 by done; simpl; lia].
  destruct Hf as (l&x&->&Hx&Hl). rewrite log_len_app, payloads_app, zlen_app. simpl.
  rewrite (bool_decide_eq_false_2 (l ++ [x] = [])) by by destruct l.
  rewrite app_nil_r. unfold seg_len. rewrite Hx. destruct l as [|y l]; simpl in *.
  - destruct Hs as [-> _]. change (zlen []) with 0. simpl. lia.
  - destruct Hs as [Hy [Hsl [Hsx _]%Forall_cons]%Forall_app]. rewrite Hsx.
    pose proof (H1 (y :: l) (conj Hy Hsl) Hl) as E. simpl in E. rewrite E. simpl. lia.
Qed.

(** The next sequence number counts the SYN, the bytes taken and the FIN. *)
Lemma base_next s p log :
  base s p log ->
  _next_seqno s = Z_of_bool (_syned s) + Pipe.popped p + Z_of_bool (_fin s).
Proof.
  intros [R _ _ [_ Hn Hp Hs Hsy Hf _ _] _ _ _ _]. rewrite Hn, (count_syn_fin _ _ Hs Hf), <- Hsy, Hp.
  destruct (StreamRefinement.ref_wf _ _ R) as [_ ? _]. autorewrite with zlen. lia.
Qed.

Lemma base_next_range s p log : base s p log -> 0 <= _next_seqno s < 2 ^ 62 + 2.
Proof.
  intros B. rewrite (base_next s p log B). destruct B as [R Hs _ _ _ _ _ _].
  destruct (StreamRefinement.ref_wf _ _ R) as [_ ? _].
  destruct (_syned s), (_fin s); simpl; lia.
Qed.

Lemma zlen_peek_min n p : 0 <= n -> zlen (Pipe.peek n p) = Z.min n (zlen (Pipe.pending p)).
Proof. intros. unfold Pipe.peek. autorewrite with zlen. lia. Qed.

Lemma pop_nothing n p : Pipe.peek n p = [] -> Pipe.pop n p = p.
Proof. intros E. unfold Pipe.pop. rewrite E. destruct p. simpl. f_equal. change (zlen []) with 0. lia. Qed.

Lemma pop_all n p :
  Pipe.wf p -> 0 <= n -> zlen (Pipe.pending (Pipe.pop n p)) = 0 ->
  Pipe.popped (Pipe.pop n p) = zlen (Pipe.written p).
Proof.
  intros [? Hp ?] Hn H. pose proof (zlen_peek_min n p Hn) as E.
  pose proof (zlen_nonneg (Pipe.peek n p)). unfold Pipe.pending in *. simpl in *.
  autorewrite with zlen in *. lia.
Qed.

(** Nothing more can be sent: the window is full, or the stream is drained and its
    end, if it has come, is sent too. *)
Definition drained (s : TCPSender) : Prop :=
  ByteStream.buffer_empty (_stream s) = true /\ _syned s = true /\
  (_fin s = true \/ ByteStream.input_ended (_stream s) = false).
Definition filled (s : TCPSender) : Prop :=
  _window_size s <= _window_used_size s \/ drained s.

(** What one iteration of the loop does. *)
Definition fill_outcome (s : TCPSender) (p : Pipe.Pipe) (log : list TCPSegment)
    (s' : TCPSender) (go : bool) : Prop :=
  exists p' new, base s' p' (log ++ new) /\ taken p p' /\ frame s s' new /\
    if go then exists seg, new = [seg] /\ 0 < seg_len seg /\ _syned s' = true /\
                 _window_used_size s < _window_size s /\
                 (_window_used_size s' <= _window_size s' \/
                  (_syned s = false /\ Pipe.pending p <> []))
    else new = [] /\ filled s'.

Lemma buffer_empty_ok o p :
  StreamRefinement.refines o p -> ByteStream.buffer_empty o = (zlen (Pipe.pending p) =? 0).
Proof. intros R. unfold ByteStream.buffer_empty. by rewrite (StreamRefinement.ref_size _ _ R). Qed.

Lemma buffer_empty_pending o p :
  StreamRefinement.refines o p -> ByteStream.buffer_empty o = true -> Pipe.pending p = [].
Proof.
  intros R. rewrite (buffer_empty_ok _ _ R), Z.eqb_eq.
  destruct (Pipe.pending p) as [|x l]; [done|]. rewrite zlen_cons. pose proof (zlen_nonneg l). lia.
Qed.

Lemma input_ended_ok o p :
  StreamRefinement.refines o p -> ByteStream.input_ended o = Pipe.ended p.
Proof. intros R. apply (StreamRefinement.ref_ended _ _ R). Qed.

(** Queueing a segment that continues the log. *)
Definition sent (s : TCPSender) (stream : ByteStream.ByteStream) (f : bool) (seg : TCPSegment)
    (len : Z) : TCPSender :=
  push_segment seg
    (s <| _syned := true |> <| _stream := stream |> <| _fin := f |>
       <| _window_used_size ::= fun n => u64 (n + len) |>
       <| _next_seqno ::= fun n => u64 (n + len) |>).

Lemma sent_base s p log seg n stream :
  base s p log -> 0 <= n -> StreamRefinement.refines stream (Pipe.pop n p) ->
  TCPHeader.seqno (header seg) = Wrapping.wrap (_next_seqno s) (_isn s) ->
  data seg = Pipe.peek n p -> syn seg = negb (_syned s) -> 0 < seg_len seg ->
  zlen (data seg) <= TCPConfig.MAX_PAYLOAD_SIZE ->
  (fin seg = true -> _fin s = false /\ Pipe.ended p = true /\
     Pipe.popped (Pipe.pop n p) = zlen (Pipe.written p)) ->
  _window_used_size s + seg_len seg <= 65536 ->
  let s' := sent s stream (_fin s || fin seg) seg (seg_len seg) in
  base s' (Pipe.pop n p) (log ++ [seg]) /\ frame s s' [seg] /\ _syned s' = true.
Proof.
  intros B Hn R' Eseq Ed Es Hl Hm Hf Hu. pose proof (base_next_range s p log B) as Hnr.
  destruct B as [R Hsm Hi L Hw Hus Hun Ho].
  pose proof (log_ok_snoc _ _ _ _ _ _ seg n L (StreamRefinement.ref_wf _ _ R) Hn Eseq Ed Es Hl Hm Hf) as L'.
  destruct s. unfold sent, push_segment. simpl in *. rewrite !u64_small by lia.
  split; [|split; [|done]]; split; simpl; try done; try lia.
  - apply Forall_app. split; [eapply Forall_impl; [exact Ho|]|apply Forall_singleton].
    + intros x [?|?]; [left|by right]. apply elem_of_app. by left.
    + left. apply elem_of_app. right. by apply list_elem_of_singleton.
  - by rewrite map_app.
Qed.

(** The segment built when [w] sequence numbers of the window are unused. *)
Lemma next_segment_spec s p log w :
  base s p log -> 0 < w < 2 ^ 16 ->
  let '(s', seg) := next_segment w s in
  exists n stream, 1 <= n /\ StreamRefinement.refines stream (Pipe.pop n p) /\
    s' = s <| _syned := true |> <| _stream := stream |> <| _fin := _fin s || fin seg |> /\
    TCPHeader.seqno (header seg) = Wrapping.wrap (_next_seqno s) (_isn s) /\
    data seg = Pipe.peek n p /\ syn seg = negb (_syned s) /\
    zlen (data seg) <= TCPConfig.MAX_PAYLOAD_SIZE /\
    (seg_len seg <= w \/ (seg_len seg = 2 /\ w = 1 /\ _syned s = false /\ Pipe.pending p <> [])) /\
    (fin seg = true -> _fin s = false /\ Pipe.ended p = true /\
       Pipe.popped (Pipe.pop n p) = zlen (Pipe.written p)) /\
    (fin seg = false -> data seg = [] -> syn seg = false -> _fin s = true \/ Pipe.ended p = false).
Proof.
  intros B Hw. destruct (B) as [R Hsm _ _ _ _ _ _]. unfold next_segment.
  set (sy := negb (_syned s)). assert (0 <= Z_of_bool sy <= 1) as Hsy by by destruct sy.
  rewrite (u64_small (w - Z_of_bool sy)) by lia. set (n := Z.max 1 _).
  assert (1 <= n /\ n <= 1000 /\ (n <= w - Z_of_bool sy \/ n = 1 /\ w - Z_of_bool sy = 0)) as (Hn1&Hn2&Hn3).
  { unfold n, TCPConfig.MAX_PAYLOAD_SIZE. lia. }
  destruct (StreamRefinement.read_ok _ _ R n) as [R' Ec]; [lia|].
  destruct (ByteStream.read n (_stream s)) as [stream content]. cbn [fst snd Pipe.read] in R', Ec.
  pose proof (zlen_peek_min n p ltac:(lia)) as Hz. rewrite <- Ec in Hz.
  pose proof (zlen_nonneg (Pipe.pending p)). pose proof (zlen_nonneg content).
  rewrite (StreamRefinement.eof_ok _ _ R'), (u64_small (zlen content + _)) by lia.
  change (Pipe.ended (Pipe.pop n p)) with (Pipe.ended p).
  set (fi := _ && (_ <? w)).
  assert (fi = true -> _fin s = false /\ Pipe.ended p = true /\
     Pipe.popped (Pipe.pop n p) = zlen (Pipe.written p) /\ zlen content + Z_of_bool sy < w) as Hfi.
  { unfold fi. rewrite !andb_true_iff, negb_true_iff, Z.eqb_eq, Z.ltb_lt. intros [[[? ?] ?] ?].
    split; [done|]. split; [done|]. split; [|done].
    apply pop_all; [apply (StreamRefinement.ref_wf _ _ R)|lia|done]. }
  assert (fi = false -> content = [] -> sy = false -> _fin s = true \/ Pipe.ended p = false) as Hnf.
  { intros Ef Ec0 Esy. unfold fi in Ef. rewrite Ec0, Esy in Ef. change (zlen []) with 0 in Ef.
    destruct (Z.ltb_spec (0 + Z_of_bool false) w); [|simpl in *; lia].
    rewrite (StreamRefinement.pending_pop _ _ R) in Ef by lia. rewrite zlen_drop in Ef.
    rewrite Ec0 in Hz. change (zlen []) with 0 in Hz.
    replace (Z.max _ _ =? 0) with true in Ef by (symmetry; apply Z.eqb_eq; lia).
    destruct (_fin s); [by left|]. right. by destruct (Pipe.ended p). }
  exists n, stream. unfold seg_len, data, syn, fin. simpl. rewrite Buffer.str_make. clearbody fi.
  split; [done|]. split; [done|]. split; [by destruct fi, (_fin s)|].
  split; [done|]. split; [done|]. split; [done|]. split; [unfold TCPConfig.MAX_PAYLOAD_SIZE; lia|].
  split; [|split; [intros Hf; by destruct (Hfi Hf) as (?&?&?&?)|done]].
  destruct fi; [destruct (Hfi eq_refl) as (_&_&_&?); left; simpl; lia|]. simpl.
  destruct Hn3 as [Hn3|[Hn3 Hn4]]; [left; lia|].
  destruct (decide (zlen content = 0)) as [E|E]; [left; lia|right].
  assert (zlen content = 1) by lia. unfold sy in *. destruct (_syned s); simpl in *; [lia|].
  split; [lia|]. split; [lia|]. split; [done|]. intros E'. rewrite E' in Hz.
  change (zlen []) with 0 in Hz. lia.
Qed.

Lemma seg_len_zero seg : seg_len seg = 0 -> fin seg = false /\ syn seg = false /\ data seg = [].
Proof.
  intros E0. unfold seg_len in E0. pose proof (zlen_nonneg (data seg)).
  destruct (fin seg), (syn seg); simpl in E0; split_and!; try done; try lia.
  destruct (data seg); [done|]. rewrite zlen_cons in E0. pose proof (zlen_nonneg l). lia.
Qed.

Lemma fill_stops s p log : base s p log -> filled s -> fill_outcome s p log s false.
Proof. intros B Hf. exists p, []. rewrite app_nil_r. do 2 (split; [done|]). by split; [apply frame_refl|]. Qed.

Lemma fill_step_spec s p log :
  base s p log -> let '(s', go) := fill_step s in fill_outcome s p log s' go.
Proof.
  intros B. pose proof (base_next_range s p log B) as Hnr. destruct (B) as [R Hsm Hi L Hw Hus Hun Ho].
  unfold fill_step. rewrite (buffer_empty_ok _ _ R).
  destruct (negb _) eqn:Eguard.
  { apply fill_stops; [done|]. right. rewrite negb_true_iff, !orb_false_iff, !negb_false_iff in Eguard.
    destruct Eguard as [[E1 E2] E3]. split; [by rewrite (buffer_empty_ok _ _ R)|]. by split; [|left]. }
  clear Eguard. unfold window_unused.
  destruct (Z.ltb_spec (_window_used_size s) (_window_size s)) as [Hlt|Hge];
    [|by apply fill_stops; [|left]].
  rewrite u64_small by lia. set (w := _window_size s - _window_used_size s) in *.
  destruct (Z.eqb_spec w 0) as [|Hw0]; [lia|].
  pose proof (next_segment_spec s p log w B ltac:(lia)) as N.
  destruct (next_segment w s) as [s' seg].
  destruct N as (n&stream&Hn&R'&->&Eseq&Ed&Es&Hm&Hl&Hf&Hnf). unfold TCPConfig.MAX_PAYLOAD_SIZE in Hm.
  rewrite seg_len_eq by lia. pose proof (seg_len_nonneg seg).
  destruct (Z.eqb_spec (seg_len seg) 0) as [E0|E0].
  - destruct (seg_len_zero seg E0) as (Ef&Esy&Ez).
    rewrite Ez in Ed. rewrite (pop_nothing n p (eq_sym Ed)) in R'.
    assert (_syned s = true) as Esn by (rewrite Esy in Es; by destruct (_syned s)).
    exists p, []. rewrite app_nil_r. split; [|split; [done|split; [|split; [done|]]]].
    + split; simpl; try done. by rewrite Ef, orb_false_r, <- Esn.
    + split; simpl; try done; rewrite ?app_nil_r; done || lia.
    + right. split_and!; simpl; [| |].
      * rewrite (buffer_empty_ok _ _ R'). apply Z.eqb_eq. pose proof (zlen_peek_min n p ltac:(lia)) as Hz.
        rewrite <- Ed in Hz. change (zlen []) with 0 in Hz. pose proof (zlen_nonneg (Pipe.pending p)). lia.
      * done.
      * rewrite (input_ended_ok _ _ R'), Ef, orb_false_r. by apply Hnf.
  - change (push_segment seg _) with (sent s stream (_fin s || fin seg) seg (seg_len seg)).
    assert (_window_used_size s + seg_len seg <= 65536) by (destruct Hl; lia).
    destruct (sent_base s p log seg n stream B ltac:(lia) R' Eseq Ed Es ltac:(lia) Hm Hf ltac:(done))
      as (B'&F'&S').
    exists (Pipe.pop n p), [seg]. split; [exact B'|]. split; [done|]. split; [exact F'|].
    exists seg. split; [done|]. split; [lia|]. split; [exact S'|]. split; [done|].
    rewrite (frame_window _ _ _ F'), (frame_used _ _ _ F'). simpl log_len.
    destruct Hl as [?|(?&?&?&?)]; [left; lia|by right].
Qed.

(** The loop as the source has it, without a bound on the iterations. *)
Inductive fills : TCPSender -> TCPSender -> Prop :=
| fills_stop s s' : fill_step s = (s', false) -> fills s s'
| fills_go s s1 s' : fill_step s = (s1, true) -> fills s1 s' -> fills s s'.

Definition window_kept (s : TCPSender) (p : Pipe.Pipe) (s' : TCPSender) : Prop :=
  _window_used_size s' <= Z.max (_window_used_size s) (_window_size s) \/
  (_syned s = false /\ Pipe.pending p <> []).

Lemma fill_loop_spec fuel s p log :
  base s p log -> (Z.to_nat (_window_size s - _window_used_size s) < fuel)%nat ->
  exists p' new, base (fill_loop fuel s) p' (log ++ new) /\ taken p p' /\
    frame s (fill_loop fuel s) new /\ filled (fill_loop fuel s) /\ fills s (fill_loop fuel s) /\
    window_kept s p (fill_loop fuel s).
Proof.
  revert s p log. induction fuel as [|fuel IH]; intros s p log B Hfuel; [lia|].
  pose proof (fill_step_spec s p log B) as F. simpl. destruct (fill_step s) as [s1 go] eqn:E.
  destruct F as (p1&new&B1&T1&F1&H1). destruct go.
  - destruct H1 as (seg&->&Hl&Hsy&Hlt&Hu). pose proof (frame_used _ _ _ F1) as Eu.
    pose proof (frame_window _ _ _ F1) as Ew. simpl log_len in Eu.
    destruct (IH s1 p1 _ B1) as (p2&new&B2&T2&F2&Hf&Hr&Hk); [lia|].
    exists p2, ([seg] ++ new). rewrite app_assoc. split; [done|].
    split; [by unfold taken in *; intuition congruence|]. split; [by eapply frame_trans|].
    split; [done|]. split; [by eapply fills_go|]. destruct Hk as [Hk|[? _]]; [|congruence].
    destruct Hu as [?|?]; [left; lia|by right].
  - destruct H1 as (->&Hf). exists p1, []. do 4 (split; [done|]). split; [by apply fills_stop|].
    left. rewrite (frame_used _ _ _ F1). simpl. lia.
Qed.

(** The probe of a zero window: one byte, or the FIN. *)
Lemma probe_spec s p log seg n stream :
  base s p log -> _window_used_size s = 0 -> _syned s = true -> 0 <= n ->
  StreamRefinement.refines stream (Pipe.pop n p) ->
  TCPHeader.seqno (header seg) = Wrapping.wrap (_next_seqno s) (_isn s) -> data seg = Pipe.peek n p ->
  syn seg = false -> seg_len seg = 1 ->
  (fin seg = true -> _fin s = false /\ Pipe.ended p = true /\
     Pipe.popped (Pipe.pop n p) = zlen (Pipe.written p)) ->
  let s' := sent s stream (_fin s || fin seg) seg 1 in
  exists p' new, base s' p' (log ++ new) /\ taken p p' /\ frame s s' new /\ log_len new <= 1 /\
    (new = [] -> drained s').
Proof.
  intros B Hu Hsy Hn R Eq Ed Es El Hf. cbv zeta.
  assert (zlen (data seg) <= TCPConfig.MAX_PAYLOAD_SIZE).
  { unfold seg_len in El. unfold TCPConfig.MAX_PAYLOAD_SIZE. destruct (syn seg), (fin seg); simpl in El; lia. }
  destruct (sent_base s p log seg n stream) as (B'&F'&_); try done; try lia; [by rewrite Hsy|].
  rewrite El in B', F'. exists (Pipe.pop n p), [seg]. split; [exact B'|]. split; [done|]. split; [exact F'|].
  split; [cbn [log_len]; lia|done].
Qed.

Lemma fill_zero_window_spec s p log :
  base s p log -> _window_size s = 0 -> _window_used_size s = 0 ->
  exists p' new, base (fill_zero_window s) p' (log ++ new) /\ taken p p' /\
    frame s (fill_zero_window s) new /\ log_len new <= 1 /\
    (new = [] -> drained (fill_zero_window s)).
Proof.
  intros B Hw Hu. pose proof (base_next_range s p log B) as Hnr. destruct (B) as [R _ _ _ _ _ Hun _].
  assert (_syned s = true) as Hsy by (destruct (_syned s); [done|]; destruct (Hun eq_refl); lia).
  unfold fill_zero_window. rewrite (buffer_empty_ok _ _ R), (StreamRefinement.eof_ok _ _ R).
  destruct (Z.eqb_spec (zlen (Pipe.pending p)) 0) as [E0|E0]; simpl negb; cbv iota.
  - rewrite andb_true_r. destruct (Pipe.ended p && negb (_fin s)) eqn:Ef.
    + apply andb_true_iff in Ef as [Een Efi%negb_true_iff].
      match goal with |- context [if ?b then _ else push_segment _ _] => change b with false end. cbv iota.
      set (seg' := mkTCPSegment (TCPHeader.default_header <| TCPHeader.fin := true |>
        <| TCPHeader.seqno := Wrapping.wrap (_next_seqno s) (_isn s) |>) Buffer.empty).
      replace (push_segment _ _) with (sent s (_stream s) (_fin s || fin seg') seg' 1)
        by (destruct s; simpl in *; by subst).
      apply (probe_spec s p log seg' 0); try done; rewrite pop_nothing by done; [done|].
      intros _. do 2 (split; [done|]). pose proof (StreamRefinement.ref_wf _ _ R) as Hwf.
      pose proof (Pipe.zlen_pending p Hwf). lia.
    + match goal with |- context [if ?b then _ else push_segment _ _] => change b with true end. cbv iota.
      exists p, []. rewrite app_nil_r. do 2 (split; [done|]). split; [apply frame_refl|]. split; [done|].
      intros _. split; [by rewrite (buffer_empty_ok _ _ R), E0|]. split; [done|].
      rewrite (input_ended_ok _ _ R). destruct (Pipe.ended p), (_fin s); auto.
  - destruct (StreamRefinement.read_ok _ _ R 1) as [R' Ec]; [lia|].
    destruct (ByteStream.read 1 (_stream s)) as [stream content]. cbn [fst snd Pipe.read] in R', Ec.
    pose proof (zlen_peek_min 1 p ltac:(lia)) as Hz. rewrite <- Ec in Hz.
    pose proof (zlen_nonneg (Pipe.pending p)).
    set (seg := default_segment <| _payload := _ |>).
    assert (seg_len seg = 1) as El0.
    { change (zlen content + 0 + 0 = 1). lia. }
    rewrite seg_len_eq, El0 by (change (zlen content < 2 ^ 63); lia).
    match goal with |- context [if ?b then _ else push_segment _ _] => change b with false end. cbv iota.
    set (seg' := mkTCPSegment (TCPHeader.default_header
        <| TCPHeader.seqno := Wrapping.wrap (_next_seqno s) (_isn s) |>) (Buffer.make content)).
    replace (push_segment _ _) with (sent s stream (_fin s || fin seg') seg' 1).
    + by apply (probe_spec s p log seg' 1).
    + unfold sent. change (fin seg') with false. rewrite orb_false_r. destruct s. simpl in *. by subst.
Qed.

(** *** Acknowledgements *)

(** The peer's acknowledgement is near, and the cache holds exactly the segments of
    the log that are not acknowledged as a whole. *)
Record acks (s : TCPSender) (log : list TCPSegment) : Prop := mk_acks {
  acks_latest : _latest_ackno s = Wrapping.wrap (acked s) (_isn s);
  acks_range : 0 <= acked s <= _next_seqno s;
  acks_near : _next_seqno s - acked s < 2 ^ 31;
  acks_cache : exists k, map snd (_tcp_seg_cache s) = drop k log /\
    log_len (take k log) <= acked s /\
    forall seg, log !! k = Some seg -> acked s < log_len (take k log) + seg_len seg
}.

Lemma plus_wrap a n isn : Wrapping.plus (Wrapping.wrap a isn) (u32 n) = Wrapping.wrap (a + n) isn.
Proof.
  rewrite !wrap_eq. unfold Wrapping.plus. simpl. f_equal. unfold u32.
  rewrite <- Zplus_mod. f_equal. lia.
Qed.

Lemma unwrap_near a isn next :
  0 <= a <= next -> next < 2 ^ 63 -> next - a < 2 ^ 31 ->
  Wrapping.unwrap (Wrapping.wrap a isn) isn next = a.
Proof. intros. apply unwrap_wrap_lemma; lia. Qed.

Lemma frame_acks s s' p p' log new :
  acks s log -> base s' p' (log ++ new) -> base s p log -> frame s s' new ->
  _next_seqno s' - acked s < 2 ^ 31 ->
  acks s' (log ++ new) /\ acked s' = acked s.
Proof.
  intros [Hl Hr Hn (k&Hc&Hk1&Hk2)] B' B F Hnear. pose proof (base_next_range _ _ _ B').
  pose proof (frame_next _ _ _ F) as En. pose proof (log_len_nonneg new).
  assert (acked s' = acked s) as Ea.
  { unfold acked at 1. rewrite (frame_latest _ _ _ F), Hl, (frame_isn _ _ _ F).
    apply unwrap_near; lia. }
  split; [|done]. split; rewrite ?Ea.
  - by rewrite (frame_latest _ _ _ F), (frame_isn _ _ _ F).
  - lia.
  - done.
  - destruct (decide (k <= length log)%nat) as [Hle|Hgt].
    + exists k. rewrite (frame_cache _ _ _ F), Hc, take_app_le, drop_app_le by done.
      split; [done|]. split; [done|]. intros seg Hseg.
      destruct (decide (k < length log)%nat).
      * apply Hk2. by rewrite lookup_app_l in Hseg.
      * rewrite lookup_app_r in Hseg by lia. replace (k - length log)%nat with 0%nat in Hseg by lia.
        rewrite take_ge by lia. destruct (base_log _ _ _ B) as [_ Enx _ _ _ _ _ _].
        destruct (base_log _ _ _ B') as [Hnum _ _ _ _ _ _ _]. apply numbered_app in Hnum as [_ Hnum].
        destruct new as [|x new]; [done|]. simpl in Hseg, Hnum. simplify_eq. lia.
    + exists (length log). rewrite (frame_cache _ _ _ F), Hc, drop_ge, take_app_length, drop_app_length by lia.
      rewrite take_ge in Hk1 by lia. split; [done|]. split; [done|]. intros seg Hseg.
      rewrite lookup_app_r, Nat.sub_diag in Hseg by lia.
      destruct (base_log _ _ _ B) as [_ Enx _ _ _ _ _ _].
      destruct (base_log _ _ _ B') as [Hnum _ _ _ _ _ _ _]. apply numbered_app in Hnum as [_ Hnum].
      destruct new as [|x new]; [done|]. simpl in Hseg, Hnum. simplify_eq. lia.
Qed.

(** [remove_acked_seg] removes the segments that end at or before [A]. *)
Lemma remove_acked_spec isn next A cache a :
  0 <= a <= A -> A <= next -> next < 2 ^ 63 -> next - A < 2 ^ 31 ->
  numbered isn a (map snd cache) -> a + log_len (map snd cache) = next ->
  Forall (fun x => zlen (data x) <= TCPConfig.MAX_PAYLOAD_SIZE) (map snd cache) ->
  (forall seg, map snd cache !! 0%nat = Some seg -> next - (a + seg_len seg) < 2 ^ 31) ->
  exists j, remove_acked_loop (Wrapping.wrap A isn) isn next cache = drop j cache /\
    a + log_len (take j (map snd cache)) <= A /\
    forall seg, map snd cache !! j = Some seg -> A < a + log_len (take j (map snd cache)) + seg_len seg.
Proof.
  revert a. induction cache as [|[t seg] cache IH]; intros a Ha HA Hb Hnear Hnum Hlen Hsz Hfirst.
  { exists 0%nat. simpl. split; [done|]. split; [lia|done]. }
  simpl in *. destruct Hnum as (Eseq&Hl&Hnum). apply Forall_cons in Hsz as [Hs Hsz].
  unfold TCPConfig.MAX_PAYLOAD_SIZE in Hs. pose proof (Hfirst seg eq_refl).
  pose proof (log_len_nonneg (map snd cache)).
  rewrite Eseq, seg_len_eq, plus_wrap, !unwrap_near by lia.
  destruct (Z.leb_spec (a + seg_len seg) A) as [Hle|Hgt].
  - destruct (IH (a + seg_len seg)) as (j&E&H1&H2); try done; try lia.
    { intros x Hx. pose proof (seg_len_nonneg x). lia. }
    exists (S j). simpl. split; [done|]. split; [lia|]. intros x Hx. apply H2 in Hx. lia.
  - exists 0%nat. simpl. split; [done|]. split; [lia|]. intros x [= <-]. lia.
Qed.

Lemma log_len_take_add k j (log : list TCPSegment) :
  log_len (take (k + j) log) = log_len (take k log) + log_len (take j (drop k log)).
Proof. rewrite <- log_len_app. f_equal. symmetry. apply take_take_drop. Qed.

(** After an acknowledgement moved from [A0] to [acked s], removing what it covers
    restores the invariant. *)
Lemma remove_acked_seg_acks s p log A0 k :
  base s p log -> _latest_ackno s = Wrapping.wrap (acked s) (_isn s) ->
  0 <= A0 <= acked s -> acked s <= _next_seqno s -> _next_seqno s - A0 < 2 ^ 31 ->
  map snd (_tcp_seg_cache s) = drop k log -> log_len (take k log) <= A0 ->
  (forall seg, log !! k = Some seg -> A0 < log_len (take k log) + seg_len seg) ->
  acks (remove_acked_seg s) log.
Proof.
  intros B El H0 HA Hn Ec Hk1 Hk2. pose proof (base_next_range _ _ _ B) as Hnr.
  destruct (base_log _ _ _ B) as [Hnum Enx _ _ _ _ _ Hsz].
  pose proof (log_len_nonneg (take k log)). rewrite <- (take_drop k log) in Hnum, Enx, Hsz.
  apply numbered_app in Hnum as [_ Hnum]. rewrite log_len_app in Enx.
  apply Forall_app in Hsz as [_ Hsz].
  destruct (remove_acked_spec (_isn s) (_next_seqno s) (acked s) (_tcp_seg_cache s) (log_len (take k log)))
    as (j&Ej&Hj1&Hj2); rewrite ?Ec in *; try done; try lia.
  { intros seg Hseg. rewrite lookup_drop, Nat.add_0_r in Hseg. apply Hk2 in Hseg. lia. }
  split; try done.
  - change (0 <= acked s <= _next_seqno s). lia.
  - change (_next_seqno s - acked s < 2 ^ 31). lia.
  - exists (k + j)%nat. rewrite log_len_take_add. change (acked (remove_acked_seg s)) with (acked s).
    split; [|split; [lia|]].
    + change (_tcp_seg_cache (remove_acked_seg s)) with
        (remove_acked_loop (_latest_ackno s) (_isn s) (_next_seqno s) (_tcp_seg_cache s)).
      rewrite El, Ej. rewrite <- drop_drop, <- Ec. apply fmap_drop.
    + intros seg Hseg. rewrite <- lookup_drop in Hseg. apply Hj2 in Hseg. lia.
Qed.

Definition inv (s : TCPSender) (p : Pipe.Pipe) (log : list TCPSegment) : Prop :=
  base s p log /\ acks s log.

Lemma tick_inv s p log ms : inv s p log -> inv (tick ms s) p log.
Proof.
  intros [B A]. destruct A as [Hl Hr Hn (k&Hc&Hk1&Hk2)].
  set (s1 := s <| _now_time_ms ::= fun t => u64 (t + ms) |>).
  assert (base s1 p log) as B1 by (destruct s, B; by split).
  assert (acks (remove_acked_seg s1) log) as A1.
  { apply (remove_acked_seg_acks s1 p log (acked s) k); try done;
      change (acked s1) with (acked s); change (_next_seqno s1) with (_next_seqno s); lia. }
  assert (base (remove_acked_seg s1) p log) as B2 by (destruct B1; by split).
  unfold tick. fold s1. set (s2 := remove_acked_seg s1) in *. clearbody s2.
  destruct (_tcp_seg_cache s2) as [|[sent seg] cache'] eqn:Ecache; [done|].
  destruct (_ <=? _); [|done].
  assert (seg ∈ log) as Hin.
  { destruct A1 as [_ _ _ (j&Hj&_)]. rewrite Ecache in Hj. simpl in Hj.
    rewrite <- (take_drop j log), <- Hj. apply elem_of_app. right. apply elem_of_cons. by left. }
  assert (forall c, inv (s2 <| _tcp_seg_cache := (c, seg) :: cache' |>
     <| _segments_out ::= fun q => q ++ [seg] |>) p log) as I.
  { intros c. destruct B2 as [? ? ? ? ? ? ? Ho], A1 as [? ? ? Hj]. rewrite Ecache in Hj.
    destruct s2. simpl in *. split; split; simpl; try done.
    apply Forall_app. split; [done|]. apply Forall_singleton. by left. }
  specialize (I (_now_time_ms s2)). revert I. set (s3 := _ <| _segments_out ::= _ |>). clearbody s3.
  intros I. destruct (negb _); [|done]. destruct s3, I as [[] []]. split; split; done.
Qed.

Lemma send_empty_inv s p log : inv s p log -> inv (send_empty_segment s) p log.
Proof.
  intros [[? ? ? ? ? ? ? Ho] []]. destruct s. split; split; simpl in *; try done.
  apply Forall_app. split; [done|]. apply Forall_singleton. by right.
Qed.

Lemma fill_window_inv s p log :
  inv s p log ->
  exists p' new, base (fill_window s) p' (log ++ new) /\ taken p p' /\ frame s (fill_window s) new /\
    (_next_seqno (fill_window s) - acked s < 2 ^ 31 ->
       inv (fill_window s) p' (log ++ new) /\ acked (fill_window s) = acked s).
Proof.
  intros [B A]. unfold fill_window.
  assert (forall s' p' new, base s' p' (log ++ new) -> frame s s' new ->
    _next_seqno s' - acked s < 2 ^ 31 -> inv s' p' (log ++ new) /\ acked s' = acked s) as H.
  { intros s' p' new B' F Hn. destruct (frame_acks s s' p p' log new A B' B F Hn). done. }
  destruct (_ && _) eqn:E.
  - apply andb_true_iff in E as [Ew%Z.eqb_eq Eu%Z.eqb_eq].
    destruct (fill_zero_window_spec s p log B Ew Eu) as (p'&new&B'&T&F&_).
    exists p', new. split; [done|]. split; [done|]. split; [done|]. by apply H.
  - destruct (fill_loop_spec (S (Z.to_nat (_window_size s))) s p log B) as (p'&new&B'&T&F&_).
    { destruct B. lia. }
    exists p', new. split; [done|]. split; [done|]. split; [done|]. by apply H.
Qed.

(** An acknowledgement is taken if it lies between the last one and what was sent;
    otherwise it changes nothing. *)
Lemma ack_received_inv s p log ackno w :
  inv s p log -> wrapping_ok ackno -> 0 <= w < 2 ^ 16 -> _syned s = true ->
  let B := Wrapping.unwrap ackno (_isn s) (_next_seqno s) in
  let s' := ack_received ackno w s in
  inv s' p log /\
  if (acked s <=? B) && (B <=? _next_seqno s)
  then acked s' = B /\ _window_size s' = w /\
       _window_used_size s' = _window_used_size (update_window ackno w s)
  else s' = s.
Proof.
  intros I Hok Hw Hsy B s'. destruct (I) as [Bs [Hl Hr Hn (k&Hc&Hk1&Hk2)]].
  pose proof (base_next_range _ _ _ Bs) as Hnr. subst s'. unfold ack_received, compare.
  fold (acked s). fold B.
  destruct (Z.ltb_spec B (acked s)); destruct (Z.leb_spec (acked s) B); try lia; [done|].
  destruct (Z.ltb_spec (_next_seqno s) B); destruct (Z.leb_spec B (_next_seqno s)); try lia; [done|].
  cbn [orb andb]. set (s1 := update_window ackno w s).
  assert (0 <= _window_used_size s1 <= w) as Hu.
  { unfold s1, update_window. simpl. case_match; [lia|].
    match goal with |- context [if ?b then u64 ?x else 0] =>
      pose proof (u64_range x); destruct b end; lia. }
  assert (base s1 p log) as B1.
  { destruct Bs as [? ? ? ? ? ? ? ?]. split; try done; simpl in *; try lia. intros. congruence. }
  assert (Wrapping.wrap B (_isn s) = ackno) as EB by (apply wrap_unwrap; [done|lia]).
  change (_latest_ackno s1) with (_latest_ackno s).
  unfold Wrapping.eqb. destruct (Z.eqb_spec (raw_value ackno) (raw_value (_latest_ackno s))) as [E|E].
  - assert (ackno = _latest_ackno s) as -> by (destruct ackno, (_latest_ackno s); simpl in *; by subst).
    split; [|done]. split; [done|]. split; try done. by exists k.
  - set (s2 := s1 <| _retransmission_timeout := _ |> <| _retransmission_count := 0 |>
                  <| _latest_ackno := ackno |>).
    assert (acked s2 = B) as Ea by done.
    assert (base s2 p log) as B2 by (destruct B1; by split).
    assert (acks (remove_acked_seg s2) log) as A2.
    { apply (remove_acked_seg_acks s2 p log (acked s) k); rewrite ?Ea; try done; lia. }
    assert (base (remove_acked_seg s2) p log) as B3 by (destruct B2; by split).
    split; [|done]. set (s3 := remove_acked_seg s2) in *.
    destruct A2 as [? ? ? Hc3]. split; [destruct B3; by split|]. split; try done.
    change (_tcp_seg_cache (s3 <| _tcp_seg_cache ::= ?f |>)) with (f (_tcp_seg_cache s3)).
    destruct (_tcp_seg_cache s3) as [|[t x] c]; exact Hc3.
Qed.

End SenderInvariant.

(** ** Theorems *)
Module SenderTheorems.
Import TCPSegment TCPSender SenderLog SenderInvariant.

Section Run.
Context (random cap rto : Z) (fixed_isn : option WrappingInt32).
Definition start : TCPSender := make random cap rto fixed_isn.
Context (cap_ok : 0 < cap < 2 ^ 63) (isn_ok : wrapping_ok (_isn start)).

(** [run s written log]: calls of the public functions lead to [s]; the application
    wrote [written] and [fill_window] queued the segments of [log]. Acknowledgements
    arrive only once the SYN is out, and less than 2^31 is ever in flight. *)
Inductive run : TCPSender -> bytes -> list TCPSegment -> Prop :=
| run_start : run start [] []
| run_write s written log d :
    run s written log ->
    zlen (written ++ take (Z.to_nat (ByteStream.write d (_stream s)).2) d) < 2 ^ 62 ->
    run (s <| _stream ::= fun o => (ByteStream.write d o).1 |>)
      (written ++ take (Z.to_nat (ByteStream.write d (_stream s)).2) d) log
| run_end s written log :
    run s written log -> run (s <| _stream ::= ByteStream.end_input |>) written log
| run_error s written log :
    run s written log -> run (s <| _stream ::= ByteStream.set_error |>) written log
| run_fill s written log :
    run s written log -> _next_seqno (fill_window s) - acked s < 2 ^ 31 ->
    run (fill_window s) written
      (log ++ drop (length (_segments_out s)) (_segments_out (fill_window s)))
| run_ack s written log ackno w :
    run s written log -> wrapping_ok ackno -> 0 <= w < 2 ^ 16 -> _syned s = true ->
    run (ack_received ackno w s) written log
| run_tick s written log ms : run s written log -> run (tick ms s) written log
| run_empty s written log : run s written log -> run (send_empty_segment s) written log
| run_dequeue s written log seg q :
    run s written log -> _segments_out s = seg :: q ->
    run (s <| _segments_out := q |>) written log.

Lemma start_acked : acked start = 0.
Proof.
  unfold acked. simpl. set (i := default _ _). change (wrapping_ok i) in isn_ok.
  replace i with (Wrapping.wrap 0 i) at 1; [by apply unwrap_wrap_lemma|].
  rewrite wrap_eq. destruct i as [v]. unfold wrapping_ok in isn_ok. simpl in *. by rewrite u32_small.
Qed.

Lemma with_stream_inv s p p' log stream :
  inv s p log -> StreamRefinement.refines stream p' -> zlen (Pipe.written p') < 2 ^ 62 ->
  Pipe.popped p' = Pipe.popped p ->
  take (Z.to_nat (Pipe.popped p)) (Pipe.written p') = take (Z.to_nat (Pipe.popped p)) (Pipe.written p) ->
  (_fin s = true -> Pipe.ended p' = true /\ Pipe.popped p' = zlen (Pipe.written p')) ->
  inv (s <| _stream := stream |>) p' log.
Proof.
  intros [[R Hsm Hi L Hw Hu Hun Ho] []] R' Hs' Ep Et Hf. split; split; simpl; try done.
  destruct L. split; try done. by rewrite Ep, Et.
Qed.

Lemma run_inv s written log :
  run s written log -> exists p, inv s p log /\ Pipe.written p = written.
Proof.
  induction 1 as [|s written log d _ (p&I&E) Hd|s written log _ (p&I&E)|s written log _ (p&I&E)
    |s written log _ (p&I&E) Hn|s written log ackno w _ (p&I&E) ? ? ?|s written log ms _ (p&I&E)
    |s written log _ (p&I&E)|s written log seg q _ (p&I&E) Eq].
  - exists (Pipe.make cap). split; [|done]. split; split; simpl; try done; try lia.
    + by apply StreamRefinement.make_ok.
    + split; simpl; try done; constructor.
    + unfold acked. simpl. symmetry. apply wrap_unwrap; [done|lia].
    + rewrite start_acked. lia.
    + rewrite start_acked. lia.
    + exists 0%nat. simpl. rewrite start_acked. split; [done|]. split; [lia|done].
  - destruct (I) as [[R _ _ L _ _ _ _] _]. destruct (StreamRefinement.write_ok _ _ R d) as [R' En].
    destruct (StreamRefinement.ref_wf _ _ R) as [? ? ?].
    assert (take (Z.to_nat (ByteStream.write d (_stream s)).2) d = Pipe.accepted d p) as Ea.
    { rewrite En. simpl. unfold Pipe.accepted. destruct (Pipe.ended p); [done|].
      unfold zlen. rewrite Nat2Z.id, length_take.
      destruct (Nat.min_spec (Z.to_nat (Pipe.room p)) (length d)) as [[? ->]|[? ->]]; [done|].
      by rewrite !take_ge by lia. }
    rewrite Ea in *. exists (Pipe.write d p).1. split; [|by simpl; rewrite E].
    change (s <| _stream ::= _ |>) with (s <| _stream := (ByteStream.write d (_stream s)).1 |>).
    apply (with_stream_inv s p); try done; simpl.
    + by rewrite E.
    + apply take_app_le. unfold zlen in *. lia.
    + intros Hf. destruct (log_ended _ _ _ _ _ _ L Hf) as [He Hp]. split; [done|].
      unfold Pipe.accepted. rewrite He, app_nil_r. done.
  - destruct (I) as [[R ? _ L _ _ _ _] _]. exists (Pipe.end_input p). split; [|done].
    apply (with_stream_inv s p); try done; [by apply StreamRefinement.end_input_ok|].
    intros Hf. split; [done|]. apply (log_ended _ _ _ _ _ _ L Hf).
  - destruct (I) as [[R ? _ L _ _ _ _] _]. exists (Pipe.set_error p). split; [|done].
    apply (with_stream_inv s p); try done; [by apply StreamRefinement.set_error_ok|].
    intros Hf. apply (log_ended _ _ _ _ _ _ L Hf).
  - destruct (fill_window_inv s p log I) as (p'&new&B'&T&F&H). destruct (H Hn) as [I' _].
    exists p'. rewrite (frame_out _ _ _ F), drop_app_length. split; [done|].
    destruct T as [-> _]. done.
  - destruct (ack_received_inv s p log ackno w) as [I' _]; try done. by exists p.
  - exists p. split; [by apply tick_inv|done].
  - exists p. split; [by apply send_empty_inv|done].
  - exists p. split; [|done]. destruct I as [[? ? ? ? ? ? ? Ho] []]. split; split; simpl; try done.
    rewrite Eq in Ho. by apply Forall_cons in Ho as [_ ?].
Qed.

End Run.

Lemma in_flight_eq s p log : inv s p log -> bytes_in_flight s = _next_seqno s - acked s.
Proof.
  intros [B [_ ? ? _]]. pose proof (base_next_range _ _ _ B). unfold bytes_in_flight.
  fold (acked s). wsolve.
Qed.

(** C9. The segments the sender makes are the stream, cut up: their sequence
    numbers are consecutive from the ISN on, their payloads followed by what is
    left in the stream are everything the application wrote, the SYN is on the
    first and only there, the FIN at most on the last, once the stream has ended
    and all of it is sent, and no payload exceeds the maximum. Whatever is queued
    for transmission is one of them or occupies no sequence number. *)
Theorem sender_cuts_stream random cap rto fixed_isn s written log :
  0 < cap < 2 ^ 63 -> wrapping_ok (_isn (make random cap rto fixed_isn)) ->
  run random cap rto fixed_isn s written log ->
  numbered (_isn s) 0 log /\ _next_seqno s = log_len log /\
  written = payloads log ++ ByteStream.peek_output (2 ^ 64 - 1) (_stream s) /\
  syn_first log /\ fin_last (_fin s) log /\
  (_fin s = true -> ByteStream.eof (_stream s) = true /\ payloads log = written) /\
  Forall (fun x => zlen (data x) <= TCPConfig.MAX_PAYLOAD_SIZE) log /\
  Forall (fun x => x ∈ log \/ seg_len x = 0) (_segments_out s).
Proof.
  intros Hc Hi H. destruct (run_inv _ _ _ _ Hc Hi _ _ _ H) as (p&[[R Hsm _ [] _ _ _ Ho] _]&<-).
  pose proof (StreamRefinement.ref_wf _ _ R) as W. pose proof (Pipe.zlen_pending p W). destruct (W) as [? ? ?].
  rewrite (StreamRefinement.peek_output_ok _ _ R) by lia. do 2 (split; [done|]).
  split; [|split; [done|split; [done|split; [|done]]]].
  - rewrite log_payloads0. unfold Pipe.peek. rewrite (take_ge (Pipe.pending p)); [symmetry; apply take_drop|].
    unfold zlen in *. lia.
  - intros Hf. destruct (log_ended0 Hf) as [He Hp].
    rewrite (StreamRefinement.eof_ok _ _ R), He, log_payloads0. split.
    + simpl. apply Z.eqb_eq. lia.
    + apply take_ge. unfold zlen in *. lia.
Qed.

(** C10. What is kept for retransmission is exactly what the peer has not
    acknowledged in full: the cache is the log without the first [k] segments,
    which end at or before the acknowledged position, while the next one ends
    after it; [bytes_in_flight] is the distance from there to the next sequence
    number, and the cache is empty exactly when nothing is in flight. *)
Theorem sender_keeps_unacked random cap rto fixed_isn s written log :
  0 < cap < 2 ^ 63 -> wrapping_ok (_isn (make random cap rto fixed_isn)) ->
  run random cap rto fixed_isn s written log ->
  bytes_in_flight s = _next_seqno s - acked s /\
  (exists k, map snd (_tcp_seg_cache s) = drop k log /\ log_len (take k log) <= acked s /\
     forall seg, log !! k = Some seg -> acked s < log_len (take k log) + seg_len seg) /\
  (_tcp_seg_cache s = [] <-> bytes_in_flight s = 0).
Proof.
  intros Hc Hi H. destruct (run_inv _ _ _ _ Hc Hi _ _ _ H) as (p&I&_). rewrite (in_flight_eq _ _ _ I).
  destruct I as [[_ _ _ L _ _ _ _] [_ Hr _ (k&Hk&Hk1&Hk2)]]. destruct L as [_ Hn _ _ _ _ _ _].
  split; [done|]. split; [by exists k|]. rewrite <- (take_drop k log), log_len_app in Hn. split.
  - intros E. rewrite E in Hk. simpl in Hk. rewrite <- Hk in Hn. simpl in Hn. lia.
  - intros E. destruct (_tcp_seg_cache s) as [|[t seg] c]; [done|]. simpl in Hk.
    assert (log !! k = Some seg) as Hs.
    { rewrite <- (Nat.add_0_r k), <- lookup_drop, <- Hk. done. }
    apply Hk2 in Hs. rewrite <- Hk in Hn. simpl in Hn. pose proof (log_len_nonneg (map snd c)). lia.
Qed.

Lemma remove_acked_suffix latest isn next cache :
  exists d, cache = d ++ remove_acked_loop latest isn next cache.
Proof.
  induction cache as [|[t seg] cache [d IH]]; [by exists []|]. cbn [remove_acked_loop]. destruct (_ <=? _); [|by exists []].
  exists ((t, seg) :: d). cbn. by f_equal.
Qed.

Lemma ack_keeps ackno w s :
  let s' := ack_received ackno w s in
  _segments_out s' = _segments_out s /\ _next_seqno s' = _next_seqno s /\ _stream s' = _stream s /\
  _now_time_ms s' = _now_time_ms s.
Proof. unfold ack_received. destruct (_ || _); [done|]. by destruct (Wrapping.eqb _ _). Qed.

(** What [ack_received] does with an acknowledgement that it takes, new or repeated. *)
Lemma ack_new s p log ackno w :
  inv s p log -> wrapping_ok ackno ->
  acked s <= Wrapping.unwrap ackno (_isn s) (_next_seqno s) <= _next_seqno s ->
  let s' := ack_received ackno w s in
  if Wrapping.unwrap ackno (_isn s) (_next_seqno s) =? acked s
  then s' = update_window ackno w s
  else _retransmission_timeout s' = _initial_retransmission_timeout s /\ _retransmission_count s' = 0 /\
    _tcp_seg_cache s' = match remove_acked_loop ackno (_isn s) (_next_seqno s) (_tcp_seg_cache s) with
                        | (_, x) :: c => (_now_time_ms s, x) :: c
                        | [] => []
                        end.
Proof.
  intros [B [Hl _ _ _]] Ha HB. pose proof (base_next_range _ _ _ B) as Hnr. unfold ack_received, compare. fold (acked s).
  destruct (Z.ltb_spec (Wrapping.unwrap ackno (_isn s) (_next_seqno s)) (acked s)); [lia|].
  destruct (Z.ltb_spec (_next_seqno s) (Wrapping.unwrap ackno (_isn s) (_next_seqno s))); [lia|].
  cbn [orb]. change (_latest_ackno (update_window _ _ s)) with (_latest_ackno s). unfold Wrapping.eqb.
  destruct (Z.eqb_spec (raw_value ackno) (raw_value (_latest_ackno s))) as [E|E];
    destruct (Z.eqb_spec (Wrapping.unwrap ackno (_isn s) (_next_seqno s)) (acked s)) as [E'|E']; try done.
  - destruct E'. unfold acked. do 2 f_equal. destruct ackno, (_latest_ackno s). simpl in E. by rewrite E.
  - destruct E. rewrite Hl, <- E', wrap_unwrap; done || lia.
Qed.

(** C23. An acknowledgement is taken exactly when it lies between the last one and
    the next sequence number; otherwise it is ignored. It sets the window. A new one moves the
    acknowledged position, drops from the cache exactly the segments that end at or before it,
    keeps the others in order, restarts the timer of the oldest of them, and resets the
    timeout and the counter of retransmissions. A repeated one changes neither the cache
    nor the timeout nor the counter. Nothing is sent. *)
Theorem sender_ack random cap rto fixed_isn s written log ackno w :
  0 < cap < 2 ^ 63 -> wrapping_ok (_isn (make random cap rto fixed_isn)) ->
  run random cap rto fixed_isn s written log ->
  wrapping_ok ackno -> 0 <= w < 2 ^ 16 -> _syned s = true ->
  let B := Wrapping.unwrap ackno (_isn s) (_next_seqno s) in
  let s' := ack_received ackno w s in
  if (acked s <=? B) && (B <=? _next_seqno s)
  then bytes_in_flight s' = _next_seqno s - B /\ _window_size s' = w /\
       _segments_out s' = _segments_out s /\ _next_seqno s' = _next_seqno s /\
       _stream s' = _stream s /\ _now_time_ms s' = _now_time_ms s /\
       (B = acked s -> _tcp_seg_cache s' = _tcp_seg_cache s /\
          _retransmission_timeout s' = _retransmission_timeout s /\
          consecutive_retransmissions s' = consecutive_retransmissions s) /\
       (acked s < B ->
          (exists j, map snd (_tcp_seg_cache s') = drop j log /\ log_len (take j log) <= B /\
             forall seg, log !! j = Some seg -> B < log_len (take j log) + seg_len seg) /\
          (forall t seg c, _tcp_seg_cache s' = (t, seg) :: c ->
             t = _now_time_ms s /\ exists d, _tcp_seg_cache s = d ++ c) /\
          _retransmission_timeout s' = _initial_retransmission_timeout s /\
          consecutive_retransmissions s' = 0)
  else s' = s.
Proof.
  intros Hc Hi H Ha Hw Hs B s'. destruct (run_inv _ _ _ _ Hc Hi _ _ _ H) as (p&I&_).
  destruct (ack_received_inv s p log ackno w I Ha Hw Hs) as [I' HB]. fold B s' in I', HB.
  destruct (_ && _) eqn:Eb; [|done]. apply andb_true_iff in Eb as [?%Z.leb_le ?%Z.leb_le].
  destruct HB as (EB&Ew&_). pose proof (in_flight_eq _ _ _ I') as Ef. rewrite EB in Ef.
  pose proof (ack_new s p log ackno w I Ha ltac:(done)) as E. fold B in E. fold s' in E.
  destruct (ack_keeps ackno w s) as (Eo&Ex&Es&Et). fold s' in Eo, Ex, Es, Et.
  rewrite Ef, Ex. do 6 (split; [done|]).
  destruct (Z.eqb_spec B (acked s)) as [Eq|Eq].
  - split; [by rewrite E|lia].
  - split; [lia|]. intros _. destruct E as (Er&En&Ec). unfold consecutive_retransmissions. rewrite En.
    destruct I' as [_ [_ _ _ Hcache]]. rewrite EB in Hcache. split; [done|]. split; [|done].
    intros t seg l El. rewrite Ec in El.
    destruct (remove_acked_suffix ackno (_isn s) (_next_seqno s) (_tcp_seg_cache s)) as [d Ed].
    destruct (remove_acked_loop _ _ _ _) as [|[t' x] c']; [done|]. injection El as <- <- <-. split; [done|].
    exists (d ++ [(t', x)]). by rewrite <- app_assoc.
Qed.

(** C22. [fill_window] terminates: with a window its loop, which the source bounds by
    nothing, ends after as many iterations as the window has room, and then the
    window is full or the stream is drained, its FIN included. It uses no more
    than the window, but for a SYN sent with data into a window of one. Without a
    window it sends at most one sequence number. *)
Theorem fill_window_fills random cap rto fixed_isn s written log :
  0 < cap < 2 ^ 63 -> wrapping_ok (_isn (make random cap rto fixed_isn)) ->
  run random cap rto fixed_isn s written log ->
  let s' := fill_window s in
  if (_window_size s =? 0) && (_window_used_size s =? 0)
  then _next_seqno s <= _next_seqno s' <= _next_seqno s + 1 /\
       (_next_seqno s' = _next_seqno s -> drained s')
  else fills s s' /\ filled s' /\
       (_syned s = true \/ ByteStream.buffer_empty (_stream s) = true ->
          _window_used_size s' <= Z.max (_window_used_size s) (_window_size s)).
Proof.
  intros Hc Hi H s'. destruct (run_inv _ _ _ _ Hc Hi _ _ _ H) as (p&[B _]&_).
  unfold s', fill_window. destruct (_ && _) eqn:E.
  - apply andb_true_iff in E as [Ew%Z.eqb_eq Eu%Z.eqb_eq].
    destruct (fill_zero_window_spec s p log B Ew Eu) as (p'&new&B'&T&F&Hl&Hd).
    rewrite (frame_next _ _ _ F). pose proof (log_len_nonneg new). split; [lia|].
    intros E0. apply Hd. destruct new as [|x new]; [done|].
    destruct (base_log _ _ _ B') as [Hnum _ _ _ _ _ _ _]. apply numbered_app in Hnum as [_ Hnum].
    simpl in *. pose proof (log_len_nonneg new). lia.
  - destruct (fill_loop_spec (S (Z.to_nat (_window_size s))) s p log B) as (p'&new&_&_&_&Hf&Hr&Hk).
    { destruct B. lia. }
    split; [exact Hr|]. split; [exact Hf|]. intros Hb. destruct Hk as [?|[? Hp]]; [done|].
    destruct Hb as [?|Hb]; [congruence|]. destruct Hp.
    by apply (buffer_empty_pending _ _ (base_stream _ _ _ B)).
Qed.

(** The used part of the window is what is in flight. *)
Definition accounted (s : TCPSender) : Prop := _window_used_size s = bytes_in_flight s.

Lemma ack_accounted s p log ackno w :
  inv s p log -> accounted s -> wrapping_ok ackno -> 0 <= w < 2 ^ 16 -> _syned s = true ->
  _next_seqno s - Wrapping.unwrap ackno (_isn s) (_next_seqno s) <= w ->
  accounted (ack_received ackno w s) /\
  (bytes_in_flight (ack_received ackno w s) <= w \/ ack_received ackno w s = s).
Proof.
  intros I Hacc. pose proof (in_flight_eq _ _ _ I) as Ef. unfold accounted in *. rewrite Ef in Hacc.
  pose proof I as [B [Hl Hr Hn _]]. pose proof (base_next_range _ _ _ B) as Hnr.
  intros Ha Hw Hs Hle. set (b := Wrapping.unwrap ackno _ _) in *.
  destruct (ack_received_inv s p log ackno w I Ha Hw Hs) as [I' HB]. fold b in HB.
  destruct (_ && _) eqn:Eb; [|rewrite HB; split; [lia|by right]]. destruct HB as (EB&Ew&Eu).
  apply andb_true_iff in Eb as [?%Z.leb_le ?%Z.leb_le]. rewrite (in_flight_eq _ _ _ I'), EB, Eu.
  assert (_next_seqno (ack_received ackno w s) = _next_seqno s) as ->.
  { unfold ack_received. destruct (_ || _); [done|]. by destruct (Wrapping.eqb _ _). }
  split; [|left; lia]. unfold update_window. simpl. fold b. rewrite Hl, Hacc, plus_wrap.
  rewrite unwrap_near by lia. replace (acked s + (_next_seqno s - acked s)) with (_next_seqno s) by lia.
  destruct (Z.ltb_spec b (_next_seqno s)); [rewrite u64_small by lia|];
    match goal with |- context [Z.ltb ?x ?y] => destruct (Z.ltb_spec x y) end; lia.
Qed.

Lemma fill_accounted s p log :
  inv s p log -> accounted s -> _next_seqno (fill_window s) - acked s < 2 ^ 31 ->
  _syned s = true \/ ByteStream.buffer_empty (_stream s) = true ->
  accounted (fill_window s) /\ _window_size (fill_window s) = _window_size s /\
  bytes_in_flight (fill_window s) <= Z.max (bytes_in_flight s) (Z.max 1 (_window_size s)).
Proof.
  intros I Hacc. pose proof (in_flight_eq _ _ _ I) as Ef. unfold accounted in *. rewrite Ef in Hacc.
  pose proof I as [B [Hl Hr Hn _]]. pose proof (base_next_range _ _ _ B) as Hnr.
  intros Hnear Hb. destruct (fill_window_inv s p log I) as (p'&new&B'&T&F&HI).
  destruct (HI Hnear) as [I' Ea]. pose proof (in_flight_eq _ _ _ I') as Ef'.
  pose proof (frame_next _ _ _ F). pose proof (frame_used _ _ _ F). split; [lia|].
  split; [exact (frame_window _ _ _ F)|]. rewrite Ef', Ea. clear HI. revert B' F H H0 Hnear Ea Ef' I'. unfold fill_window.
  destruct (_ && _) eqn:E; intros B' F H H0 Hnear Ea Ef' I'.
  - apply andb_true_iff in E as [Ew%Z.eqb_eq Eu%Z.eqb_eq].
    destruct (fill_zero_window_spec s p log B Ew Eu) as (?&new'&_&_&F'&Hl'&_).
    rewrite (frame_next _ _ _ F'). lia.
  - destruct (fill_loop_spec (S (Z.to_nat (_window_size s))) s p log B) as (?&new'&_&_&F'&_&_&Hk).
    { destruct B. lia. }
    destruct Hk as [Hk|[Hu Hp]]; [rewrite (frame_next _ _ _ F'); rewrite (frame_used _ _ _ F') in Hk; lia|].
    destruct Hb as [?|Hb]; [congruence|]. destruct Hp.
    by apply (buffer_empty_pending _ _ (base_stream _ _ _ B)).
Qed.

Section Behaved.
Context (random cap rto : Z) (fixed_isn : option WrappingInt32).
Abbreviation start := (make random cap rto fixed_isn).

(** The runs in which the SYN is not sent together with data and the peer does not take back
    window: an acknowledgement's window is at least what is in flight behind it. This leaves
    out, too, an acknowledgement that refuses the probe of a zero window. *)
Inductive behaved : TCPSender -> bytes -> list TCPSegment -> Prop :=
| behaved_start : behaved start [] []
| behaved_write s written log d :
    behaved s written log ->
    zlen (written ++ take (Z.to_nat (ByteStream.write d (_stream s)).2) d) < 2 ^ 62 ->
    behaved (s <| _stream ::= fun o => (ByteStream.write d o).1 |>)
      (written ++ take (Z.to_nat (ByteStream.write d (_stream s)).2) d) log
| behaved_end s written log :
    behaved s written log -> behaved (s <| _stream ::= ByteStream.end_input |>) written log
| behaved_fill s written log :
    behaved s written log -> _next_seqno (fill_window s) - acked s < 2 ^ 31 ->
    _syned s = true \/ ByteStream.buffer_empty (_stream s) = true ->
    behaved (fill_window s) written
      (log ++ drop (length (_segments_out s)) (_segments_out (fill_window s)))
| behaved_ack s written log ackno w :
    behaved s written log -> wrapping_ok ackno -> 0 <= w < 2 ^ 16 -> _syned s = true ->
    _next_seqno s - Wrapping.unwrap ackno (_isn s) (_next_seqno s) <= w ->
    behaved (ack_received ackno w s) written log
| behaved_tick s written log ms : behaved s written log -> behaved (tick ms s) written log
| behaved_empty s written log : behaved s written log -> behaved (send_empty_segment s) written log
| behaved_dequeue s written log seg q :
    behaved s written log -> _segments_out s = seg :: q ->
    behaved (s <| _segments_out := q |>) written log.

Lemma behaved_run s written log : behaved s written log -> run random cap rto fixed_isn s written log.
Proof. induction 1; by econstructor. Qed.

Lemma tick_flow ms s :
  _window_used_size (tick ms s) = _window_used_size s /\ _window_size (tick ms s) = _window_size s /\
  bytes_in_flight (tick ms s) = bytes_in_flight s.
Proof.
  unfold tick. destruct (_tcp_seg_cache _) as [|[t seg] c]; [done|]. destruct (_ <=? _); [|done].
  by destruct (negb _).
Qed.

Lemma behaved_flow s written log :
  0 < cap < 2 ^ 63 -> wrapping_ok (_isn start) -> behaved s written log ->
  accounted s /\ bytes_in_flight s <= Z.max 1 (_window_size s).
Proof.
  intros Hc Hi. induction 1 as [|s written log d H IH Hd|s written log H IH|s written log H IH Hn Hb
    |s written log ackno w H IH Ha Hw Hs Hle|s written log ms H IH|s written log H IH|s written log seg q H IH Eq]; try done.
  - unfold accounted, bytes_in_flight. fold (acked start). rewrite start_acked by done. by split.
  - destruct (run_inv _ _ _ _ Hc Hi _ _ _ (behaved_run _ _ _ H)) as (p&I&_). destruct IH as [A F].
    destruct (fill_accounted s p log I A Hn Hb) as (?&->&?). split; [done|lia].
  - destruct (run_inv _ _ _ _ Hc Hi _ _ _ (behaved_run _ _ _ H)) as (p&I&_). destruct IH as [A F].
    destruct (ack_accounted s p log ackno w I A Ha Hw Hs Hle) as [? [Hf|E]]; (split; [done|]); [|by rewrite E].
    destruct (ack_received_inv s p log ackno w I Ha Hw Hs) as [_ HB]. cbv zeta in HB.
    destruct (_ && _); [|by rewrite HB]. destruct HB as (_&->&_). lia.
  - destruct (tick_flow ms s) as (E1&->&E3). unfold accounted in *. by rewrite E1, E3.
Qed.

End Behaved.

(** C21. Flow control. In a run in which the peer never takes back window and does not refuse
    the probe of a zero window, and the SYN is sent before there is data ([behaved]), what
    the sender counts as used of the window is what is in flight, and no more is ever in
    flight than the window last advertised, or one sequence number when that is zero; and no
    segment carries more than [MAX_PAYLOAD_SIZE] bytes. Without these conditions the code
    overruns the window ([zero_window_overrun], [syn_overrun]). *)
Theorem sender_flow_control random cap rto fixed_isn s written log :
  0 < cap < 2 ^ 63 -> wrapping_ok (_isn (make random cap rto fixed_isn)) ->
  behaved random cap rto fixed_isn s written log ->
  _window_used_size s = bytes_in_flight s /\ bytes_in_flight s <= Z.max 1 (_window_size s) /\
  Forall (fun x => zlen (data x) <= TCPConfig.MAX_PAYLOAD_SIZE) (_segments_out s).
Proof.
  intros Hc Hi H. destruct (behaved_flow _ _ _ _ _ _ _ Hc Hi H) as [A F]. split; [exact A|]. split; [exact F|].
  destruct (run_inv _ _ _ _ Hc Hi _ _ _ (behaved_run _ _ _ _ _ _ _ H)) as (p&[B _]&_).
  pose proof (log_sizes _ _ _ _ _ _ (base_log _ _ _ B)) as Hz. rewrite Forall_forall in Hz.
  eapply Forall_impl; [exact (base_out _ _ _ B)|]. intros x [?|E]; [by apply Hz|].
  destruct (seg_len_zero x E) as (_&_&->). done.
Qed.

(** Nothing in the cache is acknowledged in full, so there is nothing to remove. *)
Lemma remove_acked_noop s p log : inv s p log -> remove_acked_seg s = s.
Proof.
  intros [B [Hl Hr Hn (k&Hk&Hk1&Hk2)]]. pose proof (base_next_range _ _ _ B).
  destruct (base_log _ _ _ B) as [Hnum Hnx _ _ _ _ _ Hsz].
  assert (remove_acked_loop (_latest_ackno s) (_isn s) (_next_seqno s) (_tcp_seg_cache s) = _tcp_seg_cache s)
    as E; [|unfold remove_acked_seg; simpl; rewrite E; by destruct s].
  destruct (_tcp_seg_cache s) as [|[t seg] c]; [done|]. simpl in Hk.
  assert (log !! k = Some seg) as Hs by (rewrite <- (Nat.add_0_r k), <- lookup_drop, <- Hk; done).
  pose proof (Hk2 _ Hs). rewrite <- (take_drop k log), <- Hk in Hnum, Hnx, Hsz.
  apply numbered_app in Hnum as [_ (Eseq&_&_)]. rewrite log_len_app in Hnx. simpl in Eseq, Hnx.
  apply Forall_app in Hsz as [_ [Hz _]%Forall_cons]. unfold TCPConfig.MAX_PAYLOAD_SIZE in Hz.
  pose proof (log_len_nonneg (map snd c)). pose proof (log_len_nonneg (take k log)).
  simpl. rewrite Eseq, seg_len_eq, plus_wrap, Hl, !unwrap_near by lia.
  match goal with |- context [?x <=? ?y] => destruct (Z.leb_spec x y) end; [lia|done].
Qed.

(** C24. The retransmission timer: [tick] resends the oldest unacknowledged segment
    exactly when the timeout has passed since it was last sent, and only that one;
    then the timer restarts, and the timeout doubles and the attempt is counted
    unless the peer's window is zero. *)
Theorem sender_tick random cap rto fixed_isn s written log ms :
  0 < cap < 2 ^ 63 -> wrapping_ok (_isn (make random cap rto fixed_isn)) ->
  run random cap rto fixed_isn s written log ->
  let s' := tick ms s in
  let now := u64 (_now_time_ms s + ms) in
  _now_time_ms s' = now /\ _next_seqno s' = _next_seqno s /\
  bytes_in_flight s' = bytes_in_flight s /\
  match _tcp_seg_cache s with
  | (last, seg) :: rest =>
      if _retransmission_timeout s <=? u64 (now - last) then
        _segments_out s' = _segments_out s ++ [seg] /\
        _tcp_seg_cache s' = (now, seg) :: rest /\
        (if _window_size s =? 0
         then _retransmission_timeout s' = _retransmission_timeout s /\
              _retransmission_count s' = _retransmission_count s
         else _retransmission_timeout s' = u32 (_retransmission_timeout s * 2) /\
              _retransmission_count s' = u64 (_retransmission_count s + 1))
      else s' = s <| _now_time_ms := now |>
  | [] => s' = s <| _now_time_ms := now |>
  end.
Proof.
  intros Hc Hi H s' now. destruct (run_inv _ _ _ _ Hc Hi _ _ _ H) as (p&I&_).
  assert (remove_acked_seg (s <| _now_time_ms := now |>) = s <| _now_time_ms := now |>) as E.
  { apply (remove_acked_noop _ p log). destruct I as [[] []]. split; split; done. }
  unfold s', tick. change (s <| _now_time_ms ::= _ |>) with (s <| _now_time_ms := now |>). rewrite E.
  change (_tcp_seg_cache (s <| _now_time_ms := now |>)) with (_tcp_seg_cache s). clear E I H s'.
  destruct s as [? ? ? ? ? ? ? ? cache ? ? ? ? ? ?]. simpl.
  destruct cache as [|[last seg] rest]; [done|]. destruct (_ <=? _); [|done].
  simpl. by destruct (_ =? 0).
Qed.

(** *** Witnesses: SYN, acknowledgement, five bytes into a window of four. *)
Definition demo_isn : WrappingInt32 := mkWrappingInt32 4294967295.
Definition demo_syn : TCPSender := fill_window (start 0 8 100 (Some demo_isn)).
Definition demo_open : TCPSender := ack_received (mkWrappingInt32 0) 4 demo_syn.
Definition demo_written : TCPSender :=
  demo_open <| _stream ::= fun o => (ByteStream.write [x61; x62; x63; x64; x65] o).1 |>.
Definition demo_sent : TCPSender := fill_window demo_written.

Lemma demo_run : exists log, run 0 8 100 (Some demo_isn) demo_sent [x61; x62; x63; x64; x65] log.
Proof.
  pose proof (run_start 0 8 100 (Some demo_isn)) as H.
  apply run_fill in H; [|vm_compute; reflexivity].
  apply (run_ack _ _ _ _ _ _ _ (mkWrappingInt32 0) 4) in H; [|split; done|lia|vm_compute; reflexivity].
  apply (run_write _ _ _ _ _ _ _ [x61; x62; x63; x64; x65]) in H; [|vm_compute; reflexivity].
  apply run_fill in H; [|vm_compute; reflexivity]. eexists. exact H.
Qed.
Lemma demo_behaved : exists log, behaved 0 8 100 (Some demo_isn) demo_sent [x61; x62; x63; x64; x65] log.
Proof.
  pose proof (behaved_start 0 8 100 (Some demo_isn)) as H.
  apply behaved_fill in H; [|vm_compute; reflexivity|by right].
  apply (behaved_ack _ _ _ _ _ _ _ (mkWrappingInt32 0) 4) in H;
    [|split; done|lia|vm_compute; reflexivity|vm_compute; discriminate].
  apply (behaved_write _ _ _ _ _ _ _ [x61; x62; x63; x64; x65]) in H; [|vm_compute; reflexivity].
  apply behaved_fill in H; [|vm_compute; reflexivity|by left]. eexists. exact H.
Qed.
Lemma demo_isn_ok : wrapping_ok (_isn (make 0 8 100 (Some demo_isn))).
Proof. split; done. Qed.

Lemma sender_cuts_stream_witness :
  exists log, [x61; x62; x63; x64; x65] =
    payloads log ++ ByteStream.peek_output (2 ^ 64 - 1) (_stream demo_sent).
Proof.
  destruct demo_run as [log H]. exists log.
  destruct (sender_cuts_stream 0 8 100 (Some demo_isn) demo_sent _ log ltac:(lia) demo_isn_ok H)
    as (_&_&E&_). exact E.
Defined.

Lemma sender_keeps_unacked_witness :
  bytes_in_flight demo_sent = _next_seqno demo_sent - acked demo_sent.
Proof.
  destruct demo_run as [log H].
  destruct (sender_keeps_unacked 0 8 100 (Some demo_isn) demo_sent _ log ltac:(lia) demo_isn_ok H)
    as (E&_). exact E.
Defined.

Lemma sender_ack_witness :
  bytes_in_flight (ack_received (mkWrappingInt32 2) 7 demo_sent) = 5 - 3.
Proof.
  destruct demo_run as [log H].
  pose proof (sender_ack 0 8 100 (Some demo_isn) demo_sent _ log (mkWrappingInt32 2) 7
    ltac:(lia) demo_isn_ok H ltac:(split; done) ltac:(lia) ltac:(vm_compute; reflexivity)) as E.
  cbv zeta in E. replace (Wrapping.unwrap _ _ _) with 3 in E by (vm_compute; reflexivity).
  replace (acked demo_sent) with 1 in E by (vm_compute; reflexivity).
  replace (_next_seqno demo_sent) with 5 in E by (vm_compute; reflexivity).
  destruct E as (E&_). exact E.
Defined.

Lemma fill_window_fills_witness : fills demo_sent (fill_window demo_sent).
Proof.
  destruct demo_run as [log H].
  pose proof (fill_window_fills 0 8 100 (Some demo_isn) demo_sent _ log ltac:(lia) demo_isn_ok H) as E.
  cbv zeta in E. replace (_window_size demo_sent =? 0) with false in E by (vm_compute; reflexivity).
  destruct E as (E&_). exact E.
Defined.

Lemma sender_flow_control_witness :
  bytes_in_flight demo_sent <= 4 /\ _window_used_size demo_sent = bytes_in_flight demo_sent.
Proof.
  destruct demo_behaved as [log H].
  destruct (sender_flow_control 0 8 100 (Some demo_isn) demo_sent _ log ltac:(lia) demo_isn_ok H) as (E&F&_).
  split; [|exact E]. replace (Z.max 1 (_window_size demo_sent)) with 4 in F by (vm_compute; reflexivity). exact F.
Defined.

Lemma sender_tick_witness : _now_time_ms (tick 100 demo_sent) = 100.
Proof.
  destruct demo_run as [log H].
  pose proof (sender_tick 0 8 100 (Some demo_isn) demo_sent _ log 100 ltac:(lia) demo_isn_ok H) as E.
  cbv zeta in E. destruct E as (E&_).
  replace (u64 _) with 100 in E by (vm_compute; reflexivity). exact E.
Defined.

(** *** Beyond the window

    When acknowledgements repeat a zero window, the clamping of the used size in
    [ack_received] forgets the probe in flight, and every one of them lets a
    further byte out. *)
Lemma zero_window_overrun :
  let s := ack_received (mkWrappingInt32 0) 0 demo_syn in
  let s := s <| _stream ::= fun o => (ByteStream.write [x61; x62; x63; x64; x65] o).1 |> in
  let again s := ack_received (mkWrappingInt32 0) 0 (fill_window s) in
  bytes_in_flight (again (again (again s))) = 3 /\ _window_size (again (again (again s))) = 0.
Proof. vm_compute. done. Qed.

(** A SYN sent when there is data already takes a byte along into a window of one. *)
Lemma syn_overrun :
  let s := (start 0 8 100 (Some demo_isn)) <| _stream ::= fun o => (ByteStream.write [x61] o).1 |> in
  _window_size s = 1 /\ bytes_in_flight (fill_window s) = 2.
Proof. vm_compute. done. Qed.

End SenderTheorems.
