(* ===== verification/Transfer.v ===== *)
(** * From sender to receiver

    The sender of tcp_sender.* and the receiver of tcp_receiver.* joined by a network
    that loses, repeats and reorders segments. *)
From S2P Require Import Prelude Stream Wrapping Reassembler Buffers TcpSegment Receiver Sender.

Module Transfer.
Import TCPSegment TCPSender SenderLog SenderInvariant SenderTheorems.

(** The same segment but for the fields that a connection fills in on the way out, the
    acknowledgement and the window. *)
Record alike (seg x : TCPSegment) : Prop := mk_alike {
  alike_seqno : TCPHeader.seqno (header seg) = TCPHeader.seqno (header x);
  alike_syn : syn seg = syn x;
  alike_fin : fin seg = fin x;
  alike_data : data seg = data x
}.

(** [seg] is in [log] at absolute sequence number [a], and its payload at [index] of
    the stream. *)
Definition position (log : list TCPSegment) (seg : TCPSegment) (index a : Z) : Prop :=
  exists l1 x l2, log = l1 ++ x :: l2 /\ alike seg x /\ index = zlen (payloads l1) /\ a = log_len l1.

Section Network.
Context (isn : WrappingInt32) (log : list TCPSegment) (cap : Z).

(** [transfer r consumed got]: segments of the log, and segments without data, SYN or FIN,
    arrive at the receiver, in any order and any number of times, and the application
    reads; [got] are the sequence numbers of the segments that fitted the receiver's
    window when they arrived.

    A segment arrives less than 2^31 away from the last byte assembled. A segment without
    data does not overtake data, and a SYN is not repeated with data or FIN: the receiver
    does not handle these. *)
Inductive transfer : TCPReceiver.TCPReceiver -> bytes -> list Z -> Prop :=
| transfer_start : transfer (TCPReceiver.make cap) [] []
| transfer_segment r consumed got seg index a :
    transfer r consumed got -> position log seg index a ->
    Z.abs (a - ByteStream.bytes_written (TCPReceiver.stream_out r)) < 2 ^ 31 ->
    (data seg = [] -> fin seg = true ->
       index <= StreamReassembler._head_index (TCPReceiver._reassembler r)) ->
    (syn seg = true -> TCPReceiver._set_isn r = true -> data seg = [] /\ fin seg = false) ->
    transfer (TCPReceiver.segment_received seg r) consumed
      (if (TCPReceiver._set_isn r || syn seg) && (index + zlen (data seg) <=? zlen consumed + cap)
       then a :: got else got)
| transfer_empty r consumed got seg index :
    transfer r consumed got -> data seg = [] -> syn seg = false -> fin seg = false ->
    (TCPReceiver._set_isn r = true ->
       TCPHeader.seqno (header seg) = Wrapping.wrap (1 + index) isn /\
       Z.abs (1 + index - ByteStream.bytes_written (TCPReceiver.stream_out r)) < 2 ^ 31 /\
       0 <= index <= StreamReassembler._head_index (TCPReceiver._reassembler r)) ->
    transfer (TCPReceiver.segment_received seg r) consumed got
| transfer_read r consumed got n :
    transfer r consumed got -> 0 <= n ->
    transfer (r <| TCPReceiver._reassembler ::= fun x => x <| StreamReassembler._output ::=
                     fun o => (ByteStream.read n o).1 |> |>)
      (consumed ++ (ByteStream.read n (TCPReceiver.stream_out r)).2) got.

End Network.

Lemma position_grows log k seg index a : position log seg index a -> position (log ++ k) seg index a.
Proof. intros (l1&x&l2&->&H). exists l1, x, (l2 ++ k). split; [by rewrite <- app_assoc|done]. Qed.

Lemma transfer_grows isn log k cap r consumed got :
  transfer isn log cap r consumed got -> transfer isn (log ++ k) cap r consumed got.
Proof.
  induction 1; [constructor|eapply transfer_segment; [done|by apply position_grows|done..]|by eapply transfer_empty|
    by apply transfer_read].
Qed.

Section Sent.
(** A sender's log: see [log_ok]. *)
Context (isn : WrappingInt32) (log : list TCPSegment) (has_fin : bool) (written : bytes).
Context (Hnum : numbered isn 0 log) (Hsyn : syn_first log) (Hfin : fin_last has_fin log).
Context (Hpre : exists rest, written = payloads log ++ rest)
  (Hall : has_fin = true -> payloads log = written).

Lemma fin_before l1 seg l2 : log = l1 ++ seg :: l2 -> Forall (fun x => fin x = false) l1.
Proof.
  intros E. unfold fin_last in Hfin. destruct has_fin.
  - destruct Hfin as (l&x&El&_&Hl). destruct l2 as [|y l2 _] using rev_ind.
    + rewrite El in E. by apply app_inj_tail in E as [-> _].
    + rewrite El, app_comm_cons, app_assoc in E. apply app_inj_tail in E as [-> _].
      by apply Forall_app in Hl as [? _].
  - rewrite E in Hfin. by apply Forall_app in Hfin as [? _].
Qed.

Lemma len_no_flags l :
  Forall (fun x => syn x = false) l -> Forall (fun x => fin x = false) l -> log_len l = zlen (payloads l).
Proof.
  induction l as [|x l IH]; intros Hs Hf; [done|]. apply Forall_cons in Hs as [Hs Hs'].
  apply Forall_cons in Hf as [Hf Hf']. simpl. unfold seg_len. rewrite Hs, Hf, zlen_app, IH by done. simpl. lia.
Qed.

(** Where a segment stands: the first is the SYN, the others follow their index. *)
Lemma position_cases seg index a :
  position log seg index a ->
  TCPHeader.seqno (header seg) = Wrapping.wrap a isn /\ 0 < seg_len seg /\
  0 <= index /\ index + zlen (data seg) <= zlen written /\
  data seg = slice written index (index + zlen (data seg)) /\
  (fin seg = true -> has_fin = true /\ index + zlen (data seg) = zlen written) /\
  (if syn seg then index = 0 /\ a = 0 else a = 1 + index).
Proof.
  intros (l1&x0&l2&E&[Aq As Af Ad]&->&->). unfold seg_len. rewrite Aq, As, Af, Ad.
  destruct Hpre as [rest Hw]. pose proof (fin_before _ _ _ E) as Hf.
  rewrite E in Hnum. apply numbered_app in Hnum as [_ (Hseq&Hlen&_)]. rewrite Z.add_0_l in Hseq.
  fold (seg_len x0). clear seg Aq As Af Ad. rename x0 into seg.
  assert (written = payloads l1 ++ data seg ++ payloads l2 ++ rest) as Hw'
    by (rewrite Hw, E, payloads_app; simpl; by rewrite <- !app_assoc).
  pose proof (zlen_nonneg (payloads l1)). pose proof (zlen_nonneg (payloads l2 ++ rest)).
  split; [done|]. split; [done|]. split; [done|].
  split; [rewrite Hw', !zlen_app in *; lia|].
  split; [|split].
  - rewrite Hw'. unfold slice. unfold zlen. rewrite Nat2Z.id, drop_app_length.
    rewrite <- Nat2Z.inj_add.
    replace (Z.to_nat _) with (length (data seg)) by lia. by rewrite take_app_length.
  - intros Hfs. unfold fin_last in Hfin. destruct has_fin eqn:Eh.
    + split; [done|]. rewrite <- (Hall eq_refl), E. destruct Hfin as (l&x&El&_&Hl). rewrite El in E.
      assert (l2 = []) as ->.
      { destruct l2 as [|y l2 _] using rev_ind; [done|]. exfalso.
        rewrite app_comm_cons, app_assoc in E. apply app_inj_tail in E as [-> _].
        apply Forall_app in Hl as [_ Hl]. apply Forall_cons in Hl as [Hl _]. congruence. }
      rewrite payloads_app. simpl. rewrite app_nil_r, zlen_app. done.
    + rewrite E in Hfin. apply Forall_app in Hfin as [_ Hl]. apply Forall_cons in Hl as [Hl _]. congruence.
  - destruct l1 as [|x l1]; rewrite E in Hsyn; simpl in Hsyn.
    + destruct Hsyn as [-> _]. done.
    + destruct Hsyn as [Hx Hl]. apply Forall_app in Hl as [Hl1 Hl2]. apply Forall_cons in Hl2 as [-> _].
      apply Forall_cons in Hf as [Hfx Hf]. simpl. unfold seg_len. rewrite Hx, Hfx, zlen_app.
      rewrite (len_no_flags l1 Hl1 Hf). simpl. lia.
Qed.

Lemma position_unique seg index a seg' index' :
  position log seg index a -> position log seg' index' a ->
  data seg = data seg' /\ fin seg = fin seg' /\ index = index'.
Proof.
  intros (l1&x&l2&E&A&->&->) (k1&y&k2&E'&A'&->&Ha). rewrite E in E', Hnum.
  enough (l1 = k1) as ->; [simplify_list_eq; destruct A, A'; split_and!; congruence|]. clear -E' Ha Hnum.
  assert (forall (x : TCPSegment) l, 0 < seg_len x -> 0 < seg_len x + log_len l) as Hpos
    by (intros z l ?; pose proof (log_len_nonneg l); lia).
  revert k1 E' Ha Hnum. generalize 0. induction l1 as [|x1 l1 IH]; intros z [|y1 k1] E' Ha Hnum; simpl in Ha; simplify_list_eq.
  - done.
  - destruct Hnum as (_&Hx&_). specialize (Hpos _ (k1) Hx). lia.
  - destruct Hnum as (_&Hx&_). specialize (Hpos _ (l1) Hx). lia.
  - f_equal. destruct Hnum as (_&_&Hn). eapply IH; [done|lia|done].
Qed.

Lemma alike_refl x : alike x x.
Proof. by split. Qed.

(** Every byte of the stream, and the FIN, is in a segment. *)
Lemma position_covers k :
  0 <= k < zlen (payloads log) ->
  exists seg index a, position log seg index a /\ index <= k < index + zlen (data seg).
Proof.
  clear. induction log as [|x l IH] using rev_ind; [change (zlen (payloads [])) with 0; lia|].
  rewrite payloads_app. simpl. rewrite app_nil_r, zlen_app. intros Hk.
  destruct (Z.lt_ge_cases k (zlen (payloads l))) as [Hlt|Hge].
  - destruct IH as (seg&index&a&(l1&y&l2&->&A&Hi&Ha)&Hin); [lia|]. exists seg, index, a. split; [|done].
    exists l1, y, (l2 ++ [x]). by rewrite <- app_assoc.
  - exists x, (zlen (payloads l)), (log_len l). split; [by exists l, x, []|lia].
Qed.

Context (cap : Z) (Hisn : wrapping_ok isn) (Hcap : 0 < cap < 2 ^ 63) (Hsmall : zlen written < 2 ^ 62).

Lemma head_within r consumed acc f :
  ReceiverTheorems.received written isn cap r consumed acc f ->
  0 <= StreamReassembler._head_index (TCPReceiver._reassembler r) <= zlen written.
Proof.
  intros H. destruct (ReceiverTheorems.received_inv written isn cap ltac:(lia) Hisn Hcap _ _ _ _ H) as (Hr&_).
  destruct (ReassemblerInvariant.reach_inv written ltac:(lia) cap _ _ _ _ Hcap Hr) as (p&I&_).
  apply (ReassemblerInvariant.inv_head _ _ _ (ReassemblerInvariant.inv_core _ _ _ I)).
Qed.

(** What has arrived, in the terms of [received]. *)
Definition covers (got : list Z) (acc : Z -> Prop) (f : bool) : Prop :=
  forall seg index a, position log seg index a -> a ∈ got ->
    (forall k, index <= k < index + zlen (data seg) -> acc k) /\ (fin seg = true -> f = true).

Lemma covers_add got acc f seg index a (acc' : Z -> Prop) f' (fits : bool) :
  covers got acc f -> position log seg index a ->
  (forall k, acc k -> acc' k) -> (f = true -> f' = true) ->
  (fits = true -> (forall k, index <= k < index + zlen (data seg) -> acc' k) /\ (fin seg = true -> f' = true)) ->
  covers (if fits then a :: got else got) acc' f'.
Proof.
  intros Hc Hp Hacc Hf Hfits seg' index' a' Hp' Hin.
  assert (a' ∈ got \/ (a' = a /\ fits = true)) as [Hg|[-> Ef]].
  { destruct fits; [|by left]. apply elem_of_cons in Hin as [->|?]; auto. }
  - destruct (Hc _ _ _ Hp' Hg) as [H1 H2]. split; intros; auto.
  - destruct (position_unique _ _ _ _ _ Hp Hp') as (<-&<-&<-). by apply Hfits.
Qed.

Lemma wrap_0 : Wrapping.wrap 0 isn = isn.
Proof.
  rewrite wrap_eq. destruct isn as [v]. unfold wrapping_ok in Hisn. simpl in *. by rewrite u32_small.
Qed.

(** What a segment of the log that arrives adds to what has arrived. *)
Definition adds r (consumed : bytes) seg index (acc acc' : Z -> Prop) (f f' : bool) : Prop :=
  (forall k, acc k -> acc' k) /\ (f = true -> f' = true) /\ (f' = true -> f = true \/ has_fin = true) /\
  (TCPReceiver._set_isn r || syn seg = true ->
     (forall k, index <= k < index + zlen (data seg) -> k < zlen consumed + cap -> acc' k) /\
     (fin seg = true -> index + zlen (data seg) <= zlen consumed + cap -> f' = true)).

Lemma adds_data r consumed seg index acc f :
  (fin seg = true -> has_fin = true) ->
  adds r consumed seg index acc
    (fun k => acc k \/ index <= k < index + zlen (ReceiverTheorems.data seg) /\ k < zlen consumed + cap) f
    (f || (index + zlen (ReceiverTheorems.data seg) <=? zlen consumed + cap) && TCPHeader.fin (header seg)).
Proof.
  intros Hf. fold (fin seg). change (ReceiverTheorems.data seg) with (data seg).
  split; [by left|]. split; [by intros ->|]. split; [|intros _; split].
  - intros [?|[_ ?]%andb_prop]%orb_prop; [by left|right; by apply Hf].
  - intros k Hk Hc. by right.
  - intros -> Hle. apply Z.leb_le in Hle. rewrite Hle. by destruct f.
Qed.

Lemma segment_pushable r seg index a :
  position log seg index a ->
  0 <= StreamReassembler._head_index (TCPReceiver._reassembler r) ->
  (data seg = [] -> fin seg = true ->
     index <= StreamReassembler._head_index (TCPReceiver._reassembler r)) ->
  ReassemblerInvariant.pushable written (TCPReceiver._reassembler r) (data seg) index (fin seg).
Proof.
  intros Hp Hhead Hfo. destruct (position_cases _ _ _ Hp) as (_&Hlen&Hi&Hend&Hdata&Hfin'&Hcase).
  split; try done; [intros Hx; by destruct (Hfin' Hx)|].
  destruct (decide (data seg = [])) as [Ed|Ed]; [|by left]. right.
  destruct (fin seg) eqn:Ef; [by apply Hfo|]. destruct (syn seg) eqn:Es; [lia|].
  unfold seg_len in Hlen. by rewrite Ed, Ef, Es in Hlen.
Qed.

Lemma segment_step r consumed acc f seg index a :
  ReceiverTheorems.received written isn cap r consumed acc f -> position log seg index a ->
  Z.abs (a - ByteStream.bytes_written (TCPReceiver.stream_out r)) < 2 ^ 31 ->
  (data seg = [] -> fin seg = true ->
     index <= StreamReassembler._head_index (TCPReceiver._reassembler r)) ->
  (syn seg = true -> TCPReceiver._set_isn r = true -> data seg = [] /\ fin seg = false) ->
  exists acc' f', ReceiverTheorems.received written isn cap (TCPReceiver.segment_received seg r) consumed acc' f' /\
    adds r consumed seg index acc acc' f f'.
Proof.
  intros Hr Hp Hnear Hfo Hso. destruct (position_cases _ _ _ Hp) as (Hseq&Hlen&Hi&Hend&Hdata&Hfin'&Hcase).
  pose proof (segment_pushable r _ _ _ Hp ltac:(apply (head_within _ _ _ _ Hr)) Hfo) as Hpush.
  assert (fin seg = true -> has_fin = true) as Hhf by (intros ?; by apply Hfin').
  destruct (TCPReceiver._set_isn r) eqn:Eset; [destruct (syn seg) eqn:Es|destruct (syn seg) eqn:Es].
  - destruct (Hso eq_refl eq_refl) as [Ed Ef], Hcase as [-> ->]. exists acc, f.
    split; [by apply ReceiverTheorems.received_syn_again|]. split; [done|]. split; [done|]. split; [by left|].
    rewrite Ed, Ef. change (zlen []) with 0. split; [intros; lia|done].
  - do 2 eexists. split; [apply (ReceiverTheorems.received_data _ _ _ _ _ _ _ seg index Hr); try done;
      by rewrite <- Hcase|]. by apply adds_data.
  - destruct Hcase as [-> ->]. do 2 eexists.
    split; [apply (ReceiverTheorems.received_syn _ _ _ _ _ _ _ seg Hr); try done; by rewrite Hseq, wrap_0|].
    by apply adds_data.
  - exists acc, f. split; [by apply ReceiverTheorems.received_early|]. do 2 (split; [done|]).
    split; [by left|]. by rewrite Eset, Es.
Qed.

(** A segment without data, SYN or FIN adds nothing. *)
Lemma empty_step r consumed acc f seg index :
  ReceiverTheorems.received written isn cap r consumed acc f ->
  data seg = [] -> syn seg = false -> fin seg = false ->
  (TCPReceiver._set_isn r = true ->
     TCPHeader.seqno (header seg) = Wrapping.wrap (1 + index) isn /\
     Z.abs (1 + index - ByteStream.bytes_written (TCPReceiver.stream_out r)) < 2 ^ 31 /\
     0 <= index <= StreamReassembler._head_index (TCPReceiver._reassembler r)) ->
  exists acc', ReceiverTheorems.received written isn cap (TCPReceiver.segment_received seg r) consumed acc' f /\
    (forall k, acc k -> acc' k).
Proof.
  intros Hr Hd Hs Hfn Hsi. destruct (TCPReceiver._set_isn r) eqn:Eset;
    [|exists acc; split; [by apply ReceiverTheorems.received_early|done]].
  destruct (Hsi eq_refl) as (Hq&Hnear&Hi). pose proof (head_within _ _ _ _ Hr) as Hh.
  pose proof (ReceiverTheorems.received_data _ _ _ _ _ _ _ seg index Hr Eset) as H.
  fold (fin seg) in H. change (ReceiverTheorems.data seg) with (data seg) in H.
  rewrite Hfn, andb_false_r, orb_false_r in H. eexists. split; [apply H|by left]; [done|].
  unfold ReceiverTheorems.carries. fold (fin seg). change (ReceiverTheorems.data seg) with (data seg).
  rewrite Hd, Hfn. split; change (zlen []) with 0; [lia|lia|by rewrite Z.add_0_r, slice_empty|done|by right; apply Hi].
Qed.

Lemma transfer_received r consumed got :
  transfer isn log cap r consumed got ->
  exists acc f, ReceiverTheorems.received written isn cap r consumed acc f /\
    covers got acc f /\ (f = true -> has_fin = true).
Proof.
  induction 1 as [|r consumed got seg index a _ (acc&f&Hr&Hc&Hf) Hp Hnear Hfo Hso|
                  r consumed got seg index _ (acc&f&Hr&Hc&Hf) Hd Hs Hfn Hsi|
                  r consumed got n _ (acc&f&Hr&Hc&Hf) Hn].
  - exists (fun _ => False), false. split; [constructor|]. split; [|done].
    intros seg index a _ H. by apply not_elem_of_nil in H.
  - destruct (segment_step _ _ _ _ _ _ _ Hr Hp Hnear Hfo Hso) as (acc'&f'&Hr'&Ha&Hff&Hf'&Hin).
    exists acc', f'. split; [done|]. split; [|intros H; destruct (Hf' H); auto].
    eapply covers_add; [exact Hc|exact Hp|done..|]. intros [Hset Hfit%Z.leb_le]%andb_prop.
    destruct (Hin Hset) as [Hk Hfi]. split; [intros k ?; apply Hk; lia|auto].
  - destruct (empty_step _ _ _ _ _ _ Hr Hd Hs Hfn Hsi) as (acc'&Hr'&Ha). exists acc', f. split; [done|].
    split; [|done]. intros seg' index' a' Hp Hin. destruct (Hc _ _ _ Hp Hin) as [H1 H2]. auto.
  - exists acc, f. split; [by apply ReceiverTheorems.received_read|]. done.
Qed.

Lemma transfer_prefix r consumed got :
  transfer isn log cap r consumed got ->
  let n := ByteStream.bytes_written (TCPReceiver.stream_out r) in
  let out := consumed ++ ByteStream.peek_output (2 ^ 64 - 1) (TCPReceiver.stream_out r) in
  out = slice written 0 n /\ 0 <= n <= zlen written /\
  (ByteStream.input_ended (TCPReceiver.stream_out r) = true -> has_fin = true /\ out = written) /\
  (has_fin = true -> (forall seg index a, position log seg index a -> a ∈ got) ->
     ByteStream.input_ended (TCPReceiver.stream_out r) = true).
Proof.
  intros H. destruct (transfer_received _ _ _ H) as (acc&f&Hr&Hc&Hf). cbv zeta.
  assert (zlen written < 2 ^ 63) as Hs by lia.
  destruct (ReceiverTheorems.received_inv written isn cap Hs Hisn Hcap _ _ _ _ Hr) as (Hreach&_).
  destruct (ReassemblerInvariant.reach_in_order _ _ _ _ _ _ Hs Hcap Hreach) as (E&Hn&Ha&Hna).
  pose proof (ReassemblerInvariant.reach_end _ _ _ _ _ _ Hs Hcap Hreach) as He.
  split; [exact E|]. split; [exact Hn|]. split.
  - intros [Hft Hk]%He. split; [by apply Hf|]. unfold TCPReceiver.stream_out in *. rewrite E.
    set (n := ByteStream.bytes_written _) in *.
    assert (n = zlen written) as -> by (destruct (decide (n = zlen written)); [done|]; destruct Hna; apply Hk; lia).
    apply slice_all.
  - intros Hhas Hgot. apply He. split.
    + unfold fin_last in Hfin. rewrite Hhas in Hfin. destruct Hfin as (l&x&El&Hx&_).
      assert (position log x (zlen (payloads l)) (log_len l)) as Hp by (by exists l, x, []).
      by apply (Hc _ _ _ Hp (Hgot _ _ _ Hp)).
    + intros k Hk. rewrite <- (Hall Hhas) in Hk. destruct (position_covers k Hk) as (seg&index&a&Hp&Hin).
      by apply (Hc _ _ _ Hp (Hgot _ _ _ Hp)).
Qed.

(** The receiver's stream as a pipe. *)
Lemma transfer_pipe r consumed got :
  transfer isn log cap r consumed got ->
  exists q, StreamRefinement.refines (TCPReceiver.stream_out r) q /\
    consumed = take (Z.to_nat (Pipe.popped q)) (Pipe.written q) /\
    Pipe.written q `prefix_of` written /\
    (Pipe.ended q = true -> has_fin = true /\ Pipe.written q = written).
Proof.
  intros H. destruct (transfer_received _ _ _ H) as (acc&f&Hr&_&Hf).
  assert (zlen written < 2 ^ 63) as Hs by lia.
  destruct (ReceiverTheorems.received_inv written isn cap Hs Hisn Hcap _ _ _ _ Hr) as (Hreach&_).
  destruct (ReassemblerInvariant.reach_inv _ Hs _ _ _ _ _ Hcap Hreach) as (q&I&_&Hc&_&Ef).
  destruct (I) as [[R Ew Hh _ _ _] _ He]. exists q. split; [exact R|]. split; [done|]. split.
  - exists (drop (Z.to_nat (zlen (Pipe.written q))) written).
    rewrite Ew. unfold slice at 1. rewrite Z.sub_0_r, drop_0, zlen_slice, Z.sub_0_r by lia. by rewrite take_drop.
  - intros Hend. pose proof (ReassemblerInvariant.have_ended written _ _ I Hend) as Hh'.
    rewrite Hh', slice_all in Ew. split; [|done]. apply Hf. rewrite <- Ef. rewrite He in Hend.
    by apply andb_true_iff in Hend as [? _].
Qed.

End Sent.
(** C5. End to end: over a network that loses, repeats and reorders segments, what the
    receiving application has read and can read is a prefix of what the sending
    application wrote. [transfer] leaves out the arrivals the receiver does not handle:
    a segment without data ahead of data that is missing, a repeated SYN with data or FIN,
    and segments 2^31 or more away. The stream ends at the receiver only if the sender has sent its FIN and
    then nothing is missing; and when every segment has arrived inside the window it
    has ended, with every byte delivered. *)
Theorem transfer_delivers random scap rto fixed_isn s written log rcap r consumed got :
  0 < scap < 2 ^ 63 -> wrapping_ok (_isn (make random scap rto fixed_isn)) ->
  run random scap rto fixed_isn s written log ->
  0 < rcap < 2 ^ 63 -> transfer (_isn s) log rcap r consumed got ->
  let n := ByteStream.bytes_written (TCPReceiver.stream_out r) in
  let out := consumed ++ ByteStream.peek_output (2 ^ 64 - 1) (TCPReceiver.stream_out r) in
  out = slice written 0 n /\ 0 <= n <= zlen written /\
  (ByteStream.input_ended (TCPReceiver.stream_out r) = true -> _fin s = true /\ out = written) /\
  (_fin s = true -> (forall seg index a, position log seg index a -> a ∈ got) ->
     ByteStream.input_ended (TCPReceiver.stream_out r) = true /\ out = written).
Proof.
  intros Hs Hi Hrun Hr Ht. destruct (run_inv _ _ _ _ Hs Hi _ _ _ Hrun) as (p&[[_ Hsm Hisn [Hnum _ Hpay Hsyn _ Hfin Hend _] _ _ _ _] _]&<-).
  destruct (transfer_prefix (_isn s) log (_fin s) (Pipe.written p)) with (cap := rcap) (r := r)
    (consumed := consumed) (got := got) as (E&Hn&He&Hc); try done.
  { exists (drop (Z.to_nat (Pipe.popped p)) (Pipe.written p)). by rewrite Hpay, take_drop. }
  { intros Hf. destruct (Hend Hf) as [_ Hp]. rewrite Hpay, Hp. unfold zlen.
    by rewrite Nat2Z.id, firstn_all. }
  cbv zeta. split; [exact E|]. split; [exact Hn|]. split; [exact He|].
  intros Hf Hg. specialize (Hc Hf Hg). split; [exact Hc|]. by apply He.
Qed.

(** *** Witness: the data overtakes the SYN, and arrives again after it. *)
Definition demo_log : list TCPSegment := Eval vm_compute in
  _segments_out demo_syn ++ drop 1 (_segments_out demo_sent).
Definition demo_segment (i : nat) : TCPSegment := default default_segment (demo_log !! i).

Lemma demo_log_run : run 0 8 100 (Some demo_isn) demo_sent [x61; x62; x63; x64; x65] demo_log.
Proof.
  pose proof (run_start 0 8 100 (Some demo_isn)) as H.
  apply run_fill in H; [|vm_compute; reflexivity].
  apply (run_ack _ _ _ _ _ _ _ (mkWrappingInt32 0) 4) in H; [|split; done|lia|vm_compute; reflexivity].
  apply (run_write _ _ _ _ _ _ _ [x61; x62; x63; x64; x65]) in H; [|vm_compute; reflexivity].
  apply run_fill in H; [|vm_compute; reflexivity].
  match type of H with run _ _ _ _ _ _ ?l => replace demo_log with l by (vm_compute; reflexivity) end.
  exact H.
Qed.

Definition demo_received : TCPReceiver.TCPReceiver :=
  TCPReceiver.segment_received (demo_segment 1)
    (TCPReceiver.segment_received (demo_segment 0)
       (TCPReceiver.segment_received (demo_segment 1) (TCPReceiver.make 8))).

(** Closes [P -> Q -> R] when a premise is false by computation. *)
Local Ltac absurd_hyp :=
  let H1 := fresh in let H2 := fresh in
  intros H1 H2; (vm_compute in H1; discriminate H1) || (vm_compute in H2; discriminate H2).

Lemma demo_transfer : transfer demo_isn demo_log 8 demo_received [] [1; 0].
Proof.
  assert (position demo_log (demo_segment 0) 0 0) as H0.
  { exists [], (demo_segment 0), (drop 1 demo_log). split; [vm_compute; reflexivity|]. by split; [apply alike_refl|]. }
  assert (position demo_log (demo_segment 1) 0 1) as H1.
  { exists (take 1 demo_log), (demo_segment 1), []. split; [vm_compute; reflexivity|]. split; [apply alike_refl|].
    split; vm_compute; reflexivity. }
  pose proof (transfer_start demo_isn demo_log 8) as T.
  pose proof (transfer_segment _ _ _ _ _ _ _ _ _ T H1 ltac:(vm_compute; reflexivity)
    ltac:(absurd_hyp) ltac:(absurd_hyp)) as T1.
  pose proof (transfer_segment _ _ _ _ _ _ _ _ _ T1 H0 ltac:(vm_compute; reflexivity)
    ltac:(absurd_hyp) ltac:(absurd_hyp)) as T2.
  pose proof (transfer_segment _ _ _ _ _ _ _ _ _ T2 H1 ltac:(vm_compute; reflexivity)
    ltac:(absurd_hyp) ltac:(absurd_hyp)) as T3.
  match type of T3 with transfer _ _ _ _ _ ?g => replace [1; 0] with g by (vm_compute; reflexivity) end.
  exact T3.
Qed.

Lemma transfer_delivers_witness :
  [] ++ ByteStream.peek_output (2 ^ 64 - 1) (TCPReceiver.stream_out demo_received) =
    slice [x61; x62; x63; x64; x65] 0 4.
Proof.
  pose proof (transfer_delivers 0 8 100 (Some demo_isn) demo_sent [x61; x62; x63; x64; x65] demo_log 8
    demo_received [] [1; 0] ltac:(lia) demo_isn_ok demo_log_run ltac:(lia) demo_transfer) as (E&_).
  replace (ByteStream.bytes_written (TCPReceiver.stream_out demo_received)) with 4 in E
    by (vm_compute; reflexivity).
  exact E.
Defined.

End Transfer.
