(* ===== verification/Recovery.v ===== *)
(** * Recovery from loss

    A sender and a receiver with a network between them that loses, repeats and reorders
    segments and acknowledgements (see Transfer). The oldest segment that is not
    acknowledged is sent again when its timer runs out; this file shows that the stream
    arrives as a whole however much is lost, as long as that segment and the
    acknowledgements get through often enough. *)
From S2P Require Import Prelude Stream Wrapping Reassembler Buffers TcpSegment Receiver Sender Transfer.

Module Recovery.
Import TCPSegment TCPSender SenderLog SenderInvariant SenderTheorems Transfer.

(** The sequence numbers the receiver has: the SYN, the bytes assembled, the FIN. *)
Definition count (r : TCPReceiver.TCPReceiver) : Z :=
  if TCPReceiver._set_isn r
  then 1 + ByteStream.bytes_written (TCPReceiver.stream_out r) +
       Z_of_bool (ByteStream.input_ended (TCPReceiver.stream_out r))
  else 0.

Section Receiver.
Context (src : bytes) (isn : WrappingInt32) (cap : Z).
Context (src_small : zlen src < 2 ^ 63) (isn_ok : wrapping_ok isn) (cap_ok : 0 < cap < 2 ^ 63).
Abbreviation received := (ReceiverTheorems.received src isn cap).

Lemma received_order r consumed acc f :
  received r consumed acc f ->
  let n := ByteStream.bytes_written (TCPReceiver.stream_out r) in
  0 <= n <= zlen src /\ (forall k, 0 <= k < n -> acc k) /\ ~ acc n /\
  StreamReassembler._head_index (TCPReceiver._reassembler r) = n /\
  (ByteStream.input_ended (TCPReceiver.stream_out r) = true <-> f = true /\ forall k, 0 <= k < zlen src -> acc k).
Proof.
  intros H. destruct (ReceiverTheorems.received_inv _ _ _ src_small isn_ok cap_ok _ _ _ _ H) as (Hr&_).
  destruct (ReassemblerInvariant.reach_in_order _ _ _ _ _ _ src_small cap_ok Hr) as (_&Hn&Ha&Hna).
  cbv zeta. do 3 (split; [done|]). split; [|by apply (ReassemblerInvariant.reach_end _ cap _ consumed)].
  destruct (ReassemblerInvariant.reach_inv _ src_small _ _ _ _ _ cap_ok Hr) as (p&[[R Ew Hh _ _ _] _ _]&_).
  unfold TCPReceiver.stream_out, StreamReassembler.stream_out, ByteStream.bytes_written.
  rewrite (StreamRefinement.ref_written _ _ R), (ReassemblerInvariant.head_written _ _ _ Ew Hh). wsolve.
Qed.

Lemma received_unset r consumed acc f :
  received r consumed acc f -> TCPReceiver._set_isn r = false ->
  ByteStream.bytes_written (TCPReceiver.stream_out r) = 0.
Proof.
  intros H Hs. destruct (received_order _ _ _ _ H) as (Hn&Ha&_).
  destruct (ReceiverTheorems.received_inv _ _ _ src_small isn_ok cap_ok _ _ _ _ H) as (_&_&Hset).
  rewrite Hs in Hset. destruct (decide (ByteStream.bytes_written (TCPReceiver.stream_out r) = 0)); [done|].
  destruct (Hset 0). apply Ha. lia.
Qed.

Lemma received_ended r consumed acc f :
  received r consumed acc f -> ByteStream.input_ended (TCPReceiver.stream_out r) = true ->
  ByteStream.bytes_written (TCPReceiver.stream_out r) = zlen src.
Proof.
  intros H He. destruct (received_order _ _ _ _ H) as (Hn&_&Hna&_&Hend). apply Hend in He as [_ Hall].
  destruct (decide (ByteStream.bytes_written (TCPReceiver.stream_out r) = zlen src)); [done|].
  destruct Hna. apply Hall. lia.
Qed.

Lemma count_range r consumed acc f : received r consumed acc f -> 0 <= count r <= zlen src + 2.
Proof.
  intros H. destruct (received_order _ _ _ _ H) as (Hn&_). unfold count.
  destruct (TCPReceiver._set_isn r), (ByteStream.input_ended (TCPReceiver.stream_out r)); simpl; lia.
Qed.

(** The more has arrived, the more the receiver has. *)
Lemma count_mono r consumed acc f r' consumed' acc' f' :
  received r consumed acc f -> received r' consumed' acc' f' ->
  (forall k, acc k -> acc' k) -> (f = true -> f' = true) ->
  (TCPReceiver._set_isn r = true -> TCPReceiver._set_isn r' = true) -> count r <= count r'.
Proof.
  intros H H' Ha Hf Hs. destruct (received_order _ _ _ _ H) as (Hn&Han&_&_&He).
  destruct (received_order _ _ _ _ H') as (Hn'&_&Hna'&_&He'). pose proof (count_range _ _ _ _ H').
  unfold count in *. destruct (TCPReceiver._set_isn r); [|lia]. rewrite Hs by done.
  set (n := ByteStream.bytes_written (TCPReceiver.stream_out r)) in *.
  set (n' := ByteStream.bytes_written (TCPReceiver.stream_out r')) in *.
  assert (n <= n') by (destruct (Z.le_gt_cases n n'); [done|]; destruct Hna'; apply Ha, Han; lia).
  destruct (ByteStream.input_ended (TCPReceiver.stream_out r)); cbn [Z_of_bool].
  - destruct He as [He _]. destruct (He eq_refl) as [? Hall]. destruct He' as [_ ->]; [cbn [Z_of_bool]; lia|].
    split; [by apply Hf|]. intros k Hk. by apply Ha, Hall.
  - destruct (ByteStream.input_ended (TCPReceiver.stream_out r')); simpl; lia.
Qed.
End Receiver.

Section Log.
(** A sender's log: see [log_ok]. *)
Context (isn : WrappingInt32) (log : list TCPSegment) (has_fin : bool) (written : bytes).
Context (Hnum : numbered isn 0 log) (Hsyn : syn_first log) (Hfin : fin_last has_fin log).
Context (Hpre : exists rest, written = payloads log ++ rest)
  (Hall : has_fin = true -> payloads log = written).
Context (cap : Z) (Hisn : wrapping_ok isn) (Hcap : 0 < cap < 2 ^ 63) (Hsmall : zlen written < 2 ^ 62).
Abbreviation received := (ReceiverTheorems.received written isn cap).

Let small : zlen written < 2 ^ 63.
Proof. lia. Qed.

Lemma set_isn_kept seg r :
  TCPReceiver._set_isn (TCPReceiver.segment_received seg r) = TCPReceiver._set_isn r || syn seg.
Proof.
  unfold TCPReceiver.segment_received, syn. destruct (TCPReceiver._set_isn r) eqn:E, (TCPHeader.syn (header seg)) eqn:E';
    simpl; rewrite ?E; done.
Qed.

(** The SYN carries neither data nor the FIN. *)
Definition syn_alone : Prop := Forall (fun seg => syn seg = true -> data seg = [] /\ fin seg = false) log.

Lemma syn_alone_position seg index a :
  syn_alone -> position log seg index a -> syn seg = true -> data seg = [] /\ fin seg = false.
Proof.
  intros H (l1&x&l2&E&[_ As Af Ad]&_). unfold syn_alone in H. rewrite E in H.
  apply Forall_app in H as [_ [H _]%Forall_cons]. rewrite As, Af, Ad. exact H.
Qed.

(** The segment in which what the receiver lacks begins: it may arrive, and when it does
    and everything before has been read the receiver has more than before. *)
Lemma lacking_arrives r consumed acc f seg index a :
  received r consumed acc f -> syn_alone -> position log seg index a ->
  zlen (data seg) <= TCPConfig.MAX_PAYLOAD_SIZE -> a <= count r < a + seg_len seg ->
  Z.abs (a - ByteStream.bytes_written (TCPReceiver.stream_out r)) < 2 ^ 31 /\
  (data seg = [] -> fin seg = true ->
     index <= StreamReassembler._head_index (TCPReceiver._reassembler r)) /\
  (syn seg = true -> TCPReceiver._set_isn r = true -> data seg = [] /\ fin seg = false).
Proof.
  intros Hr Hal Hp Hm Hin. pose proof (syn_alone_position _ _ _ Hal Hp) as Hs.
  destruct (position_cases isn log has_fin written Hnum Hsyn Hfin Hpre Hall _ _ _ Hp)
    as (_&_&Hi&Hend&_&_&Hcase).
  destruct (received_order written isn cap small Hisn Hcap _ _ _ _ Hr) as (Hn&_&_&Eh&_).
  rewrite Eh. unfold seg_len, count, TCPConfig.MAX_PAYLOAD_SIZE in *.
  destruct (TCPReceiver._set_isn r) eqn:Es.
  - pose proof (received_ended written isn cap small Hisn Hcap _ _ _ _ Hr) as He.
    destruct (ByteStream.input_ended (TCPReceiver.stream_out r)); [rewrite He in * by done|]; destruct (syn seg) eqn:Ey, (fin seg) eqn:Ef;
      simpl in *; try (destruct (Hs eq_refl) as [Ed ?]; rewrite ?Ed in *; change (zlen []) with 0 in *);
      split_and!; intros; try done; lia.
  - rewrite (received_unset written isn cap small Hisn Hcap _ _ _ _ Hr Es) in *.
    destruct (syn seg); [destruct (Hs eq_refl) as [? ->], Hcase as [-> ->]|]; split_and!; done || lia.
Qed.
Lemma count_segment r consumed acc f seg index a :
  received r consumed acc f -> position log seg index a ->
  Z.abs (a - ByteStream.bytes_written (TCPReceiver.stream_out r)) < 2 ^ 31 ->
  (data seg = [] -> fin seg = true ->
     index <= StreamReassembler._head_index (TCPReceiver._reassembler r)) ->
  (syn seg = true -> TCPReceiver._set_isn r = true -> data seg = [] /\ fin seg = false) ->
  count r <= count (TCPReceiver.segment_received seg r).
Proof.
  intros Hr Hp Hn Hf Hs.
  destruct (segment_step isn log has_fin written Hnum Hsyn Hfin Hpre Hall cap Hisn Hcap Hsmall
    _ _ _ _ _ _ _ Hr Hp Hn Hf Hs) as (acc'&f'&Hr'&Ha&Hff&_).
  apply (count_mono written isn cap small Hisn Hcap r consumed acc f _ consumed acc' f'); try done.
  intros E. by rewrite set_isn_kept, E.
Qed.

Lemma lacking_advances r consumed acc f seg index a :
  received r consumed acc f -> syn_alone -> position log seg index a ->
  zlen (data seg) <= TCPConfig.MAX_PAYLOAD_SIZE -> a <= count r < a + seg_len seg ->
  zlen consumed = ByteStream.bytes_written (TCPReceiver.stream_out r) ->
  count r < count (TCPReceiver.segment_received seg r).
Proof.
  intros Hr Hal Hp Hm Hin Hread.
  destruct (lacking_arrives _ _ _ _ _ _ _ Hr Hal Hp Hm Hin) as (Hn&Hf&Hs).
  destruct (segment_step isn log has_fin written Hnum Hsyn Hfin Hpre Hall cap Hisn Hcap Hsmall
    _ _ _ _ _ _ _ Hr Hp Hn Hf Hs) as (acc'&f'&Hr'&Ha&Hff&_&Hadd).
  pose proof (count_segment _ _ _ _ _ _ _ Hr Hp Hn Hf Hs) as Hle.
  pose proof (syn_alone_position _ _ _ Hal Hp) as Hsa.
  destruct (position_cases isn log has_fin written Hnum Hsyn Hfin Hpre Hall _ _ _ Hp)
    as (_&_&Hi&Hend&_&Hfi&Hcase).
  destruct (received_order written isn cap small Hisn Hcap _ _ _ _ Hr) as (Hnr&Hacc&_&_&He).
  destruct (received_order written isn cap small Hisn Hcap _ _ _ _ Hr') as (Hnr'&_&Hna'&_&He').
  pose proof (received_ended written isn cap small Hisn Hcap _ _ _ _ Hr) as Hen.
  unfold seg_len, count in *. rewrite set_isn_kept in *.
  destruct (TCPReceiver._set_isn r) eqn:Es; cbn [orb] in *; [|destruct (syn seg); [|lia]].
  - destruct (Hadd eq_refl) as [Hk Hfn]. clear Hadd Hle Hn Hf Hs.
    destruct (syn seg); [destruct (Hsa eq_refl) as [Ed Ef]; rewrite Ed, Ef in Hin; change (zlen []) with 0 in Hin;
      destruct (ByteStream.input_ended (TCPReceiver.stream_out r)); cbn [Z_of_bool] in *; lia|].
    destruct (ByteStream.input_ended (TCPReceiver.stream_out r)).
    { rewrite Hen in * by done. destruct (fin seg); cbn [Z_of_bool] in *; lia. }
    set (n := ByteStream.bytes_written (TCPReceiver.stream_out r)) in *.
    set (n' := ByteStream.bytes_written (TCPReceiver.stream_out (TCPReceiver.segment_received seg r))) in *.
    assert (n <= n') by (destruct (Z.le_gt_cases n n'); [done|]; destruct Hna'; apply Ha, Hacc; lia).
    destruct (decide (n < index + zlen (data seg))) as [Hlt|Hge]; cbn [Z_of_bool] in *.
    + assert (n <> n') by (intros <-; apply Hna', Hk; lia).
      destruct (ByteStream.input_ended (TCPReceiver.stream_out (TCPReceiver.segment_received seg r))); cbn [Z_of_bool]; lia.
    + destruct (fin seg); cbn [Z_of_bool] in *; [|lia]. destruct (Hfi eq_refl) as [_ Ew].
      destruct He' as [_ ->]; [cbn [Z_of_bool]; lia|]. split; [apply Hfn; lia|].
      intros k ?. apply Ha, Hacc. lia.
  - destruct (ByteStream.input_ended (TCPReceiver.stream_out (TCPReceiver.segment_received seg r))); cbn [Z_of_bool] in *; lia.
Qed.
End Log.

(** ** The sender *)

(** What the sender counts as used of the window is in flight. *)
Definition used_in_flight (s : TCPSender) : Prop := _window_used_size s <= _next_seqno s - acked s.

Lemma numbered_empty isn a l : numbered isn a l -> log_len l <= 0 -> l = [].
Proof.
  destruct l as [|x l]; [done|]. intros (_&Hx&_) Hl. cbn [log_len] in Hl. pose proof (log_len_nonneg l). lia.
Qed.

Lemma ack_next ackno w s : _next_seqno (ack_received ackno w s) = _next_seqno s.
Proof. unfold ack_received. destruct (_ || _); [done|]. by destruct (Wrapping.eqb _ _). Qed.
Lemma ack_isn ackno w s : _isn (ack_received ackno w s) = _isn s.
Proof. unfold ack_received. destruct (_ || _); [done|]. by destruct (Wrapping.eqb _ _). Qed.
Lemma ack_stream ackno w s : _stream (ack_received ackno w s) = _stream s.
Proof. unfold ack_received. destruct (_ || _); [done|]. by destruct (Wrapping.eqb _ _). Qed.

Lemma ack_used s p log ackno w :
  inv s p log -> wrapping_ok ackno -> 0 <= w < 2 ^ 16 -> _syned s = true ->
  used_in_flight s -> used_in_flight (ack_received ackno w s).
Proof.
  intros I Ha Hw Hs Hu. destruct (I) as [B [Hl Hr Hn _]]. pose proof (base_next_range _ _ _ B).
  pose proof (base_used _ _ _ B). unfold used_in_flight in *.
  destruct (ack_received_inv s p log ackno w I Ha Hw Hs) as [I' HB]. set (b := Wrapping.unwrap ackno _ _) in *.
  destruct (_ && _) eqn:Eb; [|by rewrite HB]. apply andb_true_iff in Eb as [?%Z.leb_le ?%Z.leb_le].
  destruct HB as (->&_&->). rewrite ack_next. unfold update_window. cbn [_window_used_size upd]. fold b.
  rewrite Hl, plus_wrap, unwrap_near by lia.
  destruct (Z.ltb_spec b (acked s + _window_used_size s)); [rewrite u64_small by lia|];
    match goal with |- context [Z.ltb ?x ?y] => destruct (Z.ltb_spec x y) end; lia.
Qed.

(** After [fill_window] something is outstanding, or there is nothing left to send. *)
Lemma fill_outstanding s p log :
  inv s p log -> used_in_flight s -> _next_seqno (fill_window s) - acked s < 2 ^ 31 ->
  used_in_flight (fill_window s) /\
  (_next_seqno (fill_window s) <= acked (fill_window s) -> drained (fill_window s)).
Proof.
  intros I Hu Hn. destruct (I) as [B [_ Hr _ _]].
  destruct (fill_window_inv s p log I) as (p'&new&B'&_&F&HI). destruct (HI Hn) as [_ Ea].
  unfold used_in_flight in *. pose proof (frame_next _ _ _ F) as En. pose proof (frame_used _ _ _ F) as Eu.
  split; [lia|]. rewrite Ea. intros Hle. pose proof (base_used _ _ _ B). pose proof (log_len_nonneg new).
  destruct (base_log _ _ _ B') as [Hnum _ _ _ _ _ _ _]. apply numbered_app in Hnum as [_ Hnum].
  clear HI B' I Ea. revert F En Eu Hle. unfold fill_window. destruct (_ && _) eqn:E; intros F En Eu Hle.
  - apply andb_true_iff in E as [Ew%Z.eqb_eq Ez%Z.eqb_eq].
    destruct (fill_zero_window_spec s p log B Ew Ez) as (?&new'&B'&_&F'&_&Hd). apply Hd.
    destruct (base_log _ _ _ B') as [Hnum' _ _ _ _ _ _ _]. apply numbered_app in Hnum' as [_ Hnum'].
    apply (numbered_empty _ _ _ Hnum'). pose proof (frame_next _ _ _ F'). lia.
  - destruct (fill_loop_spec (S (Z.to_nat (_window_size s))) s p log B) as (?&new'&_&_&F'&[Hf|Hf]&_);
      [destruct B; lia| |done].
    pose proof (frame_window _ _ _ F'). pose proof (base_window _ _ _ B).
    assert (_window_size s = 0 /\ _window_used_size s = 0) as [Ew Ez] by lia. by rewrite Ew, Ez in E.
Qed.

(** ** The two ends and the network *)

(** What the receiver tells the sender: see [TCPConnection.with_ackno_and_win]. *)
Definition notice (r : TCPReceiver.TCPReceiver) : option (WrappingInt32 * Z) :=
  match TCPReceiver.ackno r with
  | Some x => Some (x, Z.min 65535 (TCPReceiver.window_size r))
  | None => None
  end.

(** [written] is what the sending application wrote, [log] the segments sent, [consumed]
    what the receiving application has read, and [notices] the acknowledgements on their
    way, each with the number of sequence numbers it acknowledges. *)
Record state := mkState {
  sender : TCPSender;
  receiver : TCPReceiver.TCPReceiver;
  written : bytes;
  log : list TCPSegment;
  consumed : bytes;
  notices : list (Z * (WrappingInt32 * Z))
}.
#[global] Instance eta_state : Eta state := fun x =>
  mkState (sender x) (receiver x) (written x) (log x) (consumed x) (notices x).

Definition write (d : bytes) (x : state) : state :=
  x <| sender ::= fun s => s <| _stream ::= fun o => (ByteStream.write d o).1 |> |>
    <| written ::= fun w => w ++ take (Z.to_nat (ByteStream.write d (_stream (sender x))).2) d |>.
Definition end_input (x : state) : state :=
  x <| sender ::= fun s => s <| _stream ::= ByteStream.end_input |> |>.
Definition fill (x : state) : state :=
  x <| sender ::= fill_window |>
    <| log ::= fun l => l ++ drop (length (_segments_out (sender x))) (_segments_out (fill_window (sender x))) |>.
Definition pass (ms : Z) (x : state) : state := x <| sender ::= tick ms |>.
Definition dequeue (x : state) : state := x <| sender ::= fun s => s <| _segments_out ::= tail |> |>.
Definition arrive (seg : TCPSegment) (x : state) : state :=
  x <| receiver ::= TCPReceiver.segment_received seg |>.
Definition read (n : Z) (x : state) : state :=
  x <| receiver ::= fun r => r <| TCPReceiver._reassembler ::= fun a => a <| StreamReassembler._output ::=
         fun o => (ByteStream.read n o).1 |> |> |>
    <| consumed ::= fun c => c ++ (ByteStream.read n (TCPReceiver.stream_out (receiver x))).2 |>.
Definition acknowledge (x : state) : state :=
  match notice (receiver x) with
  | Some a => x <| notices ::= cons (count (receiver x), a) |>
  | None => x
  end.
Definition hear (a : WrappingInt32 * Z) (x : state) : state :=
  x <| sender ::= ack_received a.1 a.2 |>.

(** A step. Segments may arrive as in [transfer]; an acknowledgement arrives less than
    2^31 behind the sender. *)
Inductive step (x : state) : state -> Prop :=
| step_write d : zlen (written (write d x)) < 2 ^ 62 -> step x (write d x)
| step_end : step x (end_input x)
| step_fill : _next_seqno (fill_window (sender x)) - acked (sender x) < 2 ^ 31 -> step x (fill x)
| step_pass ms : step x (pass ms x)
| step_dequeue : step x (dequeue x)
| step_arrive seg index a :
    position (log x) seg index a ->
    Z.abs (a - ByteStream.bytes_written (TCPReceiver.stream_out (receiver x))) < 2 ^ 31 ->
    (data seg = [] -> fin seg = true ->
       index <= StreamReassembler._head_index (TCPReceiver._reassembler (receiver x))) ->
    (syn seg = true -> TCPReceiver._set_isn (receiver x) = true -> data seg = [] /\ fin seg = false) ->
    step x (arrive seg x)
| step_read n : 0 <= n -> step x (read n x)
| step_acknowledge : step x (acknowledge x)
| step_hear n a : (n, a) ∈ notices x -> _next_seqno (sender x) - n < 2 ^ 31 -> step x (hear a x).

(** The receiving application reads what there is; an acknowledgement is sent and arrives;
    time passes and what is sent then arrives. *)
Definition read_all (x : state) : state :=
  read (ByteStream.buffer_size (TCPReceiver.stream_out (receiver x))) x.
Definition exchange (x : state) : state :=
  match notice (receiver x) with
  | Some a => hear a (acknowledge x)
  | None => acknowledge x
  end.
Definition retransmit (ms : Z) (x : state) : state :=
  let y := pass ms x in
  foldl (fun y seg => arrive seg y) y (drop (length (_segments_out (sender x))) (_segments_out (sender y))).

(** A round in which nothing of this is lost. *)
Definition fresh (x : state) : state := fill (exchange (read_all x)).
Definition round (ms : Z) (x : state) : state := exchange (read_all (retransmit ms (fresh x))).

(** [ms] is long enough for the timer to run out, and less than 2^31 is in flight. *)
Definition ready (ms : Z) (x : state) : Prop :=
  let s := sender (fresh x) in
  _next_seqno s - acked (sender (exchange (read_all x))) < 2 ^ 31 /\
  match _tcp_seg_cache s with
  | (last, _) :: _ => _retransmission_timeout s <= u64 (u64 (_now_time_ms s + ms) - last)
  | [] => True
  end.

(** Rounds in which nothing is lost, among any other steps. *)
Inductive rounds (x : state) : nat -> state -> Prop :=
| rounds_none : rounds x 0 x
| rounds_step n y z : rounds x n y -> step y z -> rounds x n z
| rounds_round n y ms : rounds x n y -> ready ms y -> rounds x (S n) (round ms y).

Section System.
Context (random scap rto : Z) (fixed_isn : option WrappingInt32) (rcap : Z).
Context (scap_ok : 0 < scap < 2 ^ 63) (rcap_ok : 0 < rcap < 2 ^ 63).
Context (isn_ok : wrapping_ok (_isn (make random scap rto fixed_isn))).
Abbreviation isn := (_isn (make random scap rto fixed_isn)).
Abbreviation run := (run random scap rto fixed_isn).

Definition initial : state := mkState (make random scap rto fixed_isn) (TCPReceiver.make rcap) [] [] [] [].

(** An acknowledgement of no more than [c] sequence numbers. *)
Definition told (c : Z) (m : Z * (WrappingInt32 * Z)) : Prop :=
  1 <= m.1 <= c /\ m.2.1 = Wrapping.wrap m.1 isn /\ 0 <= m.2.2 < 2 ^ 16.

Record linked (x : state) : Prop := mk_linked {
  linked_run : run (sender x) (written x) (log x);
  linked_isn : _isn (sender x) = isn;
  linked_transfer : exists got, transfer isn (log x) rcap (receiver x) (consumed x) got;
  linked_acked : acked (sender x) <= count (receiver x);
  linked_used : used_in_flight (sender x);
  linked_notices : Forall (told (count (receiver x))) (notices x)
}.

(** The facts on the log that the lemmas on arrivals ask for. *)
Lemma run_log s w l :
  run s w l -> _isn s = isn ->
  numbered isn 0 l /\ syn_first l /\ fin_last (_fin s) l /\ (exists rest, w = payloads l ++ rest) /\
  (_fin s = true -> payloads l = w) /\ zlen w < 2 ^ 62 /\
  Forall (fun x => zlen (data x) <= TCPConfig.MAX_PAYLOAD_SIZE) l /\
  _next_seqno s = zlen (payloads l) + Z_of_bool (negb (bool_decide (l = []))) + Z_of_bool (_fin s) /\
  _syned s = negb (bool_decide (l = [])).
Proof.
  intros H E. destruct (run_inv _ _ _ _ scap_ok isn_ok _ _ _ H)
    as (p&[[_ Hsm _ [Hnum Hnx Hpay Hsyn Hsy Hfin Hend Hsz] _ _ _ _] _]&<-). rewrite E in Hnum.
  split_and!; try done.
  - exists (drop (Z.to_nat (Pipe.popped p)) (Pipe.written p)). by rewrite Hpay, take_drop.
  - intros Hf. destruct (Hend Hf) as [_ Hp]. rewrite Hpay, Hp. unfold zlen. by rewrite Nat2Z.id, firstn_all.
  - rewrite Hnx. by apply count_syn_fin.
Qed.

Lemma set_needs_log l r c got : transfer isn l rcap r c got -> TCPReceiver._set_isn r = true -> l <> [].
Proof.
  induction 1 as [|r c got seg index a _ IH Hp|r c got seg index _ IH Hd Hs|]; intros Hset; [done|..|by apply IHtransfer].
  - destruct Hp as (l1&y&l2&->&_). by destruct l1.
  - apply IH. by rewrite set_isn_kept, Hs, orb_false_r in Hset.
Qed.

(** The receiver has no more than was sent. *)
Lemma count_sent x : linked x -> 0 <= count (receiver x) <= _next_seqno (sender x).
Proof.
  intros [Hrun Hi [got Ht] _ _ _]. destruct (run_log _ _ _ Hrun Hi) as (Hnum&Hsyn&Hfin&[rest Hw]&_&Hsm&_&En&_).
  rewrite Hw, zlen_app in Hsm. pose proof (zlen_nonneg rest).
  destruct (transfer_received isn (log x) (_fin (sender x)) (payloads (log x)) Hnum Hsyn Hfin) with (cap := rcap)
    (r := receiver x) (consumed := consumed x) (got := got) as (acc&f&Hr&_&Hf); try done; [by exists []; rewrite app_nil_r|lia|].
  pose proof (set_needs_log _ _ _ _ Ht) as Hl. assert (zlen (payloads (log x)) < 2 ^ 63) as Hs by lia.
  destruct (received_order _ _ _ Hs isn_ok rcap_ok _ _ _ _ Hr) as (Hn&_&_&_&He). rewrite En. unfold count.
  pose proof (zlen_nonneg (payloads (log x))).
  destruct (TCPReceiver._set_isn (receiver x)); [|destruct (bool_decide _), (_fin (sender x)); cbn [Z_of_bool negb]; lia].
  rewrite bool_decide_eq_false_2 by by apply Hl.
  destruct (ByteStream.input_ended (TCPReceiver.stream_out (receiver x))).
  - destruct He as [He _]. destruct (He eq_refl) as [Hft _]. rewrite Hf by done. cbn [Z_of_bool negb]. lia.
  - destruct (_fin (sender x)); cbn [Z_of_bool negb]; lia.
Qed.

Lemma linked_received x :
  linked x -> exists acc f, ReceiverTheorems.received (written x) isn rcap (receiver x) (consumed x) acc f.
Proof.
  intros [Hrun Hi [got Ht] _ _ _].
  destruct (run_log _ _ _ Hrun Hi) as (Hnum&Hsyn&Hfin&Hpre&Hall&Hsm&_).
  destruct (transfer_received isn (log x) (_fin (sender x)) (written x) Hnum Hsyn Hfin Hpre Hall rcap isn_ok rcap_ok Hsm
    _ _ _ Ht) as (acc&f&Hr&_). by exists acc, f.
Qed.

(** Nothing that was said of the receiver is wrong when it has more. *)
Lemma told_grows c c' l : c <= c' -> Forall (told c) l -> Forall (told c') l.
Proof. intros Hle H. eapply Forall_impl; [exact H|]. intros m (?&?&?). split; [lia|done]. Qed.

Lemma notice_ok x a :
  linked x -> notice (receiver x) = Some a ->
  told (count (receiver x)) (count (receiver x), a).
Proof.
  intros L. destruct (linked_received x L) as (acc&f&Hr). destruct (linked_transfer x L) as [got Ht].
  destruct (run_log _ _ _ (linked_run x L) (linked_isn x L)) as (_&_&_&_&_&Hsm&_).
  assert (zlen (written x) < 2 ^ 63) as Hs by lia.
  destruct (ReceiverTheorems.received_inv _ _ _ Hs isn_ok rcap_ok _ _ _ _ Hr) as (Hreach&Hc&Hset).
  destruct (received_order _ _ _ Hs isn_ok rcap_ok _ _ _ _ Hr) as (Hn&_).
  destruct (ReassemblerInvariant.reach_capacity _ _ _ _ _ _ Hs rcap_ok Hreach) as (_&Hb).
  unfold notice, TCPReceiver.ackno, count. destruct (TCPReceiver._set_isn (receiver x)); [|done].
  cbn [negb Z_of_bool]. intros [= <-]. unfold told. cbn [fst snd]. rewrite Hset.
  assert (0 <= Z_of_bool (ByteStream.input_ended (TCPReceiver.stream_out (receiver x))) <= 1)
    by (by destruct (ByteStream.input_ended _)).
  split; [lia|]. split; [by wsimpl|]. unfold TCPReceiver.window_size.
  pose proof (u64_range (TCPReceiver._capacity (receiver x) - ByteStream.buffer_size (TCPReceiver.stream_out (receiver x)))). lia.
Qed.

Lemma initial_linked : linked initial.
Proof.
  split; [constructor|done|by exists []; constructor| | |constructor].
  - change (acked (start random scap rto fixed_isn) <= 0). rewrite start_acked by done. lia.
  - change (0 <= 0 - acked (start random scap rto fixed_isn)). rewrite start_acked by done. lia.
Qed.

(** A step of the sender that sends nothing and hears nothing. *)
Lemma linked_same x s w :
  linked x -> run s w (log x) -> _isn s = _isn (sender x) -> _next_seqno s = _next_seqno (sender x) ->
  _latest_ackno s = _latest_ackno (sender x) -> _window_used_size s = _window_used_size (sender x) ->
  linked (x <| sender := s |> <| written := w |>).
Proof.
  intros [Hrun Hi Ht Ha Hu Hn] Hr Ei En El Eu.
  assert (acked s = acked (sender x)) as Ea by (unfold acked; by rewrite Ei, En, El).
  split; try done.
  - change (_isn s = isn). by rewrite Ei.
  - change (acked s <= count (receiver x)). by rewrite Ea.
  - change (used_in_flight s). unfold used_in_flight. by rewrite En, Eu, Ea.
Qed.

Lemma tick_same ms s p l :
  inv s p l -> _isn (tick ms s) = _isn s /\ _next_seqno (tick ms s) = _next_seqno s /\
  _latest_ackno (tick ms s) = _latest_ackno s /\ _window_used_size (tick ms s) = _window_used_size s /\
  _stream (tick ms s) = _stream s.
Proof.
  intros _. unfold tick. destruct (_tcp_seg_cache _) as [|[t seg] c]; [done|]. destruct (_ <=? _); [|done].
  by destruct (negb _).
Qed.

Lemma linked_fill x :
  linked x -> _next_seqno (fill_window (sender x)) - acked (sender x) < 2 ^ 31 ->
  linked (fill x) /\ acked (sender (fill x)) = acked (sender x).
Proof.
  intros [Hrun Hi [got Ht] Ha Hu Hn] Hf. destruct (run_inv _ _ _ _ scap_ok isn_ok _ _ _ Hrun) as (p&I&_).
  destruct (fill_window_inv _ _ _ I) as (p'&new&_&_&F&HI). destruct (HI Hf) as [_ Ea].
  split; [|exact Ea]. split; cbn [sender receiver log consumed notices fill upd].
  - by apply run_fill.
  - by rewrite (frame_isn _ _ _ F).
  - exists got. by apply transfer_grows.
  - by rewrite Ea.
  - by apply (fill_outstanding _ p (log x)).
  - exact Hn.
Qed.

Lemma linked_arrive x seg index a :
  linked x -> position (log x) seg index a ->
  Z.abs (a - ByteStream.bytes_written (TCPReceiver.stream_out (receiver x))) < 2 ^ 31 ->
  (data seg = [] -> fin seg = true ->
     index <= StreamReassembler._head_index (TCPReceiver._reassembler (receiver x))) ->
  (syn seg = true -> TCPReceiver._set_isn (receiver x) = true -> data seg = [] /\ fin seg = false) ->
  linked (arrive seg x).
Proof.
  intros L Hp Hn Hf Hs. destruct (linked_received _ L) as (acc&f&Hr). destruct L as [Hrun Hi [got Ht] Ha Hu Hno].
  destruct (run_log _ _ _ Hrun Hi) as (Hnum&Hsyn&Hfin&Hpre&Hall&Hsm&_).
  assert (count (receiver x) <= count (TCPReceiver.segment_received seg (receiver x))) as Hle
    by by eapply (count_segment isn (log x) (_fin (sender x)) (written x) Hnum Hsyn Hfin Hpre Hall rcap).
  split; try done; cbn [sender receiver log consumed notices arrive upd].
  - eexists. by eapply transfer_segment.
  - lia.
  - by eapply told_grows.
Qed.

(** An acknowledgement of [n] sequence numbers is heard. *)
Lemma linked_hear x n a :
  linked x -> told (count (receiver x)) (n, a) -> _next_seqno (sender x) - n < 2 ^ 31 ->
  linked (hear a x) /\ acked (sender (hear a x)) = Z.max n (acked (sender x)).
Proof.
  intros L (Hn&Ea&Hw) Hnear. cbn [fst snd] in *. pose proof (count_sent x L) as Hc. destruct (L) as [Hrun Hi Ht Ha Hu Hno].
  destruct (run_inv _ _ _ _ scap_ok isn_ok _ _ _ Hrun) as (p&I&_).
  destruct (run_log _ _ _ Hrun Hi) as (_&_&_&_&_&_&_&En&Esy).
  assert (_syned (sender x) = true) as Hsy.
  { rewrite Esy. destruct (log x); [|done]. destruct (_fin (sender x)) eqn:Ef;
      [|change (_next_seqno (sender x) = 0) in En; lia].
    destruct I as [[_ _ _ [_ _ _ _ _ Hfi _ _] _ _ _ _] _]. rewrite Ef in Hfi. by destruct Hfi as ([]&?&?&_). }
  assert (wrapping_ok a.1) as Hok by (rewrite Ea, wrap_eq; unfold wrapping_ok; cbn [raw_value]; apply u32_range).
  destruct (I) as [B _]. pose proof (base_next_range _ _ _ B) as Hr.
  destruct (ack_received_inv (sender x) p (log x) a.1 a.2 I Hok Hw Hsy) as [I' HB].
  rewrite Ea, Hi, unwrap_near in HB by lia. rewrite <- Ea in HB.
  assert (acked (ack_received a.1 a.2 (sender x)) = Z.max n (acked (sender x))) as E.
  { destruct (Z.leb_spec (acked (sender x)) n), (Z.leb_spec n (_next_seqno (sender x))); cbn [andb] in HB; try lia.
    rewrite HB. lia. }
  split; [|exact E]. split; try done; cbn [sender receiver log consumed notices written hear upd].
  - by apply run_ack.
  - by rewrite ack_isn.
  - rewrite E. lia.
  - by eapply ack_used.
Qed.

Lemma linked_step x y : step x y -> linked x -> linked y /\ acked (sender x) <= acked (sender y).
Proof.
  intros H L. pose proof (count_sent x L) as Hc. pose proof L as [Hrun Hi [got Ht] Ha Hu Hno].
  destruct (run_inv _ _ _ _ scap_ok isn_ok _ _ _ Hrun) as (p&I&_).
  destruct H as [d Hd| |Hf|ms| |seg index a Hp Hn Hf Hs|n Hn| |n a Hin Hn].
  - split; [|done]. apply (linked_same x); try done. by apply run_write.
  - split; [|done]. apply (linked_same x _ (written x)); try done. by apply run_end.
  - destruct (linked_fill x L Hf) as [? ->]. by split.
  - destruct (tick_same ms _ _ _ I) as (?&?&?&?&_).
    assert (acked (tick ms (sender x)) = acked (sender x)) as E by (unfold acked; congruence).
    split; [|change (acked (sender x) <= acked (tick ms (sender x))); lia]. apply (linked_same x _ (written x)); try done. by apply run_tick.
  - split; [|done]. apply (linked_same x _ (written x)); try done.
    destruct (_segments_out (sender x)) as [|seg q] eqn:E; [|by eapply run_dequeue].
    destruct x as [s]. destruct s. cbn in *. subst. done.
  - split; [|done]. by eapply linked_arrive.
  - split; [|done]. split; try done. eexists. by apply transfer_read.
  - unfold acknowledge. destruct (notice _) as [a|] eqn:E; [|done]. split; [|done]. split; try done; [by exists got|].
    apply Forall_cons_2; [|done]. by apply (notice_ok x).
  - rewrite Forall_forall in Hno. destruct (linked_hear x n a L (Hno _ Hin) Hn) as [? ->]. split; [done|lia].
Qed.

Lemma linked_steps x y : rtc step x y -> linked x -> linked y /\ acked (sender x) <= acked (sender y).
Proof.
  induction 1 as [|x y z Hs _ IH]; intros L; [by split|]. destruct (linked_step _ _ Hs L) as [Ly ?].
  destruct (IH Ly). split; [done|lia].
Qed.

Lemma linked_inv x : linked x -> exists p, inv (sender x) p (log x) /\ Pipe.written p = written x.
Proof. intros L. exact (run_inv _ _ _ _ scap_ok isn_ok _ _ _ (linked_run x L)). Qed.

(** When an acknowledgement gets through, the sender knows what the receiver has. *)
Lemma exchange_spec x :
  linked x -> rtc step x (exchange x) /\ linked (exchange x) /\
  acked (sender (exchange x)) = count (receiver x) /\
  receiver (exchange x) = receiver x /\ log (exchange x) = log x /\ written (exchange x) = written x /\
  consumed (exchange x) = consumed x /\ _stream (sender (exchange x)) = _stream (sender x).
Proof.
  intros L. destruct (linked_inv x L) as (p&[_ [_ Hr Hn _]]&_). pose proof (linked_acked x L) as Ha.
  unfold exchange. destruct (notice (receiver x)) as [a|] eqn:E.
  - assert (acknowledge x = x <| notices ::= cons (count (receiver x), a) |>) as Eq by (unfold acknowledge; by rewrite E).
    destruct (linked_step x (acknowledge x) (step_acknowledge x) L) as [L' _].
    destruct (linked_hear (acknowledge x) (count (receiver x)) a L') as [Lh Eh]; rewrite ?Eq; [by apply (notice_ok x)|cbn; lia|].
    rewrite Eq in Lh, Eh. split; [|split; [done|]].
    + eapply rtc_l; [apply step_acknowledge|]. apply rtc_once. rewrite Eq.
      apply (step_hear _ (count (receiver x))); [by left|change (_next_seqno (sender x) - count (receiver x) < 2 ^ 31); lia].
    + split; [rewrite Eh; change (Z.max (count (receiver x)) (acked (sender x)) = count (receiver x)); lia|].
      split_and!; try done. apply ack_stream.
  - assert (acknowledge x = x) as -> by (unfold acknowledge; by rewrite E).
    split; [done|]. split; [done|]. split_and!; try done. unfold notice, TCPReceiver.ackno, count in *.
    destruct (TCPReceiver._set_isn (receiver x)); [done|]. lia.
Qed.

Lemma count_read_all x : count (receiver (read_all x)) = count (receiver x).
Proof. reflexivity. Qed.

Lemma read_all_spec x :
  linked x -> step x (read_all x) /\ linked (read_all x) /\
  zlen (consumed (read_all x)) = ByteStream.bytes_written (TCPReceiver.stream_out (receiver (read_all x))).
Proof.
  intros L. set (n := ByteStream.buffer_size (TCPReceiver.stream_out (receiver x))).
  destruct (linked_received x L) as (acc&f&Hr).
  destruct (run_log _ _ _ (linked_run x L) (linked_isn x L)) as (_&_&_&_&_&Hsm&_).
  assert (zlen (written x) < 2 ^ 63) as Hs by lia.
  destruct (ReceiverTheorems.received_inv _ _ _ Hs isn_ok rcap_ok _ _ _ _ Hr) as (Hreach&_).
  destruct (ReassemblerInvariant.reach_buffer _ _ _ _ _ _ Hs rcap_ok Hreach) as (H0&Hb).
  change (0 <= n) in H0. pose proof (step_read x n H0 : step x (read_all x)) as Hst.
  split; [done|]. split; [by apply (linked_step _ _ Hst)|].
  destruct (ReassemblerInvariant.reach_inv _ Hs _ _ _ _ _ rcap_ok Hreach) as (p&[[R _ _ _ _ _] _ _]&_).
  change (StreamReassembler._output _) with (TCPReceiver.stream_out (receiver x)) in R.
  destruct (StreamRefinement.read_ok _ _ R n H0) as [_ Ec].
  change (zlen (consumed x ++ (ByteStream.read n (TCPReceiver.stream_out (receiver x))).2) =
    ByteStream.bytes_written (TCPReceiver.stream_out (receiver x))).
  rewrite zlen_app, Ec. cbn [Pipe.read snd]. rewrite zlen_peek_min by done.
  assert (n = zlen (Pipe.pending p)) as En by apply (StreamRefinement.ref_size _ _ R).
  unfold TCPReceiver.stream_out in *. lia.
Qed.

Lemma tick_resends ms s p l t seg c :
  inv s p l -> _tcp_seg_cache s = (t, seg) :: c ->
  _retransmission_timeout s <= u64 (u64 (_now_time_ms s + ms) - t) ->
  _segments_out (tick ms s) = _segments_out s ++ [seg].
Proof.
  intros I Ec Ht. set (s1 := s <| _now_time_ms := u64 (_now_time_ms s + ms) |>).
  assert (remove_acked_seg s1 = s1) as E by (apply (remove_acked_noop _ p l); destruct I as [[] []]; split; split; done).
  unfold tick. change (s <| _now_time_ms ::= _ |>) with s1. rewrite E.
  change (_tcp_seg_cache s1) with (_tcp_seg_cache s). rewrite Ec.
  change (_retransmission_timeout s1) with (_retransmission_timeout s).
  change (_now_time_ms s1) with (u64 (_now_time_ms s + ms)). apply Z.leb_le in Ht. rewrite Ht.
  by destruct (negb _).
Qed.

Lemma tick_nothing ms s : _tcp_seg_cache s = [] -> _segments_out (tick ms s) = _segments_out s.
Proof. intros E. unfold tick, remove_acked_seg. cbn. by rewrite E. Qed.

(** The oldest segment that is not acknowledged in full. *)
Lemma oldest_position s p l t seg c :
  inv s p l -> _tcp_seg_cache s = (t, seg) :: c ->
  exists index a, position l seg index a /\ a <= acked s < a + seg_len seg /\
    zlen (data seg) <= TCPConfig.MAX_PAYLOAD_SIZE.
Proof.
  intros [B [_ _ _ (k&Hk&Hk1&Hk2)]] Ec. rewrite Ec in Hk. cbn [map snd] in Hk.
  assert (l !! k = Some seg) as Hs by (rewrite <- (Nat.add_0_r k), <- lookup_drop, <- Hk; done).
  exists (zlen (payloads (take k l))), (log_len (take k l)). split.
  - exists (take k l), seg, (map snd c). rewrite Hk, take_drop. by split; [|split; [apply alike_refl|]].
  - split; [split; [done|by apply Hk2]|]. destruct (base_log _ _ _ B) as [_ _ _ _ _ _ _ Hsz].
    rewrite Forall_forall in Hsz. apply Hsz. by eapply list_elem_of_lookup_2.
Qed.

Lemma nothing_outstanding s p l : inv s p l -> _tcp_seg_cache s = [] -> _next_seqno s <= acked s.
Proof.
  intros [B [_ _ _ (k&Hk&Hk1&_)]] Ec. rewrite Ec in Hk. destruct (base_log _ _ _ B) as [_ -> _ _ _ _ _ _].
  rewrite <- (take_drop k l), <- Hk. cbn [map]. by rewrite app_nil_r.
Qed.

Lemma retransmit_spec ms y :
  linked y -> syn_alone (log y) -> acked (sender y) = count (receiver y) ->
  zlen (consumed y) = ByteStream.bytes_written (TCPReceiver.stream_out (receiver y)) ->
  match _tcp_seg_cache (sender y) with
  | (last, _) :: _ => _retransmission_timeout (sender y) <= u64 (u64 (_now_time_ms (sender y) + ms) - last)
  | [] => True
  end ->
  rtc step y (retransmit ms y) /\ log (retransmit ms y) = log y /\ written (retransmit ms y) = written y /\
  _stream (sender (retransmit ms y)) = _stream (sender y) /\
  (count (receiver y) < count (receiver (retransmit ms y)) \/ _next_seqno (sender y) <= acked (sender y)).
Proof.
  intros L Hal Ha Hc Ht. destruct (linked_inv y L) as (p&I&_). destruct (tick_same ms _ _ _ I) as (_&_&_&_&Est).
  pose proof (step_pass y ms) as Hp. unfold retransmit. change (sender (pass ms y)) with (tick ms (sender y)).
  destruct (_tcp_seg_cache (sender y)) as [|[t seg] c] eqn:Ec.
  - rewrite tick_nothing, drop_all by done. cbn [foldl]. split; [by apply rtc_once|]. split_and!; try done.
    right. by eapply nothing_outstanding.
  - rewrite (tick_resends ms _ _ _ _ _ _ I Ec Ht), drop_app_length. cbn [foldl].
    destruct (oldest_position _ _ _ _ _ _ I Ec) as (index&a&Hpos&Hin&Hm). rewrite Ha in Hin.
    destruct (linked_received y L) as (acc&f&Hr).
    destruct (run_log _ _ _ (linked_run y L) (linked_isn y L)) as (Hnum&Hsyn&Hfin&Hpre&Hall&Hsm&_).
    destruct (lacking_arrives isn (log y) (_fin (sender y)) (written y) Hnum Hsyn Hfin Hpre Hall rcap isn_ok rcap_ok Hsm
      _ _ _ _ _ _ _ Hr Hal Hpos Hm Hin) as (Hn&Hf&Hs).
    pose proof (lacking_advances isn (log y) (_fin (sender y)) (written y) Hnum Hsyn Hfin Hpre Hall rcap isn_ok rcap_ok Hsm
      _ _ _ _ _ _ _ Hr Hal Hpos Hm Hin Hc) as Hlt.
    split; [|by split_and!; try done; left].
    eapply rtc_l; [exact Hp|]. apply rtc_once. by apply (step_arrive (pass ms y) seg index a).
Qed.

(** *** The log only grows, and nothing is written after the end. *)
Lemma exchange_log x : log (exchange x) = log x.
Proof. unfold exchange, acknowledge. by destruct (notice _). Qed.

Lemma retransmit_log ms x : log (retransmit ms x) = log x.
Proof.
  unfold retransmit. set (l := drop _ _). change (log x) with (log (pass ms x)). generalize (pass ms x).
  induction l as [|seg l IH]; intros y; [done|]. cbn [foldl]. by rewrite IH.
Qed.

Lemma round_log ms x : log (round ms x) = log (fresh x) /\ log x `prefix_of` log (fresh x).
Proof.
  unfold round. rewrite exchange_log. change (log (read_all ?y)) with (log y). rewrite retransmit_log.
  split; [done|]. unfold fresh. change (log x) with (log (read_all x)). rewrite <- (exchange_log (read_all x)).
  by eexists.
Qed.

Lemma step_log x y : step x y -> log x `prefix_of` log y.
Proof. intros []; try done; [by eexists|]. unfold acknowledge. by destruct (notice _). Qed.

Lemma syn_alone_prefix l k : l `prefix_of` k -> syn_alone k -> syn_alone l.
Proof. intros [j ->] H. by apply Forall_app in H as [? _]. Qed.

Definition ended (x : state) : Prop := ByteStream.input_ended (_stream (sender x)) = true.

Lemma step_ended x y : linked x -> step x y -> ended x -> ended y /\ written y = written x.
Proof.
  intros L H E. destruct (linked_inv x L) as (p&I&_). unfold ended in *.
  destruct H as [d _| | |ms| | | | |n a _ _]; try done.
  - unfold write. cbn [sender written upd _stream]. unfold ByteStream.write, ByteStream.input_ended in *. rewrite E.
    split; [done|]. apply app_nil_r.
  - split; [|done]. destruct (fill_window_inv _ _ _ I) as (p'&new&B'&(_&Ee&_)&_).
    change (ByteStream.input_ended (_stream (fill_window (sender x))) = true).
    rewrite (input_ended_ok _ _ (base_stream _ _ _ B')), Ee.
    by rewrite <- (input_ended_ok _ _ (base_stream _ _ _ (proj1 I))).
  - destruct (tick_same ms _ _ _ I) as (_&_&_&_&Es). cbn [pass sender written upd]. by rewrite Es.
  - unfold acknowledge. by destruct (notice _).
  - cbn [hear sender written upd]. by rewrite ack_stream.
Qed.

Lemma steps_ended x y : rtc step x y -> linked x -> ended x -> ended y /\ written y = written x.
Proof.
  induction 1 as [|x y z Hs _ IH]; intros L E; [done|]. destruct (linked_step _ _ Hs L) as [Ly _].
  destruct (step_ended _ _ L Hs E) as [Ey <-]. by apply IH.
Qed.

Lemma next_total x : linked x -> _next_seqno (sender x) <= zlen (written x) + 2.
Proof.
  intros L. destruct (run_log _ _ _ (linked_run x L) (linked_isn x L)) as (_&_&_&(rest&->)&_&_&_&->&_).
  rewrite zlen_app. pose proof (zlen_nonneg rest).
  destruct (bool_decide _), (_fin (sender x)); cbn [negb Z_of_bool]; lia.
Qed.

Lemma drained_total x :
  linked x -> ended x -> drained (sender x) -> _next_seqno (sender x) = zlen (written x) + 2.
Proof.
  intros L E (_&Hs&[Hf|Hf]); [|unfold ended in E; congruence].
  destruct (run_log _ _ _ (linked_run x L) (linked_isn x L)) as (_&_&_&_&Hall&_&_&->&Esy).
  rewrite <- Esy, Hs, Hf, Hall by done. cbn [Z_of_bool]. lia.
Qed.

(** Before the timer: the sender knows what the receiver has, and has sent what it may. *)
Lemma fresh_spec ms x :
  linked x -> ready ms x ->
  rtc step x (fresh x) /\ linked (fresh x) /\ acked (sender x) <= acked (sender (fresh x)) /\
  acked (sender (fresh x)) = count (receiver (fresh x)) /\
  zlen (consumed (fresh x)) = ByteStream.bytes_written (TCPReceiver.stream_out (receiver (fresh x))) /\
  (_next_seqno (sender (fresh x)) <= acked (sender (fresh x)) -> drained (sender (fresh x))).
Proof.
  intros L [Hn _]. destruct (read_all_spec x L) as (S1&L1&Hc).
  destruct (exchange_spec _ L1) as (S2&L2&Ha&Er&_&_&Ec&_). set (y := exchange (read_all x)) in *.
  change (_next_seqno (fill_window (sender y)) - acked (sender y) < 2 ^ 31) in Hn.
  destruct (linked_fill y L2 Hn) as [L3 Ea]. destruct (linked_inv y L2) as (p&I&_).
  assert (rtc step x (fresh x)) as S by (eapply rtc_l; [exact S1|]; eapply rtc_r; [exact S2|by apply step_fill]).
  split; [done|]. split; [done|]. split; [by apply (linked_steps x)|].
  split; [change (receiver (fresh x)) with (receiver y); rewrite Er, <- Ha; exact Ea|].
  split; [change (zlen (consumed y) = ByteStream.bytes_written (TCPReceiver.stream_out (receiver y))); by rewrite Ec, Er|].
  by apply (fill_outstanding _ p (log y) I (linked_used y L2)).
Qed.

(** A round is possible, and after it more is acknowledged, if there is more. *)
Lemma round_spec ms x :
  linked x -> ready ms x -> syn_alone (log (round ms x)) ->
  rtc step x (round ms x) /\
  (ended x -> Z.min (acked (sender x) + 1) (zlen (written x) + 2) <= acked (sender (round ms x))).
Proof.
  intros L Hrd Hal. destruct (round_log ms x) as [El _]. rewrite El in Hal.
  destruct (fresh_spec ms x L Hrd) as (S&Ly&Hle&Ha&Hc&Hd). destruct Hrd as [_ Ht].
  destruct (retransmit_spec ms (fresh x) Ly Hal Ha Hc Ht) as (Sz&_&_&_&Hadv).
  destruct (linked_steps _ _ Sz Ly) as [Lz Haz]. destruct (read_all_spec _ Lz) as (S1&L1&_).
  destruct (exchange_spec _ L1) as (S2&_&Hx&_).
  rewrite count_read_all in Hx. unfold round.
  split; [etrans; [exact S|]; etrans; [exact Sz|]; eapply rtc_l; [exact S1|exact S2]|].
  intros E. destruct (steps_ended _ _ S L E) as [Ey Ew]. destruct Hadv as [Hlt|Hno]; [lia|].
  pose proof (drained_total _ Ly Ey (Hd Hno)) as Et. rewrite Ew in Et.
  pose proof (linked_acked _ Lz). lia.
Qed.

Lemma rounds_spec x n y :
  linked x -> ended x -> rounds x n y -> syn_alone (log y) ->
  linked y /\ ended y /\ written y = written x /\
  Z.min (Z.of_nat n) (zlen (written x) + 2) <= acked (sender y).
Proof.
  intros L E. induction 1 as [|n y z _ IH Hs|n y ms _ IH Hr]; intros Hal.
  - split; [done|]. split; [done|]. split; [done|]. destruct (linked_inv x L) as (p&[_ [_ ? _ _]]&_). lia.
  - destruct IH as (Ly&Ey&Ew&Ha); [by eapply syn_alone_prefix; [apply step_log|]|].
    destruct (linked_step _ _ Hs Ly) as [Lz ?]. destruct (step_ended _ _ Ly Hs Ey) as [Ez Ewz].
    split; [done|]. split; [done|]. split; [congruence|lia].
  - destruct (round_log ms y) as [El Hp].
    destruct IH as (Ly&Ey&Ew&Ha); [rewrite El in Hal; by eapply syn_alone_prefix|].
    destruct (round_spec ms y Ly Hr Hal) as [Hs Hadv]. destruct (linked_steps _ _ Hs Ly) as [Lz ?].
    destruct (steps_ended _ _ Hs Ly Ey) as [Ez Ewz]. specialize (Hadv Ey). rewrite Ew in Hadv.
    split; [done|]. split; [done|]. split; [congruence|lia].
Qed.

(** When everything is acknowledged, everything has arrived. *)
Lemma acked_all x :
  linked x -> zlen (written x) + 2 <= acked (sender x) ->
  _fin (sender x) = true /\ bytes_in_flight (sender x) = 0 /\ _tcp_seg_cache (sender x) = [] /\
  ByteStream.input_ended (TCPReceiver.stream_out (receiver x)) = true /\
  consumed x ++ ByteStream.peek_output (2 ^ 64 - 1) (TCPReceiver.stream_out (receiver x)) = written x.
Proof.
  intros L Hle. destruct (linked_inv x L) as (p&I&_). pose proof (next_total x L) as Hn.
  pose proof (linked_acked x L) as Hc. pose proof I as [B [_ Hr _ _]].
  destruct (linked_received x L) as (acc&f&Hre). destruct (linked_transfer x L) as [got Ht].
  destruct (run_log _ _ _ (linked_run x L) (linked_isn x L)) as (Hnum&Hsyn&Hfin&Hpre&Hall&Hsm&_).
  assert (zlen (written x) < 2 ^ 63) as Hs by lia.
  destruct (received_order _ _ _ Hs isn_ok rcap_ok _ _ _ _ Hre) as (Hnr&_).
  assert (ByteStream.input_ended (TCPReceiver.stream_out (receiver x)) = true) as He.
  { unfold count in Hc. destruct (TCPReceiver._set_isn (receiver x)); [|lia].
    destruct (ByteStream.input_ended (TCPReceiver.stream_out (receiver x))); [done|cbn [Z_of_bool] in Hc; lia]. }
  destruct (transfer_prefix isn (log x) (_fin (sender x)) (written x) Hnum Hsyn Hfin Hpre Hall rcap isn_ok rcap_ok Hsm
    _ _ _ Ht) as (_&_&Hend&_). destruct (Hend He) as [Hf Hout].
  split; [done|]. split; [rewrite (in_flight_eq _ _ _ I); lia|]. split; [|by split].
  destruct (_tcp_seg_cache (sender x)) as [|[t seg] c] eqn:Ec; [done|].
  destruct (oldest_position _ _ _ _ _ _ I Ec) as (index&a&(l1&y&l2&El&[_ As Af Ad]&_&->)&Hin&_).
  destruct (base_log _ _ _ B) as [_ En _ _ _ _ _ _]. rewrite El, log_len_app in En. cbn [log_len] in En.
  pose proof (log_len_nonneg l2). unfold seg_len in *. rewrite As, Af, Ad in Hin. lia.
Qed.

End System.

(** C4. Recovery from loss. A sender and a receiver have come to a state [x] to which the steps
    of a network lead that loses, repeats and reorders segments and acknowledgements, and
    the sending application has ended its stream. After two more rounds than the stream has
    bytes, with any steps between them, everything has been acknowledged, nothing is kept for
    retransmission, and the receiver's stream has ended with all that was written. In a round
    ([round]) the receiving application reads what there is, an acknowledgement gets through,
    [fill_window] is called, the timer runs out, the segment sent again gets through, and the
    application and an acknowledgement once more.

    The arrivals in [step] are those the receiver handles, as in [transfer]: no FIN without
    data overtakes missing data (after that the stream has ended without it,
    [overtaking_fin_truncates], and nothing recovers), no SYN is repeated with data or FIN, and
    segments and acknowledgements arrive less than 2^31 away. The SYN carries no data
    ([syn_alone]), as in a connection that is opened before it is written to, and in each
    round less than 2^31 is in flight ([ready]). *)
Theorem recovery_completes random scap rto fixed_isn rcap x n y :
  0 < scap < 2 ^ 63 -> 0 < rcap < 2 ^ 63 -> wrapping_ok (_isn (make random scap rto fixed_isn)) ->
  rtc step (initial random scap rto fixed_isn rcap) x -> ended x ->
  rounds x n y -> syn_alone (log y) -> zlen (written x) + 2 <= Z.of_nat n ->
  _fin (sender y) = true /\ bytes_in_flight (sender y) = 0 /\ _tcp_seg_cache (sender y) = [] /\
  ByteStream.input_ended (TCPReceiver.stream_out (receiver y)) = true /\
  consumed y ++ ByteStream.peek_output (2 ^ 64 - 1) (TCPReceiver.stream_out (receiver y)) = written x.
Proof.
  intros Hs Hr Hi Hx He Hy Hal Hn.
  destruct (linked_steps _ _ _ _ _ Hs Hr Hi _ _ Hx (initial_linked _ _ _ _ rcap Hi)) as [L _].
  destruct (rounds_spec _ _ _ _ _ Hs Hr Hi x n y L He Hy Hal) as (Ly&_&Ew&Ha). rewrite <- Ew in Ha |- *.
  apply (acked_all _ _ _ _ _ Hs Hr Hi y Ly). rewrite Ew in *. lia.
Qed.

(** *** Witness: the SYN is lost, and the data is sent in two pieces to a small receiver. *)
Abbreviation lost := (end_input (write [x61; x62; x63] (fill (initial 0 8 100 (Some demo_isn) 2)))).

Lemma lost_reached : rtc step (initial 0 8 100 (Some demo_isn) 2) lost.
Proof.
  eapply rtc_l; [apply step_fill; vm_compute; reflexivity|].
  eapply rtc_l; [apply (step_write _ [x61; x62; x63]); vm_compute; reflexivity|]. apply rtc_once. apply step_end.
Qed.

Definition readyb (ms : Z) (x : state) : bool :=
  let s := sender (fresh x) in
  (_next_seqno s - acked (sender (exchange (read_all x))) <? 2 ^ 31) &&
  match _tcp_seg_cache s with
  | (last, _) :: _ => _retransmission_timeout s <=? u64 (u64 (_now_time_ms s + ms) - last)
  | [] => true
  end.
Lemma readyb_ready ms x : readyb ms x = true -> ready ms x.
Proof.
  unfold readyb, ready. intros [H1%Z.ltb_lt H2]%andb_prop. split; [done|].
  destruct (_tcp_seg_cache _) as [|[]]; [done|by apply Z.leb_le].
Qed.

Lemma lost_rounds n :
  forallb (fun k => readyb 100 (Nat.iter k (round 100) lost)) (seq 0 n) = true ->
  rounds lost n (Nat.iter n (round 100) lost).
Proof.
  induction n as [|n IH]; [constructor|]. rewrite seq_S, forallb_app. cbn [forallb Nat.add].
  rewrite andb_true_r. intros [H1 H2]%andb_prop. cbn [Nat.iter]. apply rounds_round; [by apply IH|by apply readyb_ready].
Qed.

Lemma recovery_completes_witness :
  consumed (Nat.iter 5 (round 100) lost) ++
    ByteStream.peek_output (2 ^ 64 - 1) (TCPReceiver.stream_out (receiver (Nat.iter 5 (round 100) lost))) =
  [x61; x62; x63].
Proof.
  apply (recovery_completes 0 8 100 (Some demo_isn) 2 lost 5 (Nat.iter 5 (round 100) lost)).
  - lia.
  - lia.
  - exact demo_isn_ok.
  - exact lost_reached.
  - vm_compute. reflexivity.
  - apply lost_rounds. vm_compute. reflexivity.
  - vm_compute. repeat constructor; discriminate.
  - vm_compute. discriminate.
Defined.

End Recovery.
