(* ===== verification/Connection.v ===== *)
(** * [TCPState], [TCPConnection] (libsponge/tcp_helpers/tcp_state.*, libsponge/tcp_connection.* )

    The endpoint that joins a sender and a receiver, and the summary of its state
    in terms of the official TCP states. *)
From S2P Require Import Prelude Stream Wrapping Reassembler Buffers TcpSegment Receiver Sender.

Module TCPReceiverStateSummary.
Definition ERROR : string := "error (connection was reset)".
Definition LISTEN : string := "waiting for SYN: ackno is empty".
Definition SYN_RECV : string := "SYN received (ackno exists), and input to stream hasn't ended".
Definition FIN_RECV : string := "input to stream has ended".
End TCPReceiverStateSummary.

Module TCPSenderStateSummary.
Definition ERROR : string := "error (connection was reset)".
Definition CLOSED : string := "waiting for stream to begin (no SYN sent)".
Definition SYN_SENT : string := "stream started but nothing acknowledged".
Definition SYN_ACKED : string := "stream ongoing".
Definition FIN_SENT : string := "stream finished (FIN sent) but not fully acknowledged".
Definition FIN_ACKED : string := "stream finished and fully acknowledged".
End TCPSenderStateSummary.

Module TCPState.

Record TCPState := mkTCPState {
  _sender : string;
  _receiver : string;
  _active : bool;
  _linger_after_streams_finish : bool
}.

(** [operator==], [operator!=] *)
Definition eqb (a b : TCPState) : bool :=
  Bool.eqb (_active a) (_active b) &&
  Bool.eqb (_linger_after_streams_finish a) (_linger_after_streams_finish b) &&
  String.eqb (_sender a) (_sender b) && String.eqb (_receiver a) (_receiver b).
Definition neqb (a b : TCPState) : bool := negb (eqb a b).

Inductive State :=
  | LISTEN | SYN_RCVD | SYN_SENT | ESTABLISHED | CLOSE_WAIT | LAST_ACK
  | FIN_WAIT_1 | FIN_WAIT_2 | CLOSING | TIME_WAIT | CLOSED | RESET.

(** [std::to_string] on a [bool] *)
Definition bool_to_string (b : bool) : string := if b then "1" else "0".

Definition name (s : TCPState) : string :=
  "sender=`" +:+ _sender s +:+ "`, receiver=`" +:+ _receiver s +:+ "`, active=" +:+
  bool_to_string (_active s) +:+ ", linger_after_streams_finish=" +:+
  bool_to_string (_linger_after_streams_finish s).

(** [TCPState(const TCPState::State)] *)
Definition of_state (s : State) : TCPState :=
  match s with
  | LISTEN => mkTCPState TCPSenderStateSummary.CLOSED TCPReceiverStateSummary.LISTEN true true
  | SYN_RCVD => mkTCPState TCPSenderStateSummary.SYN_SENT TCPReceiverStateSummary.SYN_RECV true true
  | SYN_SENT => mkTCPState TCPSenderStateSummary.SYN_SENT TCPReceiverStateSummary.LISTEN true true
  | ESTABLISHED => mkTCPState TCPSenderStateSummary.SYN_ACKED TCPReceiverStateSummary.SYN_RECV true true
  | CLOSE_WAIT => mkTCPState TCPSenderStateSummary.SYN_ACKED TCPReceiverStateSummary.FIN_RECV true false
  | LAST_ACK => mkTCPState TCPSenderStateSummary.FIN_SENT TCPReceiverStateSummary.FIN_RECV true false
  | CLOSING => mkTCPState TCPSenderStateSummary.FIN_SENT TCPReceiverStateSummary.FIN_RECV true true
  | FIN_WAIT_1 => mkTCPState TCPSenderStateSummary.FIN_SENT TCPReceiverStateSummary.SYN_RECV true true
  | FIN_WAIT_2 => mkTCPState TCPSenderStateSummary.FIN_ACKED TCPReceiverStateSummary.SYN_RECV true true
  | TIME_WAIT => mkTCPState TCPSenderStateSummary.FIN_ACKED TCPReceiverStateSummary.FIN_RECV true true
  | RESET => mkTCPState TCPSenderStateSummary.ERROR TCPReceiverStateSummary.ERROR false false
  | CLOSED => mkTCPState TCPSenderStateSummary.FIN_ACKED TCPReceiverStateSummary.FIN_RECV false false
  end.

(** [state_summary(const TCPReceiver &)] *)
Definition receiver_summary (r : TCPReceiver.TCPReceiver) : string :=
  if ByteStream.error (TCPReceiver.stream_out r) then TCPReceiverStateSummary.ERROR
  else match TCPReceiver.ackno r with
       | None => TCPReceiverStateSummary.LISTEN
       | Some _ =>
           if ByteStream.input_ended (TCPReceiver.stream_out r)
           then TCPReceiverStateSummary.FIN_RECV else TCPReceiverStateSummary.SYN_RECV
       end.

(** [state_summary(const TCPSender &)] *)
Definition sender_summary (s : TCPSender.TCPSender) : string :=
  if ByteStream.error (TCPSender.stream_in s) then TCPSenderStateSummary.ERROR
  else if TCPSender.next_seqno_absolute s =? 0 then TCPSenderStateSummary.CLOSED
  else if TCPSender.next_seqno_absolute s =? TCPSender.bytes_in_flight s
  then TCPSenderStateSummary.SYN_SENT
  else if negb (ByteStream.eof (TCPSender.stream_in s)) then TCPSenderStateSummary.SYN_ACKED
  else if TCPSender.next_seqno_absolute s <? u64 (ByteStream.bytes_written (TCPSender.stream_in s) + 2)
  then TCPSenderStateSummary.SYN_ACKED
  else if bool_of_Z (TCPSender.bytes_in_flight s) then TCPSenderStateSummary.FIN_SENT
  else TCPSenderStateSummary.FIN_ACKED.

(** [TCPState(const TCPSender &, const TCPReceiver &, bool, bool)] *)
Definition make (sender : TCPSender.TCPSender) (receiver : TCPReceiver.TCPReceiver)
    (active linger : bool) : TCPState :=
  mkTCPState (sender_summary sender) (receiver_summary receiver) active
    (if active then linger else false).

End TCPState.

Module TCPConnection.
Import TCPSegment.

Record TCPConnection := mkTCPConnection {
  _cfg : TCPConfig.TCPConfig;
  _receiver : TCPReceiver.TCPReceiver;
  _sender : TCPSender.TCPSender;
  _segments_out : list TCPSegment;
  _linger_after_streams_finish : bool;
  _now_time_ms : Z;
  _seg_received_time_ms : Z;
  _active : bool
}.
#[global] Instance eta_TCPConnection : Eta TCPConnection := fun c =>
  mkTCPConnection (_cfg c) (_receiver c) (_sender c) (_segments_out c)
    (_linger_after_streams_finish c) (_now_time_ms c) (_seg_received_time_ms c) (_active c).

(** The constructor; [random] is what the sender draws for its ISN. *)
Definition make (random : Z) (cfg : TCPConfig.TCPConfig) : TCPConnection :=
  mkTCPConnection cfg (TCPReceiver.make (TCPConfig.recv_capacity cfg))
    (TCPSender.make random (TCPConfig.send_capacity cfg) (TCPConfig.rt_timeout cfg)
       (TCPConfig.fixed_isn cfg)) [] true 0 0 true.

Definition remaining_outbound_capacity (c : TCPConnection) : Z :=
  ByteStream.remaining_capacity (TCPSender.stream_in (_sender c)).
Definition bytes_in_flight (c : TCPConnection) : Z := TCPSender.bytes_in_flight (_sender c).
Definition unassembled_bytes (c : TCPConnection) : Z :=
  TCPReceiver.unassembled_bytes (_receiver c).
Definition time_since_last_segment_received (c : TCPConnection) : Z :=
  u64 (_now_time_ms c - _seg_received_time_ms c).
Definition active (c : TCPConnection) : bool := _active c.
Definition inbound_stream (c : TCPConnection) : ByteStream.ByteStream :=
  TCPReceiver.stream_out (_receiver c).
Definition segments_out (c : TCPConnection) : list TCPSegment := _segments_out c.
Definition state (c : TCPConnection) : TCPState.TCPState :=
  TCPState.make (_sender c) (_receiver c) (active c) (_linger_after_streams_finish c).

(** What [send_with_ackno_and_win] puts into the header of a segment. *)
Definition with_ackno_and_win (r : TCPReceiver.TCPReceiver) (seg : TCPSegment) : TCPSegment :=
  seg <| _header ::= fun h =>
    h <| TCPHeader.ack :=
           if String.eqb (TCPState.receiver_summary r) TCPReceiverStateSummary.LISTEN
           then false else true |>
      <| TCPHeader.ackno := default (mkWrappingInt32 0) (TCPReceiver.ackno r) |>
      <| TCPHeader.win := if 65535 <? TCPReceiver.window_size r
                          then 65535 else u16 (TCPReceiver.window_size r) |> |>.

(** The loop of [send_with_ackno_and_win] moves the sender's queue. *)
Definition send_with_ackno_and_win (c : TCPConnection) : TCPConnection :=
  c <| _segments_out ::= fun q =>
         q ++ map (with_ackno_and_win (_receiver c)) (TCPSender._segments_out (_sender c)) |>
    <| _sender ::= fun s => s <| TCPSender._segments_out := [] |> |>.

Definition send_rst_seg (c : TCPConnection) : TCPConnection :=
  let tcp_seg := default_segment <| _header ::= fun h =>
    h <| TCPHeader.seqno := TCPSender.next_seqno (_sender c) |> <| TCPHeader.rst := true |> |> in
  c <| _sender ::= fun s => s <| TCPSender._segments_out ::= fun q => q ++ [tcp_seg] |> |>.

Definition set_rst_state (c : TCPConnection) : TCPConnection :=
  c <| _active := false |>
    <| _linger_after_streams_finish := false |>
    <| _sender ::= fun s => s <| TCPSender._stream ::= ByteStream.set_error |> |>
    <| _receiver ::= fun r => r <| TCPReceiver._reassembler ::= fun a =>
         a <| StreamReassembler._output ::= ByteStream.set_error |> |> |>.

(** Both streams are over and the peer has acknowledged ours. *)
Definition streams_finished (c : TCPConnection) : bool :=
  String.eqb (TCPState.receiver_summary (_receiver c)) TCPReceiverStateSummary.FIN_RECV &&
  String.eqb (TCPState.sender_summary (_sender c)) TCPSenderStateSummary.FIN_ACKED.

(** [segment_received] up to the decision whether the connection is over: the
    receiver and the sender are told of the segment. *)
Definition deliver (seg : TCPSegment) (c : TCPConnection) : TCPConnection :=
  let c := c <| _receiver ::= TCPReceiver.segment_received seg |> in
  let c := if TCPHeader.ack (header seg)
           then c <| _sender ::= TCPSender.ack_received (TCPHeader.ackno (header seg))
                                   (TCPHeader.win (header seg)) |>
           else c in
  if ByteStream.input_ended (TCPReceiver.stream_out (_receiver c)) &&
     negb (ByteStream.eof (TCPSender.stream_in (_sender c)))
  then c <| _linger_after_streams_finish := false |> else c.

(** The reply: new segments if there are any to send, or an empty one when the
    segment occupied sequence numbers or was a keep-alive. *)
Definition reply (seg : TCPSegment) (c : TCPConnection) : TCPConnection :=
  match TCPReceiver.ackno (_receiver c) with
  | None => c
  | Some ackno =>
      let c := c <| _sender ::= TCPSender.fill_window |> in
      match TCPSender._segments_out (_sender c) with
      | _ :: _ => c
      | [] =>
          if bool_of_Z (length_in_sequence_space seg)
          then c <| _sender ::= TCPSender.send_empty_segment |>
          else if Wrapping.eqb (TCPHeader.seqno (header seg)) (Wrapping.minus ackno 1)
          then c <| _sender ::= TCPSender.send_empty_segment |>
          else c
      end
  end.

Definition segment_received (seg : TCPSegment) (c : TCPConnection) : TCPConnection :=
  let c := c <| _seg_received_time_ms := _now_time_ms c |> in
  if TCPHeader.rst (header seg) then set_rst_state c
  else
    let c := deliver seg c in
    if streams_finished c && negb (_linger_after_streams_finish c)
    then c <| _active := false |>
    else send_with_ackno_and_win (reply seg c).

Definition write (data : bytes) (c : TCPConnection) : TCPConnection * Z :=
  let '(stream, write_len) := ByteStream.write data (TCPSender._stream (_sender c)) in
  let c := c <| _sender ::= fun s => TCPSender.fill_window (s <| TCPSender._stream := stream |>) |> in
  (send_with_ackno_and_win c, write_len).

Definition tick (ms_since_last_tick : Z) (c : TCPConnection) : TCPConnection :=
  let c := c <| _now_time_ms ::= fun t => u64 (t + ms_since_last_tick) |>
             <| _sender ::= TCPSender.tick ms_since_last_tick |> in
  let c :=
    if TCPConfig.MAX_RETX_ATTEMPTS <? TCPSender.consecutive_retransmissions (_sender c)
    then set_rst_state (send_rst_seg
           (c <| _sender ::= fun s => s <| TCPSender._segments_out := [] |> |>))
    else c in
  let c := send_with_ackno_and_win c in
  if streams_finished c && _linger_after_streams_finish c &&
     (u64 (10 * TCPConfig.rt_timeout (_cfg c)) <=? u64 (_now_time_ms c - _seg_received_time_ms c))
  then c <| _active := false |> else c.

Definition end_input_stream (c : TCPConnection) : TCPConnection :=
  send_with_ackno_and_win
    (c <| _sender ::= fun s =>
            TCPSender.fill_window (s <| TCPSender._stream ::= ByteStream.end_input |>) |>).

Definition connect (c : TCPConnection) : TCPConnection :=
  send_with_ackno_and_win (c <| _sender ::= TCPSender.fill_window |>).

(** The destructor. *)
Definition destroy (c : TCPConnection) : TCPConnection :=
  if active c then send_with_ackno_and_win (set_rst_state (send_rst_seg c)) else c.

End TCPConnection.

(** ** The connection as a state machine *)
Module ConnectionTheorems.
Import TCPSegment TCPConnection.

Inductive op :=
  | Receive (seg : TCPSegment) | Write (d : bytes) | Tick (ms : Z) | EndInput | Connect
  | Destroy | Read (n : Z) | Dequeue.

(** The calls an owner makes: the public functions, reading the inbound stream and
    taking segments out of the queue. *)
Definition step (o : op) (c : TCPConnection) : TCPConnection :=
  match o with
  | Receive seg => segment_received seg c
  | Write d => (write d c).1
  | Tick ms => tick ms c
  | EndInput => end_input_stream c
  | Connect => connect c
  | Destroy => destroy c
  | Read n => c <| _receiver ::= fun r => r <| TCPReceiver._reassembler ::= fun a =>
                a <| StreamReassembler._output ::= fun o => (ByteStream.read n o).1 |> |> |>
  | Dequeue => c <| _segments_out ::= tail |>
  end.

Lemma write_eq d c :
  (write d c).1 = send_with_ackno_and_win (c <| _sender ::= fun s =>
    TCPSender.fill_window (s <| TCPSender._stream ::= fun o => (ByteStream.write d o).1 |>) |>).
Proof.
  unfold write. destruct c as [? ? s ? ? ? ? ?]. simpl.
  by destruct (ByteStream.write d (TCPSender._stream s)).
Qed.

(** *** Errors stay *)

Lemma read_error n o : ByteStream._error (ByteStream.read n o).1 = ByteStream._error o.
Proof. done. Qed.
Lemma write_loop_error chunk o : ByteStream._error (ByteStream.write_loop chunk o) = ByteStream._error o.
Proof. revert o. induction chunk as [|b chunk IH]; intros o; simpl; [done|]. by rewrite IH. Qed.
Lemma write_error d o : ByteStream._error (ByteStream.write d o).1 = ByteStream._error o.
Proof. unfold ByteStream.write. destruct (ByteStream._input_ended o); [done|]. simpl. apply write_loop_error. Qed.

Definition sender_error (s : TCPSender.TCPSender) : bool := ByteStream.error (TCPSender._stream s).

Lemma fill_window_error s : sender_error (TCPSender.fill_window s) = sender_error s.
Proof.
  assert (forall s, sender_error (TCPSender.fill_step s).1 = sender_error s) as Hstep.
  { intros x. unfold TCPSender.fill_step. destruct (negb _); [done|]. destruct (_ =? 0); [done|].
    unfold TCPSender.next_segment. pose proof (read_error (Z.max 1 (Z.min (u64 (TCPSender.window_unused x -
      Z_of_bool (negb (TCPSender._syned x)))) TCPConfig.MAX_PAYLOAD_SIZE)) (TCPSender._stream x)) as E.
    destruct (ByteStream.read _ _) as [stream content]. cbn [fst] in E. by destruct (_ =? 0). }
  unfold TCPSender.fill_window. destruct (_ && _).
  - unfold TCPSender.fill_zero_window. destruct (negb _).
    + pose proof (read_error 1 (TCPSender._stream s)) as E.
      destruct (ByteStream.read _ _) as [stream content]. cbn [fst] in E. by destruct (_ =? 0).
    + destruct (_ && _); by destruct (_ =? 0).
  - generalize (S (Z.to_nat (TCPSender._window_size s))) as fuel. intros fuel. revert s.
    induction fuel as [|fuel IH]; intros s; simpl; [done|].
    pose proof (Hstep s) as E. destruct (TCPSender.fill_step s) as [s' []]; simpl in E; [|done].
    by rewrite IH.
Qed.

Lemma ack_received_error a w s : sender_error (TCPSender.ack_received a w s) = sender_error s.
Proof. unfold TCPSender.ack_received. destruct (_ || _); [done|]. by destruct (Wrapping.eqb _ _). Qed.

Lemma sender_tick_error ms s : sender_error (TCPSender.tick ms s) = sender_error s.
Proof.
  unfold TCPSender.tick. destruct (TCPSender._tcp_seg_cache _) as [|[? ?] ?]; [done|].
  destruct (_ <=? _); [|done]. by destruct (negb _).
Qed.

Definition receiver_error (r : TCPReceiver.TCPReceiver) : bool :=
  ByteStream.error (TCPReceiver.stream_out r).

Lemma merge_behind_output fuel stop node r :
  StreamReassembler._output (StreamReassembler.merge_behind fuel stop node r).1 =
  StreamReassembler._output r.
Proof.
  revert stop node r. induction fuel as [|fuel IH]; intros; [done|]. cbn [StreamReassembler.merge_behind].
  destruct (OrderedSet.lower_bound _ _) as [b [|it rest]]; [done|]. destruct (_ <=? _); [by rewrite IH|].
  destruct (StreamReassembler.merge _ _). by destruct (negb _).
Qed.
Lemma merge_front_output w node r :
  StreamReassembler._output (StreamReassembler.merge_front w node r) = StreamReassembler._output r.
Proof.
  unfold StreamReassembler.merge_front. destruct (OrderedSet.lower_bound _ _) as [b f].
  destruct (last b); [|done]. destruct (StreamReassembler.merge _ _). by destruct (_ =? 0).
Qed.

Lemma push_substring_error d i e r :
  ByteStream._error (StreamReassembler._output (StreamReassembler.push_substring d i e r)) =
  ByteStream._error (StreamReassembler._output r).
Proof.
  assert (forall l r, ByteStream._error (StreamReassembler._output (StreamReassembler.assemble_loop l r)) =
    ByteStream._error (StreamReassembler._output r)) as Hloop.
  { induction l as [|[j str] l IH]; intros r0; simpl; [done|]. destruct (_ <? _); [done|].
    pose proof (write_error str (StreamReassembler._output r0)) as E.
    destruct (ByteStream.write _ _) as [o n]. simpl in E. rewrite IH. done. }
  assert (forall r, ByteStream._error (StreamReassembler._output (StreamReassembler.end_if_done r)) =
    ByteStream._error (StreamReassembler._output r)) as Hend.
  { intros r0. unfold StreamReassembler.end_if_done. by destruct (_ && _). }
  unfold StreamReassembler.push_substring. set (r1 := if _ <=? _ then _ else r).
  assert (StreamReassembler._output r1 = StreamReassembler._output r) as E1 by (unfold r1; by destruct (_ <=? _)).
  destruct (_ || _); [by rewrite Hend, E1|].
  match goal with |- context [StreamReassembler.merge_behind ?f ?st ?nd r1] =>
    pose proof (merge_behind_output f st nd r1) as E2; destruct (StreamReassembler.merge_behind f st nd r1) as [r2 node'] end.
  simpl in E2. rewrite Hend. unfold StreamReassembler.assemble_string. by rewrite Hloop, merge_front_output, E2, E1.
Qed.

Lemma segment_received_error seg r :
  receiver_error (TCPReceiver.segment_received seg r) = receiver_error r.
Proof.
  unfold TCPReceiver.segment_received, receiver_error, TCPReceiver.stream_out, StreamReassembler.stream_out, ByteStream.error.
  destruct (_ && _); [done|]. destruct (negb _); apply push_substring_error.
Qed.

(** Neither stream of [c'] has lost an error that [c] had. *)
Definition errors_kept (c c' : TCPConnection) : Prop :=
  (sender_error (_sender c) = true -> sender_error (_sender c') = true) /\
  (receiver_error (_receiver c) = true -> receiver_error (_receiver c') = true).

Lemma deliver_errors seg c : errors_kept c (deliver seg c).
Proof.
  unfold errors_kept, deliver. set (c1 := c <| _receiver ::= _ |>).
  set (c2 := if TCPHeader.ack _ then _ else c1).
  assert (sender_error (_sender c2) = sender_error (_sender c) /\
          receiver_error (_receiver c2) = receiver_error (_receiver c)) as [E1 E2].
  { unfold c2, c1. destruct (TCPHeader.ack _); simpl; rewrite ?ack_received_error, segment_received_error; done. }
  destruct (_ && _); simpl; by rewrite E1, E2.
Qed.

Lemma reply_errors seg c : errors_kept c (reply seg c).
Proof.
  unfold errors_kept, reply. destruct (TCPReceiver.ackno _); [|done].
  destruct (TCPSender._segments_out _); simpl; [|by rewrite fill_window_error].
  destruct (bool_of_Z _); [|destruct (Wrapping.eqb _ _)];
    (split; [|done]); intros H; rewrite <- (fill_window_error (_sender c)) in H; exact H.
Qed.

Lemma step_errors o c : errors_kept c (step o c).
Proof.
  destruct o as [seg|d|ms| | | |n|]; unfold step.
  - unfold segment_received. set (c1 := c <| _seg_received_time_ms := _ |>).
    destruct (TCPHeader.rst _); [by split|].
    pose proof (deliver_errors seg c1) as [D1 D2]. destruct (_ && _); [by split|].
    pose proof (reply_errors seg (deliver seg c1)) as [R1 R2].
    split; intros H; [apply R1, D1, H|apply R2, D2, H].
  - rewrite write_eq. split; [|done]. intros H. unfold sender_error in *. simpl.
    change (sender_error (TCPSender.fill_window ((_sender c) <| TCPSender._stream ::= fun o => (ByteStream.write d o).1 |>)) = true).
    rewrite fill_window_error. unfold sender_error, ByteStream.error. simpl. by rewrite write_error.
  - unfold tick. set (c1 := c <| _now_time_ms ::= _ |> <| _sender ::= _ |>).
    assert (errors_kept c c1) as [K1 K2].
    { unfold errors_kept, c1. simpl. by rewrite sender_tick_error. }
    set (c2 := if _ <? _ then _ else c1).
    assert (errors_kept c c2) as [L1 L2] by (unfold c2; destruct (_ <? _); by split).
    destruct (_ && _); by split.
  - split; [|done]. unfold end_input_stream. simpl. intros H.
    change (sender_error (TCPSender.fill_window ((_sender c) <| TCPSender._stream ::= ByteStream.end_input |>)) = true).
    by rewrite fill_window_error.
  - split; [|done]. intros H. change (sender_error (TCPSender.fill_window (_sender c)) = true).
    by rewrite fill_window_error.
  - unfold destroy. by destruct (active c); split.
  - done.
  - done.
Qed.

Lemma reply_active seg c : _active (reply seg c) = _active c.
Proof.
  unfold reply. destruct (TCPReceiver.ackno _); [|done].
  destruct (TCPSender._segments_out _); [|done]. destruct (bool_of_Z _); [done|].
  by destruct (Wrapping.eqb _ _).
Qed.
Lemma deliver_active seg c : _active (deliver seg c) = _active c.
Proof. unfold deliver. by destruct (TCPHeader.ack _); destruct (_ && _). Qed.

Lemma step_inactive o c : _active c = false -> _active (step o c) = false.
Proof.
  intros H. destruct o as [seg|d|ms| | | |n|]; unfold step; try done.
  - unfold segment_received. destruct (TCPHeader.rst _); [done|]. destruct (_ && _); [done|].
    simpl. by rewrite reply_active, deliver_active.
  - by rewrite write_eq.
  - unfold tick. by destruct (_ <? _); destruct (_ && _).
  - unfold destroy, active. by rewrite H.
Qed.

Lemma reset_iff c :
  TCPState.eqb (state c) (TCPState.of_state TCPState.RESET) = true <->
  _active c = false /\ sender_error (_sender c) = true /\ receiver_error (_receiver c) = true.
Proof.
  unfold state, TCPState.make, TCPState.eqb, TCPState.of_state, active. simpl.
  unfold TCPState.sender_summary, TCPState.receiver_summary.
  change (ByteStream.error (TCPSender.stream_in (_sender c))) with (sender_error (_sender c)).
  fold (receiver_error (_receiver c)).
  destruct (_active c); [by split; [|intros [? _]]|]. simpl. rewrite andb_true_iff.
  split.
  - intros [H1 H2]. split; [done|]. split.
    + revert H1. destruct (sender_error _); [done|]. repeat case_match; vm_compute; done.
    + revert H2. destruct (receiver_error _); [done|]. repeat case_match; vm_compute; done.
  - intros (_&->&->). done.
Qed.

(** An RST resets the connection whatever its state: nothing is sent, and the
    summary is the official RESET state, both streams in error. *)
Theorem rst_resets seg c :
  TCPHeader.rst (header seg) = true ->
  let c' := segment_received seg c in
  TCPState.eqb (state c') (TCPState.of_state TCPState.RESET) = true /\
  segments_out c' = segments_out c /\
  ByteStream.error (inbound_stream c') = true /\
  ByteStream.error (TCPSender.stream_in (_sender c')) = true.
Proof.
  intros H. unfold segment_received. rewrite H. split; [|done]. by apply reset_iff.
Qed.

(** A connection that is over stays over: no call makes an inactive connection
    active again, and a reset connection stays reset. *)
Theorem inactive_final o c :
  (active c = false -> active (step o c) = false) /\
  (TCPState.eqb (state c) (TCPState.of_state TCPState.RESET) = true ->
   TCPState.eqb (state (step o c)) (TCPState.of_state TCPState.RESET) = true).
Proof.
  split; [apply step_inactive|]. rewrite !reset_iff. intros (Ha&Hs&Hr).
  destruct (step_errors o c) as [Es Er]. split; [by apply step_inactive|]. auto.
Qed.

(** *** What goes on the wire *)

(** The receiver's side of a segment's header is that of receiver [r]. *)
Definition stamped (r : TCPReceiver.TCPReceiver) (seg : TCPSegment) : Prop :=
  TCPHeader.ack (header seg) =
    negb (String.eqb (TCPState.receiver_summary r) TCPReceiverStateSummary.LISTEN) /\
  TCPHeader.ackno (header seg) = default (mkWrappingInt32 0) (TCPReceiver.ackno r) /\
  TCPHeader.win (header seg) = Z.min 65535 (TCPReceiver.window_size r).

Lemma window_size_range r : 0 <= TCPReceiver.window_size r.
Proof. unfold TCPReceiver.window_size. apply u64_range. Qed.

Lemma stamp seg r : stamped r (with_ackno_and_win r seg).
Proof.
  unfold stamped, with_ackno_and_win. simpl. pose proof (window_size_range r).
  split; [by destruct (String.eqb _ _)|]. split; [done|].
  destruct (Z.ltb_spec 65535 (TCPReceiver.window_size r)); [lia|]. wsolve.
Qed.

(** [c'] has queued stamped segments after those of [c], and left none behind in
    the sender. *)
Definition sends (c c' : TCPConnection) : Prop :=
  exists new, segments_out c' = segments_out c ++ new /\ Forall (stamped (_receiver c')) new.

Lemma send_sends c : sends c (send_with_ackno_and_win c).
Proof.
  eexists. split; [done|]. simpl. apply Forall_map, Forall_true. intros x. apply stamp.
Qed.

Lemma reply_out seg c : segments_out (reply seg c) = segments_out c.
Proof.
  unfold reply. destruct (TCPReceiver.ackno _); [|done].
  destruct (TCPSender._segments_out _); [|done]. destruct (bool_of_Z _); [done|].
  by destruct (Wrapping.eqb _ _).
Qed.
Lemma deliver_out seg c : segments_out (deliver seg c) = segments_out c.
Proof. unfold deliver. by destruct (TCPHeader.ack _); destruct (_ && _). Qed.

(** Every segment the connection hands to the network carries the receiver's
    present state: the acknowledgement number with the ACK flag, which is off only
    before the peer's SYN, and the window, capped to 16 bits. Nothing queued
    before is changed or dropped. *)
Theorem segments_stamped o c :
  match o with Dequeue => True | _ => sends c (step o c) end.
Proof.
  assert (forall c0, segments_out c0 = segments_out c -> sends c (send_with_ackno_and_win c0)) as Hs.
  { intros c0 E. destruct (send_sends c0) as (new&En&F). exists new. by rewrite En, E. }
  assert (forall c0, segments_out c0 = segments_out c -> sends c c0) as Hn.
  { intros c0 E. exists []. by rewrite app_nil_r. }
  destruct o as [seg|d|ms| | | |n|]; unfold step; try done.
  - unfold segment_received. set (c1 := c <| _seg_received_time_ms := _ |>).
    destruct (TCPHeader.rst _); [by apply Hn|]. destruct (_ && _).
    + apply Hn. change (segments_out (deliver seg c1) = segments_out c). by rewrite deliver_out.
    + apply Hs. by rewrite reply_out, deliver_out.
  - rewrite write_eq. by apply Hs.
  - unfold tick. set (c2 := if _ <? _ then _ else _).
    assert (segments_out c2 = segments_out c) as E by (unfold c2; by destruct (_ <? _)).
    destruct (Hs c2 E) as (new&En&F). destruct (_ && _); by exists new.
  - by apply Hs.
  - by apply Hs.
  - unfold destroy. destruct (active c); [by apply Hs|by apply Hn].
  - by apply Hn.
Qed.

(** *** What the summaries mean *)
Import SenderLog SenderInvariant SenderTheorems.

Lemma sender_summary_inv s p log :
  inv s p log -> ByteStream.error (TCPSender._stream s) = false ->
  TCPState.sender_summary s =
    (if bool_decide (log = []) then TCPSenderStateSummary.CLOSED
     else if acked s =? 0 then TCPSenderStateSummary.SYN_SENT
     else if negb (TCPSender._fin s) then TCPSenderStateSummary.SYN_ACKED
     else if acked s <? TCPSender._next_seqno s then TCPSenderStateSummary.FIN_SENT
     else TCPSenderStateSummary.FIN_ACKED) /\
  (TCPSender._fin s = true -> TCPSender._next_seqno s = zlen (Pipe.written p) + 2).
Proof.
  intros I He. pose proof (in_flight_eq _ _ _ I) as Ef. destruct I as [B [_ Hr _ _]].
  pose proof (base_next _ _ _ B) as En. destruct (B) as [R Hsm _ L _ _ _ _].
  destruct (StreamRefinement.ref_wf _ _ R) as [? Hp ?].
  pose proof (Pipe.zlen_pending p (StreamRefinement.ref_wf _ _ R)) as Hpend.
  pose proof (log_syned _ _ _ _ _ _ L) as Hsy. pose proof (log_next _ _ _ _ _ _ L) as Hln.
  assert (TCPSender._fin s = true -> TCPSender._syned s = true /\ Pipe.ended p = true /\
    Pipe.popped p = zlen (Pipe.written p)) as Hfin.
  { intros Hf. destruct (log_ended _ _ _ _ _ _ L Hf). split; [|done]. rewrite Hsy.
    pose proof (log_fin _ _ _ _ _ _ L) as Hl. rewrite Hf in Hl. destruct Hl as (l&x&->&_).
    rewrite bool_decide_eq_false_2; [done|]. by destruct l. }
  split; [|intros Hf; destruct (Hfin Hf) as (E1&_&E2); rewrite En, E1, E2, Hf; simpl; lia].
  unfold TCPState.sender_summary, TCPSender.stream_in, TCPSender.next_seqno_absolute.
  rewrite He, (StreamRefinement.eof_ok _ _ R), Ef. unfold ByteStream.bytes_written.
  rewrite (StreamRefinement.ref_written _ _ R), (u64_small (zlen _)), (u64_small (_ + 2)) by lia.
  destruct (bool_decide_reflect (log = [])) as [->|Hne].
  { simpl in Hln. by rewrite Hln. }
  rewrite Hsy in En. cbn [negb Z_of_bool] in En.
  destruct (Z.eqb_spec (TCPSender._next_seqno s) 0); [destruct (TCPSender._fin s); simpl in En; lia|].
  destruct (Z.eqb_spec (acked s) 0) as [E0|E0].
  { by rewrite E0, Z.sub_0_r, Z.eqb_refl. }
  destruct (Z.eqb_spec (TCPSender._next_seqno s) (TCPSender._next_seqno s - acked s)); [lia|].
  destruct (TCPSender._fin s) eqn:Hf; cbn [negb Z_of_bool] in *.
  - destruct (Hfin eq_refl) as (_&-> & Epop).
    replace (zlen (Pipe.pending p) =? 0) with true by (symmetry; apply Z.eqb_eq; lia). cbn [andb negb].
    destruct (Z.ltb_spec (TCPSender._next_seqno s) (zlen (Pipe.written p) + 2)); [lia|].
    unfold bool_of_Z. destruct (Z.eqb_spec (TCPSender._next_seqno s - acked s) 0);
      destruct (Z.ltb_spec (acked s) (TCPSender._next_seqno s)); try lia; done.
  - destruct (Pipe.ended p && _); [|done]. cbn [negb].
    destruct (Z.ltb_spec (TCPSender._next_seqno s) (zlen (Pipe.written p) + 2)); [done|lia].
Qed.

(** The summary of a sender says what it has sent and what is acknowledged:
    nothing sent, only the beginning, the stream in progress, FIN sent, or
    everything acknowledged; and once the FIN is sent, what is to be acknowledged
    is the SYN, every byte the application wrote, and the FIN. *)
Theorem sender_summary_meaning random cap rto fixed_isn s written log :
  0 < cap < 2 ^ 63 -> wrapping_ok (TCPSender._isn (TCPSender.make random cap rto fixed_isn)) ->
  run random cap rto fixed_isn s written log -> ByteStream.error (TCPSender._stream s) = false ->
  TCPState.sender_summary s =
    (if bool_decide (log = []) then TCPSenderStateSummary.CLOSED
     else if acked s =? 0 then TCPSenderStateSummary.SYN_SENT
     else if negb (TCPSender._fin s) then TCPSenderStateSummary.SYN_ACKED
     else if acked s <? TCPSender._next_seqno s then TCPSenderStateSummary.FIN_SENT
     else TCPSenderStateSummary.FIN_ACKED) /\
  (TCPSender._fin s = true -> TCPSender._next_seqno s = zlen written + 2).
Proof.
  intros Hc Hi H He. destruct (run_inv _ _ _ _ Hc Hi _ _ _ H) as (p&I&<-).
  by apply sender_summary_inv.
Qed.

Lemma sender_summary_meaning_witness :
  TCPSender._fin demo_sent = true -> TCPSender._next_seqno demo_sent = 5 + 2.
Proof.
  destruct demo_run as [log H].
  destruct (sender_summary_meaning 0 8 100 (Some demo_isn) demo_sent _ log ltac:(lia) demo_isn_ok H
    ltac:(vm_compute; reflexivity)) as (_&E). exact E.
Defined.

Definition demo_connection : TCPConnection := make 7 TCPConfig.default_config.
Definition demo_rst : TCPSegment :=
  default_segment <| _header ::= fun h => h <| TCPHeader.rst := true |> |>.

Lemma rst_resets_witness :
  TCPState.eqb (state (segment_received demo_rst demo_connection))
    (TCPState.of_state TCPState.RESET) = true.
Proof. destruct (rst_resets demo_rst demo_connection eq_refl) as (E&_). exact E. Defined.

End ConnectionTheorems.
