(* ===== verification/ConnectionStreams.v ===== *)
(** * The streams of a connection

    What the operations of tcp_connection.* do to the two byte streams, whatever segments
    arrive: the outbound stream is written by the owner only and read by the sender, the
    inbound stream is written by the reassembler and read by the owner only. Then how a
    connection ends, told by these streams ([ConnectionEnds]). *)
From S2P Require Import Prelude Stream Wrapping Reassembler Buffers TcpSegment Receiver Sender Connection.

Module ConnectionStreams.
Import StreamRefinement TCPConnection ConnectionTheorems.

(** [o'] is [o] after reads, and perhaps an error. *)
Inductive drawn (o : ByteStream.ByteStream) : ByteStream.ByteStream -> Prop :=
| drawn_refl : drawn o o
| drawn_read o' n : drawn o o' -> 0 <= n -> drawn o (ByteStream.read n o').1
| drawn_error o' : drawn o o' -> drawn o (ByteStream.set_error o').

(** [o'] is [o] after writes and the end of the input, and perhaps an error. *)
Inductive fed (o : ByteStream.ByteStream) : ByteStream.ByteStream -> Prop :=
| fed_refl : fed o o
| fed_write o' d : fed o o' -> fed o (ByteStream.write d o').1
| fed_end o' : fed o o' -> fed o (ByteStream.end_input o')
| fed_error o' : fed o o' -> fed o (ByteStream.set_error o').

Lemma drawn_trans a b c : drawn a b -> drawn b c -> drawn a c.
Proof. intros H. induction 1; [done|by constructor..]. Qed.
Lemma fed_trans a b c : fed a b -> fed b c -> fed a c.
Proof. intros H. induction 1; [done|by constructor..]. Qed.

Lemma drawn_refines o o' p :
  drawn o o' -> refines o p ->
  exists p', refines o' p' /\ Pipe.written p' = Pipe.written p /\ Pipe.ended p' = Pipe.ended p.
Proof.
  intros D R. induction D as [|o' n D (p'&R'&Hw&He) Hn|o' D (p'&R'&Hw&He)].
  - by exists p.
  - exists (Pipe.read n p').1. split; [|done]. by apply read_ok.
  - exists (Pipe.set_error p'). split; [|done]. by apply set_error_ok.
Qed.

Lemma fed_refines o o' p :
  fed o o' -> refines o p ->
  exists p', refines o' p' /\ Pipe.popped p' = Pipe.popped p /\
    exists d, Pipe.written p' = Pipe.written p ++ d.
Proof.
  intros F R. induction F as [|o' d F (p'&R'&Hp&d'&Hw)|o' F (p'&R'&Hp&d'&Hw)|o' F (p'&R'&Hp&d'&Hw)].
  - exists p. split; [done|]. split; [done|]. exists []. by rewrite app_nil_r.
  - exists (Pipe.write d p').1. split; [by apply write_ok|]. split; [done|]. cbn. rewrite Hw, <- app_assoc. eauto.
  - exists (Pipe.end_input p'). split; [by apply end_input_ok|]. eauto.
  - exists (Pipe.set_error p'). split; [by apply set_error_ok|]. eauto.
Qed.

(** *** The sender reads *)
Lemma fill_step_drawn s : drawn (TCPSender._stream s) (TCPSender._stream (TCPSender.fill_step s).1).
Proof.
  unfold TCPSender.fill_step. destruct (negb _); [constructor|]. destruct (_ =? 0); [constructor|].
  unfold TCPSender.next_segment. set (n := Z.max 1 _).
  pose proof (drawn_read _ _ n (drawn_refl (TCPSender._stream s)) ltac:(lia)) as D.
  destruct (ByteStream.read n _) as [stream content]. cbn [fst] in D. by destruct (_ =? 0).
Qed.

Lemma fill_window_drawn s : drawn (TCPSender._stream s) (TCPSender._stream (TCPSender.fill_window s)).
Proof.
  unfold TCPSender.fill_window. destruct (_ && _).
  - unfold TCPSender.fill_zero_window. destruct (negb _).
    + pose proof (drawn_read _ _ 1 (drawn_refl (TCPSender._stream s)) ltac:(lia)) as D.
      destruct (ByteStream.read _ _) as [stream content]. cbn [fst] in D. by destruct (_ =? 0).
    + destruct (_ && _); destruct (_ =? 0); constructor.
  - generalize (S (Z.to_nat (TCPSender._window_size s))) as fuel. intros fuel. revert s.
    induction fuel as [|fuel IH]; intros s; cbn [TCPSender.fill_loop]; [constructor|].
    pose proof (fill_step_drawn s) as D. destruct (TCPSender.fill_step s) as [s' []]; cbn [fst] in D; [|done].
    eapply drawn_trans; [done|apply IH].
Qed.

Lemma ack_received_stream a w s : TCPSender._stream (TCPSender.ack_received a w s) = TCPSender._stream s.
Proof. unfold TCPSender.ack_received. destruct (_ || _); [done|]. by destruct (Wrapping.eqb _ _). Qed.

Lemma sender_tick_stream ms s : TCPSender._stream (TCPSender.tick ms s) = TCPSender._stream s.
Proof.
  unfold TCPSender.tick. destruct (TCPSender._tcp_seg_cache _) as [|[? ?] ?]; [done|].
  destruct (_ <=? _); [|done]. by destruct (negb _).
Qed.

(** *** The reassembler writes *)
Lemma push_substring_fed d i e r :
  fed (StreamReassembler._output r) (StreamReassembler._output (StreamReassembler.push_substring d i e r)).
Proof.
  assert (forall l r, fed (StreamReassembler._output r)
    (StreamReassembler._output (StreamReassembler.assemble_loop l r))) as Hloop.
  { induction l as [|[j str] l IH]; intros r0; cbn [StreamReassembler.assemble_loop]; [constructor|].
    destruct (_ <? _); [constructor|].
    pose proof (fed_write _ _ str (fed_refl (StreamReassembler._output r0))) as F.
    destruct (ByteStream.write _ _) as [o n]. cbn [fst] in F. eapply fed_trans; [exact F|].
    match goal with |- context [StreamReassembler.assemble_loop l ?x] => exact (IH x) end. }
  assert (forall r, fed (StreamReassembler._output r)
    (StreamReassembler._output (StreamReassembler.end_if_done r))) as Hend.
  { intros r0. unfold StreamReassembler.end_if_done. destruct (_ && _); [apply fed_end|]; constructor. }
  unfold StreamReassembler.push_substring. set (r1 := if _ <=? _ then _ else r).
  assert (StreamReassembler._output r1 = StreamReassembler._output r) as E1 by (unfold r1; by destruct (_ <=? _)).
  destruct (_ || _); [rewrite <- E1; apply Hend|].
  match goal with |- context [StreamReassembler.merge_behind ?f ?st ?nd r1] =>
    pose proof (merge_behind_output f st nd r1) as E2; destruct (StreamReassembler.merge_behind f st nd r1) as [r2 node'] end.
  cbn [fst] in E2. eapply fed_trans; [|apply Hend]. unfold StreamReassembler.assemble_string.
  eapply fed_trans; [|apply Hloop]. rewrite merge_front_output, E2, E1. constructor.
Qed.

Lemma receiver_fed seg r :
  fed (TCPReceiver.stream_out r) (TCPReceiver.stream_out (TCPReceiver.segment_received seg r)).
Proof.
  unfold TCPReceiver.segment_received. destruct (_ && _); [constructor|].
  destruct (negb _); apply push_substring_fed.
Qed.

(** *** The connection *)
Definition outbound_stream (c : TCPConnection) : ByteStream.ByteStream := TCPSender._stream (_sender c).

(** Nothing but the sender's reads and the reassembler's writes. *)
Definition worked (c c' : TCPConnection) : Prop :=
  drawn (outbound_stream c) (outbound_stream c') /\ fed (inbound_stream c) (inbound_stream c').

Lemma worked_trans a b c : worked a b -> worked b c -> worked a c.
Proof. intros [] []. split; [by eapply drawn_trans|by eapply fed_trans]. Qed.
Lemma worked_same c c' : _sender c' = _sender c -> _receiver c' = _receiver c -> worked c c'.
Proof. unfold worked, outbound_stream, inbound_stream. intros -> ->. by repeat constructor. Qed.
Lemma worked_set_rst c : worked c (set_rst_state c).
Proof. split; [apply drawn_error; constructor|apply fed_error; constructor]. Qed.
Lemma worked_fill c : worked c (c <| _sender ::= TCPSender.fill_window |>).
Proof. split; [apply fill_window_drawn|constructor]. Qed.
Lemma worked_send c : worked c (send_with_ackno_and_win c).
Proof. repeat constructor. Qed.

Lemma deliver_worked seg c : worked c (deliver seg c).
Proof.
  unfold deliver. set (c1 := c <| _receiver ::= _ |>). set (c2 := if TCPHeader.ack _ then _ else c1).
  assert (worked c c2) as W.
  { unfold c2. apply (worked_trans _ c1); [split; [constructor|apply receiver_fed]|].
    destruct (TCPHeader.ack _); [|repeat constructor]. split; [|constructor].
    unfold outbound_stream. cbn. rewrite ack_received_stream. constructor. }
  destruct (_ && _); [|done]. eapply worked_trans; [exact W|by apply worked_same].
Qed.

Lemma reply_worked seg c : worked c (reply seg c).
Proof.
  unfold reply. destruct (TCPReceiver.ackno _); [|by apply worked_same].
  eapply worked_trans; [apply worked_fill|]. set (c1 := c <| _sender ::= TCPSender.fill_window |>).
  destruct (TCPSender._segments_out _); [|by apply worked_same].
  destruct (bool_of_Z _); [repeat constructor|]. destruct (Wrapping.eqb _ _); repeat constructor.
Qed.

Lemma segment_received_worked seg c : worked c (segment_received seg c).
Proof.
  unfold segment_received. set (c1 := c <| _seg_received_time_ms := _ |>).
  apply (worked_trans _ c1); [by apply worked_same|]. destruct (TCPHeader.rst _); [apply worked_set_rst|].
  eapply worked_trans; [apply deliver_worked|]. destruct (_ && _); [by apply worked_same|].
  eapply worked_trans; [apply reply_worked|apply worked_send].
Qed.

Lemma tick_worked ms c : worked c (tick ms c).
Proof.
  unfold tick. set (c1 := c <| _now_time_ms ::= _ |> <| _sender ::= _ |>).
  assert (worked c c1) as W1.
  { split; [|constructor]. unfold outbound_stream, c1. cbn. rewrite sender_tick_stream. constructor. }
  set (c2 := if _ <? _ then _ else c1).
  assert (worked c1 c2) as W2.
  { unfold c2. destruct (_ <? _); [|by apply worked_same].
    split; [apply drawn_error; constructor|apply fed_error; constructor]. }
  assert (worked c (send_with_ackno_and_win c2)) as W.
  { eapply worked_trans; [exact W1|]. eapply worked_trans; [exact W2|apply worked_send]. }
  destruct (_ && _); [|done]. eapply worked_trans; [exact W|by apply worked_same].
Qed.

(** The owner's calls: the write, or the end, and then the sender's reads. *)
Lemma write_streams d c :
  drawn (ByteStream.write d (outbound_stream c)).1 (outbound_stream (write d c).1) /\
  inbound_stream (write d c).1 = inbound_stream c /\
  (write d c).2 = (ByteStream.write d (outbound_stream c)).2.
Proof.
  unfold write, outbound_stream. destruct (ByteStream.write d _) as [stream n]. split; [|done].
  exact (fill_window_drawn ((_sender c) <| TCPSender._stream := stream |>)).
Qed.

Lemma end_input_streams c :
  drawn (ByteStream.end_input (outbound_stream c)) (outbound_stream (end_input_stream c)) /\
  inbound_stream (end_input_stream c) = inbound_stream c.
Proof.
  split; [|done].
  exact (fill_window_drawn ((_sender c) <| TCPSender._stream ::= ByteStream.end_input |>)).
Qed.

Lemma connect_worked c : worked c (connect c).
Proof. eapply worked_trans; [apply worked_fill|apply worked_send]. Qed.

End ConnectionStreams.

(** ** How a connection ends *)
Module ConnectionEnds.
Import TCPSegment TCPConnection ConnectionTheorems ConnectionStreams.

(** A connection after the calls [ops]. *)
Definition after (ops : list op) (c : TCPConnection) : TCPConnection := fold_left (fun c o => step o c) ops c.

(** Milliseconds that passed since the last segment arrived. *)
Definition quiet (ops : list op) : Z :=
  fold_left (fun t o => match o with Receive _ => 0 | Tick ms => t + ms | _ => t end) ops 0.

(** A segment came after which the peer's stream was at its end while ours was not. *)
Fixpoint peer_first (ops : list op) (c : TCPConnection) : bool :=
  match ops with
  | [] => false
  | o :: ops =>
      match o with
      | Receive _ => ByteStream.input_ended (inbound_stream (step o c)) && negb (ByteStream.eof (outbound_stream c))
      | _ => false
      end || peer_first ops (step o c)
  end.

(** The sender with the acknowledgement of an arriving segment. *)
Definition acknowledged (o : op) (s : TCPSender.TCPSender) : TCPSender.TCPSender :=
  match o with
  | Receive seg =>
      if TCPHeader.ack (header seg)
      then TCPSender.ack_received (TCPHeader.ackno (header seg)) (TCPHeader.win (header seg)) s else s
  | _ => s
  end.

(** The peer's stream is here to its end. Ours was sent to its end, the SYN, each byte
    and the FIN, and nothing of it is unacknowledged. *)
Definition finished (inbound : ByteStream.ByteStream) (s : TCPSender.TCPSender) : Prop :=
  ByteStream.input_ended inbound = true /\
  ByteStream.eof (TCPSender.stream_in s) = true /\
  ByteStream.bytes_written (TCPSender.stream_in s) + 2 <= TCPSender.next_seqno_absolute s /\
  TCPSender.bytes_in_flight s = 0.

Lemma after_snoc ops o c : after (ops ++ [o]) c = step o (after ops c).
Proof. unfold after. by rewrite fold_left_app. Qed.
Lemma quiet_snoc ops o :
  quiet (ops ++ [o]) = match o with Receive _ => 0 | Tick ms => quiet ops + ms | _ => quiet ops end.
Proof. unfold quiet. by rewrite fold_left_app. Qed.
Lemma peer_first_snoc ops o c :
  peer_first (ops ++ [o]) c = peer_first ops c ||
    match o with
    | Receive _ => ByteStream.input_ended (inbound_stream (step o (after ops c))) &&
                   negb (ByteStream.eof (outbound_stream (after ops c)))
    | _ => false
    end.
Proof.
  revert c. induction ops as [|x ops IH]; intros c; cbn [app peer_first].
  - by rewrite orb_false_r.
  - by rewrite IH, orb_assoc.
Qed.

(** *** What the calls leave alone *)
Lemma drawn_written o o' : drawn o o' -> ByteStream.bytes_written o' = ByteStream.bytes_written o.
Proof. induction 1 as [|o' n _ <-|o' _ <-]; done. Qed.

Lemma write_written d o : 0 <= ByteStream.bytes_written o -> 0 <= ByteStream.bytes_written (ByteStream.write d o).1.
Proof.
  unfold ByteStream.bytes_written, ByteStream.write. intros H. destruct (ByteStream._input_ended o); [done|].
  apply u64_range.
Qed.

Lemma step_written o c :
  0 <= ByteStream.bytes_written (outbound_stream c) -> 0 <= ByteStream.bytes_written (outbound_stream (step o c)).
Proof.
  intros H. assert (forall c', worked c c' -> 0 <= ByteStream.bytes_written (outbound_stream c')) as Hw.
  { intros c' [D _]. by rewrite (drawn_written _ _ D). }
  destruct o as [seg|d|ms| | | |n|]; unfold step; try done.
  - apply Hw, segment_received_worked.
  - destruct (write_streams d c) as (D&_). rewrite (drawn_written _ _ D). by apply write_written.
  - apply Hw, tick_worked.
  - destruct (end_input_streams c) as (D&_). by rewrite (drawn_written _ _ D).
  - apply Hw, connect_worked.
  - unfold destroy. by destruct (active c).
Qed.

Lemma reply_receiver seg c : _receiver (reply seg c) = _receiver c.
Proof.
  unfold reply. destruct (TCPReceiver.ackno _); [|done].
  destruct (TCPSender._segments_out _); [|done]. destruct (bool_of_Z _); [done|]. by destruct (Wrapping.eqb _ _).
Qed.
Lemma reply_linger seg c : _linger_after_streams_finish (reply seg c) = _linger_after_streams_finish c.
Proof.
  unfold reply. destruct (TCPReceiver.ackno _); [|done].
  destruct (TCPSender._segments_out _); [|done]. destruct (bool_of_Z _); [done|]. by destruct (Wrapping.eqb _ _).
Qed.
Lemma reply_error seg c : sender_error (_sender (reply seg c)) = sender_error (_sender c).
Proof.
  unfold reply. destruct (TCPReceiver.ackno _); [|done].
  destruct (TCPSender._segments_out _); cbn; [|by rewrite fill_window_error].
  destruct (bool_of_Z _); [|destruct (Wrapping.eqb _ _)]; exact (fill_window_error (_sender c)).
Qed.
Lemma reply_clock seg c :
  _cfg (reply seg c) = _cfg c /\ _now_time_ms (reply seg c) = _now_time_ms c /\
  _seg_received_time_ms (reply seg c) = _seg_received_time_ms c.
Proof.
  unfold reply. destruct (TCPReceiver.ackno _); [|done].
  destruct (TCPSender._segments_out _); [|done]. destruct (bool_of_Z _); [done|]. by destruct (Wrapping.eqb _ _).
Qed.

(** The parts of a connection to which a segment was delivered. *)
Lemma deliver_parts seg c :
  let d := deliver seg c in
  _receiver d = TCPReceiver.segment_received seg (_receiver c) /\
  _sender d = acknowledged (Receive seg) (_sender c) /\
  outbound_stream d = outbound_stream c /\
  _linger_after_streams_finish d =
    _linger_after_streams_finish c &&
    negb (ByteStream.input_ended (TCPReceiver.stream_out (TCPReceiver.segment_received seg (_receiver c))) &&
          negb (ByteStream.eof (outbound_stream c))) /\
  _cfg d = _cfg c /\ _now_time_ms d = _now_time_ms c /\ _seg_received_time_ms d = _seg_received_time_ms c.
Proof.
  unfold deliver, outbound_stream, acknowledged. set (c1 := c <| _receiver ::= _ |>).
  set (c2 := if TCPHeader.ack _ then _ else c1).
  assert (_receiver c2 = TCPReceiver.segment_received seg (_receiver c)) as E1 by (unfold c2; by destruct (TCPHeader.ack _)).
  assert (_linger_after_streams_finish c2 = _linger_after_streams_finish c) as E2 by (unfold c2; by destruct (TCPHeader.ack _)).
  assert (TCPSender._stream (_sender c2) = TCPSender._stream (_sender c)) as E3.
  { unfold c2. destruct (TCPHeader.ack _); [apply ack_received_stream|done]. }
  unfold TCPSender.stream_in. rewrite E1, E3.
  destruct (_ && negb _) eqn:E; cbn; rewrite ?E1, ?E2, ?E3, ?andb_false_r, ?andb_true_r;
    (split; [done|]); (split; [|unfold c2; by destruct (TCPHeader.ack _)]); unfold c2; by destruct (TCPHeader.ack _).
Qed.

(** An inbound stream that has ended has begun. *)
Definition begun (r : TCPReceiver.TCPReceiver) : Prop :=
  ByteStream.input_ended (TCPReceiver.stream_out r) = true -> TCPReceiver._set_isn r = true.

Lemma segment_begun seg r : begun r -> begun (TCPReceiver.segment_received seg r).
Proof.
  unfold begun, TCPReceiver.segment_received. intros H.
  destruct (TCPReceiver._set_isn r) eqn:E, (TCPHeader.syn (header seg)) eqn:Es; cbn; rewrite ?E, ?Es; done.
Qed.

(** *** A connection in use *)
Section Run.
Context (random : Z) (cfg : TCPConfig.TCPConfig).

(** What holds of a connection after the calls [ops]. *)
Record used (c : TCPConnection) (ops : list op) : Prop := mk_used {
  used_begun : begun (_receiver c);
  used_written : 0 <= ByteStream.bytes_written (outbound_stream c);
  used_cfg : _cfg c = cfg;
  used_clock : u64 (_now_time_ms c - _seg_received_time_ms c) = u64 (quiet ops);
  used_active : active c = true -> sender_error (_sender c) = false /\ receiver_error (_receiver c) = false /\
    _linger_after_streams_finish c = negb (peer_first ops (make random cfg))
}.

Lemma used_make : used (make random cfg) [].
Proof. by split. Qed.

(** Calls that concern the sender only. *)
Lemma used_sender o c c' ops :
  used c ops -> quiet (ops ++ [o]) = quiet ops -> peer_first (ops ++ [o]) (make random cfg) = peer_first ops (make random cfg) ->
  begun (_receiver c') -> 0 <= ByteStream.bytes_written (outbound_stream c') -> _cfg c' = _cfg c ->
  _now_time_ms c' = _now_time_ms c -> _seg_received_time_ms c' = _seg_received_time_ms c ->
  (active c' = true -> active c = true) -> sender_error (_sender c') = sender_error (_sender c) ->
  receiver_error (_receiver c') = receiver_error (_receiver c) ->
  _linger_after_streams_finish c' = _linger_after_streams_finish c -> used c' (ops ++ [o]).
Proof.
  intros [H1 H2 H3 H4 H5] Hq Hp ? ? ? En Es Ha E1 E2 E3. split; [done|done|congruence|by rewrite En, Es, Hq|].
  rewrite E1, E2, E3, Hp. auto.
Qed.

Lemma used_receive seg c ops :
  used c ops -> c = after ops (make random cfg) -> used (step (Receive seg) c) (ops ++ [Receive seg]).
Proof.
  intros [H1 H2 H3 H4 H5] Ec. pose proof (step_written (Receive seg) c H2) as Hw. unfold step in *.
  assert (peer_first (ops ++ [Receive seg]) (make random cfg) = peer_first ops (make random cfg) ||
    (ByteStream.input_ended (inbound_stream (segment_received seg c)) && negb (ByteStream.eof (outbound_stream c)))) as Hp.
  { rewrite peer_first_snoc, <- Ec. done. }
  unfold segment_received in *. set (c1 := c <| _seg_received_time_ms := _ |>) in *.
  destruct (TCPHeader.rst _).
  { split; try done. rewrite quiet_snoc. cbn. by rewrite Z.sub_diag. }
  destruct (deliver_parts seg c1) as (Er&Es&Eo&El&Ef&En&Et).
  assert (forall c', _receiver c' = _receiver (deliver seg c1) -> _cfg c' = cfg -> _now_time_ms c' = _now_time_ms c ->
    _seg_received_time_ms c' = _now_time_ms c -> 0 <= ByteStream.bytes_written (outbound_stream c') ->
    (active c' = true -> active c = true) -> sender_error (_sender c') = sender_error (_sender c) ->
    _linger_after_streams_finish c' = _linger_after_streams_finish (deliver seg c1) ->
    peer_first (ops ++ [Receive seg]) (make random cfg) = peer_first ops (make random cfg) ||
      (ByteStream.input_ended (inbound_stream c') && negb (ByteStream.eof (outbound_stream c))) ->
    used c' (ops ++ [Receive seg])) as Huse.
  { intros c' E1 E2 E3 E4 E5 E6 E7 E8 E9. rewrite Er in E1. split; try done.
    - rewrite E1. by apply segment_begun.
    - rewrite E3, E4, quiet_snoc. by rewrite Z.sub_diag.
    - intros Ha%E6. destruct (H5 Ha) as (F1&F2&F3). unfold inbound_stream in E9. rewrite E7, E8, E1, El, E9, segment_received_error. split; [done|]. split; [done|].
      change (_linger_after_streams_finish c1) with (_linger_after_streams_finish c). rewrite F3, E1. symmetry. apply negb_orb. }
  assert (sender_error (_sender (deliver seg c1)) = sender_error (_sender c)) as Ee.
  { unfold sender_error. by f_equal. }
  destruct (_ && _).
  - apply Huse; try done; cbn; rewrite ?Ef, ?En, ?Et; done.
  - destruct (reply_clock seg (deliver seg c1)) as (G1&G2&G3). apply Huse; try done; cbn.
    + by rewrite reply_receiver.
    + by rewrite G1, Ef.
    + by rewrite G2, En.
    + by rewrite G3, Et.
    + unfold active. cbn. by rewrite reply_active, deliver_active.
    + rewrite <- Ee, <- (reply_error seg (deliver seg c1)). done.
    + by rewrite reply_linger.
Qed.

Lemma quiet_tick now seen ms ops :
  u64 (now - seen) = u64 (quiet ops) -> u64 (u64 (now + ms) - seen) = u64 (quiet (ops ++ [Tick ms])).
Proof.
  intros H. rewrite quiet_snoc. unfold u64 in *.
  rewrite Zminus_mod_idemp_l, <- (Zplus_mod_idemp_l (quiet ops)), <- H, Zplus_mod_idemp_l. f_equal. lia.
Qed.

Lemma tick_as ms c :
  exists s, TCPSender._stream s = TCPSender._stream (_sender c) /\
  let c1 := c <| _now_time_ms ::= fun t => u64 (t + ms) |> <| _sender := s |> in
  let c2 := send_with_ackno_and_win
    (if TCPConfig.MAX_RETX_ATTEMPTS <? TCPSender.consecutive_retransmissions s
     then set_rst_state (send_rst_seg (c1 <| _sender ::= fun s => s <| TCPSender._segments_out := [] |> |>))
     else c1) in
  tick ms c =
    if streams_finished c2 && _linger_after_streams_finish c2 &&
       (u64 (10 * TCPConfig.rt_timeout (_cfg c2)) <=? u64 (_now_time_ms c2 - _seg_received_time_ms c2))
    then c2 <| _active := false |> else c2.
Proof. exists (TCPSender.tick ms (_sender c)). split; [apply sender_tick_stream|]. reflexivity. Qed.

Lemma tick_clock ms c :
  _cfg (tick ms c) = _cfg c /\
  _now_time_ms (tick ms c) = u64 (_now_time_ms c + ms) /\ _seg_received_time_ms (tick ms c) = _seg_received_time_ms c.
Proof.
  unfold tick. by destruct (_ && _), (_ <? _).
Qed.

Lemma tick_active ms c :
  active (tick ms c) = true -> active c = true /\ sender_error (_sender (tick ms c)) = sender_error (_sender c) /\
    _receiver (tick ms c) = _receiver c /\ _linger_after_streams_finish (tick ms c) = _linger_after_streams_finish c.
Proof.
  destruct (tick_as ms c) as (s&Es&->). destruct (_ <? _); [by destruct (_ && _)|]. destruct (_ && _); [done|].
  intros Ha. split; [exact Ha|]. split; [|done]. unfold sender_error. by rewrite <- Es.
Qed.

Lemma tick_begun ms c : begun (_receiver c) -> begun (_receiver (tick ms c)).
Proof. unfold tick. by destruct (_ && _), (_ <? _). Qed.

Lemma used_tick ms c ops : used c ops -> used (tick ms c) (ops ++ [Tick ms]).
Proof.
  intros [H1 H2 H3 H4 H5]. destruct (tick_clock ms c) as (E1&E2&E3).
  split; [by apply tick_begun|by rewrite (drawn_written _ _ (proj1 (tick_worked ms c)))|congruence| |].
  - rewrite E2, E3. by apply quiet_tick.
  - intros Ha. destruct (tick_active _ _ Ha) as (Ha'&->&->&->). rewrite peer_first_snoc, orb_false_r. auto.
Qed.

Lemma used_step o c ops :
  used c ops -> c = after ops (make random cfg) -> used (step o c) (ops ++ [o]).
Proof.
  intros U Ec. pose proof (step_written o c (used_written _ _ U)) as Hw.
  assert (match o with Receive _ | Tick _ => True | _ => quiet (ops ++ [o]) = quiet ops end) as Hq.
  { rewrite quiet_snoc. by destruct o. }
  assert (match o with Receive _ => True | _ =>
    peer_first (ops ++ [o]) (make random cfg) = peer_first ops (make random cfg) end) as Hp.
  { rewrite peer_first_snoc. destruct o; try done; by rewrite orb_false_r. }
  destruct o as [seg|d|ms| | | |n|].
  - by apply used_receive.
  - revert Hw. unfold step. rewrite write_eq. intros Hw. apply (used_sender _ c); try done; [apply U|].
    change (sender_error (TCPSender.fill_window ((_sender c) <| TCPSender._stream ::= fun o => (ByteStream.write d o).1 |>)) =
      sender_error (_sender c)). rewrite fill_window_error. apply write_error.
  - by apply used_tick.
  - apply (used_sender _ c); try done; [apply U|].
    change (sender_error (TCPSender.fill_window ((_sender c) <| TCPSender._stream ::= ByteStream.end_input |>)) =
      sender_error (_sender c)). by rewrite fill_window_error.
  - apply (used_sender _ c); try done; [apply U|].
    change (sender_error (TCPSender.fill_window (_sender c)) = sender_error (_sender c)). apply fill_window_error.
  - revert Hw. unfold step, destroy. destruct (active c) eqn:Ha; intros Hw.
    + destruct U as [H1 H2 H3 H4 H5]. by split; rewrite ?Hq.
    + by apply (used_sender _ c); try done; apply U.
  - apply (used_sender _ c); try done. apply U.
  - apply (used_sender _ c); try done. apply U.
Qed.

Lemma used_after ops : used (after ops (make random cfg)) ops.
Proof.
  induction ops as [|o ops IH] using rev_ind; [exact used_make|]. rewrite after_snoc. by apply used_step.
Qed.

(** The summaries of a connection in use, by its streams. *)
Lemma finished_eq c :
  sender_error (_sender c) = false -> receiver_error (_receiver c) = false -> begun (_receiver c) ->
  0 <= ByteStream.bytes_written (outbound_stream c) < 2 ^ 64 - 2 ->
  streams_finished c = true <-> finished (inbound_stream c) (_sender c).
Proof.
  unfold sender_error, receiver_error, begun, outbound_stream, inbound_stream. intros E1 E2 B Hb.
  unfold streams_finished, finished, TCPState.receiver_summary, TCPState.sender_summary, TCPReceiver.ackno, TCPSender.stream_in.
  rewrite E1, E2, (u64_small (_ + 2)) by lia. rewrite andb_true_iff.
  destruct (ByteStream.input_ended _) eqn:Ei; [rewrite (B eq_refl); cbn [negb]|].
  - destruct (Z.eqb_spec (TCPSender.next_seqno_absolute (_sender c)) 0); [by split; [intros [_ ?]|lia]|].
    destruct (Z.eqb_spec (TCPSender.next_seqno_absolute (_sender c)) (TCPSender.bytes_in_flight (_sender c))); [by split; [intros [_ ?]|lia]|].
    destruct (ByteStream.eof _); cbn [negb]; [|by split; [intros [_ ?]|intros (_&?&_)]].
    destruct (Z.ltb_spec (TCPSender.next_seqno_absolute (_sender c)) (ByteStream.bytes_written (TCPSender._stream (_sender c)) + 2));
      [by split; [intros [_ ?]|lia]|].
    unfold bool_of_Z. destruct (Z.eqb_spec (TCPSender.bytes_in_flight (_sender c)) 0); cbn [negb]; [done|].
    by split; [intros [_ ?]|lia].
  - destruct (negb _); by split; [intros [? _]|intros [? _]].
Qed.

Lemma receive_ends ops seg :
  let c := after ops (make random cfg) in
  active c = true -> ByteStream.bytes_written (outbound_stream c) < 2 ^ 64 - 2 ->
  active (step (Receive seg) c) = false <->
  TCPHeader.rst (header seg) = true \/
  (finished (inbound_stream (step (Receive seg) c)) (acknowledged (Receive seg) (_sender c)) /\
   peer_first (ops ++ [Receive seg]) (make random cfg) = true).
Proof.
  intros c Ha Hb. destruct (used_after ops) as [H1 H2 H3 H4 H5]. fold c in H1, H2, H3, H4, H5.
  destruct (H5 Ha) as (F1&F2&F3). rewrite peer_first_snoc. fold c. unfold step, segment_received.
  set (c1 := c <| _seg_received_time_ms := _ |>). destruct (TCPHeader.rst _); [by split; [left|]|].
  destruct (deliver_parts seg c1) as (Er&Es&Eo&El&_). set (d := deliver seg c1) in *.
  assert (_active d = true) as Ed by (unfold d; by rewrite deliver_active).
  assert (streams_finished d = true <-> finished (inbound_stream d) (acknowledged (Receive seg) (_sender c))) as Hf.
  { change (acknowledged (Receive seg) (_sender c)) with (acknowledged (Receive seg) (_sender c1)). rewrite <- Es.
    apply finished_eq.
    - unfold sender_error. change (ByteStream.error (outbound_stream d) = false). by rewrite Eo.
    - rewrite Er, segment_received_error. exact F2.
    - rewrite Er. by apply segment_begun.
    - rewrite Eo. done. }
  assert (_linger_after_streams_finish d = negb (peer_first ops (make random cfg) ||
    (ByteStream.input_ended (inbound_stream d) && negb (ByteStream.eof (outbound_stream c))))) as Hl.
  { unfold inbound_stream. rewrite El, Er, negb_orb, <- F3. done. }
  destruct (streams_finished d && negb (_linger_after_streams_finish d)) eqn:E.
  - apply andb_true_iff in E as [E1 E2]. rewrite Hl, negb_involutive in E2. split; [|done]. intros _. right.
    split; [by apply Hf|done].
  - change (inbound_stream (send_with_ackno_and_win (reply seg d))) with (TCPReceiver.stream_out (_receiver (reply seg d))).
    rewrite reply_receiver. fold (inbound_stream d). unfold active. cbn. rewrite reply_active, Ed.
    split; [done|]. intros [?|[E1 E2]]; [done|]. apply Hf in E1. rewrite E1, Hl, negb_involutive, E2 in E. done.
Qed.

Lemma tick_ends ops ms :
  let c := after ops (make random cfg) in
  active c = true -> 0 <= 10 * TCPConfig.rt_timeout cfg < 2 ^ 64 -> 0 <= quiet (ops ++ [Tick ms]) < 2 ^ 64 ->
  ByteStream.bytes_written (outbound_stream c) < 2 ^ 64 - 2 ->
  active (step (Tick ms) c) = false <->
  8 < TCPSender.consecutive_retransmissions (_sender (step (Tick ms) c)) \/
  (finished (inbound_stream (step (Tick ms) c)) (_sender (step (Tick ms) c)) /\
   peer_first ops (make random cfg) = false /\
   10 * TCPConfig.rt_timeout cfg <= quiet (ops ++ [Tick ms])).
Proof.
  intros c Ha Hrt Hq Hb. destruct (used_after ops) as [H1 H2 H3 H4 H5]. fold c in H1, H2, H3, H4, H5.
  destruct (H5 Ha) as (F1&F2&F3). pose proof (quiet_tick _ _ ms _ H4) as Hc.
  rewrite (u64_small (quiet _)) in Hc by lia. cbn [step]. destruct (tick_as ms c) as (s&Es&->).
  set (c1 := c <| _now_time_ms ::= _ |> <| _sender := s |>).
  destruct (Z.ltb_spec TCPConfig.MAX_RETX_ATTEMPTS (TCPSender.consecutive_retransmissions s)) as [Hx|Hx].
  { split; [intros _; left; by destruct (_ && _)|]. intros _. by destruct (_ && _). }
  set (c2 := send_with_ackno_and_win c1).
  assert (streams_finished c2 = true <-> finished (inbound_stream c2) (_sender c2)) as Hf.
  { assert (outbound_stream c2 = outbound_stream c) as Eo by exact Es.
    apply finished_eq; [|done|done|by rewrite Eo].
    unfold sender_error. change (ByteStream.error (outbound_stream c2) = false). by rewrite Eo. }
  change (_cfg c2) with (_cfg c). rewrite H3, (u64_small (10 * _)) by lia.
  change (u64 (_now_time_ms c2 - _seg_received_time_ms c2)) with
    (u64 (u64 (_now_time_ms c + ms) - _seg_received_time_ms c)). rewrite Hc.
  change (_linger_after_streams_finish c2) with (_linger_after_streams_finish c). rewrite F3.
  destruct (streams_finished c2 && _ && _) eqn:E.
  - apply andb_true_iff in E as [[E1 E2%negb_true_iff]%andb_true_iff E3%Z.leb_le]. split; [|done]. intros _. right.
    split; [by apply Hf|done].
  - split; [change (active c = false -> 8 < TCPSender.consecutive_retransmissions s \/
      (finished (inbound_stream c2) (_sender c2) /\ peer_first ops (make random cfg) = false /\
       10 * TCPConfig.rt_timeout cfg <= quiet (ops ++ [Tick ms]))); congruence|].
    intros [?|(E1&E2&E3)].
    + change (8 < TCPSender.consecutive_retransmissions s) in H. unfold TCPConfig.MAX_RETX_ATTEMPTS in Hx. lia.
    + apply Hf in E1. apply Z.leb_le in E3. rewrite E1, E2, E3 in E. done.
Qed.

End Run.


(** A peer that opens with a SYN numbered 0, and acknowledges [n] of our sequence numbers. *)
Definition demo_cfg : TCPConfig.TCPConfig :=
  TCPConfig.default_config <| TCPConfig.fixed_isn := Some (mkWrappingInt32 0) |>.
Definition demo_segment (seqno : Z) (syn fin : bool) (n : Z) : TCPSegment :=
  default_segment <| _header ::= fun h =>
    h <| TCPHeader.seqno := mkWrappingInt32 seqno |> <| TCPHeader.syn := syn |> <| TCPHeader.fin := fin |>
      <| TCPHeader.ack := true |> <| TCPHeader.ackno := mkWrappingInt32 n |> <| TCPHeader.win := 1000 |> |>.

(** The peer ends its stream first; we end it first. *)
Definition demo_passive : list op :=
  [Connect; Receive (demo_segment 0 true false 1); Receive (demo_segment 1 false true 1); EndInput].
Definition demo_active : list op :=
  [Connect; Receive (demo_segment 0 true false 1); EndInput; Receive (demo_segment 1 false true 2); Tick 5000].


End ConnectionEnds.
