(* ===== verification/Handshake.v ===== *)
(** * The three-way handshake (libsponge/tcp_connection.*, tcp_sender.*, tcp_receiver.* )

    Two connections that have just been made, one of which connects: every segment of the
    handshake and the states it leads through, for any initial sequence numbers and
    capacities. *)
From S2P Require Import Prelude Stream Wrapping Reassembler Buffers TcpSegment Receiver Sender Connection.

Module Handshake.
Import TCPSegment TCPConnection.

Lemma read_fresh cap n : 0 < cap -> 0 <= n -> ByteStream.read n (ByteStream.make cap) = (ByteStream.make cap, []).
Proof.
  intros Hc Hn. unfold ByteStream.read, ByteStream.pop_output, ByteStream.peek_output.
  unfold ByteStream.make. cbn. rewrite Z.min_l by lia. cbn. by rewrite Zmod_0_l.
Qed.

#[local] Arguments ByteStream.read : simpl never.
#[local] Arguments ByteStream.make : simpl never.
#[local] Arguments Wrapping.wrap : simpl never.
#[local] Arguments Wrapping.unwrap : simpl never.
#[local] Arguments StreamReassembler.push_substring : simpl never.

Lemma wrap_zero isn : wrapping_ok isn -> Wrapping.wrap 0 isn = isn.
Proof. intros H. rewrite Wrapping.wrap_eq, Z.add_0_l, u32_small by done. by destruct isn. Qed.

Section Sender.
Context (isn : WrappingInt32) (cap rto : Z).
Hypotheses (isn_ok : wrapping_ok isn) (cap_ok : 0 < cap < 2 ^ 63).

(** A sender that has not sent anything; one that has sent its SYN and, if [q], still has
    it in its queue; and one whose SYN is acknowledged, with window [w]. *)
Definition closed_sender : TCPSender.TCPSender :=
  TCPSender.mkTCPSender isn [] rto (ByteStream.make cap) 0 1 0 0 [] rto isn false false false 0.
Definition syn_segment : TCPSegment :=
  mkTCPSegment (TCPHeader.default_header <| TCPHeader.seqno := isn |> <| TCPHeader.syn := true |>)
    (Buffer.make []).
Definition syn_sender (q : bool) : TCPSender.TCPSender :=
  TCPSender.mkTCPSender isn (if q then [syn_segment] else []) rto (ByteStream.make cap) 1 1 1 0
    [(0, syn_segment)] rto isn true false false 0.
Definition established_sender (w : Z) (q : list TCPSegment) : TCPSender.TCPSender :=
  TCPSender.mkTCPSender isn q rto (ByteStream.make cap) 1 w 0 0 [] rto (Wrapping.wrap 1 isn)
    true false false 0.

Lemma fill_closed : TCPSender.fill_window closed_sender = syn_sender true.
Proof.
  unfold TCPSender.fill_window, closed_sender. cbn [TCPSender._window_size TCPSender._window_used_size].
  change (Z.to_nat 1) with 1%nat. cbn [Z.eqb andb TCPSender.fill_loop].
  unfold TCPSender.fill_step at 1. cbn. unfold TCPSender.next_segment. cbn. rewrite read_fresh by lia. cbn.
  by rewrite wrap_zero.
Qed.

Lemma unwrap_0 c : 0 <= c <= 1 -> Wrapping.unwrap isn isn c = 0.
Proof. intros. rewrite <- (wrap_zero isn) at 1 by done. apply Wrapping.unwrap_wrap_lemma; lia. Qed.
Lemma unwrap_1 c : 0 <= c <= 1 -> Wrapping.unwrap (Wrapping.wrap 1 isn) isn c = 1.
Proof. intros. apply Wrapping.unwrap_wrap_lemma; lia. Qed.
Lemma plus_1 : Wrapping.plus isn 1 = Wrapping.wrap 1 isn.
Proof. rewrite Wrapping.wrap_eq. unfold Wrapping.plus. f_equal. f_equal. lia. Qed.
Lemma wrap_1_neq : Wrapping.eqb (Wrapping.wrap 1 isn) isn = false.
Proof.
  rewrite Wrapping.wrap_eq. unfold Wrapping.eqb. cbn [raw_value]. apply Z.eqb_neq.
  unfold wrapping_ok in isn_ok. zmod.
Qed.

Lemma minus_wrap_1 : Wrapping.minus (Wrapping.wrap 1 isn) 1 = isn.
Proof.
  rewrite Wrapping.wrap_eq. unfold Wrapping.minus, Wrapping.plus, wrapping_ok in *. cbn [raw_value].
  destruct isn as [r]. cbn in *. f_equal. zmod.
Qed.

Lemma ack_syn w :
  0 <= w -> TCPSender.ack_received (Wrapping.wrap 1 isn) w (syn_sender false) = established_sender w [].
Proof.
  intros Hw. unfold TCPSender.ack_received, TCPSender.compare, syn_sender. cbn.
  rewrite unwrap_0, unwrap_1 by lia. cbn. unfold TCPSender.update_window. cbn.
  change (u32 1) with 1. rewrite plus_1, unwrap_1 by lia. cbn. rewrite wrap_1_neq.
  destruct (Z.ltb_spec w 0); [lia|]. unfold TCPSender.remove_acked_seg. cbn.
  change (u32 (length_in_sequence_space syn_segment)) with 1. by rewrite plus_1, unwrap_1 by lia.
Qed.

Lemma fill_established w q :
  0 < w < 2 ^ 16 -> TCPSender.fill_window (established_sender w q) = established_sender w q.
Proof.
  intros Hw. unfold TCPSender.fill_window, established_sender. cbn.
  destruct (Z.eqb_spec w 0); [lia|]. cbn. unfold TCPSender.fill_step at 1. cbn.
  unfold TCPSender.window_unused. cbn. destruct (Z.ltb_spec 0 w); [|lia]. rewrite Z.sub_0_r, u64_small by lia.
  destruct (Z.eqb_spec w 0); [lia|]. unfold TCPSender.next_segment. cbn. by rewrite read_fresh by lia.
Qed.

Lemma in_flight_syn q : TCPSender.bytes_in_flight (syn_sender q) = 1.
Proof. unfold TCPSender.bytes_in_flight, syn_sender. cbn. by rewrite unwrap_0 by lia. Qed.
Lemma in_flight_established w q : TCPSender.bytes_in_flight (established_sender w q) = 0.
Proof. unfold TCPSender.bytes_in_flight, established_sender. cbn. by rewrite unwrap_1 by lia. Qed.

End Sender.

Section Receiver.
Context (isn : WrappingInt32) (cap : Z).
Hypotheses (isn_ok : wrapping_ok isn) (cap_ok : 0 < cap < 2 ^ 63).

(** A receiver that has got the SYN, and nothing else. *)
Definition syn_receiver : TCPReceiver.TCPReceiver :=
  TCPReceiver.mkTCPReceiver (StreamReassembler.make cap) cap isn true.

Lemma push_empty : StreamReassembler.push_substring [] 0 false (StreamReassembler.make cap) = StreamReassembler.make cap.
Proof.
  assert (ByteStream.remaining_capacity (ByteStream.make cap) = cap) as Hr.
  { unfold ByteStream.remaining_capacity, ByteStream.make. cbn. rewrite Z.sub_0_r, u64_small; lia. }
  unfold StreamReassembler.push_substring, StreamReassembler.make. cbn. rewrite Hr, Z.add_0_l, u64_small by lia.
  change (u64 (0 + zlen [])) with 0. destruct (Z.leb_spec 0 cap); [|lia]. cbn.
  destruct (Z.leb_spec cap 0); [lia|]. done.
Qed.

Lemma receive_syn seg :
  TCPHeader.syn (header seg) = true -> TCPHeader.fin (header seg) = false ->
  TCPHeader.seqno (header seg) = isn -> Buffer.str (payload seg) = [] ->
  TCPReceiver.segment_received seg (TCPReceiver.make cap) = syn_receiver.
Proof.
  intros Hs Hf Hn Hp. unfold TCPReceiver.segment_received, TCPReceiver.make. cbn.
  rewrite Hs, Hf, Hn. unfold Buffer.copy. rewrite Hp. cbn. rewrite unwrap_0 by (done || lia).
  change (u64 (0 - 0)) with 0. by rewrite push_empty.
Qed.

Lemma receive_ack seg :
  TCPHeader.fin (header seg) = false ->
  TCPHeader.seqno (header seg) = Wrapping.wrap 1 isn -> Buffer.str (payload seg) = [] ->
  TCPReceiver.segment_received seg syn_receiver = syn_receiver.
Proof.
  intros Hf Hn Hp. unfold TCPReceiver.segment_received, syn_receiver. cbn.
  rewrite Hf, Hn. unfold Buffer.copy. rewrite Hp. cbn. rewrite unwrap_1 by (done || lia).
  change (u64 (1 - 1)) with 0. by rewrite push_empty.
Qed.

Lemma ackno_syn : TCPReceiver.ackno syn_receiver = Some (Wrapping.wrap 1 isn).
Proof. done. Qed.

End Receiver.

Section Connections.
(** The two configurations and the numbers their senders draw. *)
Context (cx cy : TCPConfig.TCPConfig) (rx ry : Z).
Definition isn_of (random : Z) (cfg : TCPConfig.TCPConfig) : WrappingInt32 :=
  default (mkWrappingInt32 random) (TCPConfig.fixed_isn cfg).
Definition config_ok (random : Z) (cfg : TCPConfig.TCPConfig) : Prop :=
  wrapping_ok (isn_of random cfg) /\ 0 < TCPConfig.recv_capacity cfg < 2 ^ 63 /\
  0 < TCPConfig.send_capacity cfg < 2 ^ 63.

Lemma make_closed random cfg :
  make random cfg = mkTCPConnection cfg (TCPReceiver.make (TCPConfig.recv_capacity cfg))
    (closed_sender (isn_of random cfg) (TCPConfig.send_capacity cfg) (TCPConfig.rt_timeout cfg))
    [] true 0 0 true.
Proof. done. Qed.

#[local] Arguments TCPSender.fill_window : simpl never.
#[local] Arguments TCPSender.ack_received : simpl never.
#[local] Arguments TCPReceiver.segment_received : simpl never.
#[local] Arguments closed_sender : simpl never.

(** A segment that leaves the inbound stream open. *)
Lemma segment_received_open seg c r s :
  TCPHeader.rst (header seg) = false -> TCPReceiver.segment_received seg (_receiver c) = r ->
  (if TCPHeader.ack (header seg)
   then TCPSender.ack_received (TCPHeader.ackno (header seg)) (TCPHeader.win (header seg)) (_sender c)
   else _sender c) = s ->
  ByteStream.input_ended (TCPReceiver.stream_out r) = false ->
  segment_received seg c =
    send_with_ackno_and_win (reply seg
      (c <| _seg_received_time_ms := _now_time_ms c |> <| _receiver := r |> <| _sender := s |>)).
Proof.
  intros Hr Er Es He. unfold segment_received. rewrite Hr. set (c1 := c <| _seg_received_time_ms := _ |>).
  assert (deliver seg c1 = c1 <| _receiver := r |> <| _sender := s |>) as ->.
  { unfold deliver. change (_receiver c1) with (_receiver c).
    destruct (TCPHeader.ack (header seg)); destruct c; cbn in *; rewrite Er, He; cbn; by rewrite <- Es. }
  assert (streams_finished (c1 <| _receiver := r |> <| _sender := s |>) = false) as ->; [|done].
  unfold streams_finished. cbn. unfold TCPState.receiver_summary. rewrite He.
  destruct (ByteStream.error _); [done|]. by destruct (TCPReceiver.ackno r).
Qed.

Section Peer.
Context (random : Z) (cfg : TCPConfig.TCPConfig) (Hcfg : config_ok random cfg).
Let isn : WrappingInt32 := isn_of random cfg.

(** The connection as it is between the steps: receiver and sender, its queue. *)
Definition conn (r : TCPReceiver.TCPReceiver) (s : TCPSender.TCPSender) (q : list TCPSegment) : TCPConnection :=
  mkTCPConnection cfg r s q true 0 0 true.
Definition listen_receiver : TCPReceiver.TCPReceiver := TCPReceiver.make (TCPConfig.recv_capacity cfg).
Definition my_syn_sender (q : bool) : TCPSender.TCPSender :=
  syn_sender isn (TCPConfig.send_capacity cfg) (TCPConfig.rt_timeout cfg) q.
Definition my_established_sender (w : Z) : TCPSender.TCPSender :=
  established_sender isn (TCPConfig.send_capacity cfg) (TCPConfig.rt_timeout cfg) w [].
Definition my_syn_receiver (peer : WrappingInt32) : TCPReceiver.TCPReceiver :=
  syn_receiver peer (TCPConfig.recv_capacity cfg).

Lemma connect_sends_syn :
  connect (make random cfg) =
    conn listen_receiver (my_syn_sender false) [with_ackno_and_win listen_receiver (syn_segment isn)].
Proof.
  destruct Hcfg as (?&?&?). rewrite make_closed. unfold connect. cbn.
  rewrite fill_closed by done. done.
Qed.

Lemma receive_syn_replies peer seg :
  wrapping_ok peer -> TCPHeader.syn (header seg) = true -> TCPHeader.fin (header seg) = false ->
  TCPHeader.rst (header seg) = false -> TCPHeader.ack (header seg) = false ->
  TCPHeader.seqno (header seg) = peer -> Buffer.str (payload seg) = [] ->
  segment_received seg (make random cfg) =
    conn (my_syn_receiver peer) (my_syn_sender false)
      [with_ackno_and_win (my_syn_receiver peer) (syn_segment isn)].
Proof.
  intros Hpeer Hs Hf Hr Ha Hn Hp. destruct Hcfg as (?&?&?). rewrite make_closed.
  erewrite segment_received_open; [|done|by apply (receive_syn peer)|by rewrite Ha|done].
  unfold reply. cbn. rewrite fill_closed by done. done.
Qed.

Lemma receive_syn_ack peer seg :
  wrapping_ok peer -> TCPHeader.syn (header seg) = true -> TCPHeader.fin (header seg) = false ->
  TCPHeader.rst (header seg) = false -> TCPHeader.ack (header seg) = true ->
  TCPHeader.ackno (header seg) = Wrapping.wrap 1 isn -> 0 < TCPHeader.win (header seg) < 2 ^ 16 ->
  TCPHeader.seqno (header seg) = peer -> Buffer.str (payload seg) = [] ->
  segment_received seg (conn listen_receiver (my_syn_sender false) []) =
    conn (my_syn_receiver peer) (my_established_sender (TCPHeader.win (header seg)))
      [with_ackno_and_win (my_syn_receiver peer)
         (default_segment <| _header ::= fun h => h <| TCPHeader.seqno := Wrapping.wrap 1 isn |> |>)].
Proof.
  intros Hpeer Hs Hf Hr Ha Hack Hw Hn Hp. destruct Hcfg as (?&?&?).
  erewrite segment_received_open;
    [|done|by apply (receive_syn peer)|rewrite Ha, Hack; apply ack_syn; done || lia|done].
  unfold reply. cbn. rewrite fill_established by (done || lia). cbn.
  unfold length_in_sequence_space. rewrite Hs, Hf, Hp. done.
Qed.

Lemma receive_final_ack peer seg :
  wrapping_ok peer -> TCPHeader.syn (header seg) = false -> TCPHeader.fin (header seg) = false ->
  TCPHeader.rst (header seg) = false -> TCPHeader.ack (header seg) = true ->
  TCPHeader.ackno (header seg) = Wrapping.wrap 1 isn -> 0 < TCPHeader.win (header seg) < 2 ^ 16 ->
  TCPHeader.seqno (header seg) = Wrapping.wrap 1 peer -> Buffer.str (payload seg) = [] ->
  segment_received seg (conn (my_syn_receiver peer) (my_syn_sender false) []) =
    conn (my_syn_receiver peer) (my_established_sender (TCPHeader.win (header seg))) [].
Proof.
  intros Hpeer Hs Hf Hr Ha Hack Hw Hn Hp. destruct Hcfg as (?&?&?).
  erewrite segment_received_open;
    [|done|by apply receive_ack|rewrite Ha, Hack; apply ack_syn; done || lia|done].
  unfold reply. cbn. rewrite fill_established by (done || lia). cbn.
  unfold length_in_sequence_space. rewrite Hs, Hf, Hp. cbn.
  change (u64 (u64 (1 + _) + _)) with 1. by rewrite Hn, minus_wrap_1, wrap_1_neq.
Qed.

Lemma state_syn_sent q :
  TCPState.eqb (state (conn listen_receiver (my_syn_sender false) q)) (TCPState.of_state TCPState.SYN_SENT) = true.
Proof.
  destruct Hcfg as (?&_). unfold state, TCPState.make, TCPState.sender_summary. cbn [_sender conn].
  unfold my_syn_sender. by rewrite in_flight_syn.
Qed.

Lemma state_syn_rcvd peer q :
  TCPState.eqb (state (conn (my_syn_receiver peer) (my_syn_sender false) q))
    (TCPState.of_state TCPState.SYN_RCVD) = true.
Proof.
  destruct Hcfg as (?&_). unfold state, TCPState.make, TCPState.sender_summary. cbn [_sender conn].
  unfold my_syn_sender. by rewrite in_flight_syn.
Qed.

Lemma state_established peer w q :
  TCPState.eqb (state (conn (my_syn_receiver peer) (my_established_sender w) q))
    (TCPState.of_state TCPState.ESTABLISHED) = true.
Proof.
  destruct Hcfg as (?&_). unfold state, TCPState.make, TCPState.sender_summary. cbn [_sender conn].
  unfold my_established_sender. by rewrite in_flight_established.
Qed.

Lemma my_window peer q :
  0 < TCPHeader.win (header (with_ackno_and_win (my_syn_receiver peer) q)) < 2 ^ 16.
Proof.
  destruct Hcfg as (_&?&_). destruct (ConnectionTheorems.stamp q (my_syn_receiver peer)) as (_&_&->).
  unfold TCPReceiver.window_size. cbn. change (ByteStream.buffer_size _) with 0.
  rewrite Z.sub_0_r, u64_small by lia. lia.
Qed.

End Peer.

Definition in_state (x : TCPState.State) (c : TCPConnection) : Prop :=
  TCPState.eqb (state c) (TCPState.of_state x) = true.
Definition dequeue (c : TCPConnection) : TCPConnection := c <| _segments_out ::= tail |>.

Lemma dequeue_conn cfg r s m : dequeue (conn cfg r s [m]) = conn cfg r s [].
Proof. done. Qed.

(** C28. The handshake: the connecting side sends one SYN; the listening side answers with
    one SYN that acknowledges it; that is answered with one acknowledgement and nothing
    more is sent. The states are those of RFC 793, and at the end each side expects the
    sequence number the other will use next. *)
Theorem three_way_handshake :
  config_ok rx cx -> config_ok ry cy ->
  let x1 := connect (make rx cx) in
  exists syn, segments_out x1 = [syn] /\ in_state TCPState.SYN_SENT x1 /\
  let y1 := segment_received syn (make ry cy) in
  exists syn_ack, segments_out y1 = [syn_ack] /\ in_state TCPState.SYN_RCVD y1 /\
  let x2 := segment_received syn_ack (dequeue x1) in
  exists ack, segments_out x2 = [ack] /\ in_state TCPState.ESTABLISHED x2 /\
  let y2 := segment_received ack (dequeue y1) in
  segments_out y2 = [] /\ in_state TCPState.ESTABLISHED y2 /\
  TCPReceiver.ackno (_receiver x2) = Some (TCPSender.next_seqno (_sender y2)) /\
  TCPReceiver.ackno (_receiver y2) = Some (TCPSender.next_seqno (_sender x2)).
Proof.
  intros Hx Hy x1. subst x1. rewrite (connect_sends_syn rx cx Hx). eexists. split; [done|].
  split; [by apply state_syn_sent|]. cbv zeta. destruct (Hx) as (Hix&_), (Hy) as (Hiy&_).
  rewrite (receive_syn_replies ry cy Hy (isn_of rx cx)) by done. eexists. split; [done|].
  split; [by apply state_syn_rcvd|]. rewrite !dequeue_conn.
  rewrite (receive_syn_ack rx cx Hx (isn_of ry cy)) by (done || by eapply my_window).
  eexists. split; [done|]. split; [by apply state_established|].
  rewrite (receive_final_ack ry cy Hy (isn_of rx cx)) by (done || by eapply my_window).
  split; [done|]. split; [by apply state_established|]. done.
Qed.

End Connections.

Lemma three_way_handshake_witness :
  exists syn, segments_out (connect (make 4294967295 TCPConfig.default_config)) = [syn] /\
    in_state TCPState.SYN_RCVD (segment_received syn (make 7 TCPConfig.default_config)).
Proof.
  destruct (three_way_handshake TCPConfig.default_config TCPConfig.default_config 4294967295 7)
    as (syn&E&_&_&_&Hr&_); [done..|].
  exists syn. split; [exact E|exact Hr].
Defined.

End Handshake.
