(* ===== verification/Peers.v ===== *)
(** * Two connections

    Two [TCPConnection]s (tcp_connection.* ) whose segments travel through a network that
    loses, repeats and reorders them: each application reads a prefix of what the other
    wrote. *)
From S2P Require Import Prelude Stream Wrapping Reassembler Buffers TcpSegment Receiver Sender.
From S2P Require Import Transfer Connection ConnectionStreams Handshake.

Module Peers.
Import TCPSegment TCPConnection SenderLog SenderInvariant Transfer ConnectionTheorems.

(** One end. [written] is what its application wrote, [consumed] what it read, [wire] the
    segments given to the network; [log] are the segments that occupy sequence numbers, in
    the order in which they were first queued. *)
Record side := mkSide {
  conn : TCPConnection;
  written : bytes;
  consumed : bytes;
  wire : list TCPSegment;
  log : list TCPSegment
}.

Definition make_side (random : Z) (cfg : TCPConfig.TCPConfig) : side := mkSide (make random cfg) [] [] [] [].

(** The segments an operation queued. *)
Definition queued (c c' : TCPConnection) : list TCPSegment :=
  drop (length (_segments_out c)) (_segments_out c').

Definition act (o : op) (e : side) : side :=
  let c := conn e in
  let c' := step o c in
  mkSide c'
    (match o with Write d => written e ++ take (Z.to_nat (write d c).2) d | _ => written e end)
    (match o with Read n => consumed e ++ (ByteStream.read n (inbound_stream c)).2 | _ => consumed e end)
    (match o with Dequeue => wire e ++ take 1 (_segments_out c) | _ => wire e end)
    (match o with
     | Tick _ | Destroy | Read _ | Dequeue => log e
     | _ => log e ++ filter (fun x => 0 < seg_len x) (queued c c')
     end).

(** A segment that only acknowledges. *)
Definition bare (seg : TCPSegment) : Prop := data seg = [] /\ syn seg = false /\ fin seg = false.

(** The arrivals the receiver of [e] handles before its input has ended, as in [transfer]. *)
Definition handled (seg : TCPSegment) (e peer : side) : Prop :=
  let r := _receiver (conn e) in
  let n := ByteStream.bytes_written (TCPReceiver.stream_out r) in
  let head := StreamReassembler._head_index (TCPReceiver._reassembler r) in
  (forall index a, position (log peer) seg index a ->
     Z.abs (a - n) < 2 ^ 31 /\ (data seg = [] -> fin seg = true -> index <= head) /\
     (syn seg = true -> TCPReceiver._set_isn r = true -> data seg = [] /\ fin seg = false)) /\
  (bare seg -> TCPReceiver._set_isn r = true ->
     exists index, TCPHeader.seqno (header seg) = Wrapping.wrap (1 + index) (TCPSender._isn (_sender (conn peer))) /\
       Z.abs (1 + index - n) < 2 ^ 31 /\ 0 <= index <= head).

(** What may happen at [e]: a segment of the peer arrives that is still or was once on the
    wire; and what the application and the clock do, short of giving the connection up.
    Less than 2^31 sequence numbers are in flight, and less than 2^62 bytes are written. *)
Definition allowed (o : op) (e peer : side) : Prop :=
  let c := conn e in
  TCPSender._next_seqno (_sender (step o c)) - acked (_sender c) < 2 ^ 31 /\
  match o with
  | Receive seg => seg ∈ wire peer /\
      (ByteStream.input_ended (inbound_stream c) = true \/ handled seg e peer)
  | Write d => zlen (written e ++ take (Z.to_nat (write d c).2) d) < 2 ^ 62
  | Tick ms => TCPSender.consecutive_retransmissions (TCPSender.tick ms (_sender c)) <= TCPConfig.MAX_RETX_ATTEMPTS
  | Read n => 0 <= n
  | Destroy => False
  | _ => True
  end.

Inductive reached (ra rb : Z) (ca cb : TCPConfig.TCPConfig) : side -> side -> Prop :=
  | reached_start : reached ra rb ca cb (make_side ra ca) (make_side rb cb)
  | reached_left a b o : reached ra rb ca cb a b -> allowed o a b -> reached ra rb ca cb (act o a) b
  | reached_right a b o : reached ra rb ca cb a b -> allowed o b a -> reached ra rb ca cb a (act o b).

(** ** Segments that are alike *)
Lemma with_alike r x : alike (with_ackno_and_win r x) x.
Proof. by split. Qed.
Lemma alike_sym x y : alike x y -> alike y x.
Proof. intros []. by split. Qed.
Lemma alike_trans x y z : alike x y -> alike y z -> alike x z.
Proof. intros [] []. split; congruence. Qed.
Lemma alike_len x y : alike x y -> seg_len x = seg_len y.
Proof. intros []. unfold seg_len. congruence. Qed.

Section Logs.
Context (l raw : list TCPSegment) (A : Forall2 alike l raw).

Lemma alike_payloads : payloads l = payloads raw.
Proof. induction A as [|x y l' r' Hx A' IH]; [done|]. cbn. by rewrite IH, (alike_data _ _ Hx). Qed.

Lemma alike_log_len : log_len l = log_len raw.
Proof. induction A as [|x y l' r' Hx A' IH]; [done|]. cbn. by rewrite IH, (alike_len _ _ Hx). Qed.

Lemma alike_numbered isn a : numbered isn a raw -> numbered isn a l.
Proof.
  revert a. induction A as [|x y l' r' Hx A' IH]; intros a; [done|]. cbn.
  rewrite (alike_len _ _ Hx), (alike_seqno _ _ Hx). intros (?&?&?). auto.
Qed.

Lemma alike_Forall (P : TCPSegment -> Prop) :
  (forall x y, alike x y -> P y -> P x) -> Forall P raw -> Forall P l.
Proof.
  intros HP. induction A as [|x y l' r' Hx A' IH]; [done|]. intros [? ?]%Forall_cons.
  constructor; [by eapply HP|auto].
Qed.

Lemma alike_position seg x : x ∈ raw -> alike seg x -> exists index a, position l seg index a.
Proof.
  intros (r1&r2&E)%list_elem_of_split Hs. rewrite E in A. apply Forall2_app_inv_r in A as (l1&l2&A1&A2&->).
  inversion A2 as [|y ? l2' ? Hy A3]; subst. exists (zlen (payloads l1)), (log_len l1), l1, y, l2'.
  split; [done|]. split; [|done]. eapply alike_trans; [done|by apply alike_sym].
Qed.

End Logs.

Lemma alike_syn_first l raw : Forall2 alike l raw -> syn_first raw -> syn_first l.
Proof.
  intros [|x y l' r' Hx A]; [done|]. cbn. rewrite (alike_syn _ _ Hx). intros [? F]. split; [done|].
  eapply alike_Forall; [done| |done]. intros u v []. congruence.
Qed.
Lemma alike_fin_last b l raw : Forall2 alike l raw -> fin_last b raw -> fin_last b l.
Proof.
  intros A. destruct b; cbn.
  - intros (k&x&->&Hx&F). apply Forall2_app_inv_r in A as (l1&l2&A1&A2&->).
    inversion A2 as [|y ? l2' ? Hy A3]; subst. inversion A3; subst. exists l1, y. split; [done|].
    split; [by rewrite (alike_fin _ _ Hy)|]. eapply alike_Forall; [done| |done]. intros u v []. congruence.
  - apply alike_Forall; [done|]. intros u v []. congruence.
Qed.

(** ** No segment resets, and all are well formed *)
Definition calm (seg : TCPSegment) : Prop :=
  TCPHeader.rst (header seg) = false /\ TCPHeader.wf (header seg) /\
  Buffer.wf (payload seg) /\ Buffer.size (payload seg) <= TCPConfig.MAX_PAYLOAD_SIZE.
Definition quiet (s : TCPSender.TCPSender) : Prop :=
  Forall calm (TCPSender._segments_out s) /\ Forall calm (map snd (TCPSender._tcp_seg_cache s)).

(** A new segment: a sequence number, two flags and at most [MAX_PAYLOAD_SIZE] bytes. *)
Lemma fresh_calm n isn syn fin p :
  Buffer.wf p -> Buffer.size p <= TCPConfig.MAX_PAYLOAD_SIZE ->
  calm (mkTCPSegment (TCPHeader.default_header <| TCPHeader.seqno := Wrapping.wrap n isn |>
    <| TCPHeader.syn := syn |> <| TCPHeader.fin := fin |>) p).
Proof.
  intros Hw Hs. split; [done|]. split; [|done]. constructor; cbn -[Wrapping.wrap]; try done. apply wrap_ok.
Qed.

Lemma read_fits n o (content := Buffer.make (ByteStream.read n o).2) :
  n <= TCPConfig.MAX_PAYLOAD_SIZE -> Buffer.wf content /\ Buffer.size content <= TCPConfig.MAX_PAYLOAD_SIZE.
Proof.
  assert (forall k s start, length (ByteStream.peek_loop k s start) = k) as Hl.
  { intros k. induction k as [|k IH]; intros s start; cbn; [done|]. by rewrite IH. }
  unfold content, TCPConfig.MAX_PAYLOAD_SIZE. intros Hn.
  assert (zlen (ByteStream.read n o).2 <= 1000) by (cbn; unfold ByteStream.peek_output, zlen; rewrite Hl; lia).
  split; [apply Buffer.make_wf; lia|]. unfold Buffer.size. by rewrite Buffer.str_make.
Qed.

Lemma push_quiet seg s : calm seg -> quiet s -> quiet (TCPSender.push_segment seg s).
Proof.
  intros Hs [Ho Hc]. split; cbn; rewrite ?map_app; apply Forall_app; (split; [done|]); by constructor.
Qed.

Lemma fill_step_quiet s : quiet s -> quiet (TCPSender.fill_step s).1.
Proof.
  intros Q. unfold TCPSender.fill_step. destruct (negb _); [done|]. destruct (_ =? 0); [done|].
  unfold TCPSender.next_segment. set (n := Z.max 1 _).
  destruct (read_fits n (TCPSender._stream s)) as [Hw Hz]; [unfold n, TCPConfig.MAX_PAYLOAD_SIZE; lia|].
  destruct (ByteStream.read _ _) as [stream content]. destruct (_ =? 0); [done|].
  apply push_quiet; [by apply fresh_calm|done].
Qed.

Lemma fill_window_quiet s : quiet s -> quiet (TCPSender.fill_window s).
Proof.
  intros Q. unfold TCPSender.fill_window. destruct (_ && _).
  - unfold TCPSender.fill_zero_window. destruct (negb _).
    + destruct (read_fits 1 (TCPSender._stream s)) as [Hw Hz]; [done|].
      destruct (ByteStream.read _ _) as [stream content]. destruct (_ =? 0); [done|].
      apply push_quiet; [by apply (fresh_calm _ _ false false)|done].
    + destruct (_ && _); (destruct (_ =? 0); [done|]);
        (apply push_quiet; [apply (fresh_calm _ _ false); [apply Buffer.empty_wf|done]|done]).
  - generalize (S (Z.to_nat (TCPSender._window_size s))) as fuel. intros fuel. revert s Q.
    induction fuel as [|fuel IH]; intros s Q; cbn [TCPSender.fill_loop]; [done|].
    pose proof (fill_step_quiet s Q) as D. destruct (TCPSender.fill_step s) as [s' []]; cbn [fst] in D; auto.
Qed.

Lemma remove_acked_quiet s : quiet s -> quiet (TCPSender.remove_acked_seg s).
Proof.
  intros [Ho Hc]. split; [done|]. cbn. revert Hc. generalize (TCPSender._tcp_seg_cache s) as c. intros c.
  induction c as [|[t x] c IH]; cbn [TCPSender.remove_acked_loop]; [done|]. intros Hc. destruct (_ <=? _); [|done].
  apply IH. by apply Forall_cons in Hc as [_ ?].
Qed.

Lemma ack_received_quiet a w s : quiet s -> quiet (TCPSender.ack_received a w s).
Proof.
  intros Q. unfold TCPSender.ack_received. destruct (_ || _); [done|]. destruct (Wrapping.eqb _ _); [done|].
  set (s2 := _ <| TCPSender._latest_ackno := a |>). assert (quiet s2) as Q2 by done.
  destruct (remove_acked_quiet s2 Q2) as [Ho Hc]. split; [done|]. cbn -[TCPSender.remove_acked_seg] in *.
  by destruct (TCPSender._tcp_seg_cache (TCPSender.remove_acked_seg s2)) as [|[t x] c].
Qed.

Lemma tick_quiet ms s : quiet s -> quiet (TCPSender.tick ms s).
Proof.
  intros Q. unfold TCPSender.tick. set (s1 := s <| TCPSender._now_time_ms ::= _ |>).
  destruct (remove_acked_quiet s1 Q) as [Ho Hc]. set (s2 := TCPSender.remove_acked_seg s1) in *. clearbody s2.
  destruct (TCPSender._tcp_seg_cache s2) as [|[t x] c] eqn:Ec; [split; [done|by rewrite Ec]|].
  destruct (_ <=? _); [|split; [done|by rewrite Ec]].
  assert (calm x) as Hx by (by apply Forall_cons in Hc as [? _]).
  destruct (negb _); (split; [cbn; apply Forall_app; split; [done|by constructor]|done]).
Qed.

(** ** What an operation sends

    [s1] is the sender before its queue was moved to the connection's. *)
Definition sends (c c' : TCPConnection) (s1 : TCPSender.TCPSender) : Prop :=
  _sender c' = s1 <| TCPSender._segments_out := [] |> /\
  _segments_out c' = _segments_out c ++ map (with_ackno_and_win (_receiver c')) (TCPSender._segments_out s1).

(** From a sender of which [raw] was sent to [s1], of which [raw ++ new] was; what is queued
    besides [new] occupies no sequence numbers. *)
Definition grows (s : TCPSender.TCPSender) (w : bytes) (raw : list TCPSegment)
    (s1 : TCPSender.TCPSender) (p' : Pipe.Pipe) (new : list TCPSegment) : Prop :=
  inv s1 p' (raw ++ new) /\ quiet s1 /\ Pipe.written p' = w /\ TCPSender._isn s1 = TCPSender._isn s /\
  exists extra, TCPSender._segments_out s1 = new ++ extra /\ Forall (fun x => seg_len x = 0) extra.

Lemma with_stream_grows s p p' raw stream :
  inv s p raw -> StreamRefinement.refines stream p' -> zlen (Pipe.written p') < 2 ^ 62 ->
  Pipe.popped p' = Pipe.popped p ->
  take (Z.to_nat (Pipe.popped p)) (Pipe.written p') = take (Z.to_nat (Pipe.popped p)) (Pipe.written p) ->
  (Pipe.ended p = true -> Pipe.ended p' = true /\ Pipe.written p' = Pipe.written p) ->
  inv (s <| TCPSender._stream := stream |>) p' raw.
Proof.
  intros I R' Hs Ep Et He. eapply SenderTheorems.with_stream_inv; [done..|].
  intros Hf. destruct I as [[_ _ _ L _ _ _ _] _]. destruct (log_ended _ _ _ _ _ _ L Hf) as [Hend Hpop].
  destruct (He Hend) as [? ->]. split; [done|congruence].
Qed.

Lemma fill_grows s p raw :
  inv s p raw -> quiet s -> TCPSender._segments_out s = [] ->
  TCPSender._next_seqno (TCPSender.fill_window s) - acked s < 2 ^ 31 ->
  exists p' new, grows s (Pipe.written p) raw (TCPSender.fill_window s) p' new /\
    TCPSender._segments_out (TCPSender.fill_window s) = new.
Proof.
  intros I Q Hq Hn. destruct (fill_window_inv s p raw I) as (p'&new&_&T&F&H). destruct (H Hn) as [I' _].
  exists p', new. assert (TCPSender._segments_out (TCPSender.fill_window s) = new) as Eq
    by (by rewrite (frame_out _ _ _ F), Hq). split; [|done]. split; [done|]. split; [by apply fill_window_quiet|].
  split; [by destruct T as [-> _]|]. split; [apply (frame_isn _ _ _ F)|].
  exists []. split; [by rewrite app_nil_r|constructor].
Qed.

Lemma send_empty_grows s w raw s1 p' :
  grows s w raw s1 p' [] -> TCPSender._segments_out s1 = [] ->
  grows s w raw (TCPSender.send_empty_segment s1) p' [].
Proof.
  intros (I&[Qo Qc]&Hw&Hi&_) Eo. split; [by apply send_empty_inv|]. split.
  - split; [|done]. cbn -[Wrapping.wrap]. rewrite Eo. constructor; [|done].
    apply (fresh_calm _ _ false false); [apply Buffer.empty_wf|done].
  - split; [done|]. split; [done|]. eexists. cbn. rewrite Eo. split; [done|]. by constructor.
Qed.

(** The bytes a write accepts. *)
Lemma write_accepts d o p :
  StreamRefinement.refines o p -> take (Z.to_nat (ByteStream.write d o).2) d = Pipe.accepted d p.
Proof.
  intros R. destruct (StreamRefinement.write_ok _ _ R d) as [_ ->]. cbn. unfold Pipe.accepted.
  destruct (Pipe.ended p); [done|]. unfold zlen. rewrite Nat2Z.id, length_take.
  destruct (Nat.min_spec (Z.to_nat (Pipe.room p)) (length d)) as [[? ->]|[? ->]]; [done|].
  by rewrite !take_ge by lia.
Qed.

Section Sends.
Context (c : TCPConnection) (p : Pipe.Pipe) (raw : list TCPSegment).
Context (I : inv (_sender c) p raw) (Q : quiet (_sender c)) (Hq : TCPSender._segments_out (_sender c) = []).

Lemma connect_sends :
  TCPSender._next_seqno (_sender (connect c)) - acked (_sender c) < 2 ^ 31 ->
  exists s1 p' new, sends c (connect c) s1 /\ grows (_sender c) (Pipe.written p) raw s1 p' new.
Proof.
  intros Hn. destruct (fill_grows _ _ _ I Q Hq) as (p'&new&G&_); [exact Hn|].
  exists (TCPSender.fill_window (_sender c)), p', new. by split.
Qed.

Lemma write_sends d :
  TCPSender._next_seqno (_sender (write d c).1) - acked (_sender c) < 2 ^ 31 ->
  zlen (Pipe.written p ++ take (Z.to_nat (write d c).2) d) < 2 ^ 62 ->
  exists s1 p' new, sends c (write d c).1 s1 /\
    grows (_sender c) (Pipe.written p ++ take (Z.to_nat (write d c).2) d) raw s1 p' new.
Proof.
  intros Hn Hsm. rewrite write_eq in *. destruct (ConnectionStreams.write_streams d c) as (_&_&E).
  rewrite E in *. clear E. unfold ConnectionStreams.outbound_stream in *.
  destruct (I) as [[R _ _ _ _ _ _ _] _]. rewrite (write_accepts _ _ _ R) in *.
  destruct (StreamRefinement.write_ok _ _ R d) as [R' _]. destruct (StreamRefinement.ref_wf _ _ R) as [? ? ?].
  set (s0 := (_sender c) <| TCPSender._stream := (ByteStream.write d (TCPSender._stream (_sender c))).1 |>).
  assert (inv s0 (Pipe.write d p).1 raw) as I0.
  { eapply with_stream_grows; [done|done|exact Hsm|done| |].
    - cbn. apply take_app_le. unfold zlen in *. lia.
    - intros He. split; [done|]. cbn. unfold Pipe.accepted. by rewrite He, app_nil_r. }
  destruct (fill_grows s0 _ raw I0) as (p'&new&G&_); [done|done|exact Hn|].
  exists (TCPSender.fill_window s0), p', new. split; [done|]. exact G.
Qed.

Lemma end_input_sends :
  TCPSender._next_seqno (_sender (end_input_stream c)) - acked (_sender c) < 2 ^ 31 ->
  exists s1 p' new, sends c (end_input_stream c) s1 /\ grows (_sender c) (Pipe.written p) raw s1 p' new.
Proof.
  intros Hn. destruct (I) as [[R Hsm _ _ _ _ _ _] _].
  set (s0 := (_sender c) <| TCPSender._stream := ByteStream.end_input (TCPSender._stream (_sender c)) |>).
  assert (inv s0 (Pipe.end_input p) raw) as I0.
  { eapply with_stream_grows; [done|by apply StreamRefinement.end_input_ok|done|done|done|done]. }
  destruct (fill_grows s0 _ raw I0) as (p'&new&G&_); [done|done|exact Hn|].
  exists (TCPSender.fill_window s0), p', new. split; [done|]. exact G.
Qed.

(** The reply to a segment: new segments, or one that only acknowledges, or nothing. *)
Lemma reply_sends seg c1 p1 :
  inv (_sender c1) p1 raw -> quiet (_sender c1) -> TCPSender._segments_out (_sender c1) = [] ->
  TCPSender._next_seqno (_sender (reply seg c1)) - acked (_sender c1) < 2 ^ 31 ->
  exists p' new, grows (_sender c1) (Pipe.written p1) raw (_sender (reply seg c1)) p' new /\
    _receiver (reply seg c1) = _receiver c1 /\ _segments_out (reply seg c1) = _segments_out c1.
Proof.
  intros I1 Q1 Hq1 Hn. unfold reply in *. destruct (TCPReceiver.ackno _) as [ackno|].
  2: { exists p1, []. split; [|done]. split; [by rewrite app_nil_r|]. split; [done|]. split; [done|].
       split; [done|]. by exists []. }
  set (c2 := c1 <| _sender ::= TCPSender.fill_window |>) in *.
  assert (TCPSender._next_seqno (TCPSender.fill_window (_sender c1)) - acked (_sender c1) < 2 ^ 31) as Hn'.
  { clear -Hn. change (TCPSender.fill_window (_sender c1)) with (_sender c2). repeat case_match; done. }
  destruct (fill_grows _ _ _ I1 Q1 Hq1 Hn') as (p'&new&G&En). change (TCPSender.fill_window (_sender c1)) with (_sender c2) in *.
  exists p', new. destruct (TCPSender._segments_out (_sender c2)) as [|x q] eqn:Eo; [|done]. subst new.
  pose proof (send_empty_grows _ _ _ _ _ G Eo) as Ge.
  destruct (bool_of_Z _); [done|]. by destruct (Wrapping.eqb _ _).
Qed.

Lemma clear_queue s : TCPSender._segments_out s = [] -> s <| TCPSender._segments_out := [] |> = s.
Proof. destruct s. cbn. by intros ->. Qed.

(** A segment whose acknowledgement the sender can take. *)
Definition acks_well (seg : TCPSegment) (syned : bool) : Prop :=
  TCPHeader.ack (header seg) = true ->
  syned = true /\ wrapping_ok (TCPHeader.ackno (header seg)) /\ 0 <= TCPHeader.win (header seg) < 2 ^ 16.

Lemma deliver_sends seg (c0 := c <| _seg_received_time_ms := TCPConnection._now_time_ms c |>) :
  acks_well seg (TCPSender._syned (_sender c)) ->
  inv (_sender (deliver seg c0)) p raw /\ quiet (_sender (deliver seg c0)) /\
  TCPSender._segments_out (_sender (deliver seg c0)) = [] /\
  acked (_sender c) <= acked (_sender (deliver seg c0)) /\
  TCPSender._isn (_sender (deliver seg c0)) = TCPSender._isn (_sender c) /\
  _receiver (deliver seg c0) = TCPReceiver.segment_received seg (_receiver c) /\
  _segments_out (deliver seg c0) = _segments_out c.
Proof.
  intros Hack. unfold deliver. set (c1 := c0 <| _receiver ::= _ |>). set (c2 := if TCPHeader.ack _ then _ else c1).
  assert (inv (_sender c2) p raw /\ quiet (_sender c2) /\ TCPSender._segments_out (_sender c2) = [] /\
    acked (_sender c) <= acked (_sender c2) /\ TCPSender._isn (_sender c2) = TCPSender._isn (_sender c) /\
    _receiver c2 = TCPReceiver.segment_received seg (_receiver c) /\ _segments_out c2 = _segments_out c) as H2.
  { unfold c2. destruct (TCPHeader.ack (header seg)) eqn:Ea; [|by split_and!].
    destruct (Hack Ea) as (Hsy&Hok&Hw).
    destruct (ack_received_inv _ _ _ _ _ I Hok Hw Hsy) as [I' Hc]. split; [exact I'|].
    split; [exact (ack_received_quiet _ _ _ Q)|]. cbn -[TCPSender.ack_received acked].
    set (s' := TCPSender.ack_received _ _ _) in *.
    assert (TCPSender._segments_out s' = [] /\ TCPSender._isn s' = TCPSender._isn (_sender c)) as [Eo Ei].
    { unfold s', TCPSender.ack_received. destruct (_ || _); [done|]. by destruct (Wrapping.eqb _ _). }
    split; [done|]. split; [|done]. destruct (_ && _) eqn:Eb; [|by rewrite Hc].
    destruct Hc as [-> _]. apply andb_true_iff in Eb as [Eb%Z.leb_le _]. done. }
  by destruct (_ && _).
Qed.

Lemma receive_sends seg :
  calm seg -> acks_well seg (TCPSender._syned (_sender c)) ->
  TCPSender._next_seqno (_sender (segment_received seg c)) - acked (_sender c) < 2 ^ 31 ->
  (exists s1 p' new, sends c (segment_received seg c) s1 /\ grows (_sender c) (Pipe.written p) raw s1 p' new) /\
  _receiver (segment_received seg c) = TCPReceiver.segment_received seg (_receiver c).
Proof.
  intros Hr Hack Hn. unfold segment_received in *. cbv zeta in *. rewrite (proj1 Hr) in *.
  destruct (deliver_sends seg Hack) as (I1&Q1&Hq1&Ha&Hi&Er&Eo). cbv zeta in *.
  set (c1 := deliver seg _) in *. clearbody c1. destruct (_ && _).
  - split; [|exact Er]. exists (_sender c1), p, []. split.
    + split; [by rewrite clear_queue|]. cbn. by rewrite Hq1, app_nil_r.
    + split; [by rewrite app_nil_r|]. split; [done|]. split; [done|]. split; [done|]. by exists [].
  - destruct (reply_sends seg c1 p I1 Q1 Hq1) as (p'&new&(Ig&Qg&Hw&Hig&Hx)&Er'&Eo').
    { cbn -[acked reply] in Hn. lia. }
    split; [|cbn; congruence]. exists (_sender (reply seg c1)), p', new. split.
    + split; [done|]. cbn. by rewrite Eo', Eo.
    + split; [done|]. split; [done|]. split; [done|]. split; [congruence|done].
Qed.

Lemma tick_sends ms :
  TCPSender.consecutive_retransmissions (TCPSender.tick ms (_sender c)) <= TCPConfig.MAX_RETX_ATTEMPTS ->
  let s1 := TCPSender.tick ms (_sender c) in
  sends c (tick ms c) s1 /\ inv s1 p raw /\ quiet s1 /\ TCPSender._isn s1 = TCPSender._isn (_sender c) /\
  _receiver (tick ms c) = _receiver c.
Proof.
  intros Hm. cbv zeta. split; [|split; [by apply tick_inv|split; [by apply tick_quiet|]]].
  - unfold tick. cbn -[TCPSender.tick TCPConfig.MAX_RETX_ATTEMPTS]. destruct (Z.ltb_spec TCPConfig.MAX_RETX_ATTEMPTS
      (TCPSender.consecutive_retransmissions (TCPSender.tick ms (_sender c)))); [lia|]. by destruct (_ && _).
  - split.
    + unfold TCPSender.tick. destruct (TCPSender._tcp_seg_cache _) as [|[t x] cache]; [done|].
      destruct (_ <=? _); [|done]. by destruct (negb _).
    + unfold tick. cbn -[TCPSender.tick TCPConfig.MAX_RETX_ATTEMPTS]. destruct (Z.ltb_spec TCPConfig.MAX_RETX_ATTEMPTS
      (TCPSender.consecutive_retransmissions (TCPSender.tick ms (_sender c)))); [lia|]. by destruct (_ && _).
Qed.

End Sends.
(** ** The sending side *)

(** What may be on the way from a side with log [l] to a peer whose sender has sent its
    SYN, or not. *)
Definition emitted (l : list TCPSegment) (syned : bool) (seg : TCPSegment) : Prop :=
  calm seg /\ ((exists index a, position l seg index a) \/ bare seg) /\ acks_well seg syned.

Record sending (e : side) (syned : bool) (p : Pipe.Pipe) (raw : list TCPSegment) : Prop := mk_sending {
  snd_inv : inv (_sender (conn e)) p raw;
  snd_quiet : quiet (_sender (conn e));
  snd_queue : TCPSender._segments_out (_sender (conn e)) = [];
  snd_written : Pipe.written p = written e;
  snd_log : Forall2 alike (log e) raw;
  snd_out : Forall (emitted (log e) syned) (_segments_out (conn e) ++ wire e)
}.

Lemma emitted_grows l k syned syned' seg :
  (syned = true -> syned' = true) -> emitted l syned seg -> emitted (l ++ k) syned' seg.
Proof.
  intros Hs (Hc&Hp&Ha). split; [done|]. split.
  - destruct Hp as [(index&a&Hp)|?]; [left|by right]. exists index, a. by apply position_grows.
  - intros H. destruct (Ha H) as (?&?). auto.
Qed.

Lemma seg_len_bare seg : seg_len seg = 0 -> bare seg.
Proof.
  unfold seg_len, bare. pose proof (zlen_nonneg (data seg)). intros Hl.
  destruct (syn seg), (fin seg); cbn in Hl; try lia. split; [|done]. apply nil_length_inv. unfold zlen in *. lia.
Qed.

Lemma stamp_range r :
  wrapping_ok (default (mkWrappingInt32 0) (TCPReceiver.ackno r)) /\
  0 <= (if 65535 <? TCPReceiver.window_size r then 65535 else u16 (TCPReceiver.window_size r)) < 2 ^ 16.
Proof.
  split.
  - unfold TCPReceiver.ackno. destruct (negb _); [done|]. apply wrap_ok.
  - destruct (_ <? _); [done|apply u16_range].
Qed.

Lemma stamped_calm r x : calm x -> calm (with_ackno_and_win r x).
Proof.
  intros (Hr&[]&Hp). destruct (stamp_range r) as [Ha Hw]. split; [done|]. split; [|done]. by constructor.
Qed.

(** A segment of the sender's, on its way out. *)
Lemma emitted_out l raw r syned x :
  Forall2 alike l raw -> x ∈ raw \/ seg_len x = 0 -> calm x ->
  (TCPReceiver._set_isn r = true -> syned = true) -> receiver_error r = false ->
  emitted l syned (with_ackno_and_win r x).
Proof.
  intros A Hx Hc Hs He. split; [by apply stamped_calm|]. split.
  - destruct Hx as [Hx|Hx]; [left; by eapply alike_position|]. right. apply seg_len_bare. exact Hx.
  - unfold acks_well, with_ackno_and_win.
    cbn -[TCPState.receiver_summary TCPReceiver.ackno TCPReceiver.window_size]. intros Ha. split_and!.
    + apply Hs. revert Ha. unfold TCPState.receiver_summary, TCPReceiver.ackno. unfold receiver_error in He. rewrite He.
      by destruct (TCPReceiver._set_isn r).
    + apply stamp_range.
    + apply stamp_range.
    + apply stamp_range.
Qed.

Lemma grown_log l raw new extra r :
  Forall2 alike l raw -> Forall (fun x => 0 < seg_len x) new -> Forall (fun x => seg_len x = 0) extra ->
  Forall2 alike (l ++ filter (fun x => 0 < seg_len x) (map (with_ackno_and_win r) (new ++ extra))) (raw ++ new).
Proof.
  intros A Hn Hx. apply Forall2_app; [done|]. rewrite map_app, filter_app.
  assert (filter (fun x => 0 < seg_len x) (map (with_ackno_and_win r) extra) = []) as ->.
  { induction Hx as [|x l' Hl _ IH]; [done|]. cbn [map]. rewrite filter_cons_False; [done|].
    rewrite (alike_len _ _ (with_alike r x)). lia. }
  rewrite app_nil_r. induction Hn as [|x l' Hl _ IH]; [constructor|]. cbn [map].
  rewrite filter_cons_True by (rewrite (alike_len _ _ (with_alike r x)); lia).
  constructor; [apply with_alike|done].
Qed.

Lemma numbered_positive isn a l : numbered isn a l -> Forall (fun x => 0 < seg_len x) l.
Proof. revert a. induction l as [|x l IH]; intros a; [done|]. intros (_&?&?). constructor; eauto. Qed.

(** After an operation that sends. *)
Lemma sending_step e syned p raw c' s1 p' raw' w cs l' :
  sending e syned p raw -> sends (conn e) c' s1 -> inv s1 p' raw' -> quiet s1 -> Pipe.written p' = w ->
  Forall2 alike l' raw' -> (exists k, l' = log e ++ k) ->
  (TCPReceiver._set_isn (_receiver c') = true -> syned = true) -> receiver_error (_receiver c') = false ->
  sending (mkSide c' w cs (wire e) l') syned p' raw'.
Proof.
  intros [_ _ _ _ _ Ho] [Es Eo] I [Qo Qc] Hw A [k ->] Hs He. destruct (I) as [[R Hsm Hi L Hwi Hu Hun Hout] [? ? ? ?]].
  split; cbn [conn written consumed wire log]; try done.
  - rewrite Es. by split; split.
  - rewrite Es. by split; [constructor|].
  - by rewrite Es.
  - rewrite Eo, <- app_assoc. apply Forall_app in Ho as [Ho1 Ho2]. apply Forall_app.
    split; [eapply Forall_impl; [exact Ho1|]; intros x; by apply emitted_grows|]. apply Forall_app.
    split; [|eapply Forall_impl; [exact Ho2|]; intros x; by apply emitted_grows].
    rewrite Forall_map. rewrite Forall_forall in Hout, Qo |- *. intros x Hx. apply (emitted_out _ raw'); auto.
Qed.

(** ** The receiving side *)
Abbreviation isn_of e := (TCPSender._isn (_sender (conn e))).
Abbreviation syned_of e := (TCPSender._syned (_sender (conn e))).
Abbreviation fin_of e := (TCPSender._fin (_sender (conn e))).

(** The stream has ended at [b], with all that [a] wrote. *)
Definition finished (a b : side) : Prop :=
  fin_of a = true /\
  exists q, StreamRefinement.refines (inbound_stream (conn b)) q /\ Pipe.ended q = true /\
    consumed b = take (Z.to_nat (Pipe.popped q)) (Pipe.written q) /\ Pipe.written q = written a.

Record receiving (cap : Z) (a b : side) : Prop := mk_receiving {
  rcv_state : (exists got, transfer (isn_of a) (log a) cap (_receiver (conn b)) (consumed b) got) \/ finished a b;
  rcv_syn : TCPReceiver._set_isn (_receiver (conn b)) = true -> syned_of a = true;
  rcv_error : receiver_error (_receiver (conn b)) = false
}.

Lemma transfer_state cap a b syned p raw got :
  0 < cap < 2 ^ 63 -> sending a syned p raw ->
  transfer (isn_of a) (log a) cap (_receiver (conn b)) (consumed b) got ->
  exists q, StreamRefinement.refines (inbound_stream (conn b)) q /\
    consumed b = take (Z.to_nat (Pipe.popped q)) (Pipe.written q) /\ Pipe.written q `prefix_of` written a /\
    (Pipe.ended q = true -> finished a b).
Proof.
  intros Hcap [[[R Hsm Hi [Hnum _ Hpay Hsyn _ Hfin Hend _] _ _ _ _] _] _ _ Ew A _] T. rewrite <- Ew.
  destruct (transfer_pipe (isn_of a) (log a) (fin_of a) (Pipe.written p)) with (cap := cap)
    (r := _receiver (conn b)) (consumed := consumed b) (got := got) as (q&Rq&Hc&Hp&He); try done.
  - by eapply alike_numbered.
  - by eapply alike_syn_first.
  - by eapply alike_fin_last.
  - rewrite (alike_payloads _ _ A), Hpay. exists (drop (Z.to_nat (Pipe.popped p)) (Pipe.written p)). by rewrite take_drop.
  - intros Hf. rewrite (alike_payloads _ _ A), Hpay. destruct (Hend Hf) as [_ ->]. unfold zlen. by rewrite Nat2Z.id, firstn_all.
  - exists q. split; [done|]. split; [done|]. split; [done|]. intros Hq. destruct (He Hq) as [Hf Hw].
    split; [done|]. exists q. by rewrite <- Ew.
Qed.

Lemma syned_log e syned p raw : sending e syned p raw -> syned_of e = true <-> log e <> [].
Proof.
  intros [[[_ _ _ L _ _ _ _] _] _ _ _ A _]. rewrite (log_syned _ _ _ _ _ _ L).
  destruct A; [by rewrite bool_decide_eq_true_2|]. by rewrite bool_decide_eq_false_2.
Qed.

(** The sender goes on. *)
Lemma receiving_sender cap a a' b syned syned' p p' raw raw' :
  receiving cap a b -> sending a syned p raw -> sending a' syned' p' raw' -> isn_of a' = isn_of a ->
  (exists k, raw' = raw ++ k) -> (exists k, log a' = log a ++ k) -> (Pipe.ended p = true -> written a' = written a) ->
  receiving cap a' b.
Proof.
  intros [St Hs He] S S' Ei [k Er] [k' El] Hw. split; [|rewrite (syned_log _ _ _ _ S'), El|done].
  - destruct St as [(got&T)|(Hf&q&Rq&Hq&Hc&Ew)].
    + left. exists got. rewrite Ei, El. by apply transfer_grows.
    + right. destruct S as [[[_ _ _ [_ _ _ _ _ Hfin Hend _] _ _ _ _] _] _ _ _ _ _].
      destruct S' as [[[_ _ _ [_ _ _ _ _ Hfin' _ _] _ _ _ _] _] _ _ _ _ _]. split.
      * destruct (fin_of a'); [done|]. cbn in Hfin'. rewrite Er in Hfin'. apply Forall_app in Hfin' as [Hno _].
        rewrite Hf in Hfin. destruct Hfin as (l&x&->&Hx&_). apply Forall_app in Hno as [_ Hno].
        apply Forall_cons in Hno as [Hno _]. congruence.
      * exists q. split; [done|]. split; [done|]. split; [done|]. rewrite Hw; [done|]. by destruct (Hend Hf).
  - intros Hset. apply Hs in Hset. rewrite (syned_log _ _ _ _ S) in Hset. by destruct (log a).
Qed.

Lemma fed_ended o o' p :
  ConnectionStreams.fed o o' -> StreamRefinement.refines o p -> Pipe.ended p = true ->
  exists p', StreamRefinement.refines o' p' /\ Pipe.ended p' = true /\
    Pipe.popped p' = Pipe.popped p /\ Pipe.written p' = Pipe.written p.
Proof.
  intros F R He. induction F as [|o' d F (p'&R'&He'&Hp&Hw)|o' F (p'&R'&He'&Hp&Hw)|o' F (p'&R'&He'&Hp&Hw)].
  - by exists p.
  - exists (Pipe.write d p').1. split; [by apply StreamRefinement.write_ok|]. cbn. unfold Pipe.accepted.
    by rewrite He', app_nil_r.
  - exists (Pipe.end_input p'). split; [by apply StreamRefinement.end_input_ok|done].
  - exists (Pipe.set_error p'). split; [by apply StreamRefinement.set_error_ok|done].
Qed.

Lemma set_isn_after seg r :
  TCPReceiver._set_isn (TCPReceiver.segment_received seg r) = true ->
  TCPReceiver._set_isn r = true \/ syn seg = true.
Proof.
  unfold TCPReceiver.segment_received. fold (syn seg).
  destruct (TCPReceiver._set_isn r) eqn:E; [by left|]. destruct (syn seg); [by right|]. cbn. by rewrite E.
Qed.

(** A segment of the log has a place there; a segment with SYN is not bare. *)
Lemma emitted_syn l s seg : emitted l s seg -> syn seg = true -> l <> [].
Proof.
  intros (_&[(index&a&l1&x&l2&->&_)|(_&Hn&_)]&_) Hs; [by destruct l1|congruence].
Qed.

(** A segment arrives. *)
Lemma receiving_segment cap a b b' seg syned p raw :
  0 < cap < 2 ^ 63 -> receiving cap a b -> sending a syned p raw -> emitted (log a) syned seg ->
  ByteStream.input_ended (inbound_stream (conn b)) = true \/ handled seg b a ->
  _receiver (conn b') = TCPReceiver.segment_received seg (_receiver (conn b)) -> consumed b' = consumed b ->
  receiving cap a b'.
Proof.
  intros Hcap [St Hs He] S Em Hh Er Ec. split.
  - assert (finished a b -> finished a b') as Hfin.
    { intros (Hf&q&Rq&Hq&Hc&Ew). split; [done|].
      destruct (fed_ended (inbound_stream (conn b)) (inbound_stream (conn b')) q) as (q'&Rq'&Hq'&Hp'&Hw'); [|done|done|].
      { unfold inbound_stream. rewrite Er. apply ConnectionStreams.receiver_fed. }
      exists q'. by rewrite Ec, Hw', Hp'. }
    destruct St as [(got&T)|?]; [|right; auto].
    destruct (transfer_state _ _ _ _ _ _ _ Hcap S T) as (q&Rq&_&_&Hend).
    destruct Hh as [Hh|[Hpos Hbare]].
    { right. apply Hfin, Hend. rewrite <- (StreamRefinement.ref_ended _ _ Rq). exact Hh. }
    left. rewrite Er, Ec. destruct Em as (_&[(index&n&Hp)|Hb]&_).
    + destruct (Hpos _ _ Hp) as (?&?&?). eexists. by eapply transfer_segment.
    + destruct Hb as (Hd&Hsy&Hf). exists got. destruct (TCPReceiver._set_isn (_receiver (conn b))) eqn:Eset.
      * destruct (Hbare (conj Hd (conj Hsy Hf)) eq_refl) as (index&?&?&?). eapply transfer_empty; done.
      * eapply (transfer_empty _ _ _ _ _ _ seg 0); try done. by rewrite Eset.
  - rewrite Er, (syned_log _ _ _ _ S). intros [Hset|Hsyn]%set_isn_after; [|by eapply emitted_syn].
    by apply (syned_log _ _ _ _ S), Hs.
  - rewrite Er. by rewrite segment_received_error.
Qed.

(** The application reads. *)
Lemma receiving_read cap a b n :
  0 <= n -> receiving cap a b -> receiving cap a (act (Read n) b).
Proof.
  intros Hn [St Hs He]. split; [|done|done]. destruct St as [(got&T)|(Hf&q&Rq&Hq&Hc&Ew)].
  - left. exists got. by apply transfer_read.
  - right. split; [done|]. exists (Pipe.read n q).1. destruct (StreamRefinement.read_ok _ _ Rq n Hn) as [R1 R2].
    split; [done|]. split; [done|]. split; [|done]. cbn [act consumed].
    change (consumed b ++ (ByteStream.read n (inbound_stream (conn b))).2 =
      take (Z.to_nat (Pipe.popped (Pipe.pop n q))) (Pipe.written q)).
    rewrite R2, pop_take, Hc; [done| |done]. apply (StreamRefinement.ref_wf _ _ Rq).
Qed.

(** ** Both sides *)
Lemma write_receiver d c : _receiver (write d c).1 = _receiver c.
Proof. by rewrite write_eq. Qed.

#[local] Opaque tick segment_received write.

Lemma sends_grown e syned p raw c' s1 p' new w cs :
  sending e syned p raw -> sends (conn e) c' s1 -> grows (_sender (conn e)) w raw s1 p' new ->
  (TCPReceiver._set_isn (_receiver c') = true -> syned = true) -> receiver_error (_receiver c') = false ->
  sending (mkSide c' w cs (wire e) (log e ++ filter (fun x => 0 < seg_len x) (queued (conn e) c'))) syned p' (raw ++ new) /\
  TCPSender._isn (_sender c') = isn_of e.
Proof.
  intros S Hs (I&Q&Hw&Hi&extra&Eq&Hx) Hset He. pose proof Hs as [Es Eo]. split; [|rewrite Es; exact Hi].
  eapply sending_step; [exact S|exact Hs|exact I|exact Q|exact Hw| |by eexists|done|done].
  unfold queued. rewrite Eo, drop_app_length, Eq. apply grown_log; [apply S| |done].
  destruct I as [[_ _ _ [Hn _ _ _ _ _ _ _] _ _ _ _] _]. apply numbered_app in Hn as [_ Hn]. by eapply numbered_positive.
Qed.

(** What the operation at one side leaves of its sending. *)
Definition continues (e e' : side) (syned : bool) (p : Pipe.Pipe) (raw : list TCPSegment) : Prop :=
  exists p' k k', sending e' syned p' (raw ++ k) /\ isn_of e' = isn_of e /\ log e' = log e ++ k' /\
    (Pipe.ended p = true -> written e' = written e).

Lemma continues_grown e e' syned p raw s1 p' new :
  sending e syned p raw -> sends (conn e) (conn e') s1 -> grows (_sender (conn e)) (written e') raw s1 p' new ->
  (TCPReceiver._set_isn (_receiver (conn e')) = true -> syned = true) ->
  receiver_error (_receiver (conn e')) = false -> wire e' = wire e ->
  log e' = log e ++ filter (fun x => 0 < seg_len x) (queued (conn e) (conn e')) ->
  (Pipe.ended p = true -> written e' = written e) -> continues e e' syned p raw.
Proof.
  intros S Hs G Hset He Ewi El Hend.
  destruct (sends_grown e syned p raw _ s1 p' new (written e') (consumed e') S Hs G Hset He) as [S' Ei].
  exists p', new. eexists. split; [|split; [exact Ei|split; [exact El|exact Hend]]].
  rewrite <- El, <- Ewi in S'. by destruct e'.
Qed.

Lemma continues_same e e' syned p raw s1 :
  sending e syned p raw -> sends (conn e) (conn e') s1 -> inv s1 p raw -> quiet s1 -> TCPSender._isn s1 = isn_of e ->
  (TCPReceiver._set_isn (_receiver (conn e')) = true -> syned = true) ->
  receiver_error (_receiver (conn e')) = false -> wire e' = wire e -> log e' = log e -> written e' = written e ->
  continues e e' syned p raw.
Proof.
  intros S Hs I Q Ei Hset He Ewi El Ew. exists p, [], []. rewrite !app_nil_r.
  split; [|split; [by rewrite (proj1 Hs)|done]]. pose proof S as [_ _ _ Hw A _].
  pose proof (sending_step e syned p raw (conn e') s1 p raw (written e') (consumed e') (log e') S Hs I Q) as S'.
  rewrite Ew, El in S'. destruct e'. cbn in *. subst. apply S'; try done. exists []. by rewrite app_nil_r.
Qed.

(** The operations that may queue segments with new sequence numbers. *)
Definition fills (o : op) : bool := match o with Tick _ | Destroy | Read _ | Dequeue => false | _ => true end.

Lemma conn_act o e : conn (act o e) = step o (conn e).
Proof. done. Qed.

Lemma wire_act o e : fills o = true -> wire (act o e) = wire e.
Proof. by destruct o. Qed.

Lemma log_act o e :
  fills o = true -> log (act o e) = log e ++ filter (fun x => 0 < seg_len x) (queued (conn e) (step o (conn e))).
Proof. by destruct o. Qed.

Lemma written_act o e p syned raw :
  sending e syned p raw -> Pipe.ended p = true -> written (act o e) = written e.
Proof.
  intros [[[R _ _ _ _ _ _ _] _] _ _ _ _ _] Hend. destruct o as [seg|d|ms| | | |n|]; try done. cbn [act written].
  destruct (ConnectionStreams.write_streams d (conn e)) as (_&_&->). unfold ConnectionStreams.outbound_stream.
  rewrite (write_accepts _ _ _ R). unfold Pipe.accepted. by rewrite Hend, app_nil_r.
Qed.

Definition sound (o : op) (e : side) : Prop :=
  match o with Receive seg => calm seg /\ acks_well seg (syned_of e) | _ => True end.

Lemma fills_grows o a b p raw :
  fills o = true -> sending a (syned_of b) p raw -> allowed o a b -> sound o a ->
  exists s1 p' new, sends (conn a) (step o (conn a)) s1 /\ grows (_sender (conn a)) (written (act o a)) raw s1 p' new.
Proof.
  intros Hf [I Q Hq Ew A Ho] [Hn Hal] Hseg.
  destruct o as [seg|d|ms| | | |n|]; try discriminate Hf; cbn [act written]; rewrite <- Ew.
  - exact (proj1 (receive_sends (conn a) p raw I Q Hq seg (proj1 Hseg) (proj2 Hseg) Hn)).
  - rewrite <- Ew in Hal. exact (write_sends (conn a) p raw I Q Hq d Hn Hal).
  - exact (end_input_sends (conn a) p raw I Q Hq Hn).
  - exact (connect_sends (conn a) p raw I Q Hq Hn).
Qed.

Lemma act_continues o a b p raw :
  sending a (syned_of b) p raw -> allowed o a b -> sound o a ->
  (TCPReceiver._set_isn (_receiver (conn (act o a))) = true -> syned_of b = true) ->
  receiver_error (_receiver (conn (act o a))) = false ->
  continues a (act o a) (syned_of b) p raw.
Proof.
  intros S Hal Hseg Hset He. destruct (fills o) eqn:Ef.
  - destruct (fills_grows o a b p raw Ef S Hal Hseg) as (s1&p'&new&Hs&G). rewrite <- conn_act in Hs.
    apply (continues_grown a (act o a) _ _ _ s1 p' new); [done|done|done|done|done|by apply wire_act| |].
    + rewrite conn_act. by apply log_act.
    + by eapply written_act.
  - pose proof S as [I Q Hq Ew A Ho]. destruct Hal as [_ Hal].
    destruct o as [seg|d|ms| | | |n|]; try discriminate Ef; [|done| |].
    + destruct (tick_sends (conn a) p raw I Q ms Hal) as (Hs&I'&Q'&Ei&Er).
      assert (tick ms (conn a) = conn (act (Tick ms) a)) as E by reflexivity. rewrite E in Hs. by apply (continues_same a (act (Tick ms) a) _ _ _ _ S Hs I' Q' Ei).
    + exists p, [], []. by rewrite !app_nil_r.
    + exists p, [], []. rewrite !app_nil_r. split; [|done]. split; try done. cbn [act conn wire log step].
      cbn. destruct (_segments_out (conn a)) as [|x q]; cbn in *; [by rewrite app_nil_r|].
      apply Forall_cons in Ho as [Hx Ho]. rewrite app_assoc. apply Forall_app. by split; [|constructor].
Qed.

Record joined (capa capb : Z) (a b : side) : Prop := mk_joined {
  join_sa : exists p raw, sending a (syned_of b) p raw;
  join_sb : exists p raw, sending b (syned_of a) p raw;
  join_ab : receiving capb a b;
  join_ba : receiving capa b a
}.

Lemma receiving_same cap a b b' :
  receiving cap a b -> _receiver (conn b') = _receiver (conn b) -> consumed b' = consumed b -> receiving cap a b'.
Proof.
  intros [St Hs He] Er Ec. unfold finished, inbound_stream in *. by split; unfold finished, inbound_stream; rewrite ?Er, ?Ec.
Qed.

(** The receiver of the side that acts. *)
Lemma act_receiving o a b p raw capa :
  0 < capa < 2 ^ 63 -> sending b (syned_of a) p raw -> receiving capa b a -> allowed o a b ->
  (exists pa ra, sending a (syned_of b) pa ra) ->
  receiving capa b (act o a) /\ sound o a.
Proof.
  intros Hcap Sb R [Hn Hal] (pa&ra&[I Q Hq Ew A Ho]).
  assert (_receiver (step o (conn a)) = _receiver (conn a) -> consumed (act o a) = consumed a ->
    receiving capa b (act o a)) as Hsame by exact (receiving_same capa b a (act o a) R).
  destruct o as [seg|d|ms| | | |n|]; try (split; [by apply Hsame|done]).
  - destruct Hal as [Hw Hh]. assert (emitted (log b) (syned_of a) seg) as Em.
    { pose proof (snd_out _ _ _ _ Sb) as Hout. rewrite Forall_forall in Hout. apply Hout, elem_of_app. by right. }
    pose proof Em as (Hc&_&Ha). split; [|done].
    destruct (receive_sends (conn a) pa ra I Q Hq seg Hc Ha Hn) as [_ Er].
    by eapply receiving_segment.
  - split; [|done]. apply Hsame; [|done]. apply write_receiver.
  - split; [|done]. apply Hsame; [|done]. by apply (tick_sends (conn a) pa ra I Q ms Hal).
  - split; [|done]. by apply receiving_read.
Qed.

Lemma act_joined capa capb o a b :
  0 < capa < 2 ^ 63 -> joined capa capb a b -> allowed o a b -> joined capa capb (act o a) b.
Proof.
  intros Hcap [(p&raw&Sa) (pb&rb&Sb) Rab Rba] Hal.
  destruct (act_receiving o a b pb rb capa Hcap Sb Rba Hal) as [Rba' Hseg]; [by eauto|].
  destruct (act_continues o a b p raw Sa Hal Hseg (rcv_syn _ _ _ Rba') (rcv_error _ _ _ Rba')) as (p'&k&k'&Sa'&Ei&El&Hw).
  split; [by eauto| | |done].
  - exists pb, rb. destruct Sb as [? ? ? ? ? Ho]. split; try done. eapply Forall_impl; [exact Ho|].
    intros seg Hem. rewrite <- (app_nil_r (log b)). eapply emitted_grows; [|exact Hem].
    rewrite (syned_log _ _ _ _ Sa), (syned_log _ _ _ _ Sa'), El. by destruct (log a).
  - eapply receiving_sender; [exact Rab|exact Sa|exact Sa'|done|by eexists|by eexists|done].
Qed.

Lemma joined_sym capa capb a b : joined capa capb a b -> joined capb capa b a.
Proof. intros []. by split. Qed.

Lemma start_sending random cfg syned :
  Handshake.config_ok random cfg -> exists p, sending (make_side random cfg) syned p [].
Proof.
  intros (Hi&_&Hc).
  destruct (SenderTheorems.run_inv random (TCPConfig.send_capacity cfg) (TCPConfig.rt_timeout cfg) (TCPConfig.fixed_isn cfg) Hc Hi
    _ _ _ (SenderTheorems.run_start _ _ _ _)) as (p&I&E).
  exists p. split; try done; constructor; constructor.
Qed.

Section Delivery.
Context (ra rb : Z) (ca cb : TCPConfig.TCPConfig).
Context (Ha : Handshake.config_ok ra ca) (Hb : Handshake.config_ok rb cb).

Lemma reached_joined a b :
  reached ra rb ca cb a b -> joined (TCPConfig.recv_capacity ca) (TCPConfig.recv_capacity cb) a b.
Proof.
  destruct (Ha) as (_&Hca&_), (Hb) as (_&Hcb&_).
  induction 1 as [|a b o _ J Hal|a b o _ J Hal].
  - destruct (start_sending ra ca false Ha) as (pa&Sa), (start_sending rb cb false Hb) as (pb&Sb).
    split; [by eauto|by eauto|split; [left|..]|split; [left|..]]; try done; exists []; apply transfer_start.
  - by apply act_joined.
  - by apply joined_sym, act_joined; [|apply joined_sym|].
Qed.

(** What [b] has received of [a]. *)
Definition delivered (a b : side) : Prop :=
  consumed b ++ ByteStream.peek_output (2 ^ 64 - 1) (inbound_stream (conn b)) `prefix_of` written a /\
  (ByteStream.input_ended (inbound_stream (conn b)) = true ->
   fin_of a = true /\ consumed b ++ ByteStream.peek_output (2 ^ 64 - 1) (inbound_stream (conn b)) = written a).

(** [q] is the incoming stream of [b]: bytes of [a]. *)
Definition held (a b : side) (q : Pipe.Pipe) : Prop :=
  StreamRefinement.refines (inbound_stream (conn b)) q /\
  consumed b = take (Z.to_nat (Pipe.popped q)) (Pipe.written q) /\ Pipe.written q `prefix_of` written a /\
  (Pipe.ended q = true -> fin_of a = true /\ Pipe.written q = written a).

Lemma receiving_held cap a b syned p raw :
  0 < cap < 2 ^ 63 -> sending a syned p raw -> receiving cap a b -> exists q, held a b q.
Proof.
  intros Hcap S [St _ _]. assert (finished a b -> exists q, held a b q) as Hfin.
  { intros (Hf&q&R&Hq&Hc&Hw). exists q. unfold held. by rewrite <- Hw. }
  destruct St as [(got&T)|?]; [|auto].
  destruct (transfer_state _ _ _ _ _ _ _ Hcap S T) as (q&R&Hc&Hp&He).
  destruct (Pipe.ended q) eqn:Eq; [auto|]. exists q. unfold held. by rewrite Eq.
Qed.

Lemma held_delivered a b q : held a b q -> delivered a b.
Proof.
  intros (R&Hc&Hp&He).
  assert (consumed b ++ ByteStream.peek_output (2 ^ 64 - 1) (inbound_stream (conn b)) = Pipe.written q) as E.
  { pose proof (StreamRefinement.ref_wf _ _ R) as W. pose proof (Pipe.zlen_pending q W). destruct (W) as [? ? ?].
    rewrite (StreamRefinement.peek_output_ok _ _ R), Hc by lia. unfold Pipe.peek.
    rewrite (take_ge (Pipe.pending q)); [apply take_drop|]. unfold zlen in *. lia. }
  unfold delivered. rewrite E. split; [done|]. intros Hend. apply He. by rewrite <- (StreamRefinement.ref_ended _ _ R).
Qed.

Lemma reached_delivered a b : reached ra rb ca cb a b -> delivered a b /\ delivered b a.
Proof.
  intros [(pa&la&Sa) (pb&lb&Sb) Rab Rba]%reached_joined. destruct (Ha) as (_&Hca&_), (Hb) as (_&Hcb&_).
  destruct (receiving_held _ _ _ _ _ _ Hcb Sa Rab) as (q&Hq), (receiving_held _ _ _ _ _ _ Hca Sb Rba) as (q'&Hq').
  split; by eapply held_delivered.
Qed.

(** The segments that are queued or were given to the network. *)
Lemma reached_calm a b :
  reached ra rb ca cb a b -> Forall calm (_segments_out (conn a) ++ wire a) /\ Forall calm (_segments_out (conn b) ++ wire b).
Proof.
  intros [(pa&la&Sa) (pb&lb&Sb) _ _]%reached_joined.
  split; [apply snd_out in Sa as Ho|apply snd_out in Sb as Ho]; (eapply Forall_impl; [exact Ho|]); by intros x [? _].
Qed.

(** C2. Two connections exchange their segments over a network that loses, repeats and
    reorders them, while both applications write and read, time passes and lost segments
    are sent again. At every moment what one application has read, followed by what waits
    to be read, is a prefix of what the other wrote; and when the incoming stream has
    ended, the other side has sent its FIN and everything it wrote has arrived.

    Not every reordering is covered. As long as the incoming stream has not ended, a segment
    without data (an ACK alone, or a FIN alone) does not arrive ahead of bytes that are still
    missing, a SYN is not repeated with data or FIN, and a segment arrives less than 2^31
    away ([handled]): the receiver accepts the others and mishandles them
    ([overtaking_fin_truncates], [empty_piece_duplicates]). Neither side gives the connection
    up, by more than eight retransmissions in a row or by its destruction, so that no RST is
    sent; less than 2^31 is in flight and less than 2^62 bytes are written ([allowed]). *)
Theorem peers_deliver a b : reached ra rb ca cb a b -> delivered a b /\ delivered b a.
Proof. exact (reached_delivered a b). Qed.

End Delivery.

(** ** A run: the handshake, and three bytes that arrive and are read. *)
Fixpoint places (index a : Z) (l : list TCPSegment) : list (Z * Z) :=
  match l with [] => [] | x :: l => (index, a) :: places (index + zlen (data x)) (a + seg_len x) l end.

Lemma position_places l seg index a i0 a0 :
  position l seg index a -> (i0 + index, a0 + a) ∈ places i0 a0 l.
Proof.
  intros (l1&x&l2&->&_&->&->). revert i0 a0. induction l1 as [|y l1 IH]; intros i0 a0; cbn.
  - rewrite !Z.add_0_r. by left.
  - right. unfold zlen in *. rewrite length_app, Nat2Z.inj_add, !Z.add_assoc. apply IH.
Qed.

#[local] Instance Buffer_eq_dec : EqDecision Buffer.Buffer.
Proof. solve_decision. Defined.
#[local] Instance TCPHeader_eq_dec : EqDecision TCPHeader.TCPHeader.
Proof. solve_decision. Defined.
#[local] Instance TCPSegment_eq_dec : EqDecision TCPSegment.
Proof. solve_decision. Defined.

(** Checks that an operation is allowed; a bare segment has to be at the point expected. *)
Definition handledb (seg : TCPSegment) (e peer : side) : bool :=
  let r := _receiver (conn e) in
  let n := ByteStream.bytes_written (TCPReceiver.stream_out r) in
  let head := StreamReassembler._head_index (TCPReceiver._reassembler r) in
  forallb (fun '(index, a) => Z.abs (a - n) <? 2 ^ 31) (places 0 0 (log peer)) &&
  (negb (fin seg) || (0 <? zlen (data seg))) && (negb (syn seg) || negb (TCPReceiver._set_isn r)) &&
  (negb (TCPReceiver._set_isn r) || (0 <? seg_len seg) ||
   (bool_decide (TCPHeader.seqno (header seg) = Wrapping.wrap (1 + head) (isn_of peer)) &&
    (Z.abs (1 + head - n) <? 2 ^ 31) && (0 <=? head))).

Lemma handledb_ok seg e peer : handledb seg e peer = true -> handled seg e peer.
Proof.
  unfold handledb. cbv zeta. rewrite !andb_true_iff, forallb_forall. intros [[[F Hf] Hs] Hb]. split.
  - intros index a Hp. split; [|split].
    + apply (position_places _ _ _ _ 0 0), list_elem_of_In, F, Z.ltb_lt in Hp. exact Hp.
    + intros Hd Hfin. by rewrite Hfin, Hd in Hf.
    + intros Hsyn Hset. by rewrite Hsyn, Hset in Hs.
  - intros (Hd&Hsyn&Hfin) Hset. unfold seg_len in Hb. rewrite Hset, Hd, Hsyn, Hfin in Hb. cbn in Hb.
    apply andb_true_iff in Hb as [[He%bool_decide_eq_true Hn%Z.ltb_lt]%andb_true_iff Hh%Z.leb_le].
    eexists. split; [exact He|]. split; [exact Hn|]. lia.
Qed.

Definition allowedb (o : op) (e peer : side) : bool :=
  let c := conn e in
  (TCPSender._next_seqno (_sender (step o c)) - acked (_sender c) <? 2 ^ 31) &&
  match o with
  | Receive seg => bool_decide (seg ∈ wire peer) && handledb seg e peer
  | Write d => zlen (written e ++ take (Z.to_nat (write d c).2) d) <? 2 ^ 62
  | Tick ms => TCPSender.consecutive_retransmissions (TCPSender.tick ms (_sender c)) <=? TCPConfig.MAX_RETX_ATTEMPTS
  | Read n => 0 <=? n
  | Destroy => false
  | _ => true
  end.

Lemma allowedb_ok o e peer : allowedb o e peer = true -> allowed o e peer.
Proof.
  unfold allowedb, allowed. cbv zeta. intros [Hn%Z.ltb_lt Ho]%andb_true_iff. split; [exact Hn|]. destruct o; try done; try lia.
  apply andb_true_iff in Ho as [Hw%bool_decide_eq_true Hh]. split; [done|]. right. by apply handledb_ok.
Qed.

(** A run as a list of operations, those of the left side marked [true]. *)
Fixpoint play (l : list (bool * op)) (a b : side) : option (side * side) :=
  match l with
  | [] => Some (a, b)
  | (true, o) :: l => if allowedb o a b then play l (act o a) b else None
  | (false, o) :: l => if allowedb o b a then play l a (act o b) else None
  end.

Lemma play_reached ra rb ca cb l a b a' b' :
  reached ra rb ca cb a b -> play l a b = Some (a', b') -> reached ra rb ca cb a' b'.
Proof.
  revert a b. induction l as [|[[] o] l IH]; intros a b R H; cbn in H; [by simplify_eq| |];
    destruct (allowedb _ _ _) eqn:Ho; try done; apply allowedb_ok in Ho; eapply IH; try exact H.
  - by apply reached_left.
  - by apply reached_right.
Qed.

Module Run.

Definition small : TCPConfig.TCPConfig :=
  TCPConfig.default_config <| TCPConfig.recv_capacity := 8 |> <| TCPConfig.send_capacity := 8 |>.
Definition receive_nth (i : nat) (e : side) : op := default Connect (Receive <$> wire e !! i).

Definition script : list (bool * op) :=
  Eval vm_compute in
  let a1 := act Dequeue (act Connect (make_side 5 small)) in
  let o1 := receive_nth 0 a1 in
  let b1 := act Dequeue (act o1 (make_side 9 small)) in
  let o2 := receive_nth 0 b1 in
  let a2 := act Dequeue (act Dequeue (act (Write [x01; x02; x03]) (act o2 a1))) in
  [(true, Connect); (true, Dequeue); (false, o1); (false, Dequeue); (true, o2); (true, Write [x01; x02; x03]);
   (true, Dequeue); (true, Dequeue); (false, receive_nth 1 a2); (false, receive_nth 2 a2); (false, Read 2)].

Lemma peers_deliver_witness :
  exists a b, play script (make_side 5 small) (make_side 9 small) = Some (a, b) /\
    consumed b = [x01; x02] /\ written a = [x01; x02; x03] /\ delivered a b /\ delivered b a.
Proof.
  destruct (play script (make_side 5 small) (make_side 9 small)) as [[a b]|] eqn:E; [|by vm_compute in E].
  exists a, b. split; [done|].
  assert (option_map (fun '(x, y) => (consumed y, written x)) (Some (a, b)) = Some ([x01; x02], [x01; x02; x03])) as F
    by (rewrite <- E; vm_compute; done).
  injection F as -> ->. split; [done|]. split; [done|].
  apply (peers_deliver 5 9 small small); [by repeat split|by repeat split|].
  exact (play_reached 5 9 small small _ _ _ _ _ (reached_start _ _ _ _) E).
Defined.

End Run.

End Peers.
