(* ===== verification/Silence.v ===== *)
(** * A peer that does not answer

    A [TCPConnection] (tcp_connection.*, tcp_sender.* ) with unacknowledged segments whose
    peer sends nothing gives up: the retransmission timer runs out again and again, with
    a timeout that doubles each time, until the attempts exceed [MAX_RETX_ATTEMPTS]. *)
From S2P Require Import Prelude Stream Wrapping Reassembler Buffers TcpSegment Receiver Sender.
From S2P Require Import Transfer Connection ConnectionStreams Handshake Peers.

Module Silence.
Import TCPSegment TCPConnection SenderLog SenderInvariant ConnectionTheorems.

(** What goes on at the connection when no segment arrives: the owner's calls and time. *)
Definition silent (g : Z) (o : op) : Prop :=
  match o with
  | Receive _ | Destroy => False
  | Tick ms => 0 <= ms <= g
  | _ => True
  end.
Definition duration (o : op) : Z := match o with Tick ms => ms | _ => 0 end.
Definition elapsed (ops : list op) : Z := fold_right (fun o t => duration o + t) 0 ops.
Definition amount (o : op) : Z := match o with Write d => zlen d | _ => 0 end.
Definition load (ops : list op) : Z := fold_right (fun o t => amount o + t) 0 ops.
Fixpoint proceed (ops : list op) (c : TCPConnection) : TCPConnection :=
  match ops with [] => c | o :: ops => proceed ops (step o c) end.

(** The time since the oldest outstanding segment was last sent. *)
Definition waited (s : TCPSender.TCPSender) : Z :=
  match TCPSender._tcp_seg_cache s with
  | (t, _) :: _ => u64 (TCPSender._now_time_ms s - t)
  | [] => 0
  end.

(** The longest time the connection can still last when no tick is longer than [g]: the
    timeouts that are left, and what each may be exceeded by. *)
Definition variant (g : Z) (s : TCPSender.TCPSender) : Z :=
  TCPSender._initial_retransmission_timeout s * (2 ^ 9 - 2 ^ TCPSender._retransmission_count s) +
  (8 - TCPSender._retransmission_count s) * g - waited s.

(** A sender with something outstanding, a timer that has not run out, and a window that
    is not closed; fewer than [budget] bytes may still be written. *)
Record stalled (budget : Z) (s : TCPSender.TCPSender) : Prop := mk_stalled {
  st_inv : exists p log, inv s p log /\ zlen (Pipe.written p) + budget < 2 ^ 62;
  st_outstanding : TCPSender._tcp_seg_cache s <> [];
  st_window : TCPSender._window_size s <> 0;
  st_count : 0 <= TCPSender._retransmission_count s <= 8;
  st_initial : 0 < TCPSender._initial_retransmission_timeout s < 2 ^ 16;
  st_timeout : TCPSender._retransmission_timeout s =
    TCPSender._initial_retransmission_timeout s * 2 ^ TCPSender._retransmission_count s;
  st_running : waited s < TCPSender._retransmission_timeout s;
  st_flight : TCPSender._next_seqno s - TCPSender._window_used_size s - acked s < 2 ^ 30
}.

(** ** Filling the window leaves the timer *)
Lemma fill_step_cache s :
  exists k, TCPSender._tcp_seg_cache (TCPSender.fill_step s).1 = TCPSender._tcp_seg_cache s ++ k.
Proof.
  assert (exists k, TCPSender._tcp_seg_cache s = TCPSender._tcp_seg_cache s ++ k) as Hs by (exists []; by rewrite app_nil_r).
  unfold TCPSender.fill_step. destruct (negb _); [done|]. destruct (_ =? 0); [done|]. unfold TCPSender.next_segment.
  destruct (ByteStream.read _ _) as [stream content]. destruct (_ =? 0); [done|]. eexists; reflexivity.
Qed.

Lemma fill_window_cache s :
  exists k, TCPSender._tcp_seg_cache (TCPSender.fill_window s) = TCPSender._tcp_seg_cache s ++ k.
Proof.
  assert (forall c : list (Z * TCPSegment), exists k, c = c ++ k) as Hs by (intros c; exists []; by rewrite app_nil_r).
  unfold TCPSender.fill_window. destruct (_ && _).
  - unfold TCPSender.fill_zero_window. destruct (negb _).
    + destruct (ByteStream.read _ _) as [stream content]. destruct (_ =? 0); [apply Hs|]. eexists; reflexivity.
    + destruct (_ && _); (destruct (_ =? 0); [apply Hs|]); eexists; reflexivity.
  - generalize (S (Z.to_nat (TCPSender._window_size s))) as fuel. intros fuel. revert s.
    induction fuel as [|fuel IH]; intros s; cbn [TCPSender.fill_loop]; [apply Hs|].
    destruct (fill_step_cache s) as (k&Hk). destruct (TCPSender.fill_step s) as [s' []]; cbn [fst] in Hk; [|by exists k].
    destruct (IH s') as (k'&Hk'). exists (k ++ k'). by rewrite Hk', Hk, app_assoc.
Qed.

Lemma waited_app s s' k :
  TCPSender._tcp_seg_cache s <> [] -> TCPSender._tcp_seg_cache s' = TCPSender._tcp_seg_cache s ++ k ->
  TCPSender._now_time_ms s' = TCPSender._now_time_ms s ->
  TCPSender._tcp_seg_cache s' <> [] /\ waited s' = waited s.
Proof.
  intros Hne Ec En. unfold waited. rewrite Ec, En. by destruct (TCPSender._tcp_seg_cache s) as [|[t x] l].
Qed.

(** The connection takes the segments from the sender's queue. *)
Lemma sent_stalled b s : stalled b s -> stalled b (s <| TCPSender._segments_out := [] |>).
Proof.
  intros [(p&log&[[R Hsm Hi L Hw Hu Hun Ho] [? ? ? ?]]&Hz) H1 H2 H3 H4 H5 H6 H7]. split; try done.
  exists p, log. split; [|done]. by split; split.
Qed.

(** ... and the part of the state that the streams make up. *)
Lemma fill_stalled b b' g s p log stream p' :
  stalled b s -> inv s p log -> inv (s <| TCPSender._stream := stream |>) p' log -> zlen (Pipe.written p') + b' < 2 ^ 62 ->
  let s' := TCPSender.fill_window (s <| TCPSender._stream := stream |>) in
  stalled b' s' /\ variant g s' = variant g s.
Proof.
  intros [_ Hne Hw Hc Hi Ht Hr Hf] I I' Hz s'. set (s0 := s <| TCPSender._stream := stream |>) in *.
  destruct (fill_window_inv s0 p' log I') as (p2&new&B2&T&F&Hinv). fold s' in B2, F, Hinv.
  destruct F as [F1 F2 F3 F4 F5 F6 F7 F8 F9 F10 F11]. destruct (fill_window_cache s0) as (k&Hk). fold s' in Hk.
  destruct (waited_app s0 s' k Hne Hk F8) as [Hne' Hw'].
  change (waited s0) with (waited s) in Hw'. change (TCPSender._window_size s0) with (TCPSender._window_size s) in F3.
  change (TCPSender._retransmission_timeout s0) with (TCPSender._retransmission_timeout s) in F9.
  change (TCPSender._initial_retransmission_timeout s0) with (TCPSender._initial_retransmission_timeout s) in F10.
  change (TCPSender._retransmission_count s0) with (TCPSender._retransmission_count s) in F11.
  change (TCPSender._next_seqno s0) with (TCPSender._next_seqno s) in F5.
  change (TCPSender._window_used_size s0) with (TCPSender._window_used_size s) in F4.
  change (acked s0) with (acked s) in Hinv. pose proof (base_used _ _ _ B2). destruct I as [B _]. pose proof (base_used _ _ _ B).
  destruct Hinv as [I2 Ha]; [lia|]. split.
  - split; rewrite ?F3, ?F9, ?F10, ?F11, ?Hw', ?Ha; try done; [|lia].
    exists p2, (log ++ new). split; [done|]. destruct T as [-> _]. done.
  - unfold variant. by rewrite F10, F11, Hw'.
Qed.

(** ** The timer *)
Lemma clock_inv t s p log : inv s p log -> inv (s <| TCPSender._now_time_ms := t |>) p log.
Proof. intros [[? ? ? ? ? ? ? ?] [? ? ? ?]]. by split; split. Qed.

Lemma u64_sum now ms t : u64 (now - t) + ms < 2 ^ 64 -> 0 <= ms -> u64 (u64 (now + ms) - t) = u64 (now - t) + ms.
Proof. intros. zmod. Qed.

Lemma timeouts n : 0 <= n <= 8 -> 1 <= 2 ^ n <= 256.
Proof.
  intros Hn. assert (2 ^ 0 <= 2 ^ n) by (apply Z.pow_le_mono_r; lia). assert (2 ^ n <= 2 ^ 8) by (apply Z.pow_le_mono_r; lia). lia.
Qed.

Lemma tick_stalled b g ms s :
  stalled b s -> 0 <= ms <= g -> g < 2 ^ 32 ->
  let s' := TCPSender.tick ms s in
  TCPSender._retransmission_count s' = 9 \/ (stalled b s' /\ variant g s' <= variant g s - ms).
Proof.
  intros [(p&log&I&Hz) Hne Hw Hc Hi Ht Hr Hf] Hms Hg s'. pose proof (tick_inv s p log ms I) as I'. fold s' in I'.
  pose proof (timeouts _ Hc) as H2. set (n := TCPSender._retransmission_count s) in *.
  set (r := TCPSender._initial_retransmission_timeout s) in *.
  assert (0 < r * 2 ^ n < 2 ^ 25) as Hrn by nia.
  pose proof (SenderTheorems.remove_acked_noop _ _ _ (clock_inv (u64 (TCPSender._now_time_ms s + ms)) s p log I)) as En.
  unfold variant, waited in *. destruct (TCPSender._tcp_seg_cache s) as [|[t seg] rest] eqn:Ec; [done|].
  pose proof (u64_range (TCPSender._now_time_ms s - t)) as Hu.
  unfold s', TCPSender.tick in I' |- *.
  change (s <| TCPSender._now_time_ms ::= fun t => u64 (t + ms) |>) with (s <| TCPSender._now_time_ms := u64 (TCPSender._now_time_ms s + ms) |>) in *.
  rewrite En in I' |- *. cbn -[u64 Z.pow] in I' |- *. fold n r in I' |- *. rewrite Ec in I' |- *.
  rewrite Ht, (u64_sum (TCPSender._now_time_ms s) ms t) in I' |- * by lia.
  destruct (Z.leb_spec (r * 2 ^ n) (u64 (TCPSender._now_time_ms s - t) + ms)) as [Hfire|Hrun].
  - destruct (Z.eqb_spec (TCPSender._window_size s) 0) as [|_]; [done|]. cbn -[u64 u32 Z.pow] in I' |- *.
    rewrite (u64_small (n + 1)), (u32_small (r * 2 ^ n * 2)) in I' |- * by lia. rewrite Z.sub_diag. change (u64 0) with 0.
    destruct (Z.eq_dec n 8) as [E8|E8]; [left; lia|]. right.
    assert (2 ^ (n + 1) = 2 * 2 ^ n) as E2 by (rewrite Z.pow_add_r by lia; lia). split.
    2: { rewrite E2, !Z.mul_sub_distr_l, !Z.mul_sub_distr_r, Z.mul_add_distr_r, (Z.mul_comm 2 (2 ^ n)), Z.mul_assoc. lia. }
    split; cbn -[u64 u32 Z.pow]; rewrite ?E2; try done; try lia; [by exists p, log|].
    rewrite Z.sub_diag. change (u64 0) with 0. lia.
  - right. cbn -[u64 u32 Z.pow] in I' |- *. rewrite ?Ec, (u64_sum (TCPSender._now_time_ms s) ms t) by lia. split; [|lia].
    split; unfold waited; cbn -[u64 u32 Z.pow]; rewrite ?Ec, ?(u64_sum (TCPSender._now_time_ms s) ms t) by lia; try done; try lia. by exists p, log.
Qed.

(** ** One call *)
Lemma stalled_budget b b' s : b' <= b -> stalled b s -> stalled b' s.
Proof.
  intros Hb [(p&log&I&Hz) H1 H2 H3 H4 H5 H6 H7]. split; try done. exists p, log. split; [done|lia].
Qed.

(** [Connect], [EndInput] and [Write] fill the window from a stream to which up to
    [amount o] bytes were added. *)
Definition stream_after (o : op) (stream : ByteStream.ByteStream) : ByteStream.ByteStream :=
  match o with
  | Write d => (ByteStream.write d stream).1
  | EndInput => ByteStream.end_input stream
  | _ => stream
  end.

Lemma stream_after_inv o s p log :
  inv s p log -> zlen (Pipe.written p) + amount o < 2 ^ 62 ->
  exists p', inv (s <| TCPSender._stream := stream_after o (TCPSender._stream s) |>) p' log /\
    zlen (Pipe.written p') <= zlen (Pipe.written p) + amount o.
Proof.
  intros I Hz. destruct (I) as [[R Hsm Hi L Hw Hu Hun Ho] HA].
  destruct o as [seg|d|ms| | | |n|]; cbn [stream_after amount] in *;
    try (exists p; split; [by destruct s|lia]).
  - assert (zlen (Pipe.accepted d p) <= zlen d) as Hacc.
    { unfold Pipe.accepted. destruct (Pipe.ended p); [apply zlen_nonneg|]. rewrite zlen_take. lia. }
    destruct (StreamRefinement.write_ok _ _ R d) as [R' _]. destruct (StreamRefinement.ref_wf _ _ R) as [? ? ?].
    exists (Pipe.write d p).1. split; [|cbn; rewrite zlen_app; lia].
    eapply Peers.with_stream_grows; [done|done|cbn; rewrite zlen_app; lia|done| |].
    + cbn. apply take_app_le. unfold zlen in *. lia.
    + intros He. split; [done|]. cbn. unfold Pipe.accepted. by rewrite He, app_nil_r.
  - exists (Pipe.end_input p). split; [|cbn; lia].
    eapply Peers.with_stream_grows; [done|by apply StreamRefinement.end_input_ok|done|done|done|done].
Qed.

Lemma fills_sender o c :
  Peers.fills o = true -> (forall seg, o <> Receive seg) ->
  _sender (step o c) = (TCPSender.fill_window ((_sender c) <| TCPSender._stream := stream_after o (TCPSender._stream (_sender c)) |>))
    <| TCPSender._segments_out := [] |>.
Proof.
  intros Hf Hr. destruct o as [seg|d|ms| | | |n|]; try discriminate Hf.
  - by destruct (Hr seg).
  - cbn [step]. by rewrite write_eq.
  - reflexivity.
  - cbn [step stream_after]. unfold connect. by destruct c as [? ? [] ? ? ? ? ?].
Qed.

Lemma gives_up ms c :
  TCPSender._retransmission_count (TCPSender.tick ms (_sender c)) = 9 -> _active (tick ms c) = false.
Proof.
  intros E. unfold tick. cbn -[TCPSender.tick TCPConfig.MAX_RETX_ATTEMPTS].
  unfold TCPSender.consecutive_retransmissions. rewrite E. change (TCPConfig.MAX_RETX_ATTEMPTS <? u32 9) with true.
  cbv iota. by destruct (_ && _).
Qed.

Lemma tick_sender ms c :
  TCPSender._retransmission_count (TCPSender.tick ms (_sender c)) <= 8 -> 0 <= TCPSender._retransmission_count (TCPSender.tick ms (_sender c)) ->
  _sender (tick ms c) = (TCPSender.tick ms (_sender c)) <| TCPSender._segments_out := [] |>.
Proof.
  intros E E0. unfold tick. cbn -[TCPSender.tick TCPConfig.MAX_RETX_ATTEMPTS].
  unfold TCPSender.consecutive_retransmissions. rewrite u32_small by lia.
  destruct (Z.ltb_spec TCPConfig.MAX_RETX_ATTEMPTS (TCPSender._retransmission_count (TCPSender.tick ms (_sender c))));
    [unfold TCPConfig.MAX_RETX_ATTEMPTS in *; lia|]. by destruct (_ && _).
Qed.

Lemma step_stalled g b o c :
  0 <= b -> g < 2 ^ 32 -> silent g o -> stalled (amount o + b) (_sender c) ->
  _active (step o c) = false \/
  (stalled b (_sender (step o c)) /\ variant g (_sender (step o c)) <= variant g (_sender c) - duration o).
Proof.
  intros Hb Hg Ho St. destruct (Peers.fills o) eqn:Ef.
  - right. destruct (st_inv _ _ St) as (p&log&I&Hz). destruct (stream_after_inv o _ p log I) as (p'&I'&Hz'); [lia|].
    rewrite fills_sender by (done || by intros seg ->).
    destruct (fill_stalled (amount o + b) b g _ p log _ p' St I I') as [St' V']; [lia|].
    split; [by apply sent_stalled|]. replace (duration o) with 0 by (by destruct o). change (variant g (_ <| TCPSender._segments_out := [] |>)) with
      (variant g (TCPSender.fill_window ((_sender c) <| TCPSender._stream := stream_after o (TCPSender._stream (_sender c)) |>))). lia.
  - destruct o as [seg|d|ms| | | |n|]; try done; cbn [amount duration step] in *;
      try (right; rewrite Z.add_0_l in St; split; [exact St|cbn; lia]).
    destruct (tick_stalled b g ms (_sender c)) as [E9|[St' V']]; [by rewrite Z.add_0_l in St|done|done| |].
    + left. by apply gives_up.
    + right. destruct (st_count _ _ St'). rewrite tick_sender by done. split; [by apply sent_stalled|exact V'].
Qed.

(** ** The run *)
Lemma variant_pos g b s : 0 <= g -> stalled b s -> 0 < variant g s.
Proof.
  intros Hg [_ _ _ Hc Hi Ht Hr _]. unfold variant. pose proof (timeouts _ Hc).
  set (n := TCPSender._retransmission_count s) in *. set (r := TCPSender._initial_retransmission_timeout s) in *.
  assert (r * 2 ^ n <= r * (2 ^ 9 - 2 ^ n)) by nia. nia.
Qed.

Lemma proceed_inactive ops c : _active c = false -> _active (proceed ops c) = false.
Proof. revert c. induction ops as [|o ops IH]; intros c Hc; cbn [proceed]; [done|]. apply IH. by apply step_inactive. Qed.

Lemma amount_nonneg o : 0 <= amount o.
Proof. destruct o; cbn; try lia. apply zlen_nonneg. Qed.
Lemma load_nonneg ops : 0 <= load ops.
Proof. induction ops as [|o ops IH]; cbn; [lia|]. pose proof (amount_nonneg o). fold (load ops). lia. Qed.

Lemma proceed_ends g ops c :
  0 <= g < 2 ^ 32 -> Forall (silent g) ops -> stalled (load ops) (_sender c) ->
  variant g (_sender c) <= elapsed ops -> _active (proceed ops c) = false.
Proof.
  intros Hg. revert c. induction ops as [|o ops IH]; intros c Ho St Hv.
  - pose proof (variant_pos g _ _ (proj1 Hg) St). cbn in Hv. lia.
  - apply Forall_cons in Ho as [Ho Hops]. cbn [proceed]. cbn [load elapsed fold_right] in St, Hv.
    destruct (step_stalled g (load ops) o c (load_nonneg ops) (proj2 Hg) Ho St) as [Hi|[St' V']]; [by apply proceed_inactive|].
    apply IH; [done|done|]. fold (elapsed ops) in Hv. lia.
Qed.

(** With a closed window the attempts are not counted, and the connection is not given up. *)
Lemma closed_window_not_counted ms s :
  TCPSender._window_size s = 0 ->
  TCPSender._retransmission_count (TCPSender.tick ms s) = TCPSender._retransmission_count s.
Proof.
  intros Hw. unfold TCPSender.tick. destruct (TCPSender._tcp_seg_cache _) as [|[t seg] c]; [done|].
  destruct (_ <=? _); [|done]. cbn -[u64 u32]. by rewrite Hw.
Qed.

(** C11. A connection whose peer is silent ends, if the window the peer last advertised is
    not zero. Once something is outstanding that the peer does not acknowledge, then
    whatever the owner does - write, end the stream, read, send the queued segments - while
    the clock ticks in steps of at most [g] ms, after 511 initial timeouts and eight of these
    steps the connection is no longer active. In the beginning ([stalled]) the timer has not
    run out, at most eight retransmissions were made, each of which has doubled the timeout,
    and less than 2^30 is in flight besides the window. With a window of zero the sender
    probes for ever ([closed_window_not_counted]). *)
Theorem silent_peer_ends g ops c :
  0 <= g < 2 ^ 32 -> Forall (silent g) ops -> stalled (load ops) (_sender c) ->
  511 * TCPSender._initial_retransmission_timeout (_sender c) + 8 * g <= elapsed ops ->
  active (proceed ops c) = false.
Proof.
  intros Hg Ho St He. apply (proceed_ends g); [done|done|done|]. etrans; [|exact He].
  destruct St as [_ _ _ Hc Hi _ _ _]. unfold variant. pose proof (timeouts _ Hc).
  assert (0 <= waited (_sender c)) by (unfold waited; destruct (TCPSender._tcp_seg_cache _) as [|[t x] l]; [lia|apply u64_range]).
  nia.
Qed.

(** ** A connection that is not answered at all *)
Section Connect.
Context (random : Z) (cfg : TCPConfig.TCPConfig).
Context (Hcfg : Handshake.config_ok random cfg) (Hrto : 0 < TCPConfig.rt_timeout cfg < 2 ^ 16).

Lemma connect_stalled b : b < 2 ^ 61 -> stalled b (_sender (connect (make random cfg))).
Proof.
  intros Hb. destruct (Peers.start_sending random cfg false Hcfg) as (p&S). destruct (Hcfg) as (Hok&_).
  pose proof (Peers.snd_inv _ _ _ _ S) as I. pose proof (Peers.snd_written _ _ _ _ S) as Ew. cbn [Peers.conn Peers.written Peers.make_side] in I, Ew.
  pose proof (Handshake.connect_sends_syn random cfg Hcfg) as Es.
  assert (acked (_sender (make random cfg)) = 0) as Ea by (apply Handshake.unwrap_0; [exact Hok|cbn; lia]).
  destruct (Peers.connect_sends (make random cfg) p [] I (Peers.snd_quiet _ _ _ _ S) eq_refl) as (s1&p'&new&[Hs _]&(I1&_&Hw&_)).
  { rewrite Ea, Es. done. }
  assert (inv (_sender (connect (make random cfg))) p' new) as I2.
  { rewrite Hs. destruct I1 as [[R Hsm Hi L Hwi Hu Hun Ho] [? ? ? ?]]. split; by split. }
  assert (acked (Handshake.my_syn_sender random cfg false) = 0) as Ea' by (apply Handshake.unwrap_0; [exact Hok|cbn; lia]).
  rewrite Es in I2 |- *. cbn [Handshake.conn _sender] in *. split.
  - exists p', new. split; [exact I2|]. rewrite Hw, Ew. unfold zlen. cbn [length]. lia.
  - discriminate.
  - discriminate.
  - cbn. lia.
  - exact Hrto.
  - cbn -[Z.mul]. lia.
  - apply Hrto.
  - rewrite Ea'. cbn. lia.
Qed.

(** Nobody answers: [connect] leads to a connection that ends. *)
Lemma unanswered_connect_ends g ops :
  0 <= g < 2 ^ 32 -> Forall (silent g) ops -> load ops < 2 ^ 61 ->
  511 * TCPConfig.rt_timeout cfg + 8 * g <= elapsed ops ->
  active (proceed ops (connect (make random cfg))) = false.
Proof.
  intros Hg Ho Hl He. apply (proceed_ends g); [done|done|by apply connect_stalled|].
  pose proof (Handshake.connect_sends_syn random cfg Hcfg) as ->.
  change (TCPConfig.rt_timeout cfg * (2 ^ 9 - 2 ^ 0) + (8 - 0) * g - 0 <= elapsed ops). lia.
Qed.

End Connect.

(** The default configuration with a clock that ticks once a second: the bound is 519 s,
    and half of that is not enough. *)
Definition demo_ops : list op := Write [x01; x02; x03] :: EndInput :: replicate 519 (Tick 1000).

Lemma silent_peer_ends_witness :
  active (proceed demo_ops (connect (make 7 TCPConfig.default_config))) = false /\
  active (proceed (replicate 250 (Tick 1000)) (connect (make 7 TCPConfig.default_config))) = true.
Proof.
  split; [|vm_compute; reflexivity]. apply (silent_peer_ends 1000).
  - lia.
  - do 2 (constructor; [exact I|]). apply Forall_replicate. cbn. lia.
  - apply connect_stalled; [by repeat split|by split|]. vm_compute. reflexivity.
  - vm_compute. discriminate.
Defined.

End Silence.
