(* ===== verification/Addresses.v ===== *)
(** * [Address] (libsponge/util/address.* )

    Socket addresses: a size and a raw [sockaddr_storage]. The C library's name
    functions are operations of the class [Resolver], and what the code relies on
    of them, on numeric IPv4 addresses, is the class [ResolverSpec]. *)
From S2P Require Import Prelude Parser.

(** [std::to_string] of an unsigned number and [std::stoi], on the strings of digits
    that [getnameinfo] writes. Twenty digits hold every 64-bit number. *)
Definition digit (n : Z) : byte := byte_of_Z (48 + n).
Fixpoint dec_digits (fuel : nat) (n : Z) : bytes :=
  match fuel with
  | O => []
  | S fuel => if n <? 10 then [digit n] else dec_digits fuel (n / 10) ++ [digit (n mod 10)]
  end.
Definition to_string (n : Z) : bytes := dec_digits 20 n.

(** The leading digits of a string, as a number, and what follows them. *)
Fixpoint read_digits (acc : Z) (s : bytes) : Z * bytes :=
  match s with
  | c :: s' => let d := byte_to_Z c - 48 in
               if (0 <=? d) && (d <=? 9) then read_digits (10 * acc + d) s' else (acc, s)
  | [] => (acc, [])
  end.
Definition stoi (s : bytes) : result Z :=
  match s with
  | c :: _ =>
      if (48 <=? byte_to_Z c) && (byte_to_Z c <=? 57) then
        let (n, _) := read_digits 0 s in
        if n <? 2 ^ 31 then ok n else throw (out_of_range "stoi")
      else throw (invalid_argument "stoi")
  | [] => throw (invalid_argument "stoi")
  end.

(** The C library's functions. [inet_ntoa] takes the address in host order;
    [getaddrinfo node service flags family] gives the return code and the first
    result's [sockaddr]; [getnameinfo] (with [NI_NUMERICHOST | NI_NUMERICSERV])
    gives an error code or host and service. *)
Class Resolver := {
  inet_ntoa : Z -> bytes;
  getaddrinfo : bytes -> bytes -> Z -> Z -> Z * option bytes;
  getnameinfo : bytes -> Z + bytes * bytes
}.

Module Address.

Definition AF_INET : Z := 2.
Definition AI_NUMERICHOST : Z := 4.
Definition AI_ALL : Z := 16.
Definition AI_NUMERICSERV : Z := 1024.
Definition sizeof_sockaddr_in : Z := 16.
Definition sizeof_sockaddr_storage : Z := 128.

(** [storage] holds the 128 bytes of [_address.storage]. *)
Record Address := mkAddress {
  _size : Z;
  storage : bytes
}.

(** The bytes of a [sockaddr_in]: the family in the (little-endian) host's order, port
    and address in network order, padding. *)
Definition sockaddr_in (family port ip : Z) : bytes :=
  rev (be_encode 2 family) ++ be_encode 2 port ++ be_encode 4 ip ++ replicate 8 x00.
Definition ss_family (a : Address) : Z := be_decode (rev (take 2 (storage a))).
Definition sin_addr (a : Address) : bytes := take 4 (drop 4 (storage a)).

(** [Address(const sockaddr *, size_t)], which copies [size] bytes. *)
Definition of_sockaddr (addr : bytes) (size : Z) : result Address :=
  if sizeof_sockaddr_storage <? size then throw (runtime_error "invalid sockaddr size")
  else ok (mkAddress size (take (Z.to_nat size) addr ++ replicate (Z.to_nat (128 - size)) x00)).

(** The constructor accepts the 16 bytes. *)
Definition from_ipv4_numeric (ip_address : Z) : Address :=
  mkAddress sizeof_sockaddr_in (sockaddr_in AF_INET 0 ip_address ++ replicate 112 x00).

Definition ipv4_numeric (a : Address) : result Z :=
  if negb (ss_family a =? AF_INET) || negb (_size a =? sizeof_sockaddr_in)
  then throw (runtime_error "ipv4_numeric called on non-IPV4 address")
  else ok (be_decode (sin_addr a)).

(** [operator==]: [memcmp] of the first [_size] bytes. *)
Definition eqb (a b : Address) : bool :=
  if negb (_size a =? _size b) then false
  else bool_decide (take (Z.to_nat (_size a)) (storage a) = take (Z.to_nat (_size a)) (storage b)).

Section Names.
Context `{Resolver}.

(** [Address(node, service, hints)] *)
Definition resolve (node service : bytes) (ai_flags ai_family : Z) : result Address :=
  let (gai_ret, resolved_address) := getaddrinfo node service ai_flags ai_family in
  if negb (gai_ret =? 0) then
    throw (tagged_error "gai_error_category"
      (bytes_of_string "getaddrinfo(" ++ node ++ bytes_of_string ", " ++ service ++ bytes_of_string ")") gai_ret)
  else
    match resolved_address with
    | None => throw (runtime_error "getaddrinfo returned successfully but with no results")
    | Some addr => of_sockaddr addr (zlen addr)
    end.

Definition of_hostname (hostname service : bytes) : result Address :=
  resolve hostname service AI_ALL AF_INET.

Definition of_ip_port (ip : bytes) (port : Z) : result Address :=
  resolve ip (to_string port) (Z.lor AI_NUMERICHOST AI_NUMERICSERV) AF_INET.

Definition ip_port (a : Address) : result (bytes * Z) :=
  match getnameinfo (take (Z.to_nat (_size a)) (storage a)) with
  | inl gni_ret => throw (tagged_error "gai_error_category" (bytes_of_string "getnameinfo") gni_ret)
  | inr (ip, port) => let! n := stoi port in ok (ip, u16 n)
  end.
Definition ip (a : Address) : result bytes := let! p := ip_port a in ok p.1.
Definition port (a : Address) : result Z := let! p := ip_port a in ok p.2.

Definition address_to_string (a : Address) : result bytes :=
  let! (ip, port) := ip_port a in
  ok (ip ++ bytes_of_string ":" ++ to_string port).

End Names.
End Address.

(** What the C library does with numeric IPv4 addresses. *)
Class ResolverSpec `{Resolver} : Prop := {
  getaddrinfo_numeric : forall ip port, 0 <= ip < 2 ^ 32 -> 0 <= port < 2 ^ 16 ->
    getaddrinfo (inet_ntoa ip) (to_string port)
      (Z.lor Address.AI_NUMERICHOST Address.AI_NUMERICSERV) Address.AF_INET =
    (0, Some (Address.sockaddr_in Address.AF_INET port ip));
  getnameinfo_numeric : forall ip port, 0 <= ip < 2 ^ 32 -> 0 <= port < 2 ^ 16 ->
    getnameinfo (Address.sockaddr_in Address.AF_INET port ip) = inr (inet_ntoa ip, to_string port)
}.

(** ** Decimal strings *)
Lemma byte_to_Z_digit n : 0 <= n <= 9 -> byte_to_Z (digit n) = 48 + n.
Proof. intros H. unfold digit. rewrite byte_to_of_Z. apply u8_small. lia. Qed.

Lemma read_digits_app acc fuel n s :
  (0 < fuel)%nat -> 0 <= n < 10 ^ Z.of_nat fuel ->
  exists k, read_digits acc (dec_digits fuel n ++ s) = read_digits (10 ^ k * acc + n) s /\ 0 < k.
Proof.
  revert acc n s. induction fuel as [|fuel IH]; intros acc n s Hf Hn; [lia|].
  cbn [dec_digits]. destruct (Z.ltb_spec n 10) as [Hlt|Hge].
  - exists 1. split; [|lia]. cbn [app read_digits]. rewrite byte_to_Z_digit by lia.
    replace (48 + n - 48) with n by lia. destruct (Z.leb_spec 0 n), (Z.leb_spec n 9); try lia.
    cbn [andb]. by replace (10 * acc + n) with (10 ^ 1 * acc + n) by lia.
  - rewrite Nat2Z.inj_succ, Z.pow_succ_r in Hn by lia.
    pose proof (Z.mod_pos_bound n 10). pose proof (Z.div_mod n 10).
    destruct (IH acc (n / 10) (digit (n mod 10) :: s)) as (k&E&Hk).
    { destruct fuel; [simpl in Hn|]; lia. }
    { split; [apply Z.div_pos; lia|apply Z.div_lt_upper_bound; lia]. }
    exists (k + 1). split; [|lia]. rewrite <- app_assoc. cbn [app]. rewrite E. cbn [read_digits].
    rewrite byte_to_Z_digit by lia. replace (48 + n mod 10 - 48) with (n mod 10) by lia.
    destruct (Z.leb_spec 0 (n mod 10)), (Z.leb_spec (n mod 10) 9); try lia. cbn [andb].
    replace (10 * (10 ^ k * acc + n / 10) + n mod 10) with (10 ^ (k + 1) * acc + n); [done|].
    rewrite Z.pow_add_r by lia. lia.
Qed.

Lemma dec_digits_head fuel n :
  (0 < fuel)%nat -> 0 <= n < 10 ^ Z.of_nat fuel -> exists d s, dec_digits fuel n = digit d :: s /\ 0 <= d <= 9.
Proof.
  revert n. induction fuel as [|fuel IH]; intros n Hf Hn; [lia|].
  cbn [dec_digits]. destruct (Z.ltb_spec n 10) as [Hlt|Hge]; [exists n, []; split; [done|lia]|].
  rewrite Nat2Z.inj_succ, Z.pow_succ_r in Hn by lia.
  destruct (IH (n / 10)) as (d&s&->&Hd).
  { destruct fuel; [simpl in Hn|]; lia. }
  { split; [apply Z.div_pos; lia|apply Z.div_lt_upper_bound; lia]. }
  by exists d, (s ++ [digit (n mod 10)]).
Qed.

Lemma read_to_string n s :
  0 <= n < 10 ^ 20 -> read_digits 0 (to_string n ++ s) = read_digits n s.
Proof.
  intros Hn. destruct (read_digits_app 0 20 n s ltac:(lia) Hn) as (k&E&_). unfold to_string. rewrite E. by replace (10 ^ k * 0 + n) with n by lia.
Qed.

Lemma stoi_to_string n : 0 <= n < 2 ^ 31 -> stoi (to_string n) = ok n.
Proof.
  intros Hn. pose proof (read_to_string n [] ltac:(lia)) as R. rewrite app_nil_r in R.
  destruct (dec_digits_head 20 n ltac:(lia) ltac:(simpl; lia)) as (d&s&E&Hd).
  unfold stoi. change (dec_digits 20 n) with (to_string n) in E. rewrite E in *.
  rewrite byte_to_Z_digit by lia. destruct (Z.leb_spec 48 (48 + d)), (Z.leb_spec (48 + d) 57); try lia.
  cbn [andb]. rewrite R. cbn [read_digits]. by destruct (Z.ltb_spec n (2 ^ 31)); [|lia].
Qed.

(** ** IPv4 addresses *)
Module AddressTheorems.
Import Address.

(** The address object of [ip] and [port]. *)
Definition ipv4_address (ip port : Z) : Address :=
  mkAddress sizeof_sockaddr_in (sockaddr_in AF_INET port ip ++ replicate 112 x00).

Lemma length_sockaddr_in port ip : length (sockaddr_in AF_INET port ip) = 16%nat.
Proof. unfold sockaddr_in. by rewrite !length_app, length_rev, !length_be_encode. Qed.

Lemma ipv4_numeric_address ip port : 0 <= ip < 2 ^ 32 -> ipv4_numeric (ipv4_address ip port) = ok ip.
Proof.
  intros H. unfold ipv4_numeric, ipv4_address, ss_family, sin_addr. cbn [_size storage].
  rewrite !Z.eqb_refl. cbn [negb orb]. unfold sockaddr_in. rewrite <- !app_assoc.
  rewrite (app_assoc (rev _)), drop_app_length' by (by rewrite length_app, length_rev, !length_be_encode).
  rewrite take_app_length' by (by rewrite length_be_encode). by rewrite be_decode_encode, Z.mod_small.
Qed.

Lemma ipv4_numeric_from ip : 0 <= ip < 2 ^ 32 -> ipv4_numeric (from_ipv4_numeric ip) = ok ip.
Proof. apply (ipv4_numeric_address ip 0). Qed.

Lemma of_sockaddr_in port ip :
  of_sockaddr (sockaddr_in AF_INET port ip) (zlen (sockaddr_in AF_INET port ip)) = ok (ipv4_address ip port).
Proof.
  unfold of_sockaddr, zlen, ipv4_address. rewrite length_sockaddr_in.
  rewrite take_ge by (by rewrite length_sockaddr_in). done.
Qed.

Section Names.
Context `{ResolverSpec}.

Lemma of_ip_port_numeric ip port :
  0 <= ip < 2 ^ 32 -> 0 <= port < 2 ^ 16 -> of_ip_port (inet_ntoa ip) port = ok (ipv4_address ip port).
Proof.
  intros Hi Hp. unfold of_ip_port, resolve. rewrite getaddrinfo_numeric by done. cbn [negb Z.eqb].
  apply of_sockaddr_in.
Qed.

Lemma ip_port_numeric ip port :
  0 <= ip < 2 ^ 32 -> 0 <= port < 2 ^ 16 -> ip_port (ipv4_address ip port) = ok (inet_ntoa ip, port).
Proof.
  intros Hi Hp. unfold ip_port, ipv4_address. cbn [_size storage].
  rewrite take_app_length' by (by rewrite length_sockaddr_in).
  rewrite getnameinfo_numeric, stoi_to_string, bindR_ok by lia. by rewrite u16_small.
Qed.

Lemma port_numeric ip p :
  0 <= ip < 2 ^ 32 -> 0 <= p < 2 ^ 16 -> port (ipv4_address ip p) = ok p.
Proof. intros Hi Hp. unfold port. by rewrite ip_port_numeric. Qed.

(** An address built from a dotted quad and a port is read back: as the number,
    as the dotted quad, as the port and as the text "ip:port"; equality of such
    addresses is equality of address and port. *)
Theorem address_roundtrip ip p ip' p' :
  0 <= ip < 2 ^ 32 -> 0 <= p < 2 ^ 16 -> 0 <= ip' < 2 ^ 32 -> 0 <= p' < 2 ^ 16 ->
  exists a b, of_ip_port (inet_ntoa ip) p = ok a /\ of_ip_port (inet_ntoa ip') p' = ok b /\
    ipv4_numeric a = ok ip /\ Address.ip a = ok (inet_ntoa ip) /\ port a = ok p /\
    address_to_string a = ok (inet_ntoa ip ++ bytes_of_string ":" ++ to_string p) /\
    (eqb a b = true <-> ip = ip' /\ p = p').
Proof.
  intros Hi Hp Hi' Hp'. exists (ipv4_address ip p), (ipv4_address ip' p').
  split; [by apply of_ip_port_numeric|]. split; [by apply of_ip_port_numeric|].
  split; [by apply ipv4_numeric_address|].
  unfold Address.ip, port, address_to_string. rewrite ip_port_numeric, !bindR_ok by done.
  split_and!; try done. unfold eqb. cbn [_size storage ipv4_address].
  change (sizeof_sockaddr_in =? sizeof_sockaddr_in) with true. cbn [negb].
  rewrite !take_app_length' by (by rewrite length_sockaddr_in).
  rewrite bool_decide_eq_true. split; [|by intros [-> ->]].
  unfold sockaddr_in. intros [_ E]%app_inj_1; [|done].
  apply app_inj_1 in E as [E1 E]; [|by rewrite !length_be_encode].
  apply app_inj_1 in E as [E2 _]; [|by rewrite !length_be_encode].
  apply (f_equal be_decode) in E1, E2. rewrite !be_decode_encode, !Z.mod_small in E1, E2 by done. done.
Qed.

End Names.
End AddressTheorems.

(** ** A resolver for numeric addresses *)
Module NumericResolver.
Import Address.

Definition dotted (ip : Z) : bytes :=
  to_string (ip / 2 ^ 24) ++ x2e :: to_string (ip / 2 ^ 16 mod 256) ++
  x2e :: to_string (ip / 2 ^ 8 mod 256) ++ x2e :: to_string (ip mod 256).

(** Reads [n] dotted numbers. *)
Fixpoint read_dotted (n : nat) (acc : Z) (s : bytes) : option Z :=
  match n with
  | O => match s with [] => Some acc | _ => None end
  | S n => let (d, s) := read_digits 0 s in
           match n, s with
           | S _, x2e :: s => read_dotted n (256 * acc + d) s
           | O, [] => Some (256 * acc + d)
           | _, _ => None
           end
  end.

(** [EAI_NONAME] for what is not numeric. *)
Definition numeric_addrinfo (node service : bytes) (flags family : Z) : Z * option bytes :=
  match read_dotted 4 0 node, stoi service with
  | Some ip, inr port => (0, Some (sockaddr_in AF_INET port ip))
  | _, _ => (-2, None)
  end.
Definition numeric_nameinfo (addr : bytes) : Z + bytes * bytes :=
  inr (dotted (be_decode (take 4 (drop 4 addr))), to_string (be_decode (take 2 (drop 2 addr)))).

#[export] Instance numeric_resolver : Resolver := {
  inet_ntoa := dotted;
  getaddrinfo := numeric_addrinfo;
  getnameinfo := numeric_nameinfo
}.

(** The same with 0 for the address 0.0.0.0, as [inet_aton] reads it. *)
Definition short_resolver : Resolver := {|
  inet_ntoa := dotted;
  getaddrinfo node := numeric_addrinfo (if bool_decide (node = [x30]) then dotted 0 else node);
  getnameinfo := numeric_nameinfo
|}.

Lemma read_dotted_dotted ip : 0 <= ip < 2 ^ 32 -> read_dotted 4 0 (dotted ip) = Some ip.
Proof.
  intros H. unfold dotted, read_dotted. rewrite read_to_string; cbn [read_digits].
  2: { split; [apply Z.div_pos; lia|apply Z.div_lt_upper_bound; lia]. }
  assert (forall z, 0 <= z mod 256 < 10 ^ 20) as Hm by (intros z; pose proof (Z.mod_pos_bound z 256); lia).
  change ((0 <=? byte_to_Z x2e - 48) && (byte_to_Z x2e - 48 <=? 9)) with false. cbv iota.
  rewrite !read_to_string by apply Hm. cbn [read_digits].
  change ((0 <=? byte_to_Z x2e - 48) && (byte_to_Z x2e - 48 <=? 9)) with false. cbv iota.
  rewrite !read_to_string by apply Hm. cbn [read_digits].
  change ((0 <=? byte_to_Z x2e - 48) && (byte_to_Z x2e - 48 <=? 9)) with false. cbv iota.
  rewrite <- (app_nil_r (to_string (ip mod 256))), read_to_string by apply Hm. cbn [read_digits]. f_equal.
  pose proof (Z.div_mod ip 256). pose proof (Z.div_mod (ip / 2 ^ 8) 256). pose proof (Z.div_mod (ip / 2 ^ 16) 256).
  replace (ip / 2 ^ 24) with (ip / 2 ^ 16 / 256) by (by rewrite Z.div_div).
  replace (ip / 2 ^ 16) with (ip / 2 ^ 8 / 256) in * by (by rewrite Z.div_div).
  change (2 ^ 8) with 256 in *. lia.
Qed.

#[export] Instance numeric_resolver_spec : ResolverSpec.
Proof.
  split; intros ip port Hi Hp.
  - unfold getaddrinfo, inet_ntoa, numeric_resolver, numeric_addrinfo. by rewrite read_dotted_dotted, stoi_to_string by lia.
  - unfold getnameinfo, inet_ntoa, numeric_resolver, numeric_nameinfo, sockaddr_in. do 3 f_equal.
    + rewrite (app_assoc (rev _)), drop_app_length' by (by rewrite length_app, length_rev, !length_be_encode).
      rewrite take_app_length' by (by rewrite length_be_encode). by rewrite be_decode_encode, Z.mod_small.
    + rewrite drop_app_length' by (by rewrite length_rev, length_be_encode).
      rewrite take_app_length' by (by rewrite length_be_encode). by rewrite be_decode_encode, Z.mod_small.
Qed.

Lemma address_roundtrip_witness :
  exists a, of_ip_port (bytes_of_string "10.0.0.1") 80 = ok a /\ ipv4_numeric a = ok 167772161 /\
    address_to_string a = ok (bytes_of_string "10.0.0.1:80").
Proof.
  destruct (AddressTheorems.address_roundtrip 167772161 80 0 0) as (a&b&E&_&En&_&_&Es&_); [done..|].
  exists a. split; [exact E|]. split; [exact En|exact Es].
Defined.

End NumericResolver.
