(* ===== verification/Interface.v ===== *)
(** * [NetworkInterface] (libsponge/network_interface.* )

    The interface between IP and Ethernet: datagrams leave in frames addressed
    with the help of ARP. A function of the source that throws is modelled up to
    the exception; the object it leaves behind is not. *)
From S2P Require Import Prelude Buffers Parser Ipv4 Ethernet Typing Addresses.

Module NetworkInterface.
Import EthernetFrame.

(** The [unordered_map]s are keyed by raw IP addresses. *)
Record NetworkInterface := mkNetworkInterface {
  _ethernet_address : EthernetAddress;
  _ip_address : Address.Address;
  _frames_out : list EthernetFrame;
  _now_time_ms : Z;
  _ip_to_ethernet_cache : gmap Z EthernetAddress;
  _cache_time : gmap Z Z;
  _arp_request_his : gmap Z Z;
  _unsent_datagram : gmap Z (list IPv4Datagram.IPv4Datagram)
}.
#[global] Instance eta_NetworkInterface : Eta NetworkInterface := fun n =>
  mkNetworkInterface (_ethernet_address n) (_ip_address n) (_frames_out n) (_now_time_ms n)
    (_ip_to_ethernet_cache n) (_cache_time n) (_arp_request_his n) (_unsent_datagram n).

Definition _arp_cache_timeout : Z := 30000.
Definition _arp_request_limit : Z := 5000.

(** The constructor; its debug output is not modelled. *)
Definition make (ethernet_address : EthernetAddress) (ip_address : Address.Address)
    : NetworkInterface :=
  mkNetworkInterface ethernet_address ip_address [] 0 ∅ ∅ ∅ ∅.

Definition frames_out (n : NetworkInterface) : list EthernetFrame := _frames_out n.

(** A frame from this interface. *)
Definition make_frame (type : Z) (dst : EthernetAddress) (payload : BufferList.BufferList)
    (n : NetworkInterface) : EthernetFrame :=
  mkEthernetFrame (EthernetHeader.mkEthernetHeader dst (_ethernet_address n) type) payload.
Definition push_frame (f : EthernetFrame) (n : NetworkInterface) : NetworkInterface :=
  n <| _frames_out ::= fun q => q ++ [f] |>.

(** [_ip_to_ethernet_cache[ip]]; an absent entry reads as the zero address. *)
Definition cached_address (ip : Z) (n : NetworkInterface) : EthernetAddress :=
  default zero_address (_ip_to_ethernet_cache n !! ip).

(** Is there an entry of [m] for [ip] younger than [limit]? *)
Definition recent (m : gmap Z Z) (ip limit : Z) (n : NetworkInterface) : bool :=
  match m !! ip with
  | Some t => u64 (_now_time_ms n - t) <? limit
  | None => false
  end.

(** The ARP request for [ip]. *)
Definition arp_request (my_ip ip : Z) (n : NetworkInterface) : ARPMessage.ARPMessage :=
  ARPMessage.default_message
    <| ARPMessage.opcode := ARPMessage.OPCODE_REQUEST |>
    <| ARPMessage.sender_ip_address := my_ip |>
    <| ARPMessage.sender_ethernet_address := _ethernet_address n |>
    <| ARPMessage.target_ip_address := ip |>.

Definition send_arp_request (ip : Z) (n : NetworkInterface) : result NetworkInterface :=
  let! my_ip := Address.ipv4_numeric (_ip_address n) in
  let! body := ARPMessage.serialize (arp_request my_ip ip n) in
  ok ((push_frame (make_frame EthernetHeader.TYPE_ARP ETHERNET_BROADCAST
                     (BufferList.of_string body) n) n)
        <| _arp_request_his ::= insert ip (_now_time_ms n) |>).

Definition send_datagram (dgram : IPv4Datagram.IPv4Datagram) (next_hop : Address.Address)
    (n : NetworkInterface) : result NetworkInterface :=
  let! next_hop_ip := Address.ipv4_numeric next_hop in
  if recent (_cache_time n) next_hop_ip _arp_cache_timeout n then
    let! body := IPv4Datagram.serialize dgram in
    ok (push_frame (make_frame EthernetHeader.TYPE_IPv4 (cached_address next_hop_ip n) body n) n)
  else
    let! n := if recent (_arp_request_his n) next_hop_ip _arp_request_limit n
              then ok n else send_arp_request next_hop_ip n in
    ok (n <| _unsent_datagram ::= fun m =>
               <[next_hop_ip := default [] (m !! next_hop_ip) ++ [dgram]]> m |>).

(** The loop that sends the datagrams waiting for [ip]. *)
Fixpoint send_pending (ip : Z) (pending : list IPv4Datagram.IPv4Datagram) (n : NetworkInterface)
    : result NetworkInterface :=
  match pending with
  | [] => ok n
  | dgram :: pending =>
      let! body := IPv4Datagram.serialize dgram in
      send_pending ip pending
        (push_frame (make_frame EthernetHeader.TYPE_IPv4 (cached_address ip n) body n) n)
  end.

Definition arp_reply (my_ip : Z) (m : ARPMessage.ARPMessage) (n : NetworkInterface)
    : ARPMessage.ARPMessage :=
  ARPMessage.default_message
    <| ARPMessage.opcode := ARPMessage.OPCODE_REPLY |>
    <| ARPMessage.sender_ip_address := my_ip |>
    <| ARPMessage.sender_ethernet_address := _ethernet_address n |>
    <| ARPMessage.target_ip_address := ARPMessage.sender_ip_address m |>
    <| ARPMessage.target_ethernet_address := ARPMessage.sender_ethernet_address m |>.

(** The handling of an ARP message: learn, send what waited, and reply. *)
Definition recv_arp (m : ARPMessage.ARPMessage) (n : NetworkInterface) : result NetworkInterface :=
  let ip := ARPMessage.sender_ip_address m in
  let n := n <| _cache_time ::= insert ip (_now_time_ms n) |>
             <| _ip_to_ethernet_cache ::= insert ip (ARPMessage.sender_ethernet_address m) |> in
  let! n := send_pending ip (default [] (_unsent_datagram n !! ip)) n in
  let n := n <| _unsent_datagram ::= delete ip |> in
  if ARPMessage.opcode m =? ARPMessage.OPCODE_REQUEST then
    let! my_ip := Address.ipv4_numeric (_ip_address n) in
    if ARPMessage.target_ip_address m =? my_ip then
      let! body := ARPMessage.serialize (arp_reply my_ip m n) in
      ok (push_frame (make_frame EthernetHeader.TYPE_ARP (ARPMessage.sender_ethernet_address m)
                        (BufferList.of_string body) n) n)
    else ok n
  else ok n.

Definition recv_frame (frame : EthernetFrame) (n : NetworkInterface)
    : result (NetworkInterface * option IPv4Datagram.IPv4Datagram) :=
  if EthernetHeader.type (header frame) =? EthernetHeader.TYPE_IPv4 then
    let! b := BufferList.to_buffer (payload frame) in
    let! (ip_datagram, result) := IPv4Datagram.parse b IPv4Datagram.default_datagram in
    if bool_decide (result = NoError) &&
       bool_decide (EthernetHeader.dst (header frame) = _ethernet_address n)
    then ok (n, Some ip_datagram) else ok (n, None)
  else if EthernetHeader.type (header frame) =? EthernetHeader.TYPE_ARP then
    let! b := BufferList.to_buffer (payload frame) in
    let! (arp_message, result) := ARPMessage.parse b ARPMessage.default_message in
    if bool_decide (result = NoError) then
      let! n := recv_arp arp_message n in ok (n, None)
    else ok (n, None)
  else ok (n, None).

Definition tick (ms_since_last_tick : Z) (n : NetworkInterface) : NetworkInterface :=
  n <| _now_time_ms ::= fun t => u64 (t + ms_since_last_tick) |>.

End NetworkInterface.

(** A log of what an interface does with its frames, stamped with the time. *)
Module InterfaceLog.
Import EthernetFrame NetworkInterface.

Inductive event :=
  | Learn (t ip : Z) (mac : EthernetAddress)
  | Data (t ip : Z) (mac : EthernetAddress) (d : IPv4Datagram.IPv4Datagram)
  | Request (t ip : Z)
  | Reply (t : Z) (m : ARPMessage.ARPMessage).

Inductive op :=
  | SendDatagram (d : IPv4Datagram.IPv4Datagram) (next_hop : Address.Address)
  | RecvFrame (f : EthernetFrame)
  | Tick (ms : Z).

Definition step (o : op) (n : NetworkInterface) : result NetworkInterface :=
  match o with
  | SendDatagram d next_hop => send_datagram d next_hop n
  | RecvFrame f => let! (n, _) := recv_frame f n in ok n
  | Tick ms => ok (tick ms n)
  end.

(** The ARP message of a frame, if the frame is one. *)
Definition arp_of (f : EthernetFrame) : option ARPMessage.ARPMessage :=
  if EthernetHeader.type (header f) =? EthernetHeader.TYPE_ARP then
    match (let! b := BufferList.to_buffer (payload f) in
           ARPMessage.parse b ARPMessage.default_message) with
    | inr (m, NoError) => Some m
    | _ => None
    end
  else None.

Definition pending (ip : Z) (n : NetworkInterface) : list IPv4Datagram.IPv4Datagram :=
  default [] (_unsent_datagram n !! ip).

(** Is [m] a request for this interface's address? *)
Definition asks_me (m : ARPMessage.ARPMessage) (n : NetworkInterface) : bool :=
  (ARPMessage.opcode m =? ARPMessage.OPCODE_REQUEST) &&
  match Address.ipv4_numeric (_ip_address n) with
  | inr ip => ARPMessage.target_ip_address m =? ip
  | inl _ => false
  end.

Definition log_of (o : op) (n : NetworkInterface) : list event :=
  let now := _now_time_ms n in
  match o with
  | SendDatagram d next_hop =>
      match Address.ipv4_numeric next_hop with
      | inr ip => if recent (_cache_time n) ip _arp_cache_timeout n
                  then [Data now ip (cached_address ip n) d]
                  else if recent (_arp_request_his n) ip _arp_request_limit n
                  then [] else [Request now ip]
      | inl _ => []
      end
  | RecvFrame f =>
      match arp_of f with
      | Some m =>
          let ip := ARPMessage.sender_ip_address m in
          let mac := ARPMessage.sender_ethernet_address m in
          Learn now ip mac :: map (Data now ip mac) (pending ip n)
            ++ (if asks_me m n then [Reply now m] else [])
      | None => []
      end
  | Tick _ => []
  end.

(** Runs operations, extending the log. *)
Fixpoint run (ops : list op) (n : NetworkInterface) (log : list event)
    : result (NetworkInterface * list event) :=
  match ops with
  | [] => ok (n, log)
  | o :: ops => let! n' := step o n in run ops n' (log ++ log_of o n)
  end.

(** The frames an event stands for. *)
Definition render (n : NetworkInterface) (e : event) : result (list EthernetFrame) :=
  match e with
  | Learn _ _ _ => ok []
  | Data _ _ mac d =>
      let! body := IPv4Datagram.serialize d in
      ok [make_frame EthernetHeader.TYPE_IPv4 mac body n]
  | Request _ ip =>
      let! my_ip := Address.ipv4_numeric (_ip_address n) in
      let! body := ARPMessage.serialize (arp_request my_ip ip n) in
      ok [make_frame EthernetHeader.TYPE_ARP ETHERNET_BROADCAST (BufferList.of_string body) n]
  | Reply _ m =>
      let! my_ip := Address.ipv4_numeric (_ip_address n) in
      let! body := ARPMessage.serialize (arp_reply my_ip m n) in
      ok [make_frame EthernetHeader.TYPE_ARP (ARPMessage.sender_ethernet_address m)
            (BufferList.of_string body) n]
  end.
Fixpoint render_log (n : NetworkInterface) (log : list event) : result (list EthernetFrame) :=
  match log with
  | [] => ok []
  | e :: log => let! f := render n e in let! fs := render_log n log in ok (f ++ fs)
  end.

(** The datagrams handed to the interface for the next hop [ip], and those sent. *)
Definition submitted (ip : Z) (ops : list op) : list IPv4Datagram.IPv4Datagram :=
  omap (fun o => match o with
    | SendDatagram d hop =>
        match Address.ipv4_numeric hop with
        | inr ip' => if ip' =? ip then Some d else None
        | inl _ => None
        end
    | _ => None
    end) ops.
Definition transmitted (ip : Z) (log : list event) : list IPv4Datagram.IPv4Datagram :=
  omap (fun e => match e with
    | Data _ ip' _ d => if ip' =? ip then Some d else None
    | _ => None
    end) log.

(** The last thing learned about [ip], and the last request for it. *)
Definition learned (ip : Z) (log : list event) : option (Z * EthernetAddress) :=
  last (omap (fun e => match e with
    | Learn t ip' mac => if ip' =? ip then Some (t, mac) else None
    | _ => None
    end) log).
Definition requested (ip : Z) (log : list event) : option Z :=
  last (omap (fun e => match e with
    | Request t ip' => if ip' =? ip then Some t else None
    | _ => None
    end) log).

Lemma learned_data ip log t ip' mac ds :
  learned ip (log ++ map (Data t ip' mac) ds) = learned ip log.
Proof.
  unfold learned. rewrite omap_app. replace (omap _ (map _ ds)) with (@nil (Z * EthernetAddress)).
  - by rewrite app_nil_r.
  - induction ds; done.
Qed.

Lemma render_log_app n l k :
  render_log n (l ++ k) = let! f := render_log n l in let! g := render_log n k in ok (f ++ g).
Proof.
  induction l as [|e l IH]; simpl.
  - by destruct (render_log n k).
  - destruct (render n e) as [|f]; [done|]. rewrite !bindR_ok, IH.
    destruct (render_log n l) as [|g]; [done|]. rewrite !bindR_ok.
    destruct (render_log n k); [done|]. rewrite !bindR_ok. by rewrite app_assoc.
Qed.

(** Only the interface's addresses matter to the frames. *)
Lemma render_log_ext n n' log :
  _ethernet_address n = _ethernet_address n' -> _ip_address n = _ip_address n' ->
  render_log n log = render_log n' log.
Proof.
  intros E1 E2. induction log as [|e log IH]; [done|]. simpl. rewrite IH. f_equal.
  destruct e; simpl; unfold make_frame, arp_request, arp_reply; by rewrite ?E1, ?E2.
Qed.

End InterfaceLog.

Module InterfaceInvariant.
Import EthernetFrame NetworkInterface InterfaceLog.

(** The operations that do not throw: datagrams that can be serialized to IPv4 next
    hops, and frames as they come off the wire, in one buffer. *)
Definition op_ok (o : op) : Prop :=
  match o with
  | SendDatagram d hop => Ipv4Theorems.sendable d /\ is_ok (Address.ipv4_numeric hop)
  | RecvFrame f => exists b, payload f = [b] /\ Buffer.wf b
  | Tick ms => 0 <= ms
  end.
Definition duration (o : op) : Z := match o with Tick ms => ms | _ => 0 end.
Definition elapsed (ops : list op) : Z := fold_right (fun o t => duration o + t) 0 ops.

Section Interface.
Context (mac : EthernetAddress) (addr : Address.Address) (taken : list EthernetFrame) (my_ip : Z).
Hypothesis Haddr : Address.ipv4_numeric addr = ok my_ip.

(** The state of the interface against its log and the operations done; [taken] are the
    frames its owner has taken out of the queue. *)
Record inv (n : NetworkInterface) (log : list event) (ops : list op) : Prop := mk_inv {
  inv_mac : _ethernet_address n = mac;
  inv_addr : _ip_address n = addr;
  inv_now : 0 <= _now_time_ms n < 2 ^ 64;
  inv_learned : forall ip,
    match learned ip log with
    | Some (t, a) => _cache_time n !! ip = Some t /\ _ip_to_ethernet_cache n !! ip = Some a /\
                     0 <= t <= _now_time_ms n
    | None => _cache_time n !! ip = None
    end;
  inv_requested : forall ip, _arp_request_his n !! ip = requested ip log /\
    forall t, requested ip log = Some t -> 0 <= t <= _now_time_ms n;
  inv_frames : render_log n log = ok (taken ++ _frames_out n);
  inv_fifo : forall ip, transmitted ip log ++ pending ip n = submitted ip ops;
  inv_idle : forall ip, recent (_cache_time n) ip 30000 n = true -> pending ip n = [];
  inv_pending : forall ip, Forall Ipv4Theorems.sendable (pending ip n)
}.

Lemma recent_spec m ip limit n :
  0 <= _now_time_ms n < 2 ^ 64 -> (forall t, m !! ip = Some t -> 0 <= t <= _now_time_ms n) ->
  recent m ip limit n = true <-> exists t, m !! ip = Some t /\ _now_time_ms n < t + limit.
Proof.
  intros Hn Ht. unfold recent. destruct (m !! ip) as [t|]; [|split; [done|by intros (?&?&?)]].
  specialize (Ht t eq_refl). rewrite u64_small by lia. rewrite Z.ltb_lt. split.
  - intros H. exists t. split; [done|lia].
  - intros (t'&[= <-]&H). lia.
Qed.

Lemma recent_learned n log ops ip :
  inv n log ops ->
  recent (_cache_time n) ip _arp_cache_timeout n = true <->
  exists t, learned ip log = Some (t, cached_address ip n) /\ t <= _now_time_ms n < t + 30000.
Proof.
  intros I. pose proof (inv_learned _ _ _ I ip) as L. unfold _arp_cache_timeout.
  rewrite recent_spec; [|apply I|].
  - unfold cached_address. destruct (learned ip log) as [[t a]|]; [|rewrite L; split; by intros (?&?&?)].
    destruct L as (->&->&Ht). simpl. split.
    + intros (t'&[= <-]&?). exists t. split; [done|lia].
    + intros (t'&[= <-]&?). exists t. split; [done|lia].
  - intros t E. destruct (learned ip log) as [[t' a]|]; [|congruence].
    destruct L as (E'&_&Ht). by simplify_eq.
Qed.

Lemma recent_requested n log ops ip :
  inv n log ops ->
  recent (_arp_request_his n) ip _arp_request_limit n = true <->
  exists t, requested ip log = Some t /\ _now_time_ms n < t + 5000.
Proof.
  intros I. destruct (inv_requested _ _ _ I ip) as [E Ht]. unfold _arp_request_limit.
  rewrite recent_spec; [by rewrite E|apply I|by rewrite E].
Qed.

Lemma inv_make : taken = [] -> inv (make mac addr) [] [].
Proof. intros Ht. split; try done. by rewrite Ht. Qed.

Lemma inv_tick ms n log ops :
  inv n log ops -> 0 <= ms -> _now_time_ms n + ms < 2 ^ 64 ->
  inv (tick ms n) (log ++ []) (ops ++ [Tick ms]) /\ _now_time_ms (tick ms n) = _now_time_ms n + ms.
Proof.
  intros [I1 I2 I3 I4 I5 I6 I7 I8 I9] Hms Hn. rewrite app_nil_r. unfold tick.
  assert (u64 (_now_time_ms n + ms) = _now_time_ms n + ms) as E by (apply u64_small; lia).
  split; [|by destruct n].
  destruct n as [m a f now c ct rq un]. unfold pending in *. cbn in *. rewrite E.
  split; cbn; try done; try lia.
  - intros ip. specialize (I4 ip). destruct (learned ip log) as [[t x]|]; [|done].
    destruct I4 as (?&?&?). split_and!; try done; lia.
  - intros ip. destruct (I5 ip) as [? H5]. split; [done|]. intros t Ht%H5. lia.
  - rewrite <- I6. by apply render_log_ext.
  - intros ip. unfold pending. cbn. rewrite I7. unfold submitted. rewrite omap_app. simpl. by rewrite app_nil_r.
  - intros ip Hr. apply (I8 ip). unfold recent in *. cbn in *. specialize (I4 ip).
    destruct (ct !! ip) as [t|]; [|done]. destruct (learned ip log) as [[t' x]|]; [|done].
    destruct I4 as ([= <-]&_&?). rewrite u64_small in * by lia. rewrite Z.ltb_lt in *. lia.
Qed.

Lemma submitted_snoc ip ops o :
  submitted ip (ops ++ [o]) = submitted ip ops ++ submitted ip [o].
Proof. apply omap_app. Qed.

Lemma transmitted_app ip log k :
  transmitted ip (log ++ k) = transmitted ip log ++ transmitted ip k.
Proof. apply omap_app. Qed.

Lemma learned_snoc ip log e :
  learned ip (log ++ [e]) =
  match e with
  | Learn t ip' a => if ip' =? ip then Some (t, a) else learned ip log
  | _ => learned ip log
  end.
Proof.
  unfold learned. rewrite omap_app. destruct e; simpl; rewrite ?app_nil_r; try done.
  destruct (ip0 =? ip); [by rewrite last_snoc|by rewrite app_nil_r].
Qed.

Lemma requested_snoc ip log e :
  requested ip (log ++ [e]) =
  match e with
  | Request t ip' => if ip' =? ip then Some t else requested ip log
  | _ => requested ip log
  end.
Proof.
  unfold requested. rewrite omap_app. destruct e; simpl; rewrite ?app_nil_r; try done.
  destruct (ip0 =? ip); [by rewrite last_snoc|by rewrite app_nil_r].
Qed.

(** A frame pushed for an event. *)
Lemma render_push n log e f :
  render_log n log = ok (taken ++ _frames_out n) -> render n e = ok [f] ->
  render_log (push_frame f n) (log ++ [e]) = ok (taken ++ _frames_out (push_frame f n)).
Proof.
  intros E1 E2. rewrite (render_log_ext _ n) by (by destruct n).
  rewrite render_log_app, E1, bindR_ok. simpl. rewrite E2, !bindR_ok. destruct n. cbn. by rewrite app_assoc.
Qed.

Lemma inv_queue d hop ip n log ops :
  inv n log ops -> Address.ipv4_numeric hop = ok ip -> Ipv4Theorems.sendable d ->
  recent (_cache_time n) ip _arp_cache_timeout n = false ->
  inv (n <| _unsent_datagram ::= fun m => <[ip := default [] (m !! ip) ++ [d]]> m |>)
    log (ops ++ [SendDatagram d hop]).
Proof.
  intros [I1 I2 I3 I4 I5 I6 I7 I8 I9] Hhop Hd Hc.
  assert (forall ip', pending ip' (n <| _unsent_datagram ::= fun m => <[ip := default [] (m !! ip) ++ [d]]> m |>)
    = if ip =? ip' then pending ip' n ++ [d] else pending ip' n) as Hp.
  { intros ip'. unfold pending. destruct n. cbn.
    destruct (Z.eqb_spec ip ip') as [<-|]; [by rewrite lookup_insert_eq|by rewrite lookup_insert_ne]. }
  split; try by destruct n.
  - rewrite (render_log_ext _ n) by (by destruct n). rewrite I6. by destruct n.
  - intros ip'. rewrite Hp, submitted_snoc. simpl. rewrite Hhop. simpl. rewrite <- I7.
    destruct (ip =? ip'); simpl; [by rewrite app_assoc|by rewrite app_nil_r].
  - intros ip' Hr. rewrite Hp. destruct (Z.eqb_spec ip ip') as [<-|].
    + unfold recent, _arp_cache_timeout in *. destruct n; cbn in *. congruence.
    + apply I8. by destruct n.
  - intros ip'. rewrite Hp. destruct (ip =? ip'); [|done]. apply Forall_app. auto.
Qed.

Lemma inv_request ip n log ops :
  inv n log ops ->
  recent (_cache_time n) ip _arp_cache_timeout n = false ->
  recent (_arp_request_his n) ip _arp_request_limit n = false ->
  exists n', send_arp_request ip n = ok n' /\ inv n' (log ++ [Request (_now_time_ms n) ip]) ops /\
    _now_time_ms n' = _now_time_ms n /\ _cache_time n' = _cache_time n.
Proof.
  intros I Hc Hr. destruct I as [I1 I2 I3 I4 I5 I6 I7 I8 I9].
  unfold send_arp_request. rewrite I2, Haddr, bindR_ok, ArpTheorems.arp_serialize_wire, bindR_ok by done.
  set (f := make_frame _ _ _ n). eexists. split; [reflexivity|]. split; [|by destruct n].
  assert (render n (Request (_now_time_ms n) ip) = ok [f]) as Ef.
  { unfold render. by rewrite I2, Haddr, bindR_ok, ArpTheorems.arp_serialize_wire, bindR_ok by done. }
  pose proof (render_push _ _ _ _ I6 Ef) as Hrender.
  split; try by destruct n.
  - intros ip'. rewrite learned_snoc. destruct n. exact (I4 ip').
  - intros ip'. rewrite requested_snoc. destruct (I5 ip') as [E5 H5].
    destruct n; cbn in *. destruct (Z.eqb_spec ip ip') as [<-|].
    + rewrite lookup_insert_eq. split; [done|]. intros t [= <-]. lia.
    + by rewrite lookup_insert_ne.
  - rewrite (render_log_ext _ (push_frame f n)) by (by destruct n). rewrite Hrender. by destruct n.
  - intros ip'. rewrite transmitted_app. simpl. rewrite app_nil_r. destruct n. exact (I7 ip').
Qed.

Lemma serialize_sendable d :
  Ipv4Theorems.sendable d -> is_ok (IPv4Datagram.serialize d).
Proof. intros (c&_&E&_)%Ipv4Theorems.serialize_datagram. by eexists. Qed.

Lemma inv_send_data d hop ip n log ops :
  inv n log ops -> Address.ipv4_numeric hop = ok ip -> Ipv4Theorems.sendable d ->
  recent (_cache_time n) ip _arp_cache_timeout n = true ->
  exists body, IPv4Datagram.serialize d = ok body /\
    inv (push_frame (make_frame EthernetHeader.TYPE_IPv4 (cached_address ip n) body n) n)
      (log ++ [Data (_now_time_ms n) ip (cached_address ip n) d]) (ops ++ [SendDatagram d hop]).
Proof.
  intros I Hhop Hd Hc. destruct (serialize_sendable d Hd) as [body E]. exists body. split; [done|].
  pose proof (inv_idle _ _ _ I ip Hc) as Hidle. destruct I as [I1 I2 I3 I4 I5 I6 I7 I8 I9].
  set (e := Data _ _ _ _). set (f := make_frame _ _ _ _).
  assert (render n e = ok [f]) as Ef by (unfold e, render; by rewrite E, bindR_ok).
  pose proof (render_push _ _ _ _ I6 Ef) as Hrender.
  split; try done; try by destruct n.
  - intros ip'. rewrite learned_snoc. destruct n. exact (I4 ip').
  - intros ip'. rewrite requested_snoc. destruct n. exact (I5 ip').
  - intros ip'. change (pending ip' (push_frame f n)) with (pending ip' n).
    rewrite transmitted_app, submitted_snoc, <- I7. simpl. rewrite Hhop. simpl.
    destruct (Z.eqb_spec ip ip') as [<-|]; rewrite ?app_nil_r; [|done]. by rewrite Hidle, !app_nil_r.
Qed.

Lemma send_pending_eq t ip ds n :
  Forall Ipv4Theorems.sendable ds ->
  exists fs, send_pending ip ds n = ok (n <| _frames_out ::= fun q => q ++ fs |>) /\
    render_log n (map (Data t ip (cached_address ip n)) ds) = ok fs.
Proof.
  revert n. induction ds as [|d ds IH]; intros n Hds.
  - exists []. split; [|done]. simpl. f_equal. destruct n. cbn. by rewrite app_nil_r.
  - apply Forall_cons in Hds as [Hd Hds]. destruct (serialize_sendable d Hd) as [body E].
    set (f := make_frame EthernetHeader.TYPE_IPv4 (cached_address ip n) body n).
    destruct (IH (push_frame f n) Hds) as (fs&E1&E2). exists (f :: fs). simpl send_pending.
    rewrite E, bindR_ok. fold f. rewrite E1. split.
    + f_equal. destruct n. cbn. by rewrite <- app_assoc.
    + rewrite (render_log_ext _ n) in E2 by (by destruct n).
      change (cached_address ip (push_frame f n)) with (cached_address ip n) in E2.
      cbn [map render_log]. unfold render. by rewrite E, !bindR_ok, E2, bindR_ok.
Qed.

(** The state once a mapping is learned and what waited for it is sent. *)
Definition flushed (ip : Z) (a : EthernetAddress) (fs : list EthernetFrame) (n : NetworkInterface)
    : NetworkInterface :=
  mkNetworkInterface (_ethernet_address n) (_ip_address n) (_frames_out n ++ fs) (_now_time_ms n)
    (<[ip := a]> (_ip_to_ethernet_cache n)) (<[ip := _now_time_ms n]> (_cache_time n))
    (_arp_request_his n) (delete ip (_unsent_datagram n)).

Lemma transmitted_map ip t ip' a ds :
  transmitted ip (map (Data t ip' a) ds) = if ip' =? ip then ds else [].
Proof.
  induction ds as [|d ds IH]; [by destruct (ip' =? ip)|].
  change (transmitted ip (map (Data t ip' a) (d :: ds))) with
    (match (if ip' =? ip then Some d else None) with
     | Some x => x :: transmitted ip (map (Data t ip' a) ds)
     | None => transmitted ip (map (Data t ip' a) ds)
     end).
  rewrite IH. by destruct (ip' =? ip).
Qed.

Lemma requested_map ip log t ip' a ds :
  requested ip (log ++ map (Data t ip' a) ds) = requested ip log.
Proof.
  unfold requested. rewrite omap_app. replace (omap _ (map _ ds)) with (@nil Z).
  - by rewrite app_nil_r.
  - induction ds; done.
Qed.

Lemma inv_flushed ip a fs n log ops :
  inv n log ops ->
  render_log n (map (Data (_now_time_ms n) ip a) (pending ip n)) = ok fs ->
  inv (flushed ip a fs n)
    ((log ++ [Learn (_now_time_ms n) ip a]) ++ map (Data (_now_time_ms n) ip a) (pending ip n)) ops.
Proof.
  intros [I1 I2 I3 I4 I5 I6 I7 I8 I9] Hfs. set (now := _now_time_ms n) in *.
  assert (forall ip', pending ip' (flushed ip a fs n) = if ip =? ip' then [] else pending ip' n) as Hp.
  { intros ip'. unfold pending, flushed. cbn. destruct (Z.eqb_spec ip ip') as [<-|].
    - by rewrite lookup_delete_eq.
    - by rewrite lookup_delete_ne. }
  split; try done.
  - intros ip'. rewrite learned_data, learned_snoc. cbn. destruct (Z.eqb_spec ip ip') as [<-|].
    + rewrite !lookup_insert_eq. unfold now. split_and!; try done; lia.
    + rewrite !lookup_insert_ne by done. exact (I4 ip').
  - intros ip'. rewrite requested_map, requested_snoc. exact (I5 ip').
  - rewrite (render_log_ext _ n) by done. rewrite <- app_assoc, render_log_app, I6, bindR_ok. simpl.
    rewrite Hfs. cbn. by rewrite app_assoc.
  - intros ip'. rewrite Hp, <- I7. rewrite !transmitted_app, transmitted_map. simpl.
    rewrite app_nil_r.
    destruct (Z.eqb_spec ip ip') as [<-|]; by rewrite app_nil_r.
  - intros ip'. rewrite Hp. unfold recent, flushed. cbn. destruct (Z.eqb_spec ip ip') as [<-|]; [done|].
    rewrite lookup_insert_ne by done. exact (I8 ip').
  - intros ip'. rewrite Hp. by destruct (ip =? ip').
Qed.

Lemma inv_reply m f n log ops :
  inv n log ops -> render n (Reply (_now_time_ms n) m) = ok [f] ->
  inv (push_frame f n) (log ++ [Reply (_now_time_ms n) m]) ops.
Proof.
  intros [I1 I2 I3 I4 I5 I6 I7 I8 I9] Ef.
  pose proof (render_push _ _ _ _ I6 Ef) as Hrender.
  split; try done; try by destruct n.
  - intros ip'. rewrite learned_snoc. destruct n. exact (I4 ip').
  - intros ip'. rewrite requested_snoc. destruct n. exact (I5 ip').
  - intros ip'. rewrite transmitted_app. simpl. rewrite app_nil_r. exact (I7 ip').
Qed.

Lemma log_send d hop ip n :
  Address.ipv4_numeric hop = ok ip ->
  log_of (SendDatagram d hop) n =
    if recent (_cache_time n) ip _arp_cache_timeout n
    then [Data (_now_time_ms n) ip (cached_address ip n) d]
    else if recent (_arp_request_his n) ip _arp_request_limit n
    then [] else [Request (_now_time_ms n) ip].
Proof. intros E. unfold log_of. by rewrite E. Qed.

Lemma asks_me_eq m n log ops :
  inv n log ops ->
  asks_me m n = (ARPMessage.opcode m =? ARPMessage.OPCODE_REQUEST) &&
                (ARPMessage.target_ip_address m =? my_ip).
Proof. intros I. unfold asks_me. by rewrite (inv_addr _ _ _ I), Haddr. Qed.

Lemma inv_send d hop n log ops :
  inv n log ops -> Ipv4Theorems.sendable d -> is_ok (Address.ipv4_numeric hop) ->
  exists n', send_datagram d hop n = ok n' /\
    inv n' (log ++ log_of (SendDatagram d hop) n) (ops ++ [SendDatagram d hop]) /\
    _now_time_ms n' = _now_time_ms n.
Proof.
  intros I Hd [ip Hhop]. rewrite (log_send _ _ _ _ Hhop). unfold send_datagram.
  rewrite Hhop, bindR_ok.
  destruct (recent (_cache_time n) _ _ _) eqn:Hc.
  { destruct (inv_send_data _ _ _ _ _ _ I Hhop Hd Hc) as (body&E&I'). rewrite E, bindR_ok.
    eexists. split; [done|]. split; [exact I'|]. by destruct n. }
  destruct (recent (_arp_request_his n) _ _ _) eqn:Hr.
  { rewrite bindR_ok, app_nil_r. eexists. split; [done|].
    split; [by apply inv_queue|]. by destruct n. }
  destruct (inv_request _ _ _ _ I Hc Hr) as (n'&->&I'&Hn&Ht). rewrite bindR_ok.
  eexists. split; [done|]. split; [apply inv_queue; try done|rewrite <- Hn; by destruct n'].
  unfold recent in *. by rewrite Hn, Ht.
Qed.

Lemma recv_arp_eq m n log ops :
  inv n log ops ->
  let ip := ARPMessage.sender_ip_address m in
  let a := ARPMessage.sender_ethernet_address m in
  exists n', recv_arp m n = ok n' /\ _now_time_ms n' = _now_time_ms n /\
    inv n' (log ++ Learn (_now_time_ms n) ip a :: map (Data (_now_time_ms n) ip a) (pending ip n)
              ++ (if asks_me m n then [Reply (_now_time_ms n) m] else [])) ops.
Proof.
  intros I ip a. unfold recv_arp. fold ip a. cbv zeta.
  set (n1 := n <| _cache_time ::= _ |> <| _ip_to_ethernet_cache ::= _ |>).
  change (default [] (_unsent_datagram n1 !! ip)) with (pending ip n).
  destruct (send_pending_eq (_now_time_ms n) ip (pending ip n) n1 (inv_pending _ _ _ I ip)) as (fs&->&Hfs).
  replace (cached_address ip n1) with a in Hfs
    by (unfold cached_address, n1; destruct n; cbn; by rewrite lookup_insert_eq).
  rewrite (render_log_ext _ n) in Hfs by (by destruct n). rewrite bindR_ok.
  replace ((n1 <| _frames_out ::= fun q => q ++ fs |>) <| _unsent_datagram ::= delete ip |>)
    with (flushed ip a fs n) by (unfold n1, flushed; by destruct n).
  pose proof (inv_flushed ip a fs n log ops I Hfs) as I'. clear Hfs n1.
  rewrite (asks_me_eq _ _ _ _ I).
  destruct (ARPMessage.opcode m =? ARPMessage.OPCODE_REQUEST);
    [|eexists; split; [done|]; split; [done|]; by rewrite <- app_assoc, app_nil_r in *].
  change (_ip_address (flushed ip a fs n)) with (_ip_address n).
  rewrite (inv_addr _ _ _ I), Haddr, bindR_ok. cbn [andb].
  destruct (_ =? my_ip); [|eexists; split; [done|]; split; [done|]; by rewrite <- app_assoc, app_nil_r in *].
  rewrite ArpTheorems.arp_serialize_wire, bindR_ok by done. eexists. split; [done|]. split; [done|].
  replace (log ++ _) with (((log ++ [Learn (_now_time_ms n) ip a]) ++
    map (Data (_now_time_ms n) ip a) (pending ip n)) ++ [Reply (_now_time_ms n) m])
    by (by rewrite <- !app_assoc).
  apply (inv_reply m _ (flushed ip a fs n)); [done|]. unfold render. change (_ip_address (flushed ip a fs n)) with (_ip_address n).
  by rewrite (inv_addr _ _ _ I), Haddr, bindR_ok, ArpTheorems.arp_serialize_wire, bindR_ok by done.
Qed.

Lemma inv_idle_op o n log ops :
  inv n log ops -> (forall ip, submitted ip [o] = []) -> inv n log (ops ++ [o]).
Proof.
  intros [] Ho. split; try done. intros ip. by rewrite submitted_snoc, Ho, app_nil_r.
Qed.

Lemma inv_recv f n log ops :
  inv n log ops -> op_ok (RecvFrame f) ->
  exists n' d, recv_frame f n = ok (n', d) /\
    inv n' (log ++ log_of (RecvFrame f) n) (ops ++ [RecvFrame f]) /\
    _now_time_ms n' = _now_time_ms n.
Proof.
  intros I (b&Hb&Hwf). unfold recv_frame, log_of, arp_of. rewrite Hb. cbn [BufferList.to_buffer].
  rewrite !bindR_ok.
  assert (inv n (log ++ []) (ops ++ [RecvFrame f])) as I0 by (rewrite app_nil_r; by apply inv_idle_op).
  destruct (Z.eqb_spec (EthernetHeader.type (header f)) EthernetHeader.TYPE_IPv4) as [E4|_].
  { destruct (Ipv4Theorems.parse_datagram_total b IPv4Datagram.default_datagram Hwf) as (d&r&->).
    rewrite bindR_ok, E4. change (EthernetHeader.TYPE_IPv4 =? _) with false. cbv iota.
    destruct (_ && _); by do 2 eexists. }
  destruct (_ =? EthernetHeader.TYPE_ARP); [|by do 2 eexists].
  destruct (ArpTheorems.parse_message_total b ARPMessage.default_message Hwf) as (m&r&->&_).
  rewrite bindR_ok. unfold ok at 2. cbv iota. destruct (bool_decide_reflect (r = NoError)) as [->|Hr].
  - destruct (recv_arp_eq m n log ops I) as (n'&->&Hn&I'). rewrite bindR_ok. do 2 eexists.
    split; [done|]. split; [|done]. by apply inv_idle_op.
  - do 2 eexists. split; [done|]. by destruct r.
Qed.

Lemma inv_step o n log ops :
  inv n log ops -> op_ok o -> _now_time_ms n + duration o < 2 ^ 64 ->
  exists n', step o n = ok n' /\ inv n' (log ++ log_of o n) (ops ++ [o]) /\
    _now_time_ms n' = _now_time_ms n + duration o.
Proof.
  intros I Ho Hd. destruct o as [d hop|f|ms]; simpl duration in *; rewrite ?Z.add_0_r in *; unfold step.
  - destruct Ho. by apply inv_send.
  - destruct (inv_recv f n log ops I Ho) as (n'&d&->&I'&Hn). rewrite bindR_ok. by exists n'.
  - eexists. split; [done|]. by apply inv_tick.
Qed.

Lemma inv_run ops n log done_ops :
  inv n log done_ops -> Forall op_ok ops -> _now_time_ms n + elapsed ops < 2 ^ 64 ->
  exists n' log', run ops n log = ok (n', log') /\ inv n' log' (done_ops ++ ops).
Proof.
  revert n log done_ops. induction ops as [|o ops IH]; intros n log done_ops I Hops Ht.
  - rewrite app_nil_r. by do 2 eexists.
  - apply Forall_cons in Hops as [Ho Hops]. simpl in Ht.
    assert (0 <= elapsed ops).
    { clear -Hops. induction Hops as [|o ops Ho _ IH]; simpl; [done|].
      destruct o; simpl in *; lia. }
    destruct (inv_step o n log done_ops I Ho) as (n'&E&I'&Hn); [lia|].
    simpl. rewrite E, bindR_ok.
    destruct (IH n' _ _ I' Hops) as (n''&log''&E'&I''); [lia|].
    do 2 eexists. split; [exact E'|]. by rewrite <- app_assoc in I''.
Qed.

End Interface.

(** The owner takes a frame. *)
Lemma inv_take mac addr taken f n log ops :
  inv mac addr taken n log ops -> head (_frames_out n) = Some f ->
  inv mac addr (taken ++ [f]) (n <| _frames_out ::= tail |>) log ops.
Proof.
  intros [] Hf. split; try done. rewrite (render_log_ext _ n) by (by destruct n). rewrite inv_frames0.
  destruct n as [? ? [|x q] ? ? ? ? ?]; [done|]. injection Hf as ->. cbn. by rewrite <- app_assoc.
Qed.

End InterfaceInvariant.

(** What an interface puts out, against what it was given: both with the time of day of the
    operations, and without regard to the tables of the interface. *)
Module InterfaceTrace.
Import EthernetFrame NetworkInterface InterfaceLog InterfaceInvariant.

(** The ARP messages received, and the last one from [ip]. *)
Fixpoint messages (t : Z) (ops : list op) : list (Z * ARPMessage.ARPMessage) :=
  match ops with
  | [] => []
  | o :: ops =>
      match o with
      | RecvFrame f => match arp_of f with Some m => [(t, m)] | None => [] end
      | _ => []
      end ++ messages (t + duration o) ops
  end.
Definition heard (ip : Z) (ops : list op) : option (Z * EthernetAddress) :=
  last (omap (fun '(t, m) => if ARPMessage.sender_ip_address m =? ip
                             then Some (t, ARPMessage.sender_ethernet_address m) else None)
    (messages 0 ops)).

(** The frames queued by the operations. *)
Fixpoint trace (t : Z) (ops : list op) (n : NetworkInterface)
    : result (NetworkInterface * list (Z * EthernetFrame)) :=
  match ops with
  | [] => ok (n, [])
  | o :: ops =>
      let! n' := step o n in
      let new := drop (length (frames_out n)) (frames_out n') in
      let! (n', tr) := trace (t + duration o) ops n' in
      ok (n', map (pair t) new ++ tr)
  end.

(** The address that a frame asks for, if it is an ARP request, and when [ip] was last
    asked for. *)
Definition request_of (f : EthernetFrame) : option Z :=
  match arp_of f with
  | Some m => if ARPMessage.opcode m =? ARPMessage.OPCODE_REQUEST
              then Some (ARPMessage.target_ip_address m) else None
  | None => None
  end.
Definition asked (ip : Z) (tr : list (Z * EthernetFrame)) : option Z :=
  last (omap (fun '(t, f) => match request_of f with
    | Some ip' => if ip' =? ip then Some t else None
    | None => None
    end) tr).

(** Less than [limit] ms before [now]. *)
Definition within (limit now : Z) (t : option Z) : bool :=
  match t with Some t => now <? t + limit | None => false end.

Lemma duration_nonneg o : op_ok o -> 0 <= duration o.
Proof. by destruct o. Qed.

Lemma elapsed_snoc ops o : elapsed (ops ++ [o]) = elapsed ops + duration o.
Proof. unfold elapsed. induction ops as [|x ops IH]; cbn [app fold_right]; lia. Qed.

Lemma messages_snoc t ops o :
  messages t (ops ++ [o]) = messages t ops ++
    match o with
    | RecvFrame f => match arp_of f with Some m => [(t + elapsed ops, m)] | None => [] end
    | _ => []
    end.
Proof.
  revert t. induction ops as [|x ops IH]; intros t; cbn [app messages].
  - change (elapsed []) with 0. by rewrite Z.add_0_r, app_nil_r.
  - rewrite IH, <- app_assoc. do 2 f_equal. change (elapsed (x :: ops)) with (duration x + elapsed ops).
    by rewrite Z.add_assoc.
Qed.

Lemma trace_snoc t ops o n n1 tr n2 :
  trace t ops n = ok (n1, tr) -> step o n1 = ok n2 ->
  trace t (ops ++ [o]) n =
    ok (n2, tr ++ map (pair (t + elapsed ops)) (drop (length (frames_out n1)) (frames_out n2))).
Proof.
  revert t n tr. induction ops as [|x ops IH]; intros t n tr E Es; cbn [app trace] in *.
  - unfold ok in E. injection E as <- <-. rewrite Es. cbn. rewrite app_nil_r. change (elapsed []) with 0.
    by rewrite Z.add_0_r.
  - apply bindR_inv in E as (n'&->&E). rewrite bindR_ok. apply bindR_inv in E as ([n'' tr']&Et&E).
    unfold ok in E. injection E as <- <-. rewrite (IH _ _ _ Et Es), bindR_ok, <- app_assoc.
    change (elapsed (x :: ops)) with (duration x + elapsed ops). by rewrite Z.add_assoc.
Qed.

(** An ARP frame is read back. *)
Lemma arp_frame_of dst src m :
  ARPMessage.wf m ->
  arp_of (mkEthernetFrame (EthernetHeader.mkEthernetHeader dst src EthernetHeader.TYPE_ARP)
            (BufferList.of_string (ArpTheorems.wire m))) = Some m.
Proof.
  intros Hm. unfold arp_of. cbn [header _header EthernetHeader.type payload _payload]. rewrite Z.eqb_refl.
  change (BufferList.to_buffer (BufferList.of_string (ArpTheorems.wire m))) with (ok (Buffer.make (ArpTheorems.wire m))).
  rewrite bindR_ok, (ArpTheorems.parse_wire m _ _ [] Hm); [done| |by rewrite app_nil_r].
  apply Buffer.make_wf. rewrite ArpTheorems.zlen_wire by (by apply ArpTheorems.wf_in_range). lia.
Qed.

Lemma ipv4_frame_arp h body : EthernetHeader.type h = EthernetHeader.TYPE_IPv4 -> arp_of (mkEthernetFrame h body) = None.
Proof. intros E. unfold arp_of. cbn [header _header]. by rewrite E. Qed.

Lemma numeric_range a ip : Address.ipv4_numeric a = ok ip -> 0 <= ip < 2 ^ 32.
Proof.
  unfold Address.ipv4_numeric. destruct (_ || _); [done|]. unfold ok. intros [= <-].
  pose proof (be_decode_range (Address.sin_addr a)) as Hr. split; [lia|]. eapply Z.lt_le_trans; [apply Hr|].
  apply Z.pow_le_mono_r; [lia|]. unfold Address.sin_addr, zlen. rewrite length_take. lia.
Qed.

(** A message that was received. *)
Lemma arp_of_wf f m : op_ok (RecvFrame f) -> arp_of f = Some m ->
  address_ok (ARPMessage.sender_ethernet_address m) /\ 0 <= ARPMessage.sender_ip_address m < 2 ^ 32.
Proof.
  intros (b&Hb&Hwf) E. unfold arp_of in E. destruct (_ =? _); [|done]. rewrite Hb in E.
  cbn [BufferList.to_buffer] in E. rewrite bindR_ok in E.
  destruct (Typing.arp_typed b ARPMessage.default_message Hwf) as (m'&r&E'&[]).
  { by split; repeat constructor. }
  rewrite E' in E. unfold ok in E. destruct r; try done. by injection E as <-.
Qed.

Section Trace.
Context (mac : EthernetAddress) (addr : Address.Address) (my_ip : Z).
Context (Hmac : address_ok mac) (Haddr : Address.ipv4_numeric addr = ok my_ip).
Local Abbreviation inv := (inv mac addr []).

(** The frame of an event, and what it asks for. *)
Definition event_ok (e : event) : Prop :=
  match e with
  | Request _ ip => 0 <= ip < 2 ^ 32
  | Reply _ m => address_ok (ARPMessage.sender_ethernet_address m) /\ 0 <= ARPMessage.sender_ip_address m < 2 ^ 32
  | _ => True
  end.
Definition stamp (e : event) : Z :=
  match e with Learn t _ _ | Data t _ _ _ | Request t _ | Reply t _ => t end.

Lemma request_wf n ip :
  _ethernet_address n = mac -> 0 <= ip < 2 ^ 32 -> ARPMessage.wf (arp_request my_ip ip n).
Proof.
  intros E Hip. pose proof (numeric_range _ _ Haddr). split; try done; [cbn; by rewrite E|].
  split; [done|]. repeat constructor; done.
Qed.
Lemma reply_wf n m :
  _ethernet_address n = mac -> event_ok (Reply 0 m) -> ARPMessage.wf (arp_reply my_ip m n).
Proof.
  intros E [? ?]. pose proof (numeric_range _ _ Haddr). split; try done. cbn. by rewrite E.
Qed.

Lemma render_requests n e fs :
  _ethernet_address n = mac -> _ip_address n = addr -> event_ok e -> render n e = ok fs ->
  map request_of fs = match e with Learn _ _ _ => [] | Request _ ip => [Some ip] | _ => [None] end.
Proof.
  intros Em Ea He E. destruct e as [t ip a|t ip a d|t ip|t m]; cbn [render] in E.
  - unfold ok in E. by injection E as <-.
  - apply bindR_inv in E as (body&_&E). unfold ok in E. injection E as <-. unfold request_of, make_frame. cbn [map].
    by rewrite ipv4_frame_arp.
  - rewrite Ea, Haddr, bindR_ok, ArpTheorems.arp_serialize_wire, bindR_ok in E by done. unfold ok in E. injection E as <-.
    unfold request_of, make_frame. cbn [map]. by rewrite arp_frame_of by by apply request_wf.
  - rewrite Ea, Haddr, bindR_ok, ArpTheorems.arp_serialize_wire, bindR_ok in E by done. unfold ok in E. injection E as <-.
    unfold request_of, make_frame. cbn [map]. by rewrite arp_frame_of by by apply reply_wf.
Qed.

Lemma asked_render n t l fs ip log tr :
  _ethernet_address n = mac -> _ip_address n = addr -> Forall event_ok l -> Forall (fun e => stamp e = t) l ->
  render_log n l = ok fs -> requested ip log = asked ip tr ->
  requested ip (log ++ l) = asked ip (tr ++ map (pair t) fs).
Proof.
  intros Em Ea. revert fs log tr. induction l as [|e l IH]; intros fs log tr Hok Ht E Hr; cbn [render_log] in E.
  { unfold ok in E. injection E as <-. cbn [map]. by rewrite !app_nil_r. }
  apply bindR_inv in E as (f&Ef&E). apply bindR_inv in E as (g&Eg&E). unfold ok in E. injection E as <-.
  apply Forall_cons in Hok as [He Hok]. apply Forall_cons in Ht as [Hs Ht].
  rewrite map_app, cons_middle, !app_assoc. apply IH; try done.
  pose proof (render_requests n e f Em Ea He Ef) as Hq. unfold requested, asked in *. rewrite !omap_app, !last_app, Hr.
  destruct e as [t' ip' a|t' ip' a d|t' ip'|t' m]; cbn in Hs; subst t'.
  - destruct f; [done|discriminate].
  - destruct f as [|x [|? ?]]; try discriminate. injection Hq as Hq. cbn. by rewrite Hq.
  - destruct f as [|x [|? ?]]; try discriminate. injection Hq as Hq. cbn. rewrite Hq. by destruct (ip' =? ip).
  - destruct f as [|x [|? ?]]; try discriminate. injection Hq as Hq. cbn. by rewrite Hq.
Qed.

Lemma log_of_ok o n : op_ok o -> Forall event_ok (log_of o n) /\ Forall (fun e => stamp e = _now_time_ms n) (log_of o n).
Proof.
  intros Ho. destruct o as [d hop|f|ms]; cbn [log_of]; [| |done].
  - destruct Ho as [_ [ip E]]. rewrite E. unfold ok. pose proof (numeric_range _ _ E).
    destruct (recent _ _ _ _); [|destruct (recent _ _ _ _)]; by rewrite ?Forall_singleton, ?Forall_nil.
  - destruct (arp_of f) as [m|] eqn:E; [|done]. pose proof (arp_of_wf f m Ho E).
    assert (forall P : event -> Prop, P (Learn (_now_time_ms n) (ARPMessage.sender_ip_address m)
        (ARPMessage.sender_ethernet_address m)) -> (forall d, P (Data (_now_time_ms n) (ARPMessage.sender_ip_address m)
        (ARPMessage.sender_ethernet_address m) d)) -> P (Reply (_now_time_ms n) m) ->
      Forall P (Learn (_now_time_ms n) (ARPMessage.sender_ip_address m) (ARPMessage.sender_ethernet_address m) ::
        map (Data (_now_time_ms n) (ARPMessage.sender_ip_address m) (ARPMessage.sender_ethernet_address m))
          (pending (ARPMessage.sender_ip_address m) n) ++ (if asks_me m n then [Reply (_now_time_ms n) m] else []))) as HF.
    { intros P H1 H2 H3. constructor; [done|]. apply Forall_app. split; [|by destruct (asks_me m n); rewrite ?Forall_singleton, ?Forall_nil].
      apply Forall_map, Forall_true. done. }
    split; by apply HF.
Qed.

(** The log stands for what was heard and what was put out. *)
Record tracked (n : NetworkInterface) (log : list event) (ops : list op) (tr : list (Z * EthernetFrame)) : Prop := mk_tracked {
  tr_inv : inv n log ops;
  tr_now : _now_time_ms n = elapsed ops;
  tr_heard : forall ip, learned ip log = heard ip ops;
  tr_asked : forall ip, requested ip log = asked ip tr;
  tr_trace : trace 0 ops (make mac addr) = ok (n, tr);
  tr_frames : map snd tr = frames_out n
}.

Lemma learned_reply ip log (b : bool) t m : learned ip (log ++ (if b then [Reply t m] else [])) = learned ip log.
Proof. unfold learned. rewrite omap_app. destruct b; cbn; by rewrite app_nil_r. Qed.

Lemma learned_log ip log o n ops :
  _now_time_ms n = elapsed ops -> learned ip log = heard ip ops ->
  learned ip (log ++ log_of o n) = heard ip (ops ++ [o]).
Proof.
  intros Hn Hl. unfold heard in *. rewrite messages_snoc, omap_app, last_app, Z.add_0_l.
  destruct o as [d hop|f|ms]; cbn [log_of].
  - cbn. rewrite <- Hl. unfold learned. destruct (Address.ipv4_numeric hop); [by rewrite app_nil_r|].
    rewrite omap_app, last_app. by destruct (recent _ _ _ _); [|destruct (recent _ _ _ _)].
  - destruct (arp_of f) as [m|]; [|by rewrite app_nil_r].
    rewrite cons_middle, !app_assoc, learned_reply, learned_data.
    unfold learned in *. rewrite omap_app, last_app, Hl, Hn. cbn. by destruct (_ =? ip).
  - by rewrite app_nil_r.
Qed.

Lemma tracked_step n log ops tr o :
  tracked n log ops tr -> op_ok o -> elapsed ops + duration o < 2 ^ 64 ->
  exists n' new, step o n = ok n' /\ frames_out n' = frames_out n ++ new /\ render_log n (log_of o n) = ok new /\
    tracked n' (log ++ log_of o n) (ops ++ [o]) (tr ++ map (pair (elapsed ops)) new).
Proof.
  intros [I Hn Hh Ha Ht Hf] Ho Hd. rewrite <- Hn in Hd. destruct (inv_step _ _ _ _ Haddr o n log ops I Ho Hd) as (n'&Es&I'&Hn').
  pose proof (inv_frames _ _ _ _ _ _ I) as Fr. pose proof (inv_frames _ _ _ _ _ _ I') as Fr'.
  pose proof (inv_mac _ _ _ _ _ _ I) as Em. pose proof (inv_addr _ _ _ _ _ _ I) as Ea.
  pose proof (inv_mac _ _ _ _ _ _ I') as Em'. pose proof (inv_addr _ _ _ _ _ _ I') as Ea'.
  rewrite (render_log_ext n' n), render_log_app, Fr, bindR_ok in Fr' by congruence.
  apply bindR_inv in Fr' as (new&Er&E). unfold ok in E. injection E as E. exists n', new.
  assert (frames_out n' = frames_out n ++ new) as En by (unfold frames_out; by rewrite E).
  destruct (log_of_ok o n Ho) as [Hok Hst]. split; [done|]. split; [done|]. split; [done|]. split.
  - exact I'.
  - by rewrite elapsed_snoc, Hn', Hn.
  - intros ip. by apply learned_log.
  - intros ip. rewrite <- Hn. by apply (asked_render n).
  - rewrite (trace_snoc _ _ _ _ _ _ _ Ht Es), En, drop_app_length. by rewrite Z.add_0_l.
  - rewrite map_app, map_map, map_id, Hf. by rewrite En.
Qed.

Lemma tracked_run ops :
  Forall op_ok ops -> elapsed ops < 2 ^ 64 -> exists n log tr, tracked n log ops tr.
Proof.
  induction ops as [|o ops IH] using rev_ind.
  - intros _ _. exists (make mac addr), [], []. split; (done || by apply inv_make).
  - intros [Hops Ho]%Forall_app Ht. apply Forall_cons in Ho as [Ho _]. rewrite elapsed_snoc in Ht.
    pose proof (duration_nonneg o Ho).
    destruct IH as (n&log&tr&T); [done|lia|]. destruct (tracked_step _ _ _ _ o T Ho Ht) as (n'&new&_&_&_&T'). by do 3 eexists.
Qed.

Lemma recent_heard n log ops tr ip :
  tracked n log ops tr ->
  recent (_cache_time n) ip _arp_cache_timeout n = within 30000 (elapsed ops) (fst <$> heard ip ops) /\
  (recent (_cache_time n) ip _arp_cache_timeout n = true -> exists t, heard ip ops = Some (t, cached_address ip n)).
Proof.
  intros [I Hn Hh _ _ _]. pose proof (recent_learned _ _ _ _ _ _ ip I) as L. rewrite Hh, Hn in L.
  pose proof (inv_learned _ _ _ _ _ _ I ip) as L'. rewrite Hh, Hn in L'. split.
  - apply eq_true_iff_eq. rewrite L. destruct (heard ip ops) as [[t a]|]; cbn; [|split; [by intros (?&?&?)|done]].
    rewrite Z.ltb_lt. destruct L' as (_&Ea&?). split; [intros (t'&[= <- _]&?); lia|]. intros ?. exists t.
    unfold cached_address. rewrite Ea. split; [done|lia].
  - intros (t&?&_)%L. by exists t.
Qed.

Lemma recent_asked n log ops tr ip :
  tracked n log ops tr ->
  recent (_arp_request_his n) ip _arp_request_limit n = within 5000 (elapsed ops) (asked ip tr).
Proof.
  intros [I Hn _ Ha _ _]. pose proof (recent_requested _ _ _ _ _ _ ip I) as L. rewrite Ha, Hn in L.
  pose proof (inv_requested _ _ _ _ _ _ I ip) as L'. rewrite Ha, Hn in L'. destruct L' as [_ Hr].
  apply eq_true_iff_eq. rewrite L. destruct (asked ip tr) as [t|]; cbn; [|split; [by intros (?&?&?)|done]].
  rewrite Z.ltb_lt. specialize (Hr t eq_refl). split; [intros (t'&[= <-]&?); lia|]. intros ?. exists t. split; [done|lia].
Qed.

Lemma render_arp_request n log ops t ip fs :
  inv n log ops -> 0 <= ip < 2 ^ 32 -> render n (Request t ip) = ok fs ->
  exists f, fs = [f] /\ header f = EthernetHeader.mkEthernetHeader ETHERNET_BROADCAST mac EthernetHeader.TYPE_ARP /\
    arp_of f = Some (ARPMessage.mkARPMessage ARPMessage.TYPE_ETHERNET EthernetHeader.TYPE_IPv4 6 4
                       ARPMessage.OPCODE_REQUEST mac my_ip zero_address ip).
Proof.
  intros I Hip E. pose proof (inv_mac _ _ _ _ _ _ I) as Em. cbn [render] in E. rewrite (inv_addr _ _ _ _ _ _ I), Haddr, bindR_ok in E.
  rewrite ArpTheorems.arp_serialize_wire, bindR_ok in E by done. unfold ok in E. injection E as <-. eexists. split; [done|].
  unfold make_frame. split; [by rewrite <- Em|]. rewrite arp_frame_of by (by apply request_wf). by rewrite <- Em.
Qed.

Lemma render_arp_reply n log ops t m fs :
  inv n log ops -> event_ok (Reply t m) -> render n (Reply t m) = ok fs ->
  exists f, fs = [f] /\
    header f = EthernetHeader.mkEthernetHeader (ARPMessage.sender_ethernet_address m) mac EthernetHeader.TYPE_ARP /\
    arp_of f = Some (ARPMessage.mkARPMessage ARPMessage.TYPE_ETHERNET EthernetHeader.TYPE_IPv4 6 4
      ARPMessage.OPCODE_REPLY mac my_ip (ARPMessage.sender_ethernet_address m) (ARPMessage.sender_ip_address m)).
Proof.
  intros I Hm E. pose proof (inv_mac _ _ _ _ _ _ I) as Em. cbn [render] in E. rewrite (inv_addr _ _ _ _ _ _ I), Haddr, bindR_ok in E.
  rewrite ArpTheorems.arp_serialize_wire, bindR_ok in E by done. unfold ok in E. injection E as <-. eexists. split; [done|].
  unfold make_frame. split; [by rewrite <- Em|]. rewrite arp_frame_of by (by apply reply_wf). by rewrite <- Em.
Qed.

Lemma render_data n t ip a ds fs :
  _ethernet_address n = mac -> render_log n (map (Data t ip a) ds) = ok fs ->
  Forall (fun f => header f = EthernetHeader.mkEthernetHeader a mac EthernetHeader.TYPE_IPv4 /\
    exists d, d ∈ ds /\ IPv4Datagram.serialize d = ok (payload f)) fs.
Proof.
  intros Em. revert fs. induction ds as [|d ds IH]; intros fs E; cbn [map render_log render] in E.
  { unfold ok in E. by injection E as <-. }
  apply bindR_inv in E as (f&Ef&E). apply bindR_inv in Ef as (body&Eb&Ef). apply bindR_inv in E as (g&Eg&E).
  unfold ok in Ef, E. injection Ef as <-. injection E as <-. cbn [app]. apply Forall_cons. split.
  - unfold make_frame. split; [by rewrite <- Em|]. exists d. split; [by left|done].
  - eapply Forall_impl; [by apply IH|]. intros f (?&d'&?&?). split; [done|]. exists d'. split; [by right|done].
Qed.

(** What an operation puts out. *)
Definition puts_out (o : op) (ops : list op) (tr : list (Z * EthernetFrame)) (new : list EthernetFrame) : Prop :=
  match o with
  | SendDatagram d hop =>
      exists ip, Address.ipv4_numeric hop = ok ip /\
      if within 30000 (elapsed ops) (fst <$> heard ip ops) then
        exists t a body, heard ip ops = Some (t, a) /\ IPv4Datagram.serialize d = ok body /\
          new = [mkEthernetFrame (EthernetHeader.mkEthernetHeader a mac EthernetHeader.TYPE_IPv4) body]
      else if within 5000 (elapsed ops) (asked ip tr) then new = []
      else exists f, new = [f] /\
          header f = EthernetHeader.mkEthernetHeader ETHERNET_BROADCAST mac EthernetHeader.TYPE_ARP /\
          arp_of f = Some (ARPMessage.mkARPMessage ARPMessage.TYPE_ETHERNET EthernetHeader.TYPE_IPv4 6 4
                             ARPMessage.OPCODE_REQUEST mac my_ip zero_address ip)
  | RecvFrame g =>
      match arp_of g with
      | Some m =>
          exists fs reply, new = fs ++ reply /\
          Forall (fun f => header f = EthernetHeader.mkEthernetHeader (ARPMessage.sender_ethernet_address m) mac
                                        EthernetHeader.TYPE_IPv4 /\
            exists d, d ∈ submitted (ARPMessage.sender_ip_address m) ops /\ IPv4Datagram.serialize d = ok (payload f)) fs /\
          if (ARPMessage.opcode m =? ARPMessage.OPCODE_REQUEST) && (ARPMessage.target_ip_address m =? my_ip) then
            exists f, reply = [f] /\
              header f = EthernetHeader.mkEthernetHeader (ARPMessage.sender_ethernet_address m) mac EthernetHeader.TYPE_ARP /\
              arp_of f = Some (ARPMessage.mkARPMessage ARPMessage.TYPE_ETHERNET EthernetHeader.TYPE_IPv4 6 4
                ARPMessage.OPCODE_REPLY mac my_ip (ARPMessage.sender_ethernet_address m) (ARPMessage.sender_ip_address m))
          else reply = []
      | None => new = []
      end
  | Tick _ => new = []
  end.

Lemma render_one n e fs : render_log n [e] = ok fs -> render n e = ok fs.
Proof.
  cbn [render_log]. intros E. apply bindR_inv in E as (f&->&E). cbn in E. unfold ok in *. injection E as <-. by rewrite app_nil_r.
Qed.

Lemma tracked_puts_out n log ops tr o new :
  tracked n log ops tr -> op_ok o -> render_log n (log_of o n) = ok new -> puts_out o ops tr new.
Proof.
  intros T Ho E. pose proof (tr_inv _ _ _ _ T) as I. pose proof (inv_mac _ _ _ _ _ _ I) as Em.
  destruct o as [d hop|g|ms]; cbn [puts_out]; [| |cbn in E; unfold ok in E; by injection E].
  - destruct Ho as [_ [ip Hip]]. exists ip. split; [done|]. rewrite (log_send _ _ _ _ Hip) in E.
    destruct (recent_heard _ _ _ _ ip T) as [<- Hk]. destruct (recent (_cache_time n) ip _ n).
    + destruct (Hk eq_refl) as [t Hh]. apply render_one in E. cbn [render] in E. apply bindR_inv in E as (body&Eb&E).
      unfold ok in E. injection E as <-. exists t, (cached_address ip n), body. unfold make_frame. by rewrite Em.
    + rewrite <- (recent_asked _ _ _ _ ip T). destruct (recent (_arp_request_his n) ip _ n).
      * cbn in E. unfold ok in E. by injection E.
      * apply render_one in E. eapply render_arp_request; [exact I|by eapply numeric_range|exact E].
  - cbn [log_of] in E. destruct (arp_of g) as [m|] eqn:Eg; [|cbn in E; unfold ok in E; by injection E].
    cbn [render_log render] in E. rewrite bindR_ok in E. apply bindR_inv in E as (fs&E&E'). unfold ok in E'. injection E' as <-.
    rewrite render_log_app in E. apply bindR_inv in E as (f1&E1&E). apply bindR_inv in E as (f2&E2&E).
    unfold ok in E. injection E as <-. exists f1, f2. split; [done|]. split.
    + eapply Forall_impl; [by eapply render_data|]. intros f (?&d&Hd&?). split; [done|]. exists d. split; [|done].
      rewrite <- (inv_fifo _ _ _ _ _ _ I). apply elem_of_app. by right.
    + rewrite <- (asks_me_eq _ _ _ _ Haddr m _ _ _ I). destruct (asks_me m n); [|cbn in E2; unfold ok in E2; by injection E2].
      apply render_one in E2. eapply render_arp_reply; [exact I|by eapply arp_of_wf|exact E2].
Qed.

End Trace.
End InterfaceTrace.

Module InterfaceTheorems.
Import EthernetFrame NetworkInterface InterfaceLog InterfaceInvariant InterfaceTrace.

(** C19. Whatever an interface is asked to do (up to the clock's range), nothing
    throws, the frames it queues are exactly those of its log, and for every next hop
    the datagrams sent in frames followed by those still waiting for an ARP reply are
    the datagrams submitted for that hop, in order: none is lost, duplicated or
    overtaken. *)
Theorem interface_transmits mac addr my_ip ops :
  Address.ipv4_numeric addr = ok my_ip -> Forall op_ok ops -> elapsed ops < 2 ^ 64 ->
  exists n log, run ops (make mac addr) [] = ok (n, log) /\
    render_log n log = ok (frames_out n) /\
    forall ip, transmitted ip log ++ pending ip n = submitted ip ops.
Proof.
  intros Ha Ho Ht. destruct (inv_run _ _ [] _ Ha ops _ _ _ (inv_make mac addr [] eq_refl) Ho Ht) as (n&log&E&I).
  exists n, log. split; [done|]. split; apply I.
Qed.


(** A frame crosses the link: it is serialized, and parsed by the receiver. *)
Definition deliver (f : EthernetFrame) (n : NetworkInterface)
    : result (NetworkInterface * option IPv4Datagram.IPv4Datagram) :=
  let! (g, _) := parse (Buffer.make (BufferList.concatenate (serialize f))) default_frame in
  recv_frame g n.

Lemma deliver_eq f n :
  EthernetHeader.wf (header f) -> zlen (BufferList.concatenate (payload f)) < 2 ^ 62 ->
  exists p, deliver f n = recv_frame (mkEthernetFrame (header f) [p]) n /\
    Buffer.str p = BufferList.concatenate (payload f) /\ Buffer.wf p.
Proof.
  intros Hh Hs.
  destruct (EthernetTheorems.parse_serialized_frame f
    (Buffer.make (BufferList.concatenate (serialize f))) default_frame) as (p&E&Hp&Hw); try done.
  - apply Buffer.make_wf. change (BufferList.concatenate (serialize f)) with
      (EthernetHeader.serialize (header f) ++ BufferList.concatenate (payload f)).
    unfold EthernetHeader.serialize. destruct Hh as ((Hd&_)&(Hs'&_)&_).
    autorewrite with unparse zlen. rewrite !zlen_address_bytes. unfold zlen in *. rewrite Hd, Hs'. lia.
  - exists p. unfold deliver. by rewrite E, bindR_ok.
Qed.

Lemma deliver_arp dst src m n :
  ARPMessage.wf m -> address_ok dst -> address_ok src ->
  deliver (mkEthernetFrame (EthernetHeader.mkEthernetHeader dst src EthernetHeader.TYPE_ARP)
             (BufferList.of_string (ArpTheorems.wire m))) n =
  let! n' := recv_arp m n in ok (n', None).
Proof.
  intros Hm Hd Hs. set (f := mkEthernetFrame _ _).
  assert (BufferList.concatenate (payload f) = ArpTheorems.wire m) as Hw by apply app_nil_r.
  destruct (deliver_eq f n) as (p&->&Hp&Hb); [done| |].
  - rewrite Hw, ArpTheorems.zlen_wire by (by apply ArpTheorems.wf_in_range). lia.
  - unfold recv_frame. cbn [header _header f EthernetHeader.type payload _payload BufferList.to_buffer].
    change (EthernetHeader.TYPE_ARP =? EthernetHeader.TYPE_IPv4) with false. rewrite Z.eqb_refl, bindR_ok.
    rewrite (ArpTheorems.parse_wire m p _ [] Hm Hb), bindR_ok by (by rewrite Hp, Hw, app_nil_r).
    by rewrite bool_decide_eq_true_2.
Qed.

Lemma deliver_ipv4 d l src n :
  Ipv4Theorems.sendable d -> IPv4Datagram.serialize d = ok l ->
  address_ok (_ethernet_address n) -> address_ok src ->
  exists c p, deliver (mkEthernetFrame (EthernetHeader.mkEthernetHeader (_ethernet_address n) src
                         EthernetHeader.TYPE_IPv4) l) n =
    ok (n, Some (IPv4Datagram.mkIPv4Datagram
                   ((IPv4Datagram.header d) <| IPv4Header.cksum := c |>) [p])) /\
    Buffer.str p = BufferList.concatenate (IPv4Datagram.payload d) /\ Buffer.wf p /\ 0 <= c < 2 ^ 16.
Proof.
  intros Hd El Hn Hs. set (f := mkEthernetFrame _ _).
  destruct (Ipv4Theorems.parse_serialized_datagram d Hd) as (l'&El'&P). rewrite El in El'.
  unfold ok in El'. simplify_eq.
  destruct (deliver_eq f n) as (p&->&Hp&Hb); [done| |].
  - pose proof (Ipv4Theorems.zlen_serialized d _ Hd El). unfold f. cbn [payload _payload]. destruct Hd as ([]&_). lia.
  - destruct (P p IPv4Datagram.default_datagram Hb Hp) as (c&q&_&E&Hq). exists c, (NetParser.buffer q).
    split; [|done]. unfold recv_frame.
    cbn [header _header f EthernetHeader.type payload _payload BufferList.to_buffer EthernetHeader.dst].
    rewrite Z.eqb_refl, !bindR_ok, E, bindR_ok. by rewrite !bool_decide_eq_true_2.
Qed.

#[local] Arguments Address.ipv4_numeric : simpl never.
#[local] Arguments IPv4Datagram.serialize : simpl never.
#[local] Arguments ARPMessage.serialize : simpl never.

Section Link.
Context (macA macB : EthernetAddress) (ipA ipB : Z).
Hypotheses (HmA : address_ok macA) (HmB : address_ok macB)
  (HipA : 0 <= ipA < 2 ^ 32) (HipB : 0 <= ipB < 2 ^ 32).
Local Abbreviation addrA := (Address.from_ipv4_numeric ipA).
Local Abbreviation addrB := (Address.from_ipv4_numeric ipB).
Local Abbreviation A := (make macA addrA).
Local Abbreviation B := (make macB addrB).
Local Abbreviation req := (arp_request ipA ipB A).
Local Abbreviation rep := (arp_reply ipB req B).

Lemma req_wf : ARPMessage.wf req.
Proof. split; try done. split; [done|]. repeat constructor; done. Qed.
Lemma rep_wf : ARPMessage.wf rep.
Proof. split; done. Qed.

Definition arp_frame dst src m : EthernetFrame :=
  mkEthernetFrame (EthernetHeader.mkEthernetHeader dst src EthernetHeader.TYPE_ARP)
    (BufferList.of_string (ArpTheorems.wire m)).
(** [A] once it has asked for [B]'s address. *)
Definition A1 d : NetworkInterface :=
  mkNetworkInterface macA addrA [arp_frame ETHERNET_BROADCAST macA req] 0 ∅ ∅
    {[ipB := 0]} {[ipB := [d]]}.
Definition B1 : NetworkInterface :=
  mkNetworkInterface macB addrB [arp_frame macA macB rep] 0 {[ipA := macA]} {[ipA := 0]} ∅ ∅.

Lemma resolution_request d : send_datagram d addrB A = ok (A1 d).
Proof.
  unfold send_datagram, send_arp_request, make. cbn [_ip_address].
  rewrite AddressTheorems.ipv4_numeric_from, bindR_ok by done. unfold recent. cbn [_cache_time _arp_request_his].
  rewrite !lookup_empty. rewrite AddressTheorems.ipv4_numeric_from, bindR_ok by done.
  rewrite ArpTheorems.arp_serialize_wire, !bindR_ok by done. cbn. rewrite lookup_empty. done.
Qed.

Lemma resolution_reply : recv_arp req B = ok B1.
Proof.
  unfold recv_arp, make. cbn. rewrite lookup_empty. cbn.
  rewrite AddressTheorems.ipv4_numeric_from, bindR_ok, Z.eqb_refl by done.
  rewrite ArpTheorems.arp_serialize_wire, bindR_ok by done. rewrite delete_empty. reflexivity.
Qed.

Lemma resolution_data d :
  Ipv4Theorems.sendable d ->
  exists n l, recv_arp rep (A1 d) = ok n /\ IPv4Datagram.serialize d = ok l /\
    frames_out n = frames_out (A1 d) ++
      [mkEthernetFrame (EthernetHeader.mkEthernetHeader macB macA EthernetHeader.TYPE_IPv4) l] /\
    pending ipB n = [].
Proof.
  intros Hd. destruct (serialize_sendable d Hd) as [l El]. unfold recv_arp, A1. cbn.
  rewrite lookup_singleton_eq. cbn. rewrite El. cbn.
  do 2 eexists. split; [reflexivity|]. split; [done|]. unfold cached_address, pending. cbn.
  by rewrite lookup_insert_eq, delete_singleton_eq, lookup_empty.
Qed.

(** C34. Two new interfaces on a link, every frame serialized by one and parsed by the
    other: a datagram for the other's address makes the sender broadcast one request;
    the other answers it; the answer releases the datagram in a frame to the right
    Ethernet address; and what the other hands up is that datagram, its checksum
    filled in. *)
Theorem arp_resolution d :
  Ipv4Theorems.sendable d ->
  exists nA nA' nB request reply data,
    send_datagram d addrB A = ok nA /\ frames_out nA = [request] /\
    deliver request B = ok (nB, None) /\ frames_out nB = [reply] /\
    deliver reply nA = ok (nA', None) /\ frames_out nA' = [request; data] /\
    pending ipB nA' = [] /\
    exists c p, deliver data nB = ok (nB, Some (IPv4Datagram.mkIPv4Datagram
        ((IPv4Datagram.header d) <| IPv4Header.cksum := c |>) [p])) /\
      Buffer.str p = BufferList.concatenate (IPv4Datagram.payload d).
Proof.
  intros Hd. destruct (resolution_data d Hd) as (nA'&l&E&El&Ef&Hp).
  destruct (deliver_ipv4 d l macA B1 Hd El HmB HmA) as (c&p&Ed&Hs&_).
  exists (A1 d), nA', B1. do 3 eexists.
  split; [apply resolution_request|]. split; [reflexivity|].
  split; [unfold arp_frame; rewrite deliver_arp, resolution_reply; [reflexivity|apply req_wf| |done];
          split; [done|]; repeat constructor; done|].
  split; [reflexivity|].
  split; [unfold arp_frame; rewrite deliver_arp, E; [reflexivity|apply rep_wf|done|done]|].
  split; [exact Ef|]. split; [done|]. exists c, p. split; [exact Ed|done].
Qed.

End Link.

Definition demo_mac : EthernetAddress := [2; 0; 0; 0; 0; 1].
Definition demo_addr : Address.Address := Address.from_ipv4_numeric 167772161.
Definition demo_hop : Address.Address := Address.from_ipv4_numeric 167772162.
Definition demo_reply : EthernetFrame :=
  mkEthernetFrame (EthernetHeader.mkEthernetHeader demo_mac [2; 0; 0; 0; 0; 7] EthernetHeader.TYPE_ARP)
    [Buffer.make (ArpTheorems.wire (ARPMessage.default_message
       <| ARPMessage.opcode := ARPMessage.OPCODE_REPLY |>
       <| ARPMessage.sender_ethernet_address := [2; 0; 0; 0; 0; 7] |>
       <| ARPMessage.sender_ip_address := 167772162 |>))].
(** Two datagrams wait for an answer, which releases them. *)
Definition demo_ops : list op :=
  [SendDatagram Ipv4Theorems.demo_datagram demo_hop; Tick 10;
   SendDatagram Ipv4Theorems.demo_datagram demo_hop; RecvFrame demo_reply; Tick 40000].

Lemma demo_ops_ok : Forall op_ok demo_ops.
Proof.
  assert (Ipv4Theorems.sendable Ipv4Theorems.demo_datagram).
  { repeat split; simpl; try done. repeat constructor; done. }
  repeat constructor; try done; try (by eexists).
Qed.

Lemma interface_transmits_witness :
  exists n log, run demo_ops (make demo_mac demo_addr) [] = ok (n, log) /\
    transmitted 167772162 log ++ pending 167772162 n =
      [Ipv4Theorems.demo_datagram; Ipv4Theorems.demo_datagram].
Proof.
  destruct (interface_transmits demo_mac demo_addr 167772161 demo_ops) as (n&log&E&_&H).
  - reflexivity.
  - exact demo_ops_ok.
  - vm_compute. reflexivity.
  - exists n, log. split; [exact E|]. exact (H 167772162).
Defined.


Lemma arp_resolution_witness :
  exists nA request,
    send_datagram Ipv4Theorems.demo_datagram demo_hop (make demo_mac demo_addr) = ok nA /\
    frames_out nA = [request].
Proof.
  destruct (arp_resolution demo_mac [2; 0; 0; 0; 0; 7] 167772161 167772162)
    with (d := Ipv4Theorems.demo_datagram) as (nA&_&_&request&_&_&E1&E2&_).
  - split; [done|]. repeat constructor; done.
  - split; [done|]. repeat constructor; done.
  - done.
  - done.
  - repeat split; simpl; try done. repeat constructor; done.
  - exists nA, request. split; [exact E1|exact E2].
Defined.

(** Unlike an IPv4 frame, an ARP frame is processed whatever its destination
    address. *)
Lemma foreign_arp_learned :
  exists n, recv_frame demo_reply (make [2; 0; 0; 0; 0; 9] demo_addr) = ok (n, None) /\
    EthernetHeader.dst (header demo_reply) <> [2; 0; 0; 0; 0; 9] /\
    EthernetHeader.dst (header demo_reply) <> ETHERNET_BROADCAST /\
    _ip_to_ethernet_cache n !! 167772162 = Some [2; 0; 0; 0; 0; 7].
Proof. eexists. split; [vm_compute; reflexivity|]. split; [done|]. split; [done|]. vm_compute. reflexivity. Qed.

End InterfaceTheorems.

(** ** Operations do not look at the frames that are queued *)
Module InterfaceQueue.

(** An interface with frames in front of its queue. *)
Definition ahead (q : list EthernetFrame.EthernetFrame) (n : NetworkInterface.NetworkInterface)
    : NetworkInterface.NetworkInterface :=
  n <| NetworkInterface._frames_out ::= app q |>.

(** An operation that works behind the frames that are queued. *)
Definition behind {A} (f : A -> A) (r : result A) : result A := let! x := r in ok (f x).

Lemma behind_bind {A B} (f : A -> A) (g : B -> B) (m : result A) k k' :
  (forall a, k' (f a) = behind g (k a)) -> bindR (behind f m) k' = behind g (bindR m k).
Proof. intros Hk. destruct m as [e|a]; [done|]. cbn. apply Hk. Qed.

#[local] Arguments IPv4Datagram.serialize : simpl never.
#[local] Arguments ARPMessage.serialize : simpl never.
#[local] Arguments Address.ipv4_numeric : simpl never.

Lemma push_ahead q f n : NetworkInterface.push_frame f (ahead q n) = ahead q (NetworkInterface.push_frame f n).
Proof. unfold NetworkInterface.push_frame, ahead. cbn. by rewrite app_assoc. Qed.

Lemma send_pending_ahead q ip ds n :
  NetworkInterface.send_pending ip ds (ahead q n) = behind (ahead q) (NetworkInterface.send_pending ip ds n).
Proof.
  revert n. induction ds as [|d ds IH]; intros n; cbn [NetworkInterface.send_pending]; [done|].
  destruct (IPv4Datagram.serialize d) as [e|b]; [done|]. cbn [bindR]. rewrite <- IH. f_equal. apply push_ahead.
Qed.

Lemma recv_arp_ahead q m n :
  NetworkInterface.recv_arp m (ahead q n) = behind (ahead q) (NetworkInterface.recv_arp m n).
Proof.
  unfold NetworkInterface.recv_arp. cbv zeta.
  set (n1 := n <| NetworkInterface._cache_time ::= _ |> <| NetworkInterface._ip_to_ethernet_cache ::= _ |>).
  match goal with |- context [NetworkInterface.send_pending _ _ ?a] => change a with (ahead q n1) end.
  rewrite send_pending_ahead. apply behind_bind. intros n2. cbn.
  destruct (_ =? _); [|done]. destruct (Address.ipv4_numeric _) as [e|ip]; [done|]. cbn.
  destruct (_ =? _); [|done]. destruct (ARPMessage.serialize _) as [e|b]; [done|]. cbn.
  unfold behind, ahead, NetworkInterface.push_frame. cbn. by rewrite app_assoc.
Qed.

Lemma recv_frame_ahead q f n :
  NetworkInterface.recv_frame f (ahead q n) =
  behind (fun r => (ahead q r.1, r.2)) (NetworkInterface.recv_frame f n).
Proof.
  unfold NetworkInterface.recv_frame. destruct (_ =? _).
  - destruct (BufferList.to_buffer _) as [e|b]; [done|]. cbn [bindR].
    destruct (IPv4Datagram.parse _ _) as [e|[d r]]; [done|]. cbn [bindR]. by destruct (_ && _).
  - destruct (_ =? _); [|done]. destruct (BufferList.to_buffer _) as [e|b]; [done|]. cbn [bindR].
    destruct (ARPMessage.parse _ _) as [e|[m r]]; [done|]. cbn [bindR].
    destruct (bool_decide _); [|done]. rewrite recv_arp_ahead. by apply behind_bind.
Qed.

Lemma send_datagram_ahead q d hop n :
  NetworkInterface.send_datagram d hop (ahead q n) = behind (ahead q) (NetworkInterface.send_datagram d hop n).
Proof.
  unfold NetworkInterface.send_datagram. destruct (Address.ipv4_numeric hop) as [e|ip]; [done|]. cbn [bindR].
  change (NetworkInterface.recent (NetworkInterface._cache_time (ahead q n)) ip NetworkInterface._arp_cache_timeout (ahead q n))
    with (NetworkInterface.recent (NetworkInterface._cache_time n) ip NetworkInterface._arp_cache_timeout n).
  change (NetworkInterface.recent (NetworkInterface._arp_request_his (ahead q n)) ip NetworkInterface._arp_request_limit (ahead q n))
    with (NetworkInterface.recent (NetworkInterface._arp_request_his n) ip NetworkInterface._arp_request_limit n).
  destruct (NetworkInterface.recent _ _ _ _).
  - destruct (IPv4Datagram.serialize d) as [e|b]; [done|]. cbn [bindR behind ok]. unfold behind. cbn [bindR ok]. by rewrite <- push_ahead.
  - destruct (NetworkInterface.recent _ _ _ _); [done|]. unfold NetworkInterface.send_arp_request.
    change (NetworkInterface._ip_address (ahead q n)) with (NetworkInterface._ip_address n).
    destruct (Address.ipv4_numeric _) as [e|my]; [done|]. cbn [bindR].
    change (NetworkInterface.arp_request my ip (ahead q n)) with (NetworkInterface.arp_request my ip n).
    destruct (ARPMessage.serialize _) as [e|b]; [done|]. unfold behind. cbn [bindR ok].
    unfold NetworkInterface.push_frame, ahead. cbn. by rewrite app_assoc.
Qed.
Lemma tick_ahead q ms n : NetworkInterface.tick ms (ahead q n) = ahead q (NetworkInterface.tick ms n).
Proof. done. Qed.
Lemma ahead_nil n : ahead [] n = n.
Proof. by destruct n. Qed.
Lemma ahead_take q f n :
  head (NetworkInterface._frames_out n) = Some f ->
  ahead q n = ahead (q ++ [f]) (n <| NetworkInterface._frames_out ::= tail |>).
Proof.
  destruct n as [? ? [|x l] ? ? ? ? ?]; [done|]. intros [= ->]. unfold ahead. cbn. by rewrite <- app_assoc.
Qed.

End InterfaceQueue.
