(* ===== verification/Router.v ===== *)
(** * [AsyncNetworkInterface], [Router]
    (libsponge/router.* )

    Datagrams received on the interfaces are forwarded by longest prefix match. *)
From S2P Require Import Prelude Buffers Parser Ipv4 Ethernet Addresses Interface.

Module AsyncNetworkInterface.

(** The base class and the queue of received datagrams. *)
Record AsyncNetworkInterface := mkAsyncNetworkInterface {
  base : NetworkInterface.NetworkInterface;
  _datagrams_out : list IPv4Datagram.IPv4Datagram
}.
#[global] Instance eta_AsyncNetworkInterface : Eta AsyncNetworkInterface := fun a =>
  mkAsyncNetworkInterface (base a) (_datagrams_out a).

Definition of_interface (interface : NetworkInterface.NetworkInterface) : AsyncNetworkInterface :=
  mkAsyncNetworkInterface interface [].

Definition recv_frame (frame : EthernetFrame.EthernetFrame) (a : AsyncNetworkInterface)
    : result AsyncNetworkInterface :=
  let! (n, optional_dgram) := NetworkInterface.recv_frame frame (base a) in
  ok (match optional_dgram with
      | Some d => a <| base := n |> <| _datagrams_out ::= fun q => q ++ [d] |>
      | None => a <| base := n |>
      end).

Definition datagrams_out (a : AsyncNetworkInterface) : list IPv4Datagram.IPv4Datagram :=
  _datagrams_out a.

End AsyncNetworkInterface.

Module Router.
Import AsyncNetworkInterface.

Record RouteMsg := mkRouteMsg {
  route_prefix : Z;
  prefix_length : Z;
  next_hop : Z;
  interface_num : Z
}.

Record Router := mkRouter {
  _interfaces : list AsyncNetworkInterface;
  _route_table : list RouteMsg
}.
#[global] Instance eta_Router : Eta Router := fun r => mkRouter (_interfaces r) (_route_table r).

Definition make : Router := mkRouter [] [].

Definition add_interface (interface : AsyncNetworkInterface) (r : Router) : Router * Z :=
  let r := r <| _interfaces ::= fun l => l ++ [interface] |> in
  (r, u64 (zlen (_interfaces r) - 1)).

(** [at] throws out of range. *)
Definition interface (N : Z) (r : Router) : result AsyncNetworkInterface :=
  match _interfaces r !! Z.to_nat N with
  | Some i => ok i
  | None => throw (out_of_range "vector::_M_range_check")
  end.

(** The debug output is not modelled. *)
Definition add_route (route_prefix prefix_length : Z) (next_hop : option Address.Address)
    (interface_num : Z) (r : Router) : result Router :=
  let! hop := match next_hop with Some a => Address.ipv4_numeric a | None => ok 0 end in
  ok (r <| _route_table ::= fun t => t ++ [mkRouteMsg route_prefix prefix_length hop interface_num] |>).

Section Routing.
(** The result of shifting a [uint32_t] by 32, which the language leaves undefined. *)
Variable shr32 : Z -> Z.

Definition shr (x i : Z) : Z := if i <? 32 then Z.shiftr x i else shr32 x.

(** The inner loop, with [i] counting from [33 - fuel] up to 32. *)
Fixpoint match_loop (fuel : nat) (i dst_ip prefix : Z) : Z :=
  match fuel with
  | O => 0
  | S fuel => if shr dst_ip i =? shr prefix i then 32 - i
              else match_loop fuel (i + 1) dst_ip prefix
  end.
Definition match_len (dst_ip prefix : Z) : Z := match_loop 33 0 dst_ip prefix.

(** The loop over the table: [max_match_len] and [best_match_iter]. *)
Definition consider (dst_ip : Z) (acc : Z * option RouteMsg) (it : RouteMsg) : Z * option RouteMsg :=
  let (max_match_len, best) := acc in
  if (prefix_length it <=? match_len dst_ip (route_prefix it)) &&
     (max_match_len <=? prefix_length it)
  then (prefix_length it, Some it) else acc.
Definition best_match (dst_ip : Z) (table : list RouteMsg) : option RouteMsg :=
  (fold_left (consider dst_ip) table (0, None)).2.

(** [_interfaces[num].send_datagram(dgram, hop)]. Indexing does not check: out of range
    it is undefined, here [None]. *)
Definition send_on (num : Z) (dgram : IPv4Datagram.IPv4Datagram) (hop : Address.Address) (r : Router)
    : option (result Router) :=
  match _interfaces r !! Z.to_nat num with
  | Some a => Some (let! n := NetworkInterface.send_datagram dgram hop (base a) in
                    ok (r <| _interfaces ::= insert (Z.to_nat num) (a <| base := n |>) |>))
  | None => None
  end.

Definition forwarded (dgram : IPv4Datagram.IPv4Datagram) : IPv4Datagram.IPv4Datagram :=
  dgram <| IPv4Datagram._header ::= fun h => h <| IPv4Header.ttl := IPv4Header.ttl h - 1 |> |>.

Definition route_one_datagram (dgram : IPv4Datagram.IPv4Datagram) (r : Router)
    : option (result Router) :=
  let ttl := IPv4Header.ttl (IPv4Datagram.header dgram) in
  if (ttl =? 0) || (ttl =? 1) then Some (ok r)
  else
    let dgram := forwarded dgram in
    let dst_ip := IPv4Header.dst (IPv4Datagram.header dgram) in
    match best_match dst_ip (_route_table r) with
    | Some route =>
        let hop := if next_hop route =? 0 then dst_ip else next_hop route in
        send_on (interface_num route) dgram (Address.from_ipv4_numeric hop) r
    | None => Some (ok r)
    end.

(** The [while] loop over the queue of interface [i]; every round removes a datagram,
    so the queue's length is enough fuel. *)
Fixpoint drain (fuel : nat) (i : nat) (r : Router) : option (result Router) :=
  match fuel, _interfaces r !! i with
  | S fuel, Some a =>
      match datagrams_out a with
      | [] => Some (ok r)
      | dgram :: _ =>
          match route_one_datagram dgram r with
          | Some (inr r) =>
              drain fuel i (r <| _interfaces ::= alter (fun a => a <| _datagrams_out ::= tail |>) i |>)
          | other => other
          end
      end
  | _, _ => Some (ok r)
  end.

Definition queue_length (i : nat) (r : Router) : nat :=
  match _interfaces r !! i with Some a => length (datagrams_out a) | None => 0 end.

(** The [for] loop, from interface [i] on. *)
Fixpoint route_from (count i : nat) (r : Router) : option (result Router) :=
  match count with
  | O => Some (ok r)
  | S count =>
      match drain (queue_length i r) i r with
      | Some (inr r) => route_from count (S i) r
      | other => other
      end
  end.
Definition route (r : Router) : option (result Router) := route_from (length (_interfaces r)) 0 r.

End Routing.
End Router.

Module RouterTheorems.
Import AsyncNetworkInterface Router.

(** [route] applies to [dst]: the first [prefix_length] bits agree. *)
Definition applies (dst : Z) (route : RouteMsg) : Prop :=
  prefix_length route <= 32 /\
  Z.shiftr dst (32 - prefix_length route) = Z.shiftr (route_prefix route) (32 - prefix_length route).

Definition route_ok (route : RouteMsg) : Prop :=
  0 <= route_prefix route < 2 ^ 32 /\ 0 <= prefix_length route < 2 ^ 8.

Lemma shiftr_32 x : 0 <= x < 2 ^ 32 -> Z.shiftr x 32 = 0.
Proof. intros H. rewrite Z.shiftr_div_pow2 by lia. by apply Z.div_small. Qed.

Lemma shiftr_mono x y i j : 0 <= i <= j -> Z.shiftr x i = Z.shiftr y i -> Z.shiftr x j = Z.shiftr y j.
Proof.
  intros H E. replace j with (i + (j - i)) by lia.
  rewrite <- !Z.shiftr_shiftr by lia. by rewrite E.
Qed.

Section LongestPrefix.
Context (shr32 : Z -> Z) (dst : Z).
Hypothesis Hdst : 0 <= dst < 2 ^ 32.

Lemma match_loop_spec fuel i prefix l :
  0 <= prefix < 2 ^ 32 -> 0 <= i -> Z.of_nat fuel = 33 - i -> 0 <= l ->
  (forall k, 0 <= k < i -> k < 32 -> Z.shiftr dst k <> Z.shiftr prefix k) ->
  l <= match_loop shr32 fuel i dst prefix <->
  l <= 32 /\ Z.shiftr dst (32 - l) = Z.shiftr prefix (32 - l).
Proof.
  intros Hp. revert i. induction fuel as [|fuel IH]; intros i Hi Hf Hl Hk; cbn [match_loop].
  - split; [intros ?|intros [? E]; destruct (decide (l = 0)); [lia|]; by destruct (Hk (32 - l) ltac:(lia) ltac:(lia))].
    replace l with 0 by lia. by rewrite !shiftr_32.
  - unfold shr. destruct (Z.ltb_spec i 32) as [Hlt|Hge].
    + destruct (Z.eqb_spec (Z.shiftr dst i) (Z.shiftr prefix i)) as [E|E].
      * split; [intros ?; split; [lia|]; apply (shiftr_mono _ _ i); [lia|done]|].
        intros [? E']. destruct (Z.le_gt_cases l (32 - i)); [done|].
        by destruct (Hk (32 - l) ltac:(lia) ltac:(lia)).
      * apply IH; [lia|lia|lia|]. intros k ? ?. destruct (decide (k = i)) as [->|]; [done|].
        apply Hk; lia.
    + assert (l <= 0 <-> l <= 32 /\ Z.shiftr dst (32 - l) = Z.shiftr prefix (32 - l)) as H0.
      { split; [intros ?; replace l with 0 by lia; by rewrite !shiftr_32|].
        intros [? E]. destruct (decide (l = 0)); [lia|]. by destruct (Hk (32 - l) ltac:(lia) ltac:(lia)). }
      replace i with 32 in * by lia. destruct (shr32 dst =? shr32 prefix); [done|].
      by replace fuel with O by lia.
Qed.

Lemma match_len_spec route :
  route_ok route ->
  (prefix_length route <=? match_len shr32 dst (route_prefix route)) = true <-> applies dst route.
Proof.
  intros [Hp Hl]. rewrite Z.leb_le. unfold match_len, applies.
  apply match_loop_spec; lia.
Qed.

(** [route] is the last of the longest among those of [table] that apply. *)
Definition longest (table : list RouteMsg) (route : RouteMsg) : Prop :=
  exists t1 t2, table = t1 ++ route :: t2 /\ applies dst route /\
    (forall r, r ∈ t1 -> applies dst r -> prefix_length r <= prefix_length route) /\
    (forall r, r ∈ t2 -> applies dst r -> prefix_length r < prefix_length route).

Lemma consider_spec table :
  Forall route_ok table ->
  let (m, best) := fold_left (consider shr32 dst) table (0, None) in
  match best with
  | Some route => m = prefix_length route /\ longest table route
  | None => m = 0 /\ forall r, r ∈ table -> ~ applies dst r
  end.
Proof.
  induction table as [|it table IH] using rev_ind; intros Hok; [by split; [|intros ? ?%not_elem_of_nil]|].
  apply Forall_app in Hok as [Hok Hit]. apply Forall_cons_1 in Hit as [Hit _]. specialize (IH Hok).
  rewrite fold_left_app. destruct (fold_left _ table _) as [m best]. cbn [fold_left consider].
  pose proof (match_len_spec it Hit) as Hm. destruct (_ <=? match_len _ _ _) eqn:E1; cbn [andb].
  - assert (applies dst it) as Ha by (by apply Hm). destruct (Z.leb_spec m (prefix_length it)).
    + split; [done|]. exists table, []. split; [done|]. split; [done|]. split; [|by intros ? ?%not_elem_of_nil].
      intros r Hr Hra. destruct best as [b|]; [|by destruct (proj2 IH r Hr)].
      destruct IH as (->&t1&t2&->&_&H1&H2). apply elem_of_app in Hr as [Hr|[->|Hr]%elem_of_cons].
      * specialize (H1 r Hr Hra). lia.
      * done.
      * specialize (H2 r Hr Hra). lia.
    + destruct best as [b|]; [|destruct IH, Hit; lia]. destruct IH as (->&t1&t2&->&Hb&H1&H2).
      split; [done|]. exists t1, (t2 ++ [it]). split; [by rewrite <- app_assoc|]. split; [done|].
      split; [done|]. intros r [Hr|Hr%list_elem_of_singleton]%elem_of_app Hra; [by apply H2|by subst].
  - assert (~ applies dst it) as Ha by (intros Ha%Hm; done). destruct best as [b|].
    + destruct IH as (->&t1&t2&->&Hb&H1&H2). split; [done|]. exists t1, (t2 ++ [it]).
      split; [by rewrite <- app_assoc|]. split; [done|]. split; [done|].
      intros r [Hr|Hr%list_elem_of_singleton]%elem_of_app Hra; [by apply H2|by subst].
    + destruct IH as [-> IH]. split; [done|].
      intros r [Hr|Hr%list_elem_of_singleton]%elem_of_app; [by apply IH|by subst].
Qed.

(** C17. The route chosen is the one with the longest prefix among those that apply to
    the destination, the one added last among equals, and none is chosen only when
    none applies, whatever the shift by 32 gives. *)
Theorem longest_prefix_match table :
  Forall route_ok table ->
  match best_match shr32 dst table with
  | Some route => longest table route
  | None => forall r, r ∈ table -> ~ applies dst r
  end.
Proof.
  intros Hok. pose proof (consider_spec table Hok) as H. unfold best_match.
  destruct (fold_left _ _ _) as [m [b|]]; exact (proj2 H).
Qed.

End LongestPrefix.
(** ** [route] against forwarding a list of datagrams *)
Section Route.
Context (shr32 : Z -> Z).

(** The datagrams, one after the other. *)
Fixpoint forward_all (ds : list IPv4Datagram.IPv4Datagram) (r : Router) : option (result Router) :=
  match ds with
  | [] => Some (ok r)
  | d :: ds => match route_one_datagram shr32 d r with
               | Some (inr r) => forward_all ds r
               | other => other
               end
  end.

Definition lift_r (f : Router -> Router) (o : option (result Router)) : option (result Router) :=
  match o with Some (inr r) => Some (ok (f r)) | other => other end.

Definition queues (r : Router) : list (list IPv4Datagram.IPv4Datagram) :=
  map datagrams_out (_interfaces r).
Definition set_queues (qs : list (list IPv4Datagram.IPv4Datagram)) (r : Router) : Router :=
  mkRouter (zip_with mkAsyncNetworkInterface (map base (_interfaces r)) qs) (_route_table r).

Lemma set_queues_id r : set_queues (queues r) r = r.
Proof.
  destruct r as [l t]. unfold set_queues, queues. cbn. f_equal.
  induction l as [|[b q] l IH]; cbn; [done|by rewrite IH].
Qed.

Lemma base_zip (bs : list NetworkInterface.NetworkInterface) (qs : list (list IPv4Datagram.IPv4Datagram)) :
  length qs = length bs -> map base (zip_with mkAsyncNetworkInterface bs qs) = bs.
Proof. revert qs. induction bs as [|b bs IH]; intros [|q qs] H; simplify_eq/=; f_equal; auto. Qed.

Lemma queues_zip (bs : list NetworkInterface.NetworkInterface) (qs : list (list IPv4Datagram.IPv4Datagram)) :
  length qs = length bs -> map datagrams_out (zip_with mkAsyncNetworkInterface bs qs) = qs.
Proof. revert qs. induction bs as [|b bs IH]; intros [|q qs] H; simplify_eq/=; f_equal; auto. Qed.

Lemma set_queues_set qs qs' r :
  length qs' = length (_interfaces r) -> set_queues qs (set_queues qs' r) = set_queues qs r.
Proof. intros H. unfold set_queues. cbn. by rewrite base_zip by (by rewrite length_map). Qed.

Lemma queues_set qs r : length qs = length (_interfaces r) -> queues (set_queues qs r) = qs.
Proof. intros H. unfold queues, set_queues. cbn. by rewrite queues_zip by (by rewrite length_map). Qed.

(** Sending leaves the queues and the table alone. *)
Lemma send_on_set_queues num d hop qs r :
  length qs = length (_interfaces r) ->
  send_on num d hop (set_queues qs r) = lift_r (set_queues qs) (send_on num d hop r).
Proof.
  intros H. unfold send_on, set_queues. cbn [_interfaces].
  rewrite lookup_zip_with, list_lookup_fmap.
  destruct (_interfaces r !! Z.to_nat num) as [a|] eqn:Ea; [|done]. simpl.
  destruct (lookup_lt_is_Some_2 qs (Z.to_nat num)) as [q Eq];
    [rewrite H; by eapply lookup_lt_Some|]. rewrite Eq. simpl.
  destruct (NetworkInterface.send_datagram d hop (base a)) as [|n]; [done|]. simpl. do 2 f_equal.
  destruct r as [l t]. cbn in *. f_equal. unfold ok. apply list_eq. intros j.
  destruct (decide (j = Z.to_nat num)) as [->|Hj].
  - rewrite list_lookup_insert_eq by (rewrite length_zip_with, length_map; apply lookup_lt_Some in Ea, Eq; lia).
    rewrite lookup_zip_with, list_lookup_fmap, list_lookup_insert_eq by (by eapply lookup_lt_Some).
    simpl. rewrite Eq. done.
  - rewrite list_lookup_insert_ne by done.
    rewrite !lookup_zip_with, !list_lookup_fmap, list_lookup_insert_ne by done. done.
Qed.

Lemma route_one_set_queues d qs r :
  length qs = length (_interfaces r) ->
  route_one_datagram shr32 d (set_queues qs r) = lift_r (set_queues qs) (route_one_datagram shr32 d r).
Proof.
  intros H. unfold route_one_datagram. destruct (_ || _); [done|]. cbn [_route_table set_queues].
  destruct (best_match _ _ _); [|done]. by apply send_on_set_queues.
Qed.

Lemma route_one_shape d r r' :
  route_one_datagram shr32 d r = Some (inr r') ->
  queues r' = queues r /\ length (_interfaces r') = length (_interfaces r) /\
  _route_table r' = _route_table r.
Proof.
  unfold route_one_datagram, send_on, ok. destruct (_ || _); [by intros [= ->]|].
  destruct (best_match _ _ _) as [route|]; [|by intros [= ->]].
  destruct (_interfaces r !! _) as [a|] eqn:Ea; [|done].
  destruct (NetworkInterface.send_datagram _ _ _) as [|n]; [done|]. intros [= <-].
  destruct r as [l t]. unfold queues. cbn in *. rewrite length_insert. split; [|done].
  rewrite list_fmap_insert. apply list_insert_id. by rewrite list_lookup_fmap, Ea.
Qed.

Lemma forward_all_set_queues ds qs r :
  length qs = length (_interfaces r) ->
  forward_all ds (set_queues qs r) = lift_r (set_queues qs) (forward_all ds r).
Proof.
  revert r. induction ds as [|d ds IH]; intros r H; [done|]. simpl.
  rewrite route_one_set_queues by done.
  destruct (route_one_datagram shr32 d r) as [[e|r']|] eqn:E; [done| |done].
  simpl. apply IH. by destruct (route_one_shape _ _ _ E) as (_&->&_).
Qed.

Lemma forward_all_shape ds r r' :
  forward_all ds r = Some (inr r') ->
  queues r' = queues r /\ length (_interfaces r') = length (_interfaces r) /\
  _route_table r' = _route_table r.
Proof.
  revert r. induction ds as [|d ds IH]; intros r H; [by simplify_eq/=|]. simpl in H.
  destruct (route_one_datagram shr32 d r) as [[e|r1]|] eqn:E; [done| |done].
  destruct (route_one_shape _ _ _ E) as (?&?&?). destruct (IH _ H) as (?&?&?). split_and!; congruence.
Qed.

Lemma forward_all_app ds es r :
  forward_all (ds ++ es) r =
  match forward_all ds r with Some (inr r) => forward_all es r | other => other end.
Proof.
  revert r. induction ds as [|d ds IH]; intros r; [done|]. simpl.
  destruct (route_one_datagram shr32 d r) as [[e|r1]|]; [done|apply IH|done].
Qed.

Lemma queues_lookup r qs1 ds qs2 :
  queues r = qs1 ++ ds :: qs2 ->
  exists a, _interfaces r !! length qs1 = Some a /\ datagrams_out a = ds.
Proof.
  intros H. assert (queues r !! length qs1 = Some ds) as E by (by rewrite H, list_lookup_middle).
  unfold queues in E. rewrite list_lookup_fmap in E.
  destruct (_interfaces r !! length qs1) as [a|]; [|done]. exists a. by simplify_eq/=.
Qed.

Lemma pop_queue r qs1 d ds qs2 :
  queues r = qs1 ++ (d :: ds) :: qs2 ->
  r <| _interfaces ::= alter (fun a => a <| _datagrams_out ::= tail |>) (length qs1) |> =
  set_queues (qs1 ++ ds :: qs2) r.
Proof.
  destruct r as [l t]. unfold queues, set_queues. cbn. intros H. f_equal.
  revert qs1 H. induction l as [|[b q] l IH]; intros [|q1 qs1] H; simplify_eq/=.
  - f_equal. clear. induction l as [|[b' q'] l IH]; simpl; congruence.
  - f_equal. by apply IH.
Qed.

Lemma drain_eq ds r qs1 qs2 :
  queues r = qs1 ++ ds :: qs2 ->
  drain shr32 (length ds) (length qs1) r =
  lift_r (set_queues (qs1 ++ [] :: qs2)) (forward_all ds r).
Proof.
  revert r. induction ds as [|d ds IH]; intros r H.
  - simpl. by rewrite <- H, set_queues_id.
  - destruct (queues_lookup _ _ _ _ H) as (a&Ea&Hq). cbn [length drain forward_all].
    rewrite Ea, Hq. destruct (route_one_datagram shr32 d r) as [[e|r1]|] eqn:E; [done| |done].
    destruct (route_one_shape _ _ _ E) as (H1&Hl&_). rewrite H in H1.
    rewrite (pop_queue _ _ _ _ _ H1).
    assert (length (qs1 ++ ds :: qs2) = length (_interfaces r1)) as Hlen.
    { apply (f_equal length) in H1. unfold queues in H1. rewrite length_map in H1.
      rewrite H1, !length_app. done. }
    rewrite IH by (by apply queues_set). rewrite forward_all_set_queues by done.
    destruct (forward_all ds r1) as [[e|r2]|] eqn:E2; [done| |done]. simpl. do 2 f_equal.
    rewrite set_queues_set; [done|]. rewrite Hlen.
    by destruct (forward_all_shape _ _ _ E2) as (_&->&_).
Qed.

Lemma route_from_eq qs2 r qs1 :
  queues r = qs1 ++ qs2 ->
  route_from shr32 (length qs2) (length qs1) r =
  lift_r (set_queues (qs1 ++ replicate (length qs2) [])) (forward_all (concat qs2) r).
Proof.
  revert r qs1. induction qs2 as [|ds qs2 IH]; intros r qs1 H.
  - simpl. by rewrite <- H, set_queues_id.
  - cbn [length route_from concat replicate]. unfold queue_length.
    destruct (queues_lookup _ _ _ _ H) as (a&Ea&Hq). rewrite Ea, Hq, (drain_eq _ _ _ _ H), forward_all_app.
    destruct (forward_all ds r) as [[e|r1]|] eqn:E; [done| |done]. cbn [lift_r].
    destruct (forward_all_shape _ _ _ E) as (H1&_&_). rewrite H in H1.
    assert (length (qs1 ++ [] :: qs2) = length (_interfaces r1)) as Hlen.
    { apply (f_equal length) in H1. unfold queues in H1. rewrite length_map in H1.
      rewrite H1, !length_app. done. }
    unfold ok at 1. replace (S (length qs1)) with (length (qs1 ++ [[] : list IPv4Datagram.IPv4Datagram]))
      by (rewrite length_app; simpl; lia).
    rewrite IH by (rewrite queues_set, <- app_assoc by done; done).
    rewrite forward_all_set_queues by done.
    destruct (forward_all (concat qs2) r1) as [[e|r2]|] eqn:E2; [done| |done]. simpl. do 2 f_equal.
    rewrite set_queues_set; [by rewrite <- app_assoc|]. rewrite Hlen.
    by destruct (forward_all_shape _ _ _ E2) as (_&->&_).
Qed.

Lemma route_eq r :
  route shr32 r =
  lift_r (set_queues (replicate (length (_interfaces r)) []))
    (forward_all (concat (queues r)) r).
Proof.
  unfold route. assert (length (_interfaces r) = length (queues r)) as -> by (unfold queues; by rewrite length_map).
  by apply (route_from_eq (queues r) r []).
Qed.

(** [route] terminates and does what forwarding all the received datagrams does,
    interface by interface and each queue in order, and leaves the queues empty; it
    throws, or is undefined, exactly when that is. *)
Theorem route_forwards_all r :
  route shr32 r =
  lift_r (set_queues (replicate (length (_interfaces r)) []))
    (forward_all (concat (queues r)) r).
Proof. exact (route_eq r). Qed.

(** ** What the interfaces are handed *)
Import InterfaceLog InterfaceInvariant.

(** The datagram with one hop less to live. *)
Definition one_hop_less (d : IPv4Datagram.IPv4Datagram) : IPv4Datagram.IPv4Datagram :=
  IPv4Datagram.mkIPv4Datagram
    ((IPv4Datagram.header d) <| IPv4Header.ttl := IPv4Header.ttl (IPv4Datagram.header d) - 1 |>)
    (IPv4Datagram.payload d).

(** The operation that [route_one_datagram] performs on interface [j], if any. *)
Definition handed (table : list RouteMsg) (j : nat) (d : IPv4Datagram.IPv4Datagram) : option op :=
  if IPv4Header.ttl (IPv4Datagram.header d) <=? 1 then None
  else
    let dst := IPv4Header.dst (IPv4Datagram.header d) in
    match best_match shr32 dst table with
    | Some route =>
        if bool_decide (Z.to_nat (interface_num route) = j) then
          Some (SendDatagram (one_hop_less d)
            (Address.from_ipv4_numeric (if next_hop route =? 0 then dst else next_hop route)))
        else None
    | None => None
    end.

(** An interface that has done the operations of [h], and the frames taken from it. *)
Abbreviation history := (list EthernetFrame.EthernetFrame * list op)%type.
Definition tracked (a : AsyncNetworkInterface) (h : history) : Prop :=
  exists mac addr my_ip log,
    Address.ipv4_numeric addr = ok my_ip /\ inv mac addr h.1 (base a) log h.2.
Definition did (os : list op) (h : history) : history := (h.1, h.2 ++ os).

Definition in_table (r : Router) : Prop :=
  Forall (fun route => (Z.to_nat (interface_num route) < length (_interfaces r))%nat) (_route_table r).

Lemma best_match_elem dst table route :
  best_match shr32 dst table = Some route -> route ∈ table.
Proof.
  unfold best_match. enough (forall m b, (fold_left (consider shr32 dst) table (m, b)).2 = Some route ->
    route ∈ table \/ b = Some route) as H by (intros E; by destruct (H _ _ E)).
  induction table as [|it table IH]; intros m b E; [by right|]. cbn [fold_left consider] in E.
  rewrite elem_of_cons. destruct (_ && _); apply IH in E as [?|?]; simplify_eq; auto.
Qed.

Lemma forwarded_eq d : forwarded d = one_hop_less d.
Proof. by destruct d. Qed.

Lemma forwarded_sendable d :
  Ipv4Theorems.sendable d -> 1 < IPv4Header.ttl (IPv4Datagram.header d) ->
  Ipv4Theorems.sendable (forwarded d).
Proof.
  destruct d as [[]]. unfold forwarded. intros ([]&Hw&Hl) Ht. split; [|done]. cbn in *. split; cbn; done || lia.
Qed.

Lemma tracked_send a h d ip :
  tracked a h -> Ipv4Theorems.sendable d ->
  exists n, NetworkInterface.send_datagram d (Address.from_ipv4_numeric ip) (base a) = ok n /\
    tracked (a <| base := n |>) (did [SendDatagram d (Address.from_ipv4_numeric ip)] h).
Proof.
  intros (mac&addr&my_ip&log&Ha&I) Hd.
  destruct (inv_send mac addr _ my_ip Ha d (Address.from_ipv4_numeric ip) _ _ _ I Hd) as (n&E&I'&_).
  { unfold Address.ipv4_numeric. cbn. by eexists. }
  exists n. split; [done|]. exists mac, addr, my_ip. by eexists.
Qed.

Lemma did_nil h : did [] h = h.
Proof. destruct h. unfold did. cbn. by rewrite app_nil_r. Qed.
Lemma did_app os os' h : did os' (did os h) = did (os ++ os') h.
Proof. destruct h. unfold did. cbn. by rewrite app_assoc. Qed.

Lemma insert_tracked l hs k a h o f :
  Forall2 tracked l hs -> hs !! k = Some h -> tracked a (did [o] h) ->
  (forall j, f j = if bool_decide (k = j) then Some o else None) ->
  Forall2 tracked (<[k := a]> l) (imap (fun j h => did (option_list (f j)) h) hs).
Proof.
  intros Hl Hk Ha Hf. apply Forall2_same_length_lookup. split.
  { rewrite length_insert, length_imap. by eapply Forall2_length. }
  intros j x y Hx Hy. rewrite list_lookup_imap in Hy. destruct (hs !! j) as [h'|] eqn:Ej; [|done].
  simplify_eq/=. rewrite Hf. destruct (bool_decide_reflect (k = j)) as [->|Hne].
  - rewrite list_lookup_insert_eq in Hx
      by (rewrite (Forall2_length _ _ _ Hl); by eapply lookup_lt_Some). by simplify_eq.
  - rewrite list_lookup_insert_ne in Hx by done. simpl. rewrite did_nil.
    by eapply Forall2_lookup_lr.
Qed.

Lemma imap_did_nil (l : list history) (f : nat -> option op) :
  (forall j, f j = None) -> imap (fun j h => did (option_list (f j)) h) l = l.
Proof.
  intros H. revert f H. induction l as [|x l IH]; intros f H; simpl; [done|].
  rewrite H, did_nil. f_equal. by apply (IH (fun j => f (S j))).
Qed.

Lemma route_one_tracked d r hs :
  Forall2 tracked (_interfaces r) hs -> in_table r -> Ipv4Theorems.sendable d ->
  exists r', route_one_datagram shr32 d r = Some (ok r') /\
    Forall2 tracked (_interfaces r')
      (imap (fun j h => did (option_list (handed (_route_table r) j d)) h) hs).
Proof.
  intros Ht Hin Hd. unfold route_one_datagram.
  assert (0 <= IPv4Header.ttl (IPv4Datagram.header d)) as H0 by (destruct Hd as ([]&_); lia).
  replace (_ || _) with (IPv4Header.ttl (IPv4Datagram.header d) <=? 1)
    by (destruct (Z.leb_spec (IPv4Header.ttl (IPv4Datagram.header d)) 1),
          (Z.eqb_spec (IPv4Header.ttl (IPv4Datagram.header d)) 0),
          (Z.eqb_spec (IPv4Header.ttl (IPv4Datagram.header d)) 1); done || lia).
  unfold handed. rewrite <- (forwarded_eq d).
  destruct (Z.leb_spec (IPv4Header.ttl (IPv4Datagram.header d)) 1) as [|Httl].
  { exists r. by rewrite imap_did_nil. }
  change (IPv4Header.dst (IPv4Datagram.header (forwarded d))) with (IPv4Header.dst (IPv4Datagram.header d)).
  destruct (best_match _ _ _) as [route|] eqn:Eb; [|exists r; by rewrite imap_did_nil].
  pose proof (proj1 (Forall_forall _ _) Hin _ (best_match_elem _ _ _ Eb)) as Hk. cbv beta in Hk.
  apply lookup_lt_is_Some_2 in Hk as [a Ea].
  destruct (Forall2_lookup_l _ _ _ _ _ Ht Ea) as (h&Eo&Ha). unfold send_on. rewrite Ea.
  destruct (tracked_send a h (forwarded d)
    (if next_hop route =? 0 then IPv4Header.dst (IPv4Datagram.header d) else next_hop route) Ha
    (forwarded_sendable d Hd Httl)) as (n&->&Ha').
  eexists. split; [reflexivity|]. destruct r as [l t].
  refine (insert_tracked _ _ _ _ _ _ (fun j => _) Ht Eo Ha' _). done.
Qed.

Lemma imap_did_app (l : list history) (f g : nat -> list op) :
  imap (fun j h => did (g j) h) (imap (fun j h => did (f j) h) l) = imap (fun j h => did (f j ++ g j) h) l.
Proof.
  apply list_eq. intros j. rewrite !list_lookup_imap. destruct (l !! j); [|done]. simpl. by rewrite did_app.
Qed.

Lemma forward_all_tracked ds r hs :
  Forall2 tracked (_interfaces r) hs -> in_table r -> Forall Ipv4Theorems.sendable ds ->
  exists r', forward_all ds r = Some (ok r') /\
    Forall2 tracked (_interfaces r')
      (imap (fun j h => did (omap (handed (_route_table r) j) ds) h) hs).
Proof.
  revert r hs. induction ds as [|d ds IH]; intros r hs Ht Hin Hds.
  - exists r. split; [done|]. simpl.
    replace (imap _ hs) with hs; [done|]. symmetry. by apply (imap_did_nil hs (fun _ => None)).
  - apply Forall_cons in Hds as [Hd Hds]. destruct (route_one_tracked d r hs Ht Hin Hd) as (r1&E&Ht1).
    destruct (route_one_shape d r r1 E) as (_&Hl&Htab).
    destruct (IH r1 _ Ht1) as (r'&E'&Ht'); [unfold in_table; by rewrite Hl, Htab|done|].
    exists r'. cbn [forward_all]. rewrite E. unfold ok at 1. split; [done|].
    rewrite imap_did_app, Htab in Ht'. erewrite imap_ext; [exact Ht'|].
    intros j h _. simpl. by destruct (handed (_route_table r) j d).
Qed.

Lemma set_queues_empty n r :
  Forall (fun a => datagrams_out a = []) (_interfaces (set_queues (replicate n []) r)).
Proof.
  unfold set_queues. cbn. generalize (map base (_interfaces r)). revert n.
  induction n as [|n IH]; intros [|b bs]; simpl; constructor; done.
Qed.

Lemma set_queues_base qs r j a :
  length qs = length (_interfaces r) -> _interfaces (set_queues qs r) !! j = Some a ->
  exists a0, _interfaces r !! j = Some a0 /\ base a0 = base a.
Proof.
  unfold set_queues. cbn. rewrite lookup_zip_with, list_lookup_fmap. intros _.
  destruct (_interfaces r !! j) as [a0|]; [|done]. simpl. intros H. exists a0. split; [done|].
  destruct (qs !! j); by simplify_eq/=.
Qed.

(** [route] keeps account. *)
Lemma route_tracked r hs :
  Forall2 tracked (_interfaces r) hs -> in_table r -> Forall Ipv4Theorems.sendable (concat (queues r)) ->
  exists r', route shr32 r = Some (ok r') /\ length (_interfaces r') = length (_interfaces r) /\
    Forall (fun a => datagrams_out a = []) (_interfaces r') /\ _route_table r' = _route_table r /\
    Forall2 tracked (_interfaces r')
      (imap (fun j h => did (omap (handed (_route_table r) j) (concat (queues r))) h) hs).
Proof.
  intros Ht Hin Hds. destruct (forward_all_tracked _ r hs Ht Hin Hds) as (r1&E&Ht1).
  destruct (forward_all_shape _ _ _ E) as (_&Hl&Htab). rewrite route_eq, E. cbn [lift_r].
  eexists. split; [reflexivity|]. split.
  { unfold set_queues. cbn. rewrite length_zip_with, length_replicate, length_map. lia. }
  split; [apply set_queues_empty|]. split; [exact Htab|].
  apply Forall2_same_length_lookup. split.
  { rewrite <- (Forall2_length _ _ _ Ht1). unfold set_queues. cbn. rewrite length_zip_with, length_replicate, length_map. lia. }
  intros j a h Ha Hh. apply set_queues_base in Ha as (a0&Ha0&Eb); [|by rewrite length_replicate].
  destruct (Forall2_lookup_lr _ _ _ _ _ _ Ht1 Ha0 Hh) as (mac&addr&my_ip&log&Ha&I).
  exists mac, addr, my_ip, log. by rewrite <- Eb.
Qed.

(** C18. When the routes name existing interfaces, [route] succeeds and empties the
    queues, and every interface's frames and waiting datagrams account, hop by hop and
    in order, for what it was given before followed by the received datagrams whose
    longest matching route leads to it, their TTL decremented; datagrams without a
    route, or whose TTL ends, go nowhere. The frames are those that wait behind the ones
    taken from the interface before. *)
Theorem route_hands_on r hs :
  Forall2 tracked (_interfaces r) hs -> in_table r ->
  Forall Ipv4Theorems.sendable (concat (queues r)) ->
  exists r', route shr32 r = Some (ok r') /\
    length (_interfaces r') = length (_interfaces r) /\
    Forall (fun a => datagrams_out a = []) (_interfaces r') /\
    forall j a h, _interfaces r' !! j = Some a -> hs !! j = Some h ->
      exists log, render_log (base a) log = ok (h.1 ++ NetworkInterface.frames_out (base a)) /\
        forall ip, transmitted ip log ++ pending ip (base a) =
          submitted ip h.2 ++
          submitted ip (omap (handed (_route_table r) j) (concat (queues r))).
Proof.
  intros Ht Hin Hds. destruct (route_tracked r hs Ht Hin Hds) as (r'&E&Hl&He&_&Ht').
  exists r'. split; [done|]. split; [done|]. split; [done|]. intros j a h Ha Hh.
  destruct (Forall2_lookup_l _ _ _ _ _ Ht' Ha) as (h'&Hh'&mac&addr&my_ip&log&_&I).
  rewrite list_lookup_imap, Hh in Hh'. simplify_eq/=.
  exists log. split; [apply I|]. intros ip. rewrite (inv_fifo _ _ _ _ _ _ I ip). apply omap_app.
Qed.

End Route.
Definition demo_dst : Z := 167772162.
Definition demo_table : list RouteMsg :=
  [mkRouteMsg 0 0 3232235777 0; mkRouteMsg 167772160 8 0 1].

Lemma longest_prefix_match_witness :
  longest demo_dst demo_table (mkRouteMsg 167772160 8 0 1).
Proof.
  apply (longest_prefix_match (fun x => x) demo_dst ltac:(done) demo_table).
  repeat constructor; done.
Defined.

Definition demo_interface (ip : Z) : NetworkInterface.NetworkInterface :=
  NetworkInterface.make [2; 0; 0; 0; 0; ip] (Address.from_ipv4_numeric ip).
Definition demo_router : Router :=
  mkRouter [mkAsyncNetworkInterface (demo_interface 1) [Ipv4Theorems.demo_datagram];
            of_interface (demo_interface 2)] demo_table.

Lemma demo_router_tracked : Forall2 tracked (_interfaces demo_router) [([], []); ([], [])].
Proof.
  assert (forall ip q, 0 <= ip < 2 ^ 32 ->
    tracked (mkAsyncNetworkInterface (demo_interface ip) q) ([], [])) as H.
  { intros ip q Hip. do 3 eexists. exists []. split; [by apply AddressTheorems.ipv4_numeric_from|].
    by apply InterfaceInvariant.inv_make. }
  repeat constructor; by apply H.
Qed.

(** The datagram leaves on the second interface, which asks for its address. *)
Lemma route_hands_on_witness :
  exists r' a log, route (fun x => x) demo_router = Some (ok r') /\ _interfaces r' !! 1%nat = Some a /\
    InterfaceLog.transmitted demo_dst log ++ InterfaceLog.pending demo_dst (base a) =
      [one_hop_less Ipv4Theorems.demo_datagram].
Proof.
  destruct (route_hands_on (fun x => x) demo_router [([], []); ([], [])]) as (r'&E&Hl&_&H).
  - exact demo_router_tracked.
  - repeat constructor.
  - repeat constructor; simpl; done.
  - destruct (lookup_lt_is_Some_2 (_interfaces r') 1) as [a Ha]; [rewrite Hl; simpl; lia|].
    destruct (H 1%nat a ([], []) Ha eq_refl) as (log&_&Hp). exists r', a, log.
    split; [exact E|]. split; [exact Ha|]. rewrite (Hp demo_dst). vm_compute. reflexivity.
Defined.

End RouterTheorems.

(** ** Operations do not look at the frames that are queued *)
Module RouterQueue.
Import AsyncNetworkInterface Router InterfaceQueue.

Definition ahead_of (q : list EthernetFrame.EthernetFrame) (x : AsyncNetworkInterface) : AsyncNetworkInterface :=
  x <| base ::= ahead q |>.

Lemma async_recv_ahead q f x : recv_frame f (ahead_of q x) = behind (ahead_of q) (recv_frame f x).
Proof.
  unfold recv_frame. change (base (ahead_of q x)) with (ahead q (base x)). rewrite recv_frame_ahead.
  apply behind_bind. by intros [n [d|]].
Qed.

(** The interface [i] with frames in front of its queue. *)
Definition ahead_at (i : nat) (q : list EthernetFrame.EthernetFrame) (r : Router) : Router :=
  r <| _interfaces ::= alter (ahead_of q) i |>.
Abbreviation lift_r := RouterTheorems.lift_r.

Lemma ahead_lookup i q r j :
  _interfaces (ahead_at i q r) !! j = (if bool_decide (i = j) then ahead_of q else id) <$> _interfaces r !! j.
Proof.
  cbn. destruct (bool_decide_reflect (i = j)) as [<-|Hij]; [apply list_lookup_alter_eq|].
  rewrite list_lookup_alter_ne by done. by destruct (_interfaces r !! j).
Qed.

Lemma alter_insert_ahead i k q a (l : list AsyncNetworkInterface) :
  (k < length l)%nat ->
  <[k := if bool_decide (i = k) then ahead_of q a else a]> (alter (ahead_of q) i l) = alter (ahead_of q) i (<[k := a]> l).
Proof.
  intros Hk. apply list_eq. intros j. destruct (decide (k = j)) as [<-|Hj].
  - rewrite list_lookup_insert_eq by (by rewrite length_alter). destruct (bool_decide_reflect (i = k)) as [<-|Hi].
    + by rewrite list_lookup_alter_eq, list_lookup_insert_eq.
    + by rewrite list_lookup_alter_ne, list_lookup_insert_eq.
  - rewrite list_lookup_insert_ne by done. destruct (decide (i = j)) as [<-|Hi].
    + by rewrite !list_lookup_alter_eq, list_lookup_insert_ne.
    + by rewrite !list_lookup_alter_ne, list_lookup_insert_ne.
Qed.

Lemma send_on_ahead i q num d hop r :
  send_on num d hop (ahead_at i q r) = lift_r (ahead_at i q) (send_on num d hop r).
Proof.
  unfold send_on. rewrite ahead_lookup. destruct (_interfaces r !! Z.to_nat num) as [a|] eqn:Ea; [|done]. cbn [fmap option_fmap option_map].
  assert (base ((if bool_decide (i = Z.to_nat num) then ahead_of q else id) a) =
    if bool_decide (i = Z.to_nat num) then ahead q (base a) else base a) as -> by (by destruct (bool_decide _)).
  assert (NetworkInterface.send_datagram d hop (if bool_decide (i = Z.to_nat num) then ahead q (base a) else base a) =
    behind (if bool_decide (i = Z.to_nat num) then ahead q else id) (NetworkInterface.send_datagram d hop (base a))) as ->.
  { destruct (bool_decide _); [apply send_datagram_ahead|]. by destruct (NetworkInterface.send_datagram _ _ _). }
  destruct (NetworkInterface.send_datagram d hop (base a)) as [e|n]; [done|]. cbn. do 2 f_equal.
  unfold ahead_at. cbn. f_equal. rewrite <- alter_insert_ahead by (by eapply lookup_lt_Some).
  by destruct (bool_decide _).
Qed.

Section Routing.
Context (shr32 : Z -> Z).

Lemma route_one_ahead i q d r :
  route_one_datagram shr32 d (ahead_at i q r) = lift_r (ahead_at i q) (route_one_datagram shr32 d r).
Proof.
  unfold route_one_datagram. destruct (_ || _); [done|]. change (_route_table (ahead_at i q r)) with (_route_table r).
  destruct (best_match _ _ _); [apply send_on_ahead|done].
Qed.

Lemma pop_datagram_ahead i q j r :
  (ahead_at i q r) <| _interfaces ::= alter (fun a => a <| _datagrams_out ::= tail |>) j |> =
  ahead_at i q (r <| _interfaces ::= alter (fun a => a <| _datagrams_out ::= tail |>) j |>).
Proof.
  unfold ahead_at. cbn. f_equal. apply list_eq. intros k. rewrite !list_lookup_alter.
  destruct (decide (j = k)), (decide (i = k)); subst; rewrite ?list_lookup_alter; repeat case_decide; try congruence;
    by destruct (_interfaces r !! _).
Qed.

Lemma datagrams_ahead i q r j :
  datagrams_out <$> _interfaces (ahead_at i q r) !! j = datagrams_out <$> _interfaces r !! j.
Proof. rewrite ahead_lookup. destruct (_interfaces r !! j); [|done]. cbn. by destruct (bool_decide _). Qed.

Lemma drain_ahead i q fuel j r :
  drain shr32 fuel j (ahead_at i q r) = lift_r (ahead_at i q) (drain shr32 fuel j r).
Proof.
  revert r. induction fuel as [|fuel IH]; intros r; [done|]. cbn [drain]. pose proof (datagrams_ahead i q r j) as Hd.
  destruct (_interfaces (ahead_at i q r) !! j) as [a|], (_interfaces r !! j) as [b|]; try done.
  cbn in Hd. injection Hd as ->. destruct (datagrams_out b) as [|d ds]; [done|]. rewrite route_one_ahead.
  destruct (route_one_datagram shr32 d r) as [[e|r1]|]; [done| |done]. cbn [lift_r ok].
  unfold RouterTheorems.lift_r at 1. rewrite pop_datagram_ahead. apply IH.
Qed.

Lemma route_from_ahead i q count j r :
  route_from shr32 count j (ahead_at i q r) = lift_r (ahead_at i q) (route_from shr32 count j r).
Proof.
  revert j r. induction count as [|count IH]; intros j r; [done|]. cbn [route_from]. rewrite drain_ahead.
  assert (queue_length j (ahead_at i q r) = queue_length j r) as ->.
  { unfold queue_length. pose proof (datagrams_ahead i q r j) as Hd.
    destruct (_interfaces (ahead_at i q r) !! j), (_interfaces r !! j); try done. cbn in Hd. by injection Hd as ->. }
  destruct (drain shr32 _ j r) as [[e|r1]|]; [done| |done]. apply IH.
Qed.

(** [route] does not look at the frames that are queued. *)
Lemma route_ahead i q r : route shr32 (ahead_at i q r) = lift_r (ahead_at i q) (route shr32 r).
Proof. unfold route. cbn. rewrite length_alter. apply route_from_ahead. Qed.

End Routing.

End RouterQueue.
