(* ===== verification/Descriptor.v ===== *)
(** * [FileDescriptor] (libsponge/util/file_descriptor.*; SystemCall of util.cc)

    The wrapper around the kernel's descriptors. The kernel is the class [Kernel]: each
    call gives the return value and [errno]. All handles that [duplicate] makes share
    one [FDWrapper], which is the object modelled; when the last handle is gone
    [destroy] is its destructor. *)
From S2P Require Import Prelude Buffers Addresses.

(** [SystemCall], given the return value and [errno]. The conversion of the return value
    to [int] loses nothing: a call transfers fewer than 2^31 bytes. *)
Definition SystemCall (attempt : string) (return_value errno errno_mask : Z) : result Z :=
  if (0 <=? return_value) || (errno =? errno_mask) then ok return_value
  else throw (tagged_error "system" (bytes_of_string attempt) errno).

Class Kernel (K : Type) := {
  (** return value, [errno] and the bytes put into the caller's buffer *)
  k_read : Z -> Z -> K -> Z * Z * bytes * K;
  k_writev : Z -> list (bytes * Z) -> K -> Z * Z * K;
  k_close : Z -> K -> Z * Z * K;
  (** descriptor, command and argument *)
  k_fcntl : Z -> Z -> Z -> K -> Z * Z * K
}.

Module FileDescriptor.

Record FDWrapper := mkFDWrapper {
  _fd : Z;
  _eof : bool;
  _closed : bool;
  _read_count : Z;
  _write_count : Z
}.
#[global] Instance eta_FDWrapper : Eta FDWrapper := fun w =>
  mkFDWrapper (_fd w) (_eof w) (_closed w) (_read_count w) (_write_count w).

Definition make (fd : Z) : result FDWrapper :=
  if fd <? 0 then throw (runtime_error "invalid fd number") else ok (mkFDWrapper fd false false 0 0).

Definition fd_num (w : FDWrapper) : Z := _fd w.
Definition eof (w : FDWrapper) : bool := _eof w.
Definition closed (w : FDWrapper) : bool := _closed w.
Definition read_count (w : FDWrapper) : Z := _read_count w.
Definition write_count (w : FDWrapper) : Z := _write_count w.
Definition register_read (w : FDWrapper) : FDWrapper := w <| _read_count ::= fun c => u32 (c + 1) |>.
Definition register_write (w : FDWrapper) : FDWrapper := w <| _write_count ::= fun c => u32 (c + 1) |>.

Section Calls.
Context {K : Type} `{Kernel K}.

Definition close (s : FDWrapper * K) : result (FDWrapper * K) :=
  let (w, k) := s in
  let '(r, errno, k) := k_close (fd_num w) k in
  let! _ := SystemCall "close" r errno 0 in
  ok (w <| _closed := true |> <| _eof := true |>, k).

(** The destructor of [FDWrapper], which reports a failure of [close] and goes on. *)
Definition destroy (s : FDWrapper * K) : K :=
  let (w, k) := s in
  if closed w then k else (k_close (fd_num w) k).2.

Definition F_GETFL : Z := 3.
Definition F_SETFL : Z := 4.
Definition O_NONBLOCK : Z := 2048.

Definition set_blocking (blocking_state : bool) (s : FDWrapper * K) : result (FDWrapper * K) :=
  let (w, k) := s in
  let '(r, errno, k) := k_fcntl (fd_num w) F_GETFL 0 k in
  let! flags := SystemCall "fcntl" r errno 0 in
  let flags := if blocking_state then Z.lxor flags (Z.land flags O_NONBLOCK)
               else Z.lor flags O_NONBLOCK in
  let '(r, errno, k) := k_fcntl (fd_num w) F_SETFL flags k in
  let! _ := SystemCall "fcntl" r errno 0 in
  ok (w, k).

Definition BUFFER_SIZE : Z := 1024 * 1024.

Definition read (limit : Z) (s : FDWrapper * K) : result (bytes * (FDWrapper * K)) :=
  let (w, k) := s in
  let size_to_read := Z.min BUFFER_SIZE limit in
  let '(r, errno, data, k) := k_read (fd_num w) size_to_read k in
  let! bytes_read := SystemCall "read" r errno 0 in
  let w := if (0 <? limit) && (bytes_read =? 0) then w <| _eof := true |> else w in
  if size_to_read <? bytes_read then throw (runtime_error "read() read more than requested")
  else ok (take (Z.to_nat bytes_read) data, (register_read w, k)).

(** The [do] loop. A round that does not throw removes at least a byte or leaves the
    loop, so as many rounds as bytes, and one more, are enough. *)
Fixpoint write_loop (fuel : nat) (write_all : bool) (buffer : BufferViewList.BufferViewList)
    (total : Z) (s : FDWrapper * K) : result (Z * (FDWrapper * K)) :=
  match fuel with
  | O => ok (total, s)
  | S fuel =>
      let (w, k) := s in
      let '(r, errno, k) := k_writev (fd_num w) (BufferViewList.as_iovecs buffer) k in
      let! bytes_written := SystemCall "writev" r errno 0 in
      if (bytes_written =? 0) && negb (BufferViewList.size buffer =? 0) then
        throw (runtime_error "write returned 0 given non-empty input buffer")
      else if BufferViewList.size buffer <? bytes_written then
        throw (runtime_error "write wrote more than length of input buffer")
      else
        let w := register_write w in
        let! buffer := BufferViewList.remove_prefix bytes_written buffer in
        let total := u64 (total + bytes_written) in
        if write_all && negb (BufferViewList.size buffer =? 0)
        then write_loop fuel write_all buffer total (w, k)
        else ok (total, (w, k))
  end.
Definition write (buffer : BufferViewList.BufferViewList) (write_all : bool) (s : FDWrapper * K)
    : result (Z * (FDWrapper * K)) :=
  write_loop (S (Z.to_nat (BufferViewList.size buffer))) write_all buffer 0 s.

End Calls.
End FileDescriptor.

(** ** Writing *)
Module WriteTheorems.
Import FileDescriptor.

(** A kernel whose [writev] on [fd] appends to [output]: it takes a prefix of the
    bytes, and of a non-empty buffer at least one byte. *)
Class Sink (K : Type) `{Kernel K} (fd : Z) (output : K -> bytes) : Prop :=
  sink_writev : forall iovs k r errno k', k_writev fd iovs k = (r, errno, k') ->
    0 <= r <= zlen (concat (map fst iovs)) /\
    (concat (map fst iovs) <> [] -> 0 < r) /\
    output k' = output k ++ take (Z.to_nat r) (concat (map fst iovs)).

Lemma view_size_fold (l : list bytes) n :
  0 <= n -> n + zlen (concat l) < 2 ^ 64 ->
  fold_left (fun ret v => u64 (ret + zlen v)) l n = n + zlen (concat l).
Proof.
  revert n. induction l as [|v l IH]; intros n Hn Hl; simpl; [unfold zlen; simpl; lia|].
  simpl in Hl. rewrite zlen_app in *. pose proof (zlen_nonneg v). pose proof (zlen_nonneg (concat l)).
  rewrite u64_small, IH by lia. lia.
Qed.

Lemma view_size (l : BufferViewList.BufferViewList) :
  zlen (concat l) < 2 ^ 64 -> BufferViewList.size l = zlen (concat l).
Proof. intros Hl. unfold BufferViewList.size. rewrite view_size_fold; lia. Qed.

Lemma view_remove_prefix n (l : BufferViewList.BufferViewList) :
  0 <= n <= zlen (concat l) -> zlen (concat l) < 2 ^ 64 ->
  exists l', BufferViewList.remove_prefix n l = ok l' /\ concat l' = drop (Z.to_nat n) (concat l).
Proof.
  revert n. induction l as [|v l IH]; intros n Hn Hl; cbn [BufferViewList.remove_prefix].
  - change (zlen (concat [])) with 0 in Hn. destruct (Z.leb_spec n 0); [|lia].
    exists []. split; [done|]. simpl. by rewrite drop_nil.
  - simpl in Hn, Hl. rewrite zlen_app in Hn, Hl. pose proof (zlen_nonneg v). pose proof (zlen_nonneg (concat l)).
    destruct (Z.leb_spec n 0).
    + exists (v :: l). split; [done|]. by replace (Z.to_nat n) with O by lia.
    + destruct (Z.ltb_spec n (zlen v)).
      * eexists. split; [done|]. simpl. rewrite drop_app_le by (unfold zlen in *; lia). done.
      * destruct (IH (u64 (n - zlen v))) as (l'&E&Hc); [rewrite u64_small; lia|lia|].
        exists l'. split; [done|]. simpl. rewrite drop_app_ge by (unfold zlen in *; lia).
        rewrite Hc, u64_small by lia. f_equal. unfold zlen in *. lia.
Qed.

Section Sink.
Context {K : Type} `{Kernel K} (fd : Z) (output : K -> bytes) `{!Sink K fd output}.

Lemma as_iovecs_bytes (l : BufferViewList.BufferViewList) :
  concat (map fst (BufferViewList.as_iovecs l)) = concat l.
Proof. unfold BufferViewList.as_iovecs. rewrite map_map. simpl. by rewrite map_id. Qed.

Lemma write_loop_writes fuel l total w k :
  fd_num w = fd -> zlen (concat l) < Z.of_nat fuel -> 0 <= total -> total + zlen (concat l) < 2 ^ 63 ->
  exists w' k', write_loop fuel true l total (w, k) = ok (total + zlen (concat l), (w', k')) /\
    output k' = output k ++ concat l /\ fd_num w' = fd /\ closed w' = closed w /\ eof w' = eof w.
Proof.
  revert l total w k. induction fuel as [|fuel IH]; intros l total w k Hw Hf Ht Hl;
    pose proof (zlen_nonneg (concat l)) as H0; [lia|]. cbn [write_loop].
  destruct (k_writev (fd_num w) (BufferViewList.as_iovecs l) k) as [[r errno] k1] eqn:E.
  rewrite Hw in E. apply sink_writev in E as (Hr&Hpos&Hout). rewrite as_iovecs_bytes in *.
  unfold SystemCall. destruct (Z.leb_spec 0 r); [|lia]. cbn [orb]. rewrite bindR_ok, view_size by lia.
  destruct (Z.eqb_spec r 0) as [Hr0|Hr0]; cbn [andb].
  - assert (concat l = []) as Hnil by (destruct (concat l); [done|]; specialize (Hpos ltac:(done)); lia).
    rewrite Hnil in *. change (zlen []) with 0 in *. cbn [Z.eqb negb]. subst r. cbn [Z.ltb].
    destruct (view_remove_prefix 0 l) as (l'&->&Hl'); [rewrite Hnil; done|rewrite Hnil; done|].
    rewrite Hnil, drop_nil in Hl'. rewrite bindR_ok, view_size, Hl' by (rewrite Hl'; done). cbn.
    rewrite u64_small by lia. destruct w. do 2 eexists. split; [done|]. by rewrite Hout.
  - destruct (Z.ltb_spec (zlen (concat l)) r); [lia|].
    destruct (view_remove_prefix r l) as (l'&->&Hl'); [lia|lia|].
    assert (zlen (concat l') = zlen (concat l) - r) as Hz by (rewrite Hl'; autorewrite with zlen; lia).
    rewrite bindR_ok, (view_size l') by lia. rewrite u64_small by lia.
    assert (output k1 ++ concat l' = output k ++ concat l) as Ho
      by (by rewrite Hout, Hl', <- app_assoc, take_drop).
    destruct (Z.eqb_spec (zlen (concat l')) 0) as [Hz0|Hz0]; cbn [negb].
    + assert (concat l' = []) as El by (apply nil_length_inv; unfold zlen in Hz0; lia). rewrite El, app_nil_r in Ho. destruct w.
      do 2 eexists. split; [do 2 f_equal; lia|]. done.
    + destruct (IH l' (total + r) (register_write w) k1) as (w'&k'&E'&Ho'&?&?&?);
        [by destruct w|lia|lia|lia|].
      exists w', k'. rewrite E', Ho', Ho. split; [do 2 f_equal; lia|]. by destruct w.
Qed.

(** Writing with [write_all], however few bytes the kernel takes at a time,
    terminates, gives the kernel exactly the buffers' bytes, in order, and returns
    their number. *)
Theorem write_all_writes l w k :
  fd_num w = fd -> zlen (concat l) < 2 ^ 63 ->
  exists w' k', write l true (w, k) = ok (zlen (concat l), (w', k')) /\
    output k' = output k ++ concat l /\ closed w' = closed w /\ eof w' = eof w.
Proof.
  intros Hw Hl. unfold write. rewrite view_size by lia. pose proof (zlen_nonneg (concat l)).
  destruct (write_loop_writes (S (Z.to_nat (zlen (concat l)))) l 0 w k Hw) as (w'&k'&E&Ho&_&?&?);
    [lia|lia|lia|]. by exists w', k'.
Qed.

End Sink.

(** A kernel that takes at most two bytes at a time. *)
#[export] Instance slow_kernel : Kernel bytes := {
  k_read fd n k := (0, 0, [], k);
  k_writev fd iovs k :=
    let s := take 2 (concat (map fst iovs)) in (zlen s, 0, k ++ s);
  k_close fd k := (0, 0, k);
  k_fcntl fd cmd arg k := (0, 0, k)
}.

Lemma slow_kernel_sink : Sink bytes 5 (fun k => k).
Proof.
  intros iovs k r errno k' E. cbn in E. simplify_eq. set (s := concat _). autorewrite with zlen.
  pose proof (zlen_nonneg s). split; [lia|]. split.
  - intros Hs. destruct s as [|c s]; [done|]. autorewrite with zlen. pose proof (zlen_nonneg s). lia.
  - f_equal. destruct s as [|a [|b s]]; [done|done|]. autorewrite with zlen.
    replace (Z.to_nat _) with 2%nat by (pose proof (zlen_nonneg s); lia). done.
Qed.

Lemma write_all_writes_witness :
  exists w' k', write [[x61; x62; x63]; [x64]] true (mkFDWrapper 5 false false 0 0, []) = ok (4, (w', k')) /\
    k' = [x61; x62; x63; x64].
Proof.
  destruct (write_all_writes 5 (fun k => k) (Sink0 := slow_kernel_sink) [[x61; x62; x63]; [x64]] (mkFDWrapper 5 false false 0 0) []) as (w'&k'&E&Ho&_).
  - reflexivity.
  - reflexivity.
  - exists w', k'. split; [exact E|exact Ho].
Defined.

End WriteTheorems.

(** ** Blocking *)
Module BlockingTheorems.
Import FileDescriptor.

(** A kernel that keeps the flags of [fd]. *)
Class Flags (K : Type) `{Kernel K} (fd : Z) (flags : K -> Z) : Prop := {
  flags_nonneg : forall k, 0 <= flags k;
  flags_get : forall a k, k_fcntl fd F_GETFL a k = (flags k, 0, k);
  flags_set : forall v k, exists k', k_fcntl fd F_SETFL v k = (0, 0, k') /\ flags k' = v
}.

(** [set_blocking] changes the flag [O_NONBLOCK] and no other. *)
Theorem set_blocking_sets {K : Type} `{Kernel K} fd flags `{!Flags K fd flags} b w k :
  fd_num w = fd ->
  exists k', set_blocking b (w, k) = ok (w, k') /\
    forall i, 0 <= i -> Z.testbit (flags k') i = if i =? 11 then negb b else Z.testbit (flags k) i.
Proof.
  intros <-. unfold set_blocking. rewrite flags_get. unfold SystemCall at 1.
  pose proof (flags_nonneg k) as Hf. destruct (Z.leb_spec 0 (flags k)); [|lia]. cbn [orb].
  rewrite bindR_ok. set (v := if b then _ else _). destruct (flags_set v k) as (k'&->&Hv).
  exists k'. split; [done|]. intros i Hi. rewrite Hv. subst v.
  assert (Z.testbit O_NONBLOCK i = (i =? 11)) as Hn.
  { change O_NONBLOCK with (2 ^ 11). rewrite Z.pow2_bits_eqb, Z.eqb_sym by lia. done. }
  destruct b; rewrite ?Z.lxor_spec, ?Z.land_spec, ?Z.lor_spec, Hn; destruct (i =? 11), (Z.testbit (flags k) i); done.
Qed.

End BlockingTheorems.
