(* ===== verification/Adapters.v ===== *)
(** * The adapters below a TCP connection
    (libsponge/tcp_helpers/fd_adapter.*, tcp_over_ip.*, tuntap_adapter.*,
    lossy_fd_adapter.hh; FdAdapterConfig of tcp_config.hh)

    An adapter turns segments into what its device carries and back. The sockets and
    devices themselves are system calls: what a read of the device returns is an
    argument, what is written to it is part of the result. *)
From S2P Require Import Prelude Wrapping Buffers Parser Checksum TcpSegment Ipv4 Ethernet Addresses Interface.

Record FdAdapterConfig := mkFdAdapterConfig {
  source : Address.Address;
  destination : Address.Address;
  loss_rate_dn : Z;
  loss_rate_up : Z
}.
#[global] Instance eta_FdAdapterConfig : Eta FdAdapterConfig := fun c =>
  mkFdAdapterConfig (source c) (destination c) (loss_rate_dn c) (loss_rate_up c).

Module FdAdapterBase.

Record FdAdapterBase := mkFdAdapterBase {
  _cfg : FdAdapterConfig;
  _listen : bool
}.
#[global] Instance eta_FdAdapterBase : Eta FdAdapterBase := fun b =>
  mkFdAdapterBase (_cfg b) (_listen b).

Definition set_listening (l : bool) (b : FdAdapterBase) : FdAdapterBase := b <| _listen := l |>.
Definition listening (b : FdAdapterBase) : bool := _listen b.
Definition config (b : FdAdapterBase) : FdAdapterConfig := _cfg b.
(** [config_mutable()] and [config_mut()], as an update. *)
Definition config_mut (f : FdAdapterConfig -> FdAdapterConfig) (b : FdAdapterBase) : FdAdapterBase :=
  b <| _cfg ::= f |>.
Definition tick (ms : Z) (b : FdAdapterBase) : FdAdapterBase := b.

End FdAdapterBase.

(** What [TCPSpongeSocket] and [LossyFdAdapter] use of an adapter that reads [In] from
    its device and writes [Out] to it. [write] also gives the segment as the caller's
    reference sees it afterwards. *)
Class Adapter (A In Out : Type) := {
  read : In -> A -> result (A * list Out * option TCPSegment.TCPSegment);
  write : TCPSegment.TCPSegment -> A -> result (A * list Out * TCPSegment.TCPSegment);
  set_listening : bool -> A -> A;
  config : A -> FdAdapterConfig;
  config_mut : (FdAdapterConfig -> FdAdapterConfig) -> A -> A;
  tick : Z -> A -> result (A * list Out)
}.

(** The segment with the ports of the configuration. *)
Definition set_ports (sport dport : Z) (seg : TCPSegment.TCPSegment) : TCPSegment.TCPSegment :=
  seg <| TCPSegment._header ::= fun h => h <| TCPHeader.sport := sport |> <| TCPHeader.dport := dport |> |>.

Section Adapters.
Context `{Resolver}.

(** The configuration's default member values, ["0"] and port 0. *)
Definition default_config : result FdAdapterConfig :=
  let! source := Address.of_ip_port (bytes_of_string "0") 0 in
  let! destination := Address.of_ip_port (bytes_of_string "0") 0 in
  ok (mkFdAdapterConfig source destination 0 0).

(** ** TCP in IPv4 *)

(** [x != address.ipv4_numeric()] where the code evaluates it: when not listening. *)
Definition differs (listening : bool) (x : Z) (a : Address.Address) : result bool :=
  if listening then ok false else let! ip := Address.ipv4_numeric a in ok (negb (x =? ip)).

Definition adopt_peer (dgram : IPv4Datagram.IPv4Datagram) (seg : TCPSegment.TCPSegment)
    (b : FdAdapterBase.FdAdapterBase) : result FdAdapterBase.FdAdapterBase :=
  let h := IPv4Datagram.header dgram in
  let! port := Address.port (source (FdAdapterBase.config b)) in
  let! src := Address.of_ip_port (inet_ntoa (IPv4Header.dst h)) port in
  let! dst := Address.of_ip_port (inet_ntoa (IPv4Header.src h))
                (TCPHeader.sport (TCPSegment.header seg)) in
  ok (FdAdapterBase.set_listening false
        (FdAdapterBase.config_mut (fun c => c <| source := src |> <| destination := dst |>) b)).

(** The checks once the payload is a valid segment. *)
Definition filter_segment (dgram : IPv4Datagram.IPv4Datagram) (seg : TCPSegment.TCPSegment)
    (b : FdAdapterBase.FdAdapterBase)
    : result (FdAdapterBase.FdAdapterBase * option TCPSegment.TCPSegment) :=
  let th := TCPSegment.header seg in
  let! port := Address.port (source (FdAdapterBase.config b)) in
  if negb (TCPHeader.dport th =? port) then ok (b, None)
  else if FdAdapterBase.listening b && negb (TCPHeader.syn th && negb (TCPHeader.rst th))
  then ok (b, None)
  else
    let! b := if FdAdapterBase.listening b then adopt_peer dgram seg b else ok b in
    let! port := Address.port (destination (FdAdapterBase.config b)) in
    if negb (TCPHeader.sport th =? port) then ok (b, None) else ok (b, Some seg).

Definition unwrap_tcp_in_ip (dgram : IPv4Datagram.IPv4Datagram) (b : FdAdapterBase.FdAdapterBase)
    : result (FdAdapterBase.FdAdapterBase * option TCPSegment.TCPSegment) :=
  let h := IPv4Datagram.header dgram in
  let listening := FdAdapterBase.listening b in
  let cfg := FdAdapterBase.config b in
  let! other := differs listening (IPv4Header.dst h) (source cfg) in
  if other then ok (b, None) else
  let! other := differs listening (IPv4Header.src h) (destination cfg) in
  if other then ok (b, None) else
  if negb (IPv4Header.proto h =? IPv4Header.PROTO_TCP) then ok (b, None) else
  let! buffer := BufferList.to_buffer (IPv4Datagram.payload dgram) in
  let! (seg, r) := TCPSegment.parse buffer (IPv4Header.pseudo_cksum h) TCPSegment.default_segment in
  if bool_decide (r <> NoError) then ok (b, None) else filter_segment dgram seg b.

(** The datagram, and the segment with its ports set. *)
Definition wrap_tcp_in_ip (seg : TCPSegment.TCPSegment) (b : FdAdapterBase.FdAdapterBase)
    : result (IPv4Datagram.IPv4Datagram * TCPSegment.TCPSegment) :=
  let cfg := FdAdapterBase.config b in
  let! sport := Address.port (source cfg) in
  let! dport := Address.port (destination cfg) in
  let seg := set_ports sport dport seg in
  let! src := Address.ipv4_numeric (source cfg) in
  let! dst := Address.ipv4_numeric (destination cfg) in
  let h := IPv4Header.default_header <| IPv4Header.src := src |> <| IPv4Header.dst := dst |> in
  let len := u16 (u64 (IPv4Header.hlen h * 4 + TCPHeader.doff (TCPSegment.header seg) * 4 +
                       Buffer.size (TCPSegment.payload seg))) in
  let h := h <| IPv4Header.len := len |> in
  let! body := TCPSegment.serialize (IPv4Header.pseudo_cksum h) seg in
  ok (IPv4Datagram.mkIPv4Datagram h body, seg).

(** ** [TCPOverUDPSocketAdapter] *)

(** [UDPSocket::received_datagram] *)
Record received_datagram := mkReceivedDatagram {
  source_address : Address.Address;
  udp_payload : bytes
}.
Definition TCPOverUDPSocketAdapter : Type := FdAdapterBase.FdAdapterBase.

Definition udp_read (datagram : received_datagram) (b : TCPOverUDPSocketAdapter)
    : result (TCPOverUDPSocketAdapter * option TCPSegment.TCPSegment) :=
  if negb (FdAdapterBase.listening b) &&
     negb (Address.eqb (source_address datagram) (destination (FdAdapterBase.config b)))
  then ok (b, None)
  else
    let! (seg, r) := TCPSegment.parse (Buffer.make (udp_payload datagram)) 0 TCPSegment.default_segment in
    if bool_decide (r <> NoError) then ok (b, None)
    else if FdAdapterBase.listening b then
      let h := TCPSegment.header seg in
      if TCPHeader.syn h && negb (TCPHeader.rst h) then
        ok (FdAdapterBase.set_listening false
              (FdAdapterBase.config_mut (fun c => c <| destination := source_address datagram |>) b),
            Some seg)
      else ok (b, None)
    else ok (b, Some seg).

(** What [sendto] is given: the destination and the payload. *)
Definition udp_write (seg : TCPSegment.TCPSegment) (b : TCPOverUDPSocketAdapter)
    : result (list (Address.Address * BufferList.BufferList) * TCPSegment.TCPSegment) :=
  let cfg := FdAdapterBase.config b in
  let! sport := Address.port (source cfg) in
  let! dport := Address.port (destination cfg) in
  let seg := set_ports sport dport seg in
  let! body := TCPSegment.serialize 0 seg in
  ok ([(destination cfg, body)], seg).

#[export] Instance udp_adapter :
  Adapter TCPOverUDPSocketAdapter received_datagram (Address.Address * BufferList.BufferList) := {
  read i b := let! (b, seg) := udp_read i b in ok (b, [], seg);
  write seg b := let! (o, seg) := udp_write seg b in ok (b, o, seg);
  set_listening := FdAdapterBase.set_listening;
  config := FdAdapterBase.config;
  config_mut := FdAdapterBase.config_mut;
  tick ms b := ok (FdAdapterBase.tick ms b, [])
}.

(** ** [TCPOverIPv4OverTunFdAdapter] *)
Record TCPOverIPv4OverTunFdAdapter := mkTunAdapter { tun_base : FdAdapterBase.FdAdapterBase }.

Definition tun_read (data : bytes) (a : TCPOverIPv4OverTunFdAdapter)
    : result (TCPOverIPv4OverTunFdAdapter * option TCPSegment.TCPSegment) :=
  let! (dgram, r) := IPv4Datagram.parse (Buffer.make data) IPv4Datagram.default_datagram in
  if bool_decide (r <> NoError) then ok (a, None)
  else let! (b, seg) := unwrap_tcp_in_ip dgram (tun_base a) in ok (mkTunAdapter b, seg).

Definition tun_write (seg : TCPSegment.TCPSegment) (a : TCPOverIPv4OverTunFdAdapter)
    : result (list BufferList.BufferList * TCPSegment.TCPSegment) :=
  let! (dgram, seg) := wrap_tcp_in_ip seg (tun_base a) in
  let! l := IPv4Datagram.serialize dgram in
  ok ([l], seg).

#[export] Instance tun_adapter : Adapter TCPOverIPv4OverTunFdAdapter bytes BufferList.BufferList := {
  read i a := let! (a, seg) := tun_read i a in ok (a, [], seg);
  write seg a := let! (o, seg) := tun_write seg a in ok (a, o, seg);
  set_listening l a := mkTunAdapter (FdAdapterBase.set_listening l (tun_base a));
  config a := FdAdapterBase.config (tun_base a);
  config_mut f a := mkTunAdapter (FdAdapterBase.config_mut f (tun_base a));
  tick ms a := ok (mkTunAdapter (FdAdapterBase.tick ms (tun_base a)), [])
}.

(** ** [TCPOverIPv4OverEthernetAdapter] *)
Record TCPOverIPv4OverEthernetAdapter := mkEthernetAdapter {
  eth_base : FdAdapterBase.FdAdapterBase;
  _interface : NetworkInterface.NetworkInterface;
  _next_hop : Address.Address
}.
#[global] Instance eta_EthernetAdapter : Eta TCPOverIPv4OverEthernetAdapter := fun a =>
  mkEthernetAdapter (eth_base a) (_interface a) (_next_hop a).

(** The constructor, and the dummy frame it writes. *)
Definition make_ethernet_adapter (b : FdAdapterBase.FdAdapterBase) (eth_address : EthernetAddress)
    (ip_address next_hop : Address.Address)
    : TCPOverIPv4OverEthernetAdapter * list BufferList.BufferList :=
  (mkEthernetAdapter b (NetworkInterface.make eth_address ip_address) next_hop,
   [EthernetFrame.serialize EthernetFrame.default_frame]).

(** The loop over the interface's queue. *)
Definition send_pending (a : TCPOverIPv4OverEthernetAdapter)
    : TCPOverIPv4OverEthernetAdapter * list BufferList.BufferList :=
  (a <| _interface ::= fun n => n <| NetworkInterface._frames_out := [] |> |>,
   map EthernetFrame.serialize (NetworkInterface.frames_out (_interface a))).

Definition eth_read (data : bytes) (a : TCPOverIPv4OverEthernetAdapter)
    : result (TCPOverIPv4OverEthernetAdapter * list BufferList.BufferList * option TCPSegment.TCPSegment) :=
  let! (frame, r) := EthernetFrame.parse (Buffer.make data) EthernetFrame.default_frame in
  if bool_decide (r <> NoError) then ok (a, [], None)
  else
    let! (n, ip_dgram) := NetworkInterface.recv_frame frame (_interface a) in
    let (a, out) := send_pending (a <| _interface := n |>) in
    match ip_dgram with
    | Some dgram => let! (b, seg) := unwrap_tcp_in_ip dgram (eth_base a) in
                    ok (a <| eth_base := b |>, out, seg)
    | None => ok (a, out, None)
    end.

Definition eth_write (seg : TCPSegment.TCPSegment) (a : TCPOverIPv4OverEthernetAdapter)
    : result (TCPOverIPv4OverEthernetAdapter * list BufferList.BufferList * TCPSegment.TCPSegment) :=
  let! (dgram, seg) := wrap_tcp_in_ip seg (eth_base a) in
  let! n := NetworkInterface.send_datagram dgram (_next_hop a) (_interface a) in
  ok (send_pending (a <| _interface := n |>), seg).

Definition eth_tick (ms_since_last_tick : Z) (a : TCPOverIPv4OverEthernetAdapter)
    : TCPOverIPv4OverEthernetAdapter * list BufferList.BufferList :=
  send_pending (a <| _interface ::= NetworkInterface.tick ms_since_last_tick |>).

#[export] Instance eth_adapter : Adapter TCPOverIPv4OverEthernetAdapter bytes BufferList.BufferList := {
  read := eth_read;
  write := eth_write;
  set_listening l a := a <| eth_base ::= FdAdapterBase.set_listening l |>;
  config a := FdAdapterBase.config (eth_base a);
  config_mut f a := a <| eth_base ::= FdAdapterBase.config_mut f |>;
  tick ms a := ok (eth_tick ms a)
}.

End Adapters.

(** ** [LossyFdAdapter] *)
Section Lossy.
(** The random engine: its state and the next 32-bit number. *)
Context {G : Type} (next : G -> Z * G).
Context {A In Out : Type} `{Adapter A In Out}.

Record LossyFdAdapter := mkLossy {
  _rand : G;
  _adapter : A
}.

Definition _should_drop (uplink : bool) (l : LossyFdAdapter) : bool * LossyFdAdapter :=
  let cfg := config (_adapter l) in
  let loss := if uplink then loss_rate_up cfg else loss_rate_dn cfg in
  if loss =? 0 then (false, l)
  else let (x, g) := next (_rand l) in (u16 x <? loss, mkLossy g (_adapter l)).

Definition lossy_read (i : In) (l : LossyFdAdapter)
    : result (LossyFdAdapter * list Out * option TCPSegment.TCPSegment) :=
  let! ((a, out), ret) := read i (_adapter l) in
  let (drop, l) := _should_drop false (mkLossy (_rand l) a) in
  ok (l, out, if drop then None else ret).

Definition lossy_write (seg : TCPSegment.TCPSegment) (l : LossyFdAdapter)
    : result (LossyFdAdapter * list Out * TCPSegment.TCPSegment) :=
  let (drop, l) := _should_drop true l in
  if drop then ok (l, [], seg)
  else let! ((a, out), seg) := write seg (_adapter l) in ok (mkLossy (_rand l) a, out, seg).

#[export] Instance lossy_adapter : Adapter LossyFdAdapter In Out := {
  read := lossy_read;
  write := lossy_write;
  set_listening b l := mkLossy (_rand l) (set_listening b (_adapter l));
  config l := config (_adapter l);
  config_mut f l := mkLossy (_rand l) (config_mut f (_adapter l));
  tick ms l := let! (a, out) := tick ms (_adapter l) in ok (mkLossy (_rand l) a, out)
}.

End Lossy.
Arguments LossyFdAdapter : clear implicits.

Module AdapterTheorems.
Import AddressTheorems.

(** A segment that fits an IPv4 datagram. *)
Definition wrappable (seg : TCPSegment.TCPSegment) : Prop :=
  TCPHeader.wf (TCPSegment.header seg) /\ Buffer.wf (TCPSegment.payload seg) /\
  20 + 4 * TCPHeader.doff (TCPSegment.header seg) + Buffer.size (TCPSegment.payload seg) < 2 ^ 16.

(** What arrives of [seg] sent from port [sport] to [dport]: the same header with the
    ports and the checksum filled in, and the same payload. *)
Definition carried (sport dport : Z) (seg got : TCPSegment.TCPSegment) : Prop :=
  exists c, TCPSegment.header got =
      (TCPSegment.header (set_ports sport dport seg)) <| TCPHeader.cksum := c |> /\
    Buffer.str (TCPSegment.payload got) = Buffer.str (TCPSegment.payload seg).

Lemma set_ports_wf sport dport seg :
  0 <= sport < 2 ^ 16 -> 0 <= dport < 2 ^ 16 -> TCPHeader.wf (TCPSegment.header seg) ->
  TCPHeader.wf (TCPSegment.header (set_ports sport dport seg)).
Proof. intros ? ? []. by constructor. Qed.

Section Link.
Context `{ResolverSpec}.
Context (ipA pA ipB pB : Z).
Hypotheses (HipA : 0 <= ipA < 2 ^ 32) (HpA : 0 <= pA < 2 ^ 16)
  (HipB : 0 <= ipB < 2 ^ 32) (HpB : 0 <= pB < 2 ^ 16).

(** [b] is configured from the first address and port to the second. *)
Definition endpoint (ip p ip' p' : Z) (b : FdAdapterBase.FdAdapterBase) : Prop :=
  source (FdAdapterBase.config b) = ipv4_address ip p /\
  destination (FdAdapterBase.config b) = ipv4_address ip' p'.

(** [b] takes [seg] from A as one at B: it is connected to A, or it listens on B's port
    and [seg] opens a connection, which it adopts. *)
Definition accepts (seg : TCPSegment.TCPSegment) (b b' : FdAdapterBase.FdAdapterBase) : Prop :=
  if FdAdapterBase.listening b then
    (exists ip0, 0 <= ip0 < 2 ^ 32 /\ source (FdAdapterBase.config b) = ipv4_address ip0 pB) /\
    TCPHeader.syn (TCPSegment.header seg) = true /\ TCPHeader.rst (TCPSegment.header seg) = false /\
    b' = FdAdapterBase.set_listening false (FdAdapterBase.config_mut (fun c =>
           c <| source := ipv4_address ipB pB |> <| destination := ipv4_address ipA pA |>) b)
  else endpoint ipB pB ipA pA b /\ b' = b.

(** The IP header that [wrap_tcp_in_ip] makes. *)
Definition wrap_header (seg : TCPSegment.TCPSegment) : IPv4Header.IPv4Header :=
  IPv4Header.default_header <| IPv4Header.src := ipA |> <| IPv4Header.dst := ipB |>
    <| IPv4Header.len := 20 + 4 * TCPHeader.doff (TCPSegment.header seg) +
                         Buffer.size (TCPSegment.payload seg) |>.

Lemma pseudo_range seg :
  wrappable seg -> 0 <= IPv4Header.pseudo_cksum (wrap_header seg) < 2 ^ 24.
Proof.
  intros (Hh&Hp&Hs). pose proof (Buffer.size_range _ Hp). destruct Hh.
  unfold IPv4Header.pseudo_cksum, IPv4Header.payload_length, wrap_header. cbn -[Z.shiftr Z.land u32 u16].
  rewrite !Z.shiftr_div_pow2, !(Z.land_ones _ 16) by lia.
  pose proof (Z.mod_pos_bound ipA (2 ^ 16)). pose proof (Z.mod_pos_bound ipB (2 ^ 16)).
  assert (forall x, 0 <= x < 2 ^ 32 -> 0 <= x / 2 ^ 16 < 2 ^ 16) as Hd.
  { intros x Hx. split; [apply Z.div_pos; lia|apply Z.div_lt_upper_bound; lia]. }
  pose proof (Hd ipA HipA). pose proof (Hd ipB HipB).
  unfold IPv4Header.LENGTH, IPv4Header.PROTO_TCP. change (20 / 4) with 5.
  rewrite (u16_small (_ - _)), (u32_small (ipA / _ + _)), (u32_small (ipB / _ + _)) by lia.
  set (a := ipA / _ + _) in *. set (b := ipB / _ + _) in *. set (l := _ - _).
  assert (0 <= a < 2 ^ 17 /\ 0 <= b < 2 ^ 17 /\ 0 <= l < 2 ^ 16) as (?&?&?) by (unfold a, b, l; lia).
  rewrite (u32_small (a + b)), (u32_small (a + b + 6)), u32_small by lia. lia.
Qed.

Lemma wrap_sendable seg :
  wrappable seg ->
  TcpSegmentTheorems.sendable (IPv4Header.pseudo_cksum (wrap_header seg)) (set_ports pA pB seg).
Proof.
  intros Hw. pose proof (pseudo_range seg Hw). destruct Hw as (Hh&Hp&Hs).
  split; [by apply set_ports_wf|]. split; [done|]. split; [lia|].
  change (TCPHeader.doff (TCPSegment.header (set_ports pA pB seg))) with (TCPHeader.doff (TCPSegment.header seg)).
  change (TCPSegment.payload (set_ports pA pB seg)) with (TCPSegment.payload seg). lia.
Qed.

Lemma wrap_datagram seg b :
  endpoint ipA pA ipB pB b -> wrappable seg ->
  exists body,
    TCPSegment.serialize (IPv4Header.pseudo_cksum (wrap_header seg)) (set_ports pA pB seg) = ok body /\
    wrap_tcp_in_ip seg b = ok (IPv4Datagram.mkIPv4Datagram (wrap_header seg) body, set_ports pA pB seg) /\
    Ipv4Theorems.sendable (IPv4Datagram.mkIPv4Datagram (wrap_header seg) body).
Proof.
  intros [Hs Hd] Hw. pose proof (wrap_sendable seg Hw) as Hseg.
  destruct (TcpSegmentTheorems.parse_serialized_segment _ _ Hseg) as (body&E&_). exists body.
  destruct (TcpSegmentTheorems.serialized_segment_wf _ _ _ Hseg E) as [Hbw Hbl].
  destruct Hw as (Hh&Hp&Hsize). pose proof (Buffer.size_range _ Hp). destruct Hh.
  split; [done|]. split.
  - unfold wrap_tcp_in_ip. rewrite Hs, Hd, !port_numeric, !bindR_ok by done.
    rewrite !ipv4_numeric_address, !bindR_ok by done. cbv zeta.
    replace (IPv4Header.default_header <| IPv4Header.src := ipA |> <| IPv4Header.dst := ipB |>
      <| IPv4Header.len := _ |>) with (wrap_header seg).
    + by rewrite E, bindR_ok.
    + unfold wrap_header. cbn -[u16 u64 Buffer.size]. f_equal.
      change (TCPSegment._payload seg) with (TCPSegment.payload seg).
      change (TCPSegment._header seg) with (TCPSegment.header seg).
      unfold IPv4Header.LENGTH. change (20 / 4) with 5. rewrite u64_small, u16_small by lia. lia.
  - split; [|split; [done|]].
    + constructor; cbn; try done; lia.
    + change (IPv4Datagram.payload _) with body. rewrite BufferList.size_concatenate, Hbl by done.
      change (20 + 4 * TCPHeader.doff (TCPSegment.header seg) + Buffer.size (TCPSegment.payload seg) =
        4 * 5 + (4 * TCPHeader.doff (TCPSegment.header seg) + Buffer.size (TCPSegment.payload seg))). lia.
Qed.

(** [unwrap_tcp_in_ip] on what arrives of the datagram, whose header may have changed
    where routers change it: the segment reaches the checks of its ports and flags. *)
Definition routed (seg : TCPSegment.TCPSegment) (h : IPv4Header.IPv4Header) : Prop :=
  exists c t, h = (wrap_header seg) <| IPv4Header.cksum := c |> <| IPv4Header.ttl := t |>.

Lemma unwrap_filter seg body h p b :
  wrappable seg -> FdAdapterBase.listening b = true \/ endpoint ipB pB ipA pA b ->
  TCPSegment.serialize (IPv4Header.pseudo_cksum (wrap_header seg)) (set_ports pA pB seg) = ok body ->
  Buffer.wf p -> Buffer.str p = BufferList.concatenate body -> routed seg h ->
  exists got, carried pA pB seg got /\
    unwrap_tcp_in_ip (IPv4Datagram.mkIPv4Datagram h [p]) b =
    filter_segment (IPv4Datagram.mkIPv4Datagram h [p]) got b.
Proof.
  intros Hw Hb E Hp Hs (c&t&->). pose proof (wrap_sendable seg Hw) as Hseg.
  destruct (TcpSegmentTheorems.parse_serialized_segment _ _ Hseg) as (body'&E'&P).
  rewrite E in E'. unfold ok in E'. injection E' as <-.
  destruct (P p TCPSegment.default_segment Hp Hs) as (ck&q&Eq&Hq&_).
  set (got := TCPSegment.mkTCPSegment _ q) in Eq. exists got. split; [by exists ck|].
  unfold unwrap_tcp_in_ip. set (d := IPv4Datagram.mkIPv4Datagram _ _).
  change (IPv4Header.dst (IPv4Datagram.header d)) with ipB.
  change (IPv4Header.src (IPv4Datagram.header d)) with ipA.
  change (IPv4Header.proto (IPv4Datagram.header d) =? IPv4Header.PROTO_TCP) with true.
  change (IPv4Header.pseudo_cksum (IPv4Datagram.header d)) with (IPv4Header.pseudo_cksum (wrap_header seg)).
  cbn [BufferList.to_buffer IPv4Datagram.payload IPv4Datagram._payload d negb].
  assert (differs (FdAdapterBase.listening b) ipB (source (FdAdapterBase.config b)) = ok false /\
          differs (FdAdapterBase.listening b) ipA (destination (FdAdapterBase.config b)) = ok false) as [-> ->].
  { unfold differs. destruct (FdAdapterBase.listening b); [done|]. destruct Hb as [?|[-> ->]]; [done|].
    by rewrite !ipv4_numeric_address, !bindR_ok, !Z.eqb_refl by done. }
  rewrite !bindR_ok, Eq, bindR_ok. by rewrite bool_decide_eq_false_2 by (intros []; done).
Qed.

Lemma filter_accepts seg got h p b b' :
  carried pA pB seg got -> routed seg h -> accepts seg b b' ->
  filter_segment (IPv4Datagram.mkIPv4Datagram h [p]) got b = ok (b', Some got).
Proof.
  intros (ck&Eg&_) (c&t&->) Ha. unfold accepts in Ha. unfold filter_segment, adopt_peer. rewrite Eg.
  set (d := IPv4Datagram.mkIPv4Datagram _ _).
  change (IPv4Header.dst (IPv4Datagram.header d)) with ipB.
  change (IPv4Header.src (IPv4Datagram.header d)) with ipA. cbn [TCPHeader.dport TCPHeader.sport TCPHeader.syn TCPHeader.rst].
  set (hd := _ <| TCPHeader.cksum := ck |>). change (TCPHeader.dport hd) with pB. change (TCPHeader.sport hd) with pA.
  change (TCPHeader.syn hd) with (TCPHeader.syn (TCPSegment.header seg)).
  change (TCPHeader.rst hd) with (TCPHeader.rst (TCPSegment.header seg)).
  destruct (FdAdapterBase.listening b) eqn:El.
  - destruct Ha as ((ip0&Hip0&Hsrc)&->&->&->). rewrite Hsrc, port_numeric, bindR_ok, Z.eqb_refl by done.
    cbn [negb andb]. rewrite bindR_ok, !of_ip_port_numeric, !bindR_ok by done.
    change (Address.port (destination _)) with (Address.port (ipv4_address ipA pA)).
    by rewrite port_numeric, bindR_ok, Z.eqb_refl by done.
  - destruct Ha as [[Hsrc Hdst] ->]. rewrite Hsrc, port_numeric, bindR_ok, Z.eqb_refl by done.
    cbn [negb andb]. by rewrite bindR_ok, Hdst, port_numeric, bindR_ok, Z.eqb_refl by done.
Qed.

(** A listening adapter drops what does not open a connection. *)
Definition opens (seg : TCPSegment.TCPSegment) : bool :=
  TCPHeader.syn (TCPSegment.header seg) && negb (TCPHeader.rst (TCPSegment.header seg)).
Definition listens (p : Z) (b : FdAdapterBase.FdAdapterBase) : Prop :=
  FdAdapterBase.listening b = true /\
  exists ip0, 0 <= ip0 < 2 ^ 32 /\ source (FdAdapterBase.config b) = ipv4_address ip0 p.

Lemma filter_early seg got d b :
  carried pA pB seg got -> listens pB b -> opens seg = false -> filter_segment d got b = ok (b, None).
Proof.
  intros (ck&Eg&_) [El (ip0&?&Hsrc)] Ho. unfold filter_segment. rewrite Eg, El, Hsrc, port_numeric, bindR_ok by done.
  set (hd := _ <| TCPHeader.cksum := ck |>). change (TCPHeader.dport hd) with pB.
  change (TCPHeader.syn hd && negb (TCPHeader.rst hd)) with (opens seg).
  by rewrite Z.eqb_refl, Ho.
Qed.

Lemma accepts_takes seg b b' :
  accepts seg b b' -> FdAdapterBase.listening b = true \/ endpoint ipB pB ipA pA b.
Proof. unfold accepts. destruct (FdAdapterBase.listening b); [by left|]. intros []. by right. Qed.

Lemma unwrap_carried seg body h p b b' :
  wrappable seg -> accepts seg b b' ->
  TCPSegment.serialize (IPv4Header.pseudo_cksum (wrap_header seg)) (set_ports pA pB seg) = ok body ->
  Buffer.wf p -> Buffer.str p = BufferList.concatenate body -> routed seg h ->
  exists got, carried pA pB seg got /\
    unwrap_tcp_in_ip (IPv4Datagram.mkIPv4Datagram h [p]) b = ok (b', Some got).
Proof.
  intros Hw Ha E Hp Hs Hr. destruct (unwrap_filter seg body h p b Hw (accepts_takes _ _ _ Ha) E Hp Hs Hr) as (got&Hc&->).
  exists got. split; [done|]. by eapply filter_accepts.
Qed.

(** [data] is the datagram that carries [seg] from A to B. *)
Definition wrapped (seg : TCPSegment.TCPSegment) (data : bytes) : Prop :=
  exists body l,
    TCPSegment.serialize (IPv4Header.pseudo_cksum (wrap_header seg)) (set_ports pA pB seg) = ok body /\
    IPv4Datagram.serialize (IPv4Datagram.mkIPv4Datagram (wrap_header seg) body) = ok l /\
    Ipv4Theorems.sendable (IPv4Datagram.mkIPv4Datagram (wrap_header seg) body) /\
    BufferList.concatenate l = data.

Lemma tun_writes seg a :
  endpoint ipA pA ipB pB (tun_base a) -> wrappable seg ->
  exists l, tun_write seg a = ok ([l], set_ports pA pB seg) /\ wrapped seg (BufferList.concatenate l).
Proof.
  intros Ha Hw. destruct (wrap_datagram seg _ Ha Hw) as (body&Es&Ew&Hd).
  destruct (Ipv4Theorems.parse_serialized_datagram _ Hd) as (l&El&_). exists l.
  unfold tun_write. rewrite Ew, bindR_ok, El, bindR_ok. split; [done|]. by exists body, l.
Qed.

(** What reading it does is what unwrapping a datagram does. *)
Lemma tun_unwraps seg data b :
  wrapped seg data ->
  exists h p body, TCPSegment.serialize (IPv4Header.pseudo_cksum (wrap_header seg)) (set_ports pA pB seg) = ok body /\
    Buffer.wf p /\ Buffer.str p = BufferList.concatenate body /\ routed seg h /\
    tun_read data (mkTunAdapter b) =
      (let! (b, got) := unwrap_tcp_in_ip (IPv4Datagram.mkIPv4Datagram h [p]) b in ok (mkTunAdapter b, got)).
Proof.
  intros (body&l&Es&El&Hd&<-). destruct (Ipv4Theorems.parse_serialized_datagram _ Hd) as (l'&El'&P).
  rewrite El in El'. unfold ok in El'. injection El' as <-.
  pose proof (Ipv4Theorems.zlen_serialized _ _ Hd El) as Hl.
  destruct (P (Buffer.make (BufferList.concatenate l)) IPv4Datagram.default_datagram) as (c&p&_&Ep&Hs&Hp&_).
  { apply Buffer.make_wf. destruct Hd as ([]&_). lia. }
  { by rewrite Buffer.str_make. }
  exists ((wrap_header seg) <| IPv4Header.cksum := c |>), (NetParser.buffer p), body.
  split; [done|]. split; [done|]. split; [done|]. split; [by exists c, (IPv4Header.ttl (wrap_header seg))|].
  unfold tun_read. by rewrite Ep, bindR_ok, bool_decide_eq_false_2 by (intros []; done).
Qed.

Lemma tun_delivers seg a b b' :
  endpoint ipA pA ipB pB (tun_base a) -> wrappable seg -> accepts seg b b' ->
  exists l got, tun_write seg a = ok ([l], set_ports pA pB seg) /\
    tun_read (BufferList.concatenate l) (mkTunAdapter b) = ok (mkTunAdapter b', Some got) /\
    carried pA pB seg got.
Proof.
  intros Ha Hw Hb. destruct (tun_writes seg a Ha Hw) as (l&El&Hl).
  destruct (tun_unwraps seg _ b Hl) as (h&p&body&Es&Hp&Hs&Hr&Er).
  destruct (unwrap_carried seg body h p b b' Hw Hb Es Hp Hs Hr) as (got&Hc&Eu).
  exists l, got. by rewrite Er, Eu, bindR_ok.
Qed.

(** C39. A segment written to a TUN device by an adapter configured from A to B, and
    read by one at B that is connected to A, or that listens on the port and the
    segment is a SYN: the reader gets the segment, with the ports and checksum filled
    in, and a listening adapter now is connected to A. *)
Theorem tun_segment_roundtrip seg a b b' :
  endpoint ipA pA ipB pB (tun_base a) -> wrappable seg -> accepts seg b b' ->
  exists l got, tun_write seg a = ok ([l], set_ports pA pB seg) /\
    tun_read (BufferList.concatenate l) (mkTunAdapter b) = ok (mkTunAdapter b', Some got) /\
    carried pA pB seg got.
Proof. exact (tun_delivers seg a b b'). Qed.

(** An adapter that is connected changes nothing when it unwraps a datagram, and
    hands up a segment only if the datagram is from its peer's address to its own,
    says it holds TCP, holds a segment with a valid checksum, and the segment's ports
    are the peer's and its own. *)
Theorem unwrap_filters d p b :
  FdAdapterBase.listening b = false -> endpoint ipB pB ipA pA b ->
  IPv4Datagram.payload d = [p] -> Buffer.wf p ->
  exists o, unwrap_tcp_in_ip d b = ok (b, o) /\
    forall seg, o = Some seg <->
      IPv4Header.dst (IPv4Datagram.header d) = ipB /\ IPv4Header.src (IPv4Datagram.header d) = ipA /\
      IPv4Header.proto (IPv4Datagram.header d) = IPv4Header.PROTO_TCP /\
      TCPSegment.parse p (IPv4Header.pseudo_cksum (IPv4Datagram.header d)) TCPSegment.default_segment =
        ok (seg, NoError) /\
      TCPHeader.sport (TCPSegment.header seg) = pA /\ TCPHeader.dport (TCPSegment.header seg) = pB.
Proof.
  intros El [Hs Hd] Hp Hwf. unfold unwrap_tcp_in_ip, differs. rewrite El, Hs, Hd, Hp.
  rewrite !ipv4_numeric_address, !bindR_ok by done. cbn [BufferList.to_buffer].
  destruct (Z.eqb_spec (IPv4Header.dst (IPv4Datagram.header d)) ipB); cbn [negb];
    [|exists None; split; [done|]; intros seg; split; [done|tauto]].
  destruct (Z.eqb_spec (IPv4Header.src (IPv4Datagram.header d)) ipA); cbn [negb];
    [|exists None; split; [done|]; intros seg; split; [done|tauto]].
  destruct (Z.eqb_spec (IPv4Header.proto (IPv4Datagram.header d)) IPv4Header.PROTO_TCP); cbn [negb];
    [|exists None; split; [done|]; intros seg; split; [done|tauto]].
  rewrite bindR_ok.
  destruct (TcpSegmentTheorems.parse_segment_total p (IPv4Header.pseudo_cksum (IPv4Datagram.header d))
    TCPSegment.default_segment Hwf) as (seg'&r&E). rewrite E, bindR_ok.
  destruct (bool_decide_reflect (r <> NoError)) as [Hr|Hr].
  { exists None. split; [done|]. intros seg. split; [done|]. intros (_&_&_&[=]&_). congruence. }
  assert (r = NoError) as -> by (destruct r; done || by destruct Hr).
  unfold filter_segment. rewrite El, Hs, port_numeric, bindR_ok by done. cbn [andb].
  destruct (Z.eqb_spec (TCPHeader.dport (TCPSegment.header seg')) pB); cbn [negb].
  2: { exists None. split; [done|]. intros seg. split; [done|]. intros (_&_&_&[=->]&_&?). done. }
  rewrite bindR_ok, Hd, port_numeric, bindR_ok by done.
  destruct (Z.eqb_spec (TCPHeader.sport (TCPSegment.header seg')) pA); cbn [negb].
  - exists (Some seg'). split; [done|]. intros seg. split; [by intros [= ->]|]. by intros (_&_&_&[=->]&_).
  - exists None. split; [done|]. intros seg. split; [done|]. intros (_&_&_&[=->]&?&_). done.
Qed.

(** [data] is [seg] in a UDP datagram, with A's and B's ports. *)
Definition udp_wrapped (seg : TCPSegment.TCPSegment) (data : bytes) : Prop :=
  exists body, TCPSegment.serialize 0 (set_ports pA pB seg) = ok body /\ BufferList.concatenate body = data.

Lemma udp_sendable seg : wrappable seg -> TcpSegmentTheorems.sendable 0 (set_ports pA pB seg).
Proof.
  intros (Hh&Hp&Hsize). split; [by apply set_ports_wf|]. split; [done|]. split; [lia|].
  change (TCPHeader.doff (TCPSegment.header (set_ports pA pB seg))) with (TCPHeader.doff (TCPSegment.header seg)).
  change (TCPSegment.payload (set_ports pA pB seg)) with (TCPSegment.payload seg). lia.
Qed.

Lemma udp_writes seg a :
  (exists ip, 0 <= ip < 2 ^ 32 /\ source (FdAdapterBase.config a) = ipv4_address ip pA) ->
  destination (FdAdapterBase.config a) = ipv4_address ipB pB -> wrappable seg ->
  exists body, udp_write seg a = ok ([(ipv4_address ipB pB, body)], set_ports pA pB seg) /\
    udp_wrapped seg (BufferList.concatenate body).
Proof.
  intros (ip&?&Hs) Hd Hw.
  destruct (TcpSegmentTheorems.parse_serialized_segment _ _ (udp_sendable seg Hw)) as (body&E&_).
  exists body. unfold udp_write. rewrite Hs, Hd, !port_numeric, !bindR_ok, E, bindR_ok by done.
  split; [done|]. by exists body.
Qed.

Lemma udp_parses seg data :
  wrappable seg -> udp_wrapped seg data ->
  exists got, TCPSegment.parse (Buffer.make data) 0 TCPSegment.default_segment = ok (got, NoError) /\
    carried pA pB seg got.
Proof.
  intros Hw (body&E&<-). pose proof (udp_sendable seg Hw) as Hseg.
  destruct (TcpSegmentTheorems.parse_serialized_segment _ _ Hseg) as (body'&E'&P).
  rewrite E in E'. unfold ok in E'. injection E' as <-.
  destruct (TcpSegmentTheorems.serialized_segment_wf _ _ _ Hseg E) as [[_ Hbw] _].
  destruct (P (Buffer.make (BufferList.concatenate body)) TCPSegment.default_segment) as (c&p&Ep&Hs'&_).
  { by apply Buffer.make_wf. }
  { by rewrite Buffer.str_make. }
  eexists. split; [exact Ep|]. by exists c.
Qed.

(** A reader that is connected to the sender of the datagram, or listens. *)
Lemma udp_takes seg data from b :
  wrappable seg -> udp_wrapped seg data ->
  FdAdapterBase.listening b = true \/ destination (FdAdapterBase.config b) = from ->
  exists got, carried pA pB seg got /\
    udp_read (mkReceivedDatagram from data) b =
      ok (if FdAdapterBase.listening b then
            if opens seg then
              (FdAdapterBase.set_listening false
                 (FdAdapterBase.config_mut (fun c => c <| destination := from |>) b), Some got)
            else (b, None)
          else (b, Some got)).
Proof.
  intros Hw Hd Hb. destruct (udp_parses seg data Hw Hd) as (got&Ep&Hc). exists got. split; [done|].
  unfold udp_read. cbn [source_address udp_payload].
  destruct Hc as (ck&Eg&_).
  assert (TCPHeader.syn (TCPSegment.header got) && negb (TCPHeader.rst (TCPSegment.header got)) = opens seg) as Eo
    by (by rewrite Eg).
  destruct (FdAdapterBase.listening b); cbn [negb andb].
  - rewrite Ep, bindR_ok, bool_decide_eq_false_2 by (intros []; done). rewrite Eo. by destruct (opens seg).
  - destruct Hb as [?|<-]; [done|]. unfold Address.eqb. rewrite Z.eqb_refl, bool_decide_eq_true_2 by done.
    cbn [negb andb]. by rewrite Ep, bindR_ok, bool_decide_eq_false_2 by (intros []; done).
Qed.

Lemma udp_delivers seg a b b' :
  endpoint ipA pA ipB pB a -> wrappable seg ->
  (if FdAdapterBase.listening b then
     TCPHeader.syn (TCPSegment.header seg) = true /\ TCPHeader.rst (TCPSegment.header seg) = false /\
     b' = FdAdapterBase.set_listening false
            (FdAdapterBase.config_mut (fun c => c <| destination := ipv4_address ipA pA |>) b)
   else destination (FdAdapterBase.config b) = ipv4_address ipA pA /\ b' = b) ->
  exists body got, udp_write seg a = ok ([(ipv4_address ipB pB, body)], set_ports pA pB seg) /\
    udp_read (mkReceivedDatagram (ipv4_address ipA pA) (BufferList.concatenate body)) b =
      ok (b', Some got) /\
    carried pA pB seg got.
Proof.
  intros [Hs Hd] Hw Hb. destruct (udp_writes seg a) as (body&E&Hu); [by exists ipA|done|done|].
  destruct (udp_takes seg _ (ipv4_address ipA pA) b Hw Hu) as (got&Hc&Er).
  { destruct (FdAdapterBase.listening b); [by left|]. destruct Hb. by right. }
  exists body, got. split; [done|]. split; [|done]. rewrite Er. unfold opens.
  destruct (FdAdapterBase.listening b); [destruct Hb as (->&->&->)|destruct Hb as [_ ->]]; done.
Qed.

End Link.
(** ** Channels

    What two adapters of a kind and the medium between them promise: [wire a o] is what
    is read of [o] written by [a]; when [joined a b seg b'], the segment [seg] written
    by [a] is read by [b], which becomes [b'], as one that is [delivered]. *)
Class Channel (A In Out : Type) `{Adapter A In Out} := {
  wire : A -> Out -> In;
  joined : A -> A -> TCPSegment.TCPSegment -> A -> Prop;
  delivered : A -> TCPSegment.TCPSegment -> TCPSegment.TCPSegment -> Prop;
  channel_delivers : forall a b seg b', joined a b seg b' ->
    exists o seg' got, write seg a = ok (a, [o], seg') /\
      read (wire a o) b = ok (b', [], Some got) /\ delivered a seg got
}.

Section Channels.
Context `{ResolverSpec}.

Definition ports_in_range (ipA pA ipB pB : Z) : Prop :=
  (0 <= ipA < 2 ^ 32 /\ 0 <= pA < 2 ^ 16) /\ (0 <= ipB < 2 ^ 32 /\ 0 <= pB < 2 ^ 16).

Definition carried_by (cfg : FdAdapterConfig) (seg got : TCPSegment.TCPSegment) : Prop :=
  exists sport dport, Address.port (source cfg) = ok sport /\ Address.port (destination cfg) = ok dport /\
    carried sport dport seg got.

Definition tun_joined (a b : TCPOverIPv4OverTunFdAdapter) (seg : TCPSegment.TCPSegment)
    (b' : TCPOverIPv4OverTunFdAdapter) : Prop :=
  exists ipA pA ipB pB, ports_in_range ipA pA ipB pB /\
    endpoint ipA pA ipB pB (tun_base a) /\ wrappable seg /\
    accepts ipA pA ipB pB seg (tun_base b) (tun_base b').

Lemma tun_channel_delivers a b seg b' :
  tun_joined a b seg b' ->
  exists o seg' got, write seg a = ok (a, [o], seg') /\
    read (BufferList.concatenate o) b = ok (b', [], Some got) /\
    carried_by (FdAdapterBase.config (tun_base a)) seg got.
Proof.
  destruct b as [b], b' as [b']. intros (ipA&pA&ipB&pB&((?&?)&(?&?))&Ha&Hw&Hb).
  destruct (tun_delivers ipA pA ipB pB) with (seg := seg) (a := a) (b := b) (b' := b')
    as (l&got&E1&E2&Hc); [done..|].
  exists l, (set_ports pA pB seg), got. cbn. rewrite E1, E2. split; [done|]. split; [done|].
  destruct Ha as [Hs Hd]. exists pA, pB. by rewrite Hs, Hd, !port_numeric.
Qed.

#[export] Instance tun_channel : Channel TCPOverIPv4OverTunFdAdapter bytes BufferList.BufferList := {
  wire _ l := BufferList.concatenate l;
  joined := tun_joined;
  delivered a := carried_by (FdAdapterBase.config (tun_base a));
  channel_delivers := tun_channel_delivers
}.

Definition udp_joined (a b : TCPOverUDPSocketAdapter) (seg : TCPSegment.TCPSegment)
    (b' : TCPOverUDPSocketAdapter) : Prop :=
  exists ipA pA ipB pB, ports_in_range ipA pA ipB pB /\
    endpoint ipA pA ipB pB a /\ wrappable seg /\
    (if FdAdapterBase.listening b then
       TCPHeader.syn (TCPSegment.header seg) = true /\ TCPHeader.rst (TCPSegment.header seg) = false /\
       b' = FdAdapterBase.set_listening false
              (FdAdapterBase.config_mut (fun c => c <| destination := ipv4_address ipA pA |>) b)
     else destination (FdAdapterBase.config b) = ipv4_address ipA pA /\ b' = b).
(** The datagram's source is the address the sending socket is bound to. *)
Definition udp_wire (a : TCPOverUDPSocketAdapter) (o : Address.Address * BufferList.BufferList)
    : received_datagram :=
  mkReceivedDatagram (source (FdAdapterBase.config a)) (BufferList.concatenate o.2).

Lemma udp_channel_delivers (a b : TCPOverUDPSocketAdapter) seg b' :
  udp_joined a b seg b' ->
  exists o seg' got, write seg a = ok (a, [o], seg') /\
    read (udp_wire a o) b = ok (b', [], Some got) /\ carried_by (FdAdapterBase.config a) seg got.
Proof.
  intros (ipA&pA&ipB&pB&((?&?)&(?&?))&Ha&Hw&Hb).
  destruct (udp_delivers ipA pA ipB pB) with (seg := seg) (a := a) (b := b) (b' := b')
    as (l&got&E1&E2&Hc); [done..|].
  exists (ipv4_address ipB pB, l), (set_ports pA pB seg), got. destruct Ha as [Hs Hd].
  unfold udp_wire. cbn [write read udp_adapter snd]. rewrite Hs, E1, E2. split; [done|]. split; [done|].
  exists pA, pB. by rewrite Hs, Hd, !port_numeric.
Qed.

#[export] Instance udp_channel :
  Channel TCPOverUDPSocketAdapter received_datagram (Address.Address * BufferList.BufferList) := {
  wire := udp_wire;
  joined := udp_joined;
  delivered a := carried_by (FdAdapterBase.config a);
  channel_delivers := udp_channel_delivers
}.

End Channels.

Section LossyChannel.
Context {G : Type} (next : G -> Z * G) {A In Out : Type} `{Channel A In Out}.

Lemma should_drop_adapter uplink (l : LossyFdAdapter G A) :
  _adapter (_should_drop next uplink l).2 = _adapter l.
Proof.
  unfold _should_drop. destruct (_ =? 0); [done|]. by destruct (next (_rand l)).
Qed.

Lemma should_drop_loss uplink (l : LossyFdAdapter G A) :
  (_should_drop next uplink l).1 = true ->
  (if uplink then loss_rate_up (config (_adapter l)) else loss_rate_dn (config (_adapter l))) <> 0.
Proof.
  unfold _should_drop. by destruct uplink;
    [destruct (Z.eqb_spec (loss_rate_up (config (_adapter l))) 0)
    |destruct (Z.eqb_spec (loss_rate_dn (config (_adapter l))) 0)].
Qed.

(** Over any channel, a lossy sender and a lossy receiver lose a segment or
    deliver it as the channel does: a segment is withheld only when the uplink loss
    rate is not zero, one read is withheld only when the downlink rate is not zero,
    and in every case the adapters below are in the states the channel gives. *)
Theorem lossy_channel (l m : LossyFdAdapter G A) seg b' :
  joined (_adapter l) (_adapter m) seg b' ->
  exists l' out seg', lossy_write next seg l = ok (l', out, seg') /\ _adapter l' = _adapter l /\
    ((out = [] /\ loss_rate_up (config (_adapter l)) <> 0) \/
     exists o m' r, out = [o] /\ lossy_read next (wire (_adapter l) o) m = ok (m', [], r) /\
       _adapter m' = b' /\
       ((r = None /\ loss_rate_dn (config b') <> 0) \/
        exists got, r = Some got /\ delivered (_adapter l) seg got)).
Proof.
  intros Hj. destruct (channel_delivers _ _ _ _ Hj) as (o&seg'&got&Ew&Er&Hd).
  unfold lossy_write, lossy_read. pose proof (should_drop_adapter true l) as Ha.
  pose proof (should_drop_loss true l) as Hu. destruct (_should_drop next true l) as [dr l1].
  cbn [fst snd] in *. destruct dr.
  { exists l1, [], seg. split; [done|]. split; [done|]. left. split; [done|]. by apply Hu. }
  rewrite Ha, Ew, bindR_ok. do 3 eexists. split; [reflexivity|]. split; [done|]. right.
  exists o. rewrite Er, bindR_ok. set (m0 := mkLossy (_rand m) b').
  pose proof (should_drop_adapter false m0) as Ha'. pose proof (should_drop_loss false m0) as Hu'.
  destruct (_should_drop next false m0) as [dr m1]. cbn [fst snd] in *.
  do 2 eexists. split; [reflexivity|]. split; [reflexivity|]. split; [done|].
  destruct dr; [left; split; [done|by apply Hu']|right; by exists got].
Qed.

End LossyChannel.

(** ** Concrete adapters *)
Import NumericResolver.
Definition demo_base (listen : bool) (ip p ip' p' : Z) : FdAdapterBase.FdAdapterBase :=
  FdAdapterBase.mkFdAdapterBase (mkFdAdapterConfig (ipv4_address ip p) (ipv4_address ip' p') 0 0) listen.
Definition demo_syn : TCPSegment.TCPSegment :=
  TCPSegment.default_segment <| TCPSegment._header ::= fun h =>
    h <| TCPHeader.syn := true |> <| TCPHeader.seqno := mkWrappingInt32 7 |> |>.
Definition demo_peer : FdAdapterBase.FdAdapterBase := demo_base false 2 80 1 4000.

Lemma demo_syn_wrappable : wrappable demo_syn.
Proof. repeat split; cbn; try done; by unfold wrapping_ok. Qed.

Lemma tun_segment_roundtrip_witness :
  exists l got,
    tun_write demo_syn (mkTunAdapter (demo_base false 1 4000 2 80)) = ok ([l], set_ports 4000 80 demo_syn) /\
    tun_read (BufferList.concatenate l) (mkTunAdapter (demo_base true 0 80 0 0)) =
      ok (mkTunAdapter demo_peer, Some got).
Proof.
  destruct (tun_segment_roundtrip 1 4000 2 80) with (seg := demo_syn)
    (a := mkTunAdapter (demo_base false 1 4000 2 80)) (b := demo_base true 0 80 0 0) (b' := demo_peer)
    as (l&got&E1&E2&_).
  - done.
  - done.
  - done.
  - done.
  - split; reflexivity.
  - exact demo_syn_wrappable.
  - cbn. split; [exists 0; split; [done|reflexivity]|]. split; [reflexivity|]. split; reflexivity.
  - exists l, got. split; [exact E1|exact E2].
Defined.

Lemma unwrap_filters_witness :
  exists o, unwrap_tcp_in_ip (IPv4Datagram.mkIPv4Datagram IPv4Header.default_header [Buffer.empty]) demo_peer =
    ok (demo_peer, o) /\ o = None.
Proof.
  destruct (unwrap_filters 1 4000 2 80 ltac:(done) ltac:(done) ltac:(done) ltac:(done)
    (IPv4Datagram.mkIPv4Datagram IPv4Header.default_header [Buffer.empty]) Buffer.empty demo_peer) as (o&E&Ho).
  - reflexivity.
  - split; reflexivity.
  - reflexivity.
  - apply Buffer.empty_wf.
  - exists o. split; [exact E|]. destruct o as [seg|]; [|reflexivity].
    destruct (proj1 (Ho seg) eq_refl) as [Hd _]. discriminate Hd.
Defined.

Lemma lossy_channel_witness :
  exists l' out seg',
    lossy_write (fun g : Z => (g, g + 1)) demo_syn
      (mkLossy 0 (mkTunAdapter (demo_base false 1 4000 2 80))) = ok (l', out, seg').
Proof.
  destruct (lossy_channel (fun g : Z => (g, g + 1)) (A := TCPOverIPv4OverTunFdAdapter)
    (mkLossy 0 (mkTunAdapter (demo_base false 1 4000 2 80))) (mkLossy 9 (mkTunAdapter (demo_base true 0 80 0 0)))
    demo_syn (mkTunAdapter demo_peer)) as (l'&out&seg'&E&_).
  - exists 1, 4000, 2, 80. split; [done|]. split; [split; reflexivity|]. split; [exact demo_syn_wrappable|].
    cbn. split; [exists 0; split; [done|reflexivity]|]. split; [reflexivity|]. split; reflexivity.
  - exists l', out, seg'. exact E.
Defined.

End AdapterTheorems.
