(* ===== verification/Stations.v ===== *)
(** * Stations: adapters at the two ends of a path

    What the adapters (tcp_helpers/fd_adapter.*, tuntap_adapter.*, lossy_fd_adapter.hh)
    promise a connection whatever happens to the packets in between: writing and reading
    do not throw, and a segment that is handed up was written at the other end. The
    class is implemented by the TUN and the UDP adapter and, over any of them, by the
    lossy adapter. *)
From S2P Require Import Prelude Wrapping Buffers Parser TcpSegment Ipv4 Addresses Adapters.

Module Stations.
Import AddressTheorems AdapterTheorems.

(** From an address and port to another. *)
Record path := mkPath { src_ip : Z; src_port : Z; dst_ip : Z; dst_port : Z }.
Definition back (p : path) : path := mkPath (dst_ip p) (dst_port p) (src_ip p) (src_port p).
Definition path_ok (p : path) : Prop := ports_in_range (src_ip p) (src_port p) (dst_ip p) (dst_port p).

Lemma back_ok p : path_ok p -> path_ok (back p).
Proof. unfold path_ok, ports_in_range. tauto. Qed.
Lemma back_back p : back (back p) = p.
Proof. by destruct p. Qed.

(** What a connection sees of a segment: all but the ports, the checksum, and how the
    payload is stored. *)
Record same_content (seg got : TCPSegment.TCPSegment) : Prop := mk_same_content {
  same_seqno : TCPHeader.seqno (TCPSegment.header got) = TCPHeader.seqno (TCPSegment.header seg);
  same_ackno : TCPHeader.ackno (TCPSegment.header got) = TCPHeader.ackno (TCPSegment.header seg);
  same_ack : TCPHeader.ack (TCPSegment.header got) = TCPHeader.ack (TCPSegment.header seg);
  same_rst : TCPHeader.rst (TCPSegment.header got) = TCPHeader.rst (TCPSegment.header seg);
  same_syn : TCPHeader.syn (TCPSegment.header got) = TCPHeader.syn (TCPSegment.header seg);
  same_fin : TCPHeader.fin (TCPSegment.header got) = TCPHeader.fin (TCPSegment.header seg);
  same_win : TCPHeader.win (TCPSegment.header got) = TCPHeader.win (TCPSegment.header seg);
  same_payload : Buffer.str (TCPSegment.payload got) = Buffer.str (TCPSegment.payload seg)
}.

Lemma carried_same sport dport seg got : carried sport dport seg got -> same_content seg got.
Proof. intros (c&E&Ep). by split; rewrite ?E. Qed.

(** [arrival p o] is what is read at the end of [p] of [o] written at its beginning.
    [ready l p sent a]: the adapter at the beginning of [p], that has been given the
    segments [sent] to write, can go on; with [l] it still listens.
    [packet p sent i]: [i] is on its way along [p] when [sent] was written there. *)
Class Station (A In Out : Type) `{Adapter A In Out} := {
  arrival : path -> Out -> In;
  ready : bool -> path -> list TCPSegment.TCPSegment -> A -> Prop;
  packet : path -> list TCPSegment.TCPSegment -> In -> Prop;
  packet_mono : forall p sent sent' i, sent ⊆ sent' -> packet p sent i -> packet p sent' i;
  ready_mono : forall l p sent sent' a, sent ⊆ sent' -> ready l p sent a -> ready l p sent' a;
  station_write : forall p sent a seg, ready false p sent a -> wrappable seg ->
    exists a' out seg', write seg a = ok (a', out, seg') /\ ready false p (sent ++ [seg]) a' /\
      Forall (packet p (sent ++ [seg])) (map (arrival p) out);
  station_read : forall l p sent b sent' i, ready l p sent b -> packet (back p) sent' i ->
    exists b' out r l', read i b = ok (b', out, r) /\ ready l' p sent b' /\
      Forall (packet p sent) (map (arrival p) out) /\ (l = false -> l' = false) /\
      forall got, r = Some got -> l' = false /\ exists seg, seg ∈ sent' /\ same_content seg got;
  station_tick : forall l p sent a ms, ready l p sent a ->
    exists a' out, tick ms a = ok (a', out) /\ ready l p sent a' /\
      Forall (packet p sent) (map (arrival p) out)
}.

(** ** The TUN adapter *)
Section Tun.
Context `{ResolverSpec}.

(** Listening on the port, or connected to the peer. *)
Definition attached (l : bool) (p : path) (b : FdAdapterBase.FdAdapterBase) : Prop :=
  path_ok p /\
  if l then listens (src_port p) b
  else FdAdapterBase.listening b = false /\ endpoint (src_ip p) (src_port p) (dst_ip p) (dst_port p) b.

Definition tun_ready (l : bool) (p : path) (sent : list TCPSegment.TCPSegment)
    (a : TCPOverIPv4OverTunFdAdapter) : Prop := attached l p (tun_base a).

Definition tun_packet (p : path) (sent : list TCPSegment.TCPSegment) (i : bytes) : Prop :=
  exists seg, seg ∈ sent /\ wrappable seg /\ wrapped (src_ip p) (src_port p) (dst_ip p) (dst_port p) seg i.

Lemma tun_packet_mono p sent sent' i : sent ⊆ sent' -> tun_packet p sent i -> tun_packet p sent' i.
Proof. intros Hs (seg&Hi&?). exists seg. auto. Qed.

Lemma tun_station_write p sent a seg :
  tun_ready false p sent a -> wrappable seg ->
  exists (a' : TCPOverIPv4OverTunFdAdapter) (out : list BufferList.BufferList) seg', write seg a = ok (a', out, seg') /\ tun_ready false p (sent ++ [seg]) a' /\
    Forall (tun_packet p (sent ++ [seg])) (map BufferList.concatenate out).
Proof.
  intros [Hp [Hl He]] Hw. destruct (Hp) as [[? ?] [? ?]].
  destruct (tun_writes (src_ip p) (src_port p) (dst_ip p) (dst_port p)) with (seg := seg) (a := a) as (o&E&Ho); [done..|].
  exists a, [o], (set_ports (src_port p) (dst_port p) seg). cbn [write tun_adapter]. rewrite E, bindR_ok.
  split; [done|]. split; [done|]. constructor; [|constructor]. exists seg.
  split; [apply elem_of_app; right; by left|]. done.
Qed.

(** What [unwrap_tcp_in_ip] makes of a datagram of the peer's. *)
Lemma unwrap_ready l p b seg body h q :
  attached l p b -> wrappable seg ->
  TCPSegment.serialize (IPv4Header.pseudo_cksum (wrap_header (dst_ip p) (src_ip p) seg))
    (set_ports (dst_port p) (src_port p) seg) = ok body ->
  Buffer.wf q -> Buffer.str q = BufferList.concatenate body -> routed (dst_ip p) (src_ip p) seg h ->
  exists b' r l', unwrap_tcp_in_ip (IPv4Datagram.mkIPv4Datagram h [q]) b = ok (b', r) /\
    attached l' p b' /\ (l = false -> l' = false) /\ forall got, r = Some got -> l' = false /\ same_content seg got.
Proof.
  intros [Hp Hr] Hw Es Hq Hs Hh. destruct (Hp) as [[? ?] [? ?]].
  destruct (unwrap_filter (dst_ip p) (dst_port p) (src_ip p) (src_port p)) with
    (seg := seg) (body := body) (h := h) (p := q) (b := b) as (got&Hc&->); try done.
  { destruct l; [left; apply Hr|right; apply Hr]. }
  assert (forall b', accepts (dst_ip p) (dst_port p) (src_ip p) (src_port p) seg b b' ->
    filter_segment (IPv4Datagram.mkIPv4Datagram h [q]) got b = ok (b', Some got)) as Ha.
  { intros b' Ha. by apply (filter_accepts (dst_ip p) (dst_port p) (src_ip p) (src_port p)) with (seg := seg). }
  destruct l.
  - destruct (opens seg) eqn:Eo.
    + destruct Hr as [El Hsrc]. apply andb_true_iff in Eo as [Esyn Erst%negb_true_iff].
      rewrite (Ha _ ltac:(unfold accepts; rewrite El; by split_and!)). eexists _, _, false.
      split; [reflexivity|]. split; [done|]. split; [done|]. intros ? [= <-]. split; [done|]. by eapply carried_same.
    + rewrite (filter_early (dst_port p) (src_port p)) with (seg := seg) by done. by exists b, None, true.
  - destruct Hr as [El He]. rewrite (Ha b ltac:(unfold accepts; by rewrite El)). exists b, (Some got), false.
    split; [done|]. split; [done|]. split; [done|]. intros ? [= <-]. split; [done|]. by eapply carried_same.
Qed.

Lemma tun_station_read l p sent b sent' i :
  tun_ready l p sent b -> tun_packet (back p) sent' i ->
  exists (b' : TCPOverIPv4OverTunFdAdapter) (out : list BufferList.BufferList) r l', read i b = ok (b', out, r) /\ tun_ready l' p sent b' /\
    Forall (tun_packet p sent) (map BufferList.concatenate out) /\ (l = false -> l' = false) /\
    forall got, r = Some got -> l' = false /\ exists seg, seg ∈ sent' /\ same_content seg got.
Proof.
  destruct b as [b]. intros Hr (seg&Hi&Hw&Hd).
  destruct (tun_unwraps (src_ip (back p)) (src_port (back p)) (dst_ip (back p)) (dst_port (back p))) with
    (seg := seg) (data := i) (b := b) as (h&q&body&Es&Hq&Hs&Hh&E); [done|].
  destruct (unwrap_ready l p b seg body h q Hr Hw Es Hq Hs Hh) as (b'&r&l'&Eu&Hb'&Hl&Hg).
  exists (mkTunAdapter b'), [], r, l'. cbn [read tun_adapter]. rewrite E, Eu, !bindR_ok.
  split; [done|]. split; [done|]. split; [constructor|]. split; [done|].
  intros got Eg. destruct (Hg got Eg). split; [done|]. by exists seg.
Qed.

Lemma tun_station_tick l p sent (a : TCPOverIPv4OverTunFdAdapter) ms :
  tun_ready l p sent a ->
  exists (a' : TCPOverIPv4OverTunFdAdapter) (out : list BufferList.BufferList),
    tick ms a = ok (a', out) /\ tun_ready l p sent a' /\ Forall (tun_packet p sent) (map BufferList.concatenate out).
Proof. intros Hr. exists a, []. by destruct a. Qed.

#[export] Instance tun_station : Station TCPOverIPv4OverTunFdAdapter bytes BufferList.BufferList := {
  arrival _ := BufferList.concatenate;
  ready := tun_ready;
  packet := tun_packet;
  packet_mono := tun_packet_mono;
  ready_mono l p sent sent' a _ Hr := Hr;
  station_write := tun_station_write;
  station_read := tun_station_read;
  station_tick := tun_station_tick
}.

End Tun.

(** ** The UDP adapter

    The ports in the segments are those of the configuration, which need not be the
    path's; the sender's address is the one the kernel gives. *)
Section Udp.
Context `{ResolverSpec}.

Definition has_source (b : FdAdapterBase.FdAdapterBase) : Prop :=
  exists ip port, 0 <= ip < 2 ^ 32 /\ 0 <= port < 2 ^ 16 /\ source (FdAdapterBase.config b) = ipv4_address ip port.

Definition udp_ready (l : bool) (p : path) (sent : list TCPSegment.TCPSegment)
    (b : TCPOverUDPSocketAdapter) : Prop :=
  path_ok p /\ has_source b /\ FdAdapterBase.listening b = l /\
  (l = false -> destination (FdAdapterBase.config b) = ipv4_address (dst_ip p) (dst_port p)).

Definition udp_packet (p : path) (sent : list TCPSegment.TCPSegment) (i : received_datagram) : Prop :=
  source_address i = ipv4_address (src_ip p) (src_port p) /\
  exists seg sport dport, seg ∈ sent /\ wrappable seg /\ 0 <= sport < 2 ^ 16 /\ 0 <= dport < 2 ^ 16 /\
    udp_wrapped sport dport seg (udp_payload i).

Definition udp_arrival (p : path) (o : Address.Address * BufferList.BufferList) : received_datagram :=
  mkReceivedDatagram (ipv4_address (src_ip p) (src_port p)) (BufferList.concatenate o.2).

Lemma udp_packet_mono p sent sent' i : sent ⊆ sent' -> udp_packet p sent i -> udp_packet p sent' i.
Proof. intros Hs [? (seg&sp&dp&Hi&?)]. split; [done|]. exists seg, sp, dp. auto. Qed.

Lemma udp_station_write p sent (a : TCPOverUDPSocketAdapter) seg :
  udp_ready false p sent a -> wrappable seg ->
  exists (a' : TCPOverUDPSocketAdapter) (out : list (Address.Address * BufferList.BufferList)) seg',
    write seg a = ok (a', out, seg') /\ udp_ready false p (sent ++ [seg]) a' /\
    Forall (udp_packet p (sent ++ [seg])) (map (udp_arrival p) out).
Proof.
  intros (Hp&(ip&port&?&?&Hs)&Hl&Hd) Hw. destruct (Hp) as [[? ?] [? ?]].
  destruct (udp_writes port (dst_ip p) (dst_port p)) with (seg := seg) (a := a) as (body&E&Hu);
    [done..|by exists ip|by apply Hd|done|].
  exists a. do 2 eexists. cbn [write udp_adapter]. rewrite E, bindR_ok. split; [reflexivity|].
  split; [split_and!; try done; by exists ip, port|]. constructor; [|constructor]. split; [done|].
  exists seg, port, (dst_port p). split; [apply elem_of_app; right; by left|]. done.
Qed.

Lemma udp_station_read l p sent (b : TCPOverUDPSocketAdapter) sent' i :
  udp_ready l p sent b -> udp_packet (back p) sent' i ->
  exists (b' : TCPOverUDPSocketAdapter) (out : list (Address.Address * BufferList.BufferList)) r l',
    read i b = ok (b', out, r) /\ udp_ready l' p sent b' /\
    Forall (udp_packet p sent) (map (udp_arrival p) out) /\ (l = false -> l' = false) /\
    forall got, r = Some got -> l' = false /\ exists seg, seg ∈ sent' /\ same_content seg got.
Proof.
  destruct i as [from data]. intros (Hp&Hsrc&Hl&Hd) [Ef (seg&sport&dport&Hi&Hw&?&?&Hu)]. cbn in Ef, Hu. subst from.
  destruct (udp_takes sport dport) with (seg := seg) (data := data) (b := b)
    (from := ipv4_address (dst_ip p) (dst_port p)) as (got&Hc&E); [done..| |].
  { destruct l; [by left|right; auto]. }
  cbn [read udp_adapter]. rewrite E, bindR_ok, Hl. apply carried_same in Hc.
  assert (forall got', Some got = Some got' -> false = false /\ exists seg, seg ∈ sent' /\ same_content seg got') as Hg.
  { intros ? [= <-]. split; [done|]. by exists seg. }
  destruct l; [destruct (opens seg)|].
  - eexists _, [], _, false. split; [reflexivity|]. by split_and!.
  - eexists _, [], _, true. split; [reflexivity|]. by split_and!.
  - eexists _, [], _, false. split; [reflexivity|]. by split_and!.
Qed.

Lemma udp_station_tick l p sent (a : TCPOverUDPSocketAdapter) ms :
  udp_ready l p sent a ->
  exists (a' : TCPOverUDPSocketAdapter) (out : list (Address.Address * BufferList.BufferList)),
    tick ms a = ok (a', out) /\ udp_ready l p sent a' /\ Forall (udp_packet p sent) (map (udp_arrival p) out).
Proof. intros Hr. exists a, []. by destruct a. Qed.

#[export] Instance udp_station :
  Station TCPOverUDPSocketAdapter received_datagram (Address.Address * BufferList.BufferList) := {
  arrival := udp_arrival;
  ready := udp_ready;
  packet := udp_packet;
  packet_mono := udp_packet_mono;
  ready_mono l p sent sent' a _ Hr := Hr;
  station_write := udp_station_write;
  station_read := udp_station_read;
  station_tick := udp_station_tick
}.

End Udp.

(** ** The lossy adapter, over any other *)
Section Lossy.
Context {G : Type} (next : G -> Z * G) {A In Out : Type} `{Station A In Out}.

Definition lossy_ready (l : bool) (p : path) (sent : list TCPSegment.TCPSegment)
    (a : LossyFdAdapter G A) : Prop := ready l p sent (_adapter a).

Lemma lossy_station_write p sent (a : LossyFdAdapter G A) seg :
  lossy_ready false p sent a -> wrappable seg ->
  exists a' out seg', lossy_write next seg a = ok (a', out, seg') /\ lossy_ready false p (sent ++ [seg]) a' /\
    Forall (packet p (sent ++ [seg])) (map (arrival p) out).
Proof.
  intros Hr Hw. unfold lossy_write. pose proof (should_drop_adapter next true a) as E.
  destruct (_should_drop next true a) as [[] a1]; cbn [snd] in E.
  - exists a1, [], seg. split; [done|]. split; [|constructor]. unfold lossy_ready. rewrite E.
    eapply ready_mono; [|exact Hr]. set_solver.
  - rewrite E. destruct (station_write _ _ _ _ Hr Hw) as (a'&out&seg'&->&Hr'&Ho). by eexists _, _, _.
Qed.

Lemma lossy_station_read l p sent (b : LossyFdAdapter G A) sent' i :
  lossy_ready l p sent b -> packet (back p) sent' i ->
  exists b' out r l', lossy_read next i b = ok (b', out, r) /\ lossy_ready l' p sent b' /\
    Forall (packet p sent) (map (arrival p) out) /\ (l = false -> l' = false) /\
    forall got, r = Some got -> l' = false /\ exists seg, seg ∈ sent' /\ same_content seg got.
Proof.
  intros Hr Hi. unfold lossy_read. destruct (station_read _ _ _ _ _ _ Hr Hi) as (b'&out&r&l'&->&Hr'&Ho&Hl&Hg).
  rewrite bindR_ok. set (b1 := mkLossy _ _). pose proof (should_drop_adapter next false b1) as E.
  destruct (_should_drop next false b1) as [drop b2]; cbn [snd] in E. exists b2, out, (if drop then None else r), l'.
  split; [done|]. split; [by unfold lossy_ready; rewrite E|]. split; [done|]. split; [done|]. by destruct drop.
Qed.

Lemma lossy_station_tick l p sent (a : LossyFdAdapter G A) ms :
  lossy_ready l p sent a ->
  exists a' out, tick (Adapter := lossy_adapter next) ms a = ok (a', out) /\ lossy_ready l p sent a' /\
    Forall (packet p sent) (map (arrival p) out).
Proof.
  intros Hr. destruct (station_tick _ _ _ _ ms Hr) as (a'&out&E&Hr'&Ho).
  exists (mkLossy (_rand a) a'), out. cbn. by rewrite E, bindR_ok.
Qed.

#[export] Instance lossy_station : @Station (LossyFdAdapter G A) In Out (lossy_adapter next) := {
  arrival := arrival;
  ready := lossy_ready;
  packet := packet;
  packet_mono := packet_mono;
  ready_mono l p sent sent' a := ready_mono l p sent sent' (_adapter a);
  station_write := lossy_station_write;
  station_read := lossy_station_read;
  station_tick := lossy_station_tick
}.

End Lossy.

End Stations.
