(* ===== verification/EthernetStation.v ===== *)
(** * The Ethernet adapter as a station
    (TCPOverIPv4OverEthernetAdapter of tcp_helpers/tuntap_adapter.*, network_interface.* )

    A segment written to the Ethernet adapter may leave at once, or when the answer to an
    ARP request arrives. Whatever frames come in, the adapter does not throw, and what
    leaves it are ARP messages and datagrams with segments that were written. *)
From S2P Require Import Prelude Wrapping Buffers Parser TcpSegment Ipv4 Ethernet Typing Addresses Interface Adapters Stations.

Module EthernetStation.
Import AddressTheorems AdapterTheorems Stations EthernetFrame NetworkInterface InterfaceLog.

#[local] Arguments IPv4Datagram.serialize : simpl never.
#[local] Arguments Address.ipv4_numeric : simpl never.
#[local] Arguments ARPMessage.serialize : simpl never.

Section Ethernet.
Context `{ResolverSpec}.

(** [d] is the datagram that carries a segment of [sent] along [p]; or what arrives of it. *)
Definition datagram_of (p : path) (sent : list TCPSegment.TCPSegment) (d : IPv4Datagram.IPv4Datagram) : Prop :=
  exists seg body, seg ∈ sent /\ wrappable seg /\
    TCPSegment.serialize (IPv4Header.pseudo_cksum (wrap_header (src_ip p) (dst_ip p) seg))
      (set_ports (src_port p) (dst_port p) seg) = ok body /\
    d = IPv4Datagram.mkIPv4Datagram (wrap_header (src_ip p) (dst_ip p) seg) body /\ Ipv4Theorems.sendable d.
Definition arrived (p : path) (sent : list TCPSegment.TCPSegment) (d : IPv4Datagram.IPv4Datagram) : Prop :=
  exists seg body h q, seg ∈ sent /\ wrappable seg /\
    TCPSegment.serialize (IPv4Header.pseudo_cksum (wrap_header (src_ip p) (dst_ip p) seg))
      (set_ports (src_port p) (dst_port p) seg) = ok body /\
    d = IPv4Datagram.mkIPv4Datagram h [q] /\ Buffer.wf q /\ Buffer.str q = BufferList.concatenate body /\
    routed (src_ip p) (dst_ip p) seg h.

(** Any frame, except that a datagram in it has to be one of the other side's. *)
Definition eth_packet (p : path) (sent : list TCPSegment.TCPSegment) (i : bytes) : Prop :=
  zlen i < 2 ^ 63 /\
  forall f b d, parse (Buffer.make i) default_frame = ok (f, NoError) ->
    EthernetHeader.type (header f) = EthernetHeader.TYPE_IPv4 -> payload f = [b] ->
    IPv4Datagram.parse b IPv4Datagram.default_datagram = ok (d, NoError) -> arrived p sent d.

(** A frame that goes out. *)
Definition good_frame (p : path) (sent : list TCPSegment.TCPSegment) (f : EthernetFrame) : Prop :=
  EthernetHeader.wf (header f) /\ zlen (BufferList.concatenate (payload f)) < 2 ^ 62 /\
  (EthernetHeader.type (header f) = EthernetHeader.TYPE_IPv4 ->
   exists d, datagram_of p sent d /\ IPv4Datagram.serialize d = ok (payload f)).

Record good_interface (p : path) (sent : list TCPSegment.TCPSegment) (n : NetworkInterface) : Prop := mk_good {
  good_mac : address_ok (_ethernet_address n);
  good_ip : exists ip, 0 <= ip < 2 ^ 32 /\ Address.ipv4_numeric (_ip_address n) = ok ip;
  good_cache : forall ip, address_ok (cached_address ip n);
  good_pending : forall ip, Forall (datagram_of p sent) (pending ip n);
  good_frames : Forall (good_frame p sent) (_frames_out n)
}.

Definition eth_ready (l : bool) (p : path) (sent : list TCPSegment.TCPSegment)
    (a : TCPOverIPv4OverEthernetAdapter) : Prop :=
  attached l p (eth_base a) /\ good_interface p sent (_interface a) /\ _frames_out (_interface a) = [] /\
  exists hop, 0 <= hop < 2 ^ 32 /\ Address.ipv4_numeric (_next_hop a) = ok hop.

(** ** More segments *)
Lemma datagram_mono p sent sent' d : sent ⊆ sent' -> datagram_of p sent d -> datagram_of p sent' d.
Proof. intros Hs (seg&body&?&?). exists seg, body. auto. Qed.
Lemma eth_packet_mono p sent sent' i : sent ⊆ sent' -> eth_packet p sent i -> eth_packet p sent' i.
Proof.
  intros Hs [Hz Hd]. split; [done|]. intros f b d E1 E2 E3 E4.
  destruct (Hd f b d E1 E2 E3 E4) as (seg&body&h&q&?&?). exists seg, body, h, q. auto.
Qed.
Lemma good_mono p sent sent' n : sent ⊆ sent' -> good_interface p sent n -> good_interface p sent' n.
Proof.
  intros Hs [Hm Hi Hc Hp Hf]. split; try done.
  - intros ip. eapply Forall_impl; [apply Hp|]. intros d. by apply datagram_mono.
  - eapply Forall_impl; [apply Hf|]. intros f (?&?&Hd). split; [done|]. split; [done|].
    intros E. destruct (Hd E) as (d&?&?). exists d. split; [by eapply datagram_mono|done].
Qed.

(** ** On the wire *)
Lemma parse_serialized_eq d l b :
  Ipv4Theorems.sendable d -> IPv4Datagram.serialize d = ok l -> Buffer.wf b -> Buffer.str b = BufferList.concatenate l ->
  exists c q, IPv4Datagram.parse b IPv4Datagram.default_datagram =
      ok (IPv4Datagram.mkIPv4Datagram ((IPv4Datagram.header d) <| IPv4Header.cksum := c |>) [q], NoError) /\
    Buffer.str q = BufferList.concatenate (IPv4Datagram.payload d) /\ Buffer.wf q.
Proof.
  intros Hd El Hb Hs. destruct (Ipv4Theorems.parse_serialized_datagram d Hd) as (l'&El'&P).
  rewrite El in El'. unfold ok in El'. injection El' as <-.
  destruct (P b IPv4Datagram.default_datagram Hb Hs) as (c&q&_&E&Hq&Hw&_). by exists c, (NetParser.buffer q).
Qed.

Lemma good_frame_packet p sent f : good_frame p sent f -> eth_packet p sent (BufferList.concatenate (serialize f)).
Proof.
  intros (Hh&Hz&Hd).
  assert (zlen (BufferList.concatenate (serialize f)) < 2 ^ 63) as Hs.
  { change (BufferList.concatenate (serialize f)) with (EthernetHeader.serialize (header f) ++ BufferList.concatenate (payload f)).
    unfold EthernetHeader.serialize. destruct Hh as ((Hl&_)&(Hl'&_)&_).
    autorewrite with unparse zlen. rewrite !zlen_address_bytes. unfold zlen in *. rewrite Hl, Hl'. lia. }
  split; [done|]. intros g b d Eg Et Ep Ed.
  destruct (EthernetTheorems.parse_serialized_frame f (Buffer.make (BufferList.concatenate (serialize f))) default_frame)
    as (q&Ef&Hq&Hw); [done|by apply Buffer.make_wf|done|].
  rewrite Eg in Ef. unfold ok in Ef. injection Ef as ->. cbn in Et, Ep. injection Ep as <-.
  destruct (Hd Et) as (d0&(seg&body&Hi&Hwr&Es&->&Hsd)&El).
  destruct (parse_serialized_eq _ _ q Hsd El Hw Hq) as (c&q'&Ed'&Hq'&Hw'). rewrite Ed in Ed'. unfold ok in Ed'. injection Ed' as ->.
  exists seg, body, ((wrap_header (src_ip p) (dst_ip p) seg) <| IPv4Header.cksum := c |>), q'.
  do 6 (split; [done|]). by exists c, (IPv4Header.ttl (wrap_header (src_ip p) (dst_ip p) seg)).
Qed.

(** ** The interface *)
Section Interface.
Context (p : path) (sent : list TCPSegment.TCPSegment).
Abbreviation good := (good_interface p sent).

Lemma push_good f n : good_frame p sent f -> good n -> good (push_frame f n).
Proof. intros Hf [Hm Hi Hc Hp Hfs]. split; try done. cbn. apply Forall_app. split; [done|by constructor]. Qed.

(** The parts that do not matter. *)
Lemma asked_good f n : good n -> good (n <| _arp_request_his ::= f |>).
Proof. intros [Hm Hi Hc Hp Hfs]. by split. Qed.
Lemma tick_good ms n : good n -> good (NetworkInterface.tick ms n).
Proof. intros [Hm Hi Hc Hp Hfs]. by split. Qed.

Lemma arp_frame_good dst m n :
  address_ok dst -> address_ok (_ethernet_address n) -> ARPMessage.wf m ->
  exists body, ARPMessage.serialize m = ok body /\
    good_frame p sent (make_frame EthernetHeader.TYPE_ARP dst (BufferList.of_string body) n).
Proof.
  intros Hd Hm Hw. exists (ArpTheorems.wire m). split; [by apply ArpTheorems.arp_serialize_wire, Hw|].
  split; [done|]. split; [|done]. change (BufferList.concatenate _) with (ArpTheorems.wire m ++ []).
  rewrite app_nil_r, ArpTheorems.zlen_wire by (by apply ArpTheorems.wf_in_range). lia.
Qed.

Lemma data_frame_good d ip n :
  datagram_of p sent d -> good n ->
  exists body, IPv4Datagram.serialize d = ok body /\
    good_frame p sent (make_frame EthernetHeader.TYPE_IPv4 (cached_address ip n) body n).
Proof.
  intros Hd [Hm Hi Hc Hp Hf]. pose proof Hd as (seg&body&_&_&_&_&Hs).
  destruct (Ipv4Theorems.parse_serialized_datagram d Hs) as (l&El&_). exists l. split; [done|].
  split; [by split; [apply Hc|]|]. split; [|by exists d].
  cbn [payload _payload make_frame]. pose proof (Ipv4Theorems.zlen_serialized d l Hs El). destruct Hs as ([]&_). lia.
Qed.

Lemma send_arp_request_good ip n :
  0 <= ip < 2 ^ 32 -> good n -> exists n', send_arp_request ip n = ok n' /\ good n'.
Proof.
  intros Hip G. destruct (G) as [Hm (my&Hmy&Ei) Hc Hp Hf]. unfold send_arp_request. rewrite Ei, bindR_ok.
  destruct (arp_frame_good ETHERNET_BROADCAST (arp_request my ip n) n) as (body&->&Hg); [|done| |].
  { split; [done|]. repeat constructor; lia. }
  { constructor; try done. split; [done|]. repeat constructor; lia. }
  rewrite bindR_ok. eexists. split; [reflexivity|]. by apply asked_good, push_good.
Qed.

Lemma send_datagram_good d hop ip n :
  datagram_of p sent d -> Address.ipv4_numeric hop = ok ip -> 0 <= ip < 2 ^ 32 -> good n ->
  exists n', send_datagram d hop n = ok n' /\ good n'.
Proof.
  intros Hd Eh Hip G. unfold send_datagram. rewrite Eh, bindR_ok. destruct (recent (_cache_time n) _ _ _).
  - destruct (data_frame_good d ip n Hd G) as (body&->&Hg). rewrite bindR_ok. eexists. split; [reflexivity|]. by apply push_good.
  - assert (exists n1, (if recent (_arp_request_his n) ip _arp_request_limit n then ok n else send_arp_request ip n) = ok n1 /\ good n1)
      as (n1&->&G1) by (destruct (recent _ _ _ _); [by exists n|by apply send_arp_request_good]).
    rewrite bindR_ok. eexists. split; [reflexivity|]. destruct G1 as [Hm Hi Hc Hp Hf]. split; try done.
    intros ip'. unfold pending. cbn. destruct (decide (ip' = ip)) as [->|Hne].
    + rewrite lookup_insert_eq. cbn. apply Forall_app. split; [apply (Hp ip)|by constructor].
    + rewrite lookup_insert_ne by done. apply (Hp ip').
Qed.

Lemma send_pending_good ip ds n :
  Forall (datagram_of p sent) ds -> good n ->
  exists n', NetworkInterface.send_pending ip ds n = ok n' /\ good n' /\ _unsent_datagram n' = _unsent_datagram n.
Proof.
  revert n. induction ds as [|d ds IH]; intros n Hd G; cbn [NetworkInterface.send_pending]; [by exists n|].
  apply Forall_cons in Hd as [Hd Hds]. destruct (data_frame_good d ip n Hd G) as (body&->&Hg). rewrite bindR_ok.
  destruct (IH (push_frame (make_frame EthernetHeader.TYPE_IPv4 (cached_address ip n) body n) n) Hds) as (n'&E&G'&Eu);
    [by apply push_good|]. by exists n'.
Qed.

Lemma learn_good ip mac t n :
  address_ok mac -> good n -> good (n <| _cache_time ::= insert ip t |> <| _ip_to_ethernet_cache ::= insert ip mac |>).
Proof.
  intros Ha [Hm Hi Hc Hp Hf]. split; try done. intros ip'. unfold cached_address. cbn.
  destruct (decide (ip' = ip)) as [->|Hne]; [by rewrite lookup_insert_eq|]. rewrite lookup_insert_ne by done. apply Hc.
Qed.

Lemma forget_good ip n : good n -> good (n <| _unsent_datagram ::= delete ip |>).
Proof.
  intros [Hm Hi Hc Hp Hf]. split; try done. intros ip'. unfold pending. cbn.
  destruct (decide (ip' = ip)) as [->|Hne]; [by rewrite lookup_delete_eq|]. rewrite lookup_delete_ne by done. apply Hp.
Qed.

Lemma recv_arp_good m n : Typing.arp_message m -> good n -> exists n', recv_arp m n = ok n' /\ good n'.
Proof.
  intros Hm G. unfold recv_arp. cbv zeta. set (ip := ARPMessage.sender_ip_address m).
  pose proof (learn_good ip (ARPMessage.sender_ethernet_address m) (_now_time_ms n) n
    (Typing.t_sender_ethernet_address _ Hm) G) as G1. set (n1 := n <| _cache_time ::= _ |> <| _ip_to_ethernet_cache ::= _ |>) in *.
  destruct (send_pending_good ip (pending ip n1) n1 (good_pending _ _ _ G1 ip) G1) as (n2&E2&G2&_).
  unfold pending in E2. rewrite E2, bindR_ok. apply (forget_good ip) in G2.
  set (n3 := n2 <| _unsent_datagram ::= _ |>) in *. destruct (_ =? ARPMessage.OPCODE_REQUEST); [|by exists n3].
  destruct (G2) as [Hmac (my&Hmy&Ei) _ _ _]. rewrite Ei, bindR_ok. destruct (_ =? my); [|by exists n3].
  destruct Hm as [_ _ _ _ _ Hs Hsi _ _].
  destruct (arp_frame_good (ARPMessage.sender_ethernet_address m) (arp_reply my m n3) n3) as (body&->&Hg); [done|done|by constructor|].
  rewrite bindR_ok. eexists. split; [reflexivity|]. by apply push_good.
Qed.

(** A frame comes in: a datagram is handed up only from a frame that holds it. *)
Lemma recv_frame_good f b n :
  payload f = [b] -> Buffer.wf b -> good n ->
  exists n' r, recv_frame f n = ok (n', r) /\ good n' /\
    forall d, r = Some d -> EthernetHeader.type (header f) = EthernetHeader.TYPE_IPv4 /\
      IPv4Datagram.parse b IPv4Datagram.default_datagram = ok (d, NoError).
Proof.
  intros Ep Hb G. unfold recv_frame. rewrite Ep. cbn [BufferList.to_buffer].
  destruct (Z.eqb_spec (EthernetHeader.type (header f)) EthernetHeader.TYPE_IPv4) as [Et|_].
  - rewrite bindR_ok. destruct (Typing.ipv4_datagram_typed b IPv4Datagram.default_datagram Hb) as (d&r&E&_); [by constructor|].
    rewrite E, bindR_ok. destruct (_ && _) eqn:Eb; [|by exists n, None].
    apply andb_true_iff in Eb as [->%bool_decide_eq_true _]. exists n, (Some d). split; [done|]. split; [done|].
    by intros ? [= <-].
  - destruct (_ =? EthernetHeader.TYPE_ARP); [|by exists n, None]. rewrite bindR_ok.
    destruct (Typing.arp_typed b ARPMessage.default_message Hb) as (m&r&E&Hm).
    { constructor; try done; split; try done; repeat constructor; lia. }
    rewrite E, bindR_ok. destruct (bool_decide _); [|by exists n, None].
    destruct (recv_arp_good m n Hm G) as (n'&->&G'). by exists n', None.
Qed.

End Interface.

(** ** The adapter *)
(** The queue of the interface is written out. *)
Lemma flush_ready l p sent a n b (o := Adapters.send_pending (a <| _interface := n |>)) :
  (exists hop, 0 <= hop < 2 ^ 32 /\ Address.ipv4_numeric (_next_hop a) = ok hop) ->
  good_interface p sent n -> attached l p b ->
  eth_ready l p sent (o.1 <| eth_base := b |>) /\ Forall (eth_packet p sent) (map BufferList.concatenate o.2).
Proof.
  intros Hop [Hm Hi Hc Hp Hf] Hb. split.
  - split; [done|]. split; [by split|]. by split.
  - cbn. rewrite map_map, Forall_map. eapply Forall_impl; [exact Hf|]. intros f. apply good_frame_packet.
Qed.

Lemma eth_base_same (a : TCPOverIPv4OverEthernetAdapter) b : eth_base a = b -> a <| eth_base := b |> = a.
Proof. destruct a. cbn. by intros ->. Qed.

Lemma eth_station_write p sent a seg :
  eth_ready false p sent a -> wrappable seg ->
  exists (a' : TCPOverIPv4OverEthernetAdapter) (out : list BufferList.BufferList) seg',
    write seg a = ok (a', out, seg') /\ eth_ready false p (sent ++ [seg]) a' /\
    Forall (eth_packet p (sent ++ [seg])) (map BufferList.concatenate out).
Proof.
  intros R Hw. assert (sent ⊆ sent ++ [seg]) as Hs by set_solver.
  pose proof R as (Hb&G&Hq&hop&Hhop&Eh). apply (good_mono _ _ _ _ Hs) in G.
  destruct (Hb) as [[[? ?] [? ?]] [_ He]].
  destruct (wrap_datagram (src_ip p) (src_port p) (dst_ip p) (dst_port p)) with (seg := seg) (b := eth_base a)
    as (body&Es&Ew&Hd); [done..|].
  set (d := IPv4Datagram.mkIPv4Datagram _ _) in *.
  destruct (send_datagram_good p (sent ++ [seg]) d (_next_hop a) hop (_interface a)) as (n'&En&G'); [|done|done|done|].
  { exists seg, body. split; [apply elem_of_app; right; by left|]. done. }
  cbn [write eth_adapter]. unfold eth_write. rewrite Ew, bindR_ok, En, bindR_ok.
  destruct (flush_ready false p (sent ++ [seg]) a n' (eth_base a)) as [R' Ho]; [by exists hop|done|done|].
  rewrite eth_base_same in R' by done. eexists _, _, _. split; [reflexivity|]. by split.
Qed.

Lemma eth_station_read l p sent b sent' i :
  eth_ready l p sent b -> eth_packet (back p) sent' i ->
  exists (b' : TCPOverIPv4OverEthernetAdapter) (out : list BufferList.BufferList) r l',
    read i b = ok (b', out, r) /\ eth_ready l' p sent b' /\
    Forall (eth_packet p sent) (map BufferList.concatenate out) /\ (l = false -> l' = false) /\
    forall got, r = Some got -> l' = false /\ exists seg, seg ∈ sent' /\ same_content seg got.
Proof.
  intros R [Hz Hi]. pose proof R as (Hb&G&Hq&Hop). cbn [read eth_adapter]. unfold eth_read.
  destruct (EthernetTheorems.parse_frame_total (Buffer.make i) default_frame) as (f&q&Ef&Ep&Hw); [by apply Buffer.make_wf|].
  rewrite Ef, bindR_ok, bool_decide_eq_false_2 by (intros []; done).
  destruct (recv_frame_good p sent f q (_interface b) Ep Hw G) as (n'&r&->&G'&Hr). rewrite bindR_ok.
  destruct r as [d|].
  - destruct (Hr d eq_refl) as [Et Ed]. destruct (Hi f q d Ef Et Ep Ed) as (seg&body&h&q'&Hin&Hwr&Es&->&Hq'&Hs&Hh).
    destruct (unwrap_ready l p (eth_base b) seg body h q' Hb Hwr Es Hq' Hs Hh) as (b'&r&l'&Eu&Hb'&Hl&Hg).
    destruct (flush_ready l' p sent b n' b' Hop G' Hb') as [R' Ho]. cbn [Adapters.send_pending eth_base].
    change (eth_base (b <| _interface := n' |> <| _interface ::= _ |>)) with (eth_base b). rewrite Eu, bindR_ok.
    eexists _, _, r, l'. split; [reflexivity|]. split; [exact R'|]. split; [exact Ho|]. split; [done|].
    intros got Eg. destruct (Hg got Eg). split; [done|]. by exists seg.
  - destruct (flush_ready l p sent b n' (eth_base b) Hop G' Hb) as [R' Ho]. rewrite eth_base_same in R' by done.
    eexists _, _, None, l. split; [reflexivity|]. by split_and!.
Qed.

Lemma eth_station_tick l p sent a ms :
  eth_ready l p sent a ->
  exists (a' : TCPOverIPv4OverEthernetAdapter) (out : list BufferList.BufferList),
    Adapters.tick ms a = ok (a', out) /\ eth_ready l p sent a' /\
    Forall (eth_packet p sent) (map BufferList.concatenate out).
Proof.
  intros (Hb&G&Hq&Hop). destruct (flush_ready l p sent a (NetworkInterface.tick ms (_interface a)) (eth_base a) Hop) as [R' Ho];
    [by apply tick_good|done|]. rewrite eth_base_same in R' by done.
  eexists _, _. split; [reflexivity|]. by split.
Qed.

Lemma eth_ready_mono l p sent sent' a : sent ⊆ sent' -> eth_ready l p sent a -> eth_ready l p sent' a.
Proof. intros Hs (Hb&G&Hq&Hop). split; [done|]. split; [by eapply good_mono|done]. Qed.

#[export] Instance eth_station : Station TCPOverIPv4OverEthernetAdapter bytes BufferList.BufferList := {
  arrival _ := BufferList.concatenate;
  ready := eth_ready;
  packet := eth_packet;
  packet_mono := eth_packet_mono;
  ready_mono := eth_ready_mono;
  station_write := eth_station_write;
  station_read := eth_station_read;
  station_tick := eth_station_tick
}.

(** An adapter with a new interface is ready. *)
Lemma new_eth_ready l p b mac my hop :
  attached l p b -> address_ok mac -> 0 <= my < 2 ^ 32 -> 0 <= hop < 2 ^ 32 ->
  eth_ready l p [] (make_ethernet_adapter b mac (ipv4_address my 0) (ipv4_address hop 0)).1.
Proof.
  intros Hb Hm Hmy Hhop. split; [done|]. split; [|split; [done|]].
  - split; try done.
    + exists my. split; [done|]. by apply ipv4_numeric_address.
    + intros ip. split; [done|]. repeat constructor; lia.
  - exists hop. split; [done|]. by apply ipv4_numeric_address.
Qed.

End Ethernet.

End EthernetStation.
