(* ===== verification/Stack.v ===== *)
(** * The stack: two connections over their adapters

    Each side is a [TCPConnection] above an adapter (tcp_connection.*, tcp_helpers/), as
    [TCPSpongeSocket] joins them: a segment of the connection's queue is written to the
    adapter, what is read from the adapter is given to the connection, and time passes
    for both. The network between the adapters loses, repeats and reorders packets. *)
From S2P Require Import Prelude Stream Wrapping Reassembler Buffers TcpSegment Receiver Sender.
From S2P Require Import Transfer Connection ConnectionStreams Handshake Peers Addresses Adapters Stations EthernetStation.

Module Stack.
Import TCPSegment TCPConnection SenderLog SenderInvariant Transfer ConnectionTheorems Peers Stations EthernetStation.

(** ** A connection sees only the content of a segment *)
Section Same.
Context (seg got : TCPSegment) (S : same_content seg got).

Lemma receiver_same r : TCPReceiver.segment_received got r = TCPReceiver.segment_received seg r.
Proof.
  destruct (S) as [Eseq Eackno Eack Erst Esyn Efin Ewin Epay]. unfold TCPReceiver.segment_received, Buffer.copy.
  by rewrite Esyn, Eseq, Efin, Epay.
Qed.

Lemma length_same : length_in_sequence_space got = length_in_sequence_space seg.
Proof. destruct (S) as [Eseq Eackno Eack Erst Esyn Efin Ewin Epay]. unfold length_in_sequence_space. by rewrite Esyn, Efin, Epay. Qed.

Lemma segment_received_same c : segment_received got c = segment_received seg c.
Proof.
  assert (forall c, deliver got c = deliver seg c) as Hd.
  { intros c'. destruct (S) as [Eseq Eackno Eack Erst Esyn Efin Ewin Epay]. unfold deliver. rewrite Eack, Eackno, Ewin.
    destruct c'. cbn -[TCPReceiver.segment_received]. by rewrite receiver_same. }
  assert (forall c, reply got c = reply seg c) as Hr.
  { intros c'. destruct (S) as [Eseq Eackno Eack Erst Esyn Efin Ewin Epay]. unfold reply. by rewrite length_same, Eseq. }
  unfold segment_received. destruct (S) as [Eseq Eackno Eack Erst Esyn Efin Ewin Epay]. rewrite Erst. cbv zeta. by rewrite Hd, Hr.
Qed.

Lemma act_same e : act (Receive got) e = act (Receive seg) e.
Proof. unfold act. cbn [step]. by rewrite segment_received_same. Qed.

Lemma handled_same e peer : handled got e peer -> handled seg e peer.
Proof.
  assert (data got = data seg /\ syn got = syn seg /\ fin got = fin seg) as (Ed&Es&Ef) by (unfold data, syn, fin; destruct (S) as [Eseq Eackno Eack Erst Esyn Efin Ewin Epay]; done).
  destruct (S) as [Eq _ _ _ _ _ _ _]. intros [Hp Hb]. split.
  - intros index a (l1&x&l2&El&[]&Hi&Ha). rewrite <- Ed, <- Es, <- Ef. apply Hp. exists l1, x, l2.
    split; [done|]. split; [|done]. split; congruence.
  - unfold bare in *. rewrite <- Ed, <- Es, <- Ef, <- Eq. exact Hb.
Qed.

End Same.

Section Stack.
Context {A In Out : Type} `{Station A In Out}.

(** [packets] is what was written along the path, as it arrives at its end. *)
Record station := mkStation {
  end_ : side;
  adapter : A;
  packets : list In
}.

Inductive event := Happens (o : op) | Send | Arrive (i : In) | Pass (ms : Z).

Definition occur (p : path) (v : event) (e : station) : result station :=
  match v with
  | Happens o => ok (mkStation (act o (end_ e)) (adapter e) (packets e))
  | Send =>
      match _segments_out (conn (end_ e)) with
      | [] => ok e
      | seg :: _ =>
          let! (a, out, _) := Adapters.write seg (adapter e) in
          ok (mkStation (act Dequeue (end_ e)) a (packets e ++ map (arrival p) out))
      end
  | Arrive i =>
      let! (a, out, r) := Adapters.read i (adapter e) in
      ok (mkStation (match r with Some seg => act (Receive seg) (end_ e) | None => end_ e end) a
            (packets e ++ map (arrival p) out))
  | Pass ms =>
      let! (a, out) := Adapters.tick ms (adapter e) in
      ok (mkStation (act (Tick ms) (end_ e)) a (packets e ++ map (arrival p) out))
  end.

(** What may happen: as for two connections, but what arrives is any packet that was
    written on the other side. With [l] the side was started by [listen_and_accept], and
    its owner can write only once a SYN has arrived. *)
Definition permitted (l : bool) (v : event) (e peer : station) : Prop :=
  match v with
  | Happens o =>
      allowed o (end_ e) (end_ peer) /\
      match o with
      | Read _ => True
      | Write _ | EndInput | Connect => l = true -> TCPReceiver._set_isn (_receiver (conn (end_ e))) = true
      | _ => False
      end
  | Send => allowed Dequeue (end_ e) (end_ peer)
  | Arrive i => i ∈ packets peer /\
      forall a out seg, Adapters.read i (adapter e) = ok (a, out, Some seg) ->
        TCPSender._next_seqno (_sender (segment_received seg (conn (end_ e)))) - acked (_sender (conn (end_ e))) < 2 ^ 31 /\
        (ByteStream.input_ended (inbound_stream (conn (end_ e))) = true \/ handled seg (end_ e) (end_ peer))
  | Pass ms => allowed (Tick ms) (end_ e) (end_ peer)
  end.

(** ** The adapter and the connection of a side *)

(** Nothing has been sent and no SYN has arrived. *)
Record idle (c : TCPConnection) : Prop := mk_idle {
  idle_out : _segments_out c = [];
  idle_isn : TCPReceiver._set_isn (_receiver c) = false;
  idle_queue : TCPSender._segments_out (_sender c) = [];
  idle_cache : TCPSender._tcp_seg_cache (_sender c) = []
}.

Lemma tick_idle ms c :
  idle c -> TCPSender.consecutive_retransmissions (TCPSender.tick ms (_sender c)) <= TCPConfig.MAX_RETX_ATTEMPTS ->
  idle (tick ms c).
Proof.
  intros [Ho Hi Hq Hc] Hm.
  assert (TCPSender._tcp_seg_cache (TCPSender.tick ms (_sender c)) = [] /\
    TCPSender._segments_out (TCPSender.tick ms (_sender c)) = []) as [Ec Eq].
  { unfold TCPSender.tick, TCPSender.remove_acked_seg. destruct (_sender c). cbn in *. by subst. }
  unfold tick. cbn -[TCPSender.tick TCPConfig.MAX_RETX_ATTEMPTS].
  destruct (Z.ltb_spec TCPConfig.MAX_RETX_ATTEMPTS
    (TCPSender.consecutive_retransmissions (TCPSender.tick ms (_sender c)))); [lia|].
  destruct (_ && _); split; cbn -[TCPSender.tick]; try done; by rewrite Ho, Eq.
Qed.

Definition linked (started : bool) (p : path) (e : station) : Prop :=
  exists l, (started = false -> l = false) /\ ready l p (wire (end_ e)) (adapter e) /\
    (l = true -> idle (conn (end_ e))) /\ Forall (packet p (wire (end_ e))) (packets e).

(** What happened at the connection. *)
Definition acted (s s' peer : side) : Prop :=
  s' = s \/ exists o, allowed o s peer /\ s' = act o s.

Lemma calm_wrappable seg : calm seg -> AdapterTheorems.wrappable seg.
Proof.
  intros (_&Hh&Hp&Hs). split; [done|]. split; [done|]. destruct Hh. unfold TCPConfig.MAX_PAYLOAD_SIZE in Hs. lia.
Qed.

Lemma packets_grow p (e : side) (l : list In) (out : list Out) sent :
  wire e ⊆ sent -> Forall (packet p (wire e)) l -> Forall (packet p sent) (map (arrival p) out) ->
  Forall (packet p sent) (l ++ map (arrival p) out).
Proof.
  intros Hs Hl Ho. apply Forall_app. split; [|done]. eapply Forall_impl; [exact Hl|]. intros i. by apply packet_mono.
Qed.

Section Side.
Context (started started' : bool) (p : path) (e peer : station).
Context (L : linked started p e) (L' : linked started' (back p) peer).

Lemma happens_linked o :
  permitted started (Happens o) e peer ->
  exists e', occur p (Happens o) e = ok e' /\ linked started p e' /\ acted (end_ e) (end_ e') (end_ peer).
Proof.
  intros [Ha Ho]. eexists. split; [reflexivity|]. split; [|by right; exists o].
  destruct L as (l&Hl&Hr&Hi&Hp). exists l. cbn [end_ adapter packets].
  assert (wire (act o (end_ e)) = wire (end_ e)) as -> by (by destruct o). split; [done|]. split; [done|].
  split; [|done]. intros ->. destruct (Hi eq_refl) as [Hio Hii Hiq Hic]. destruct started; [|by specialize (Hl eq_refl)].
  destruct o; try done; specialize (Ho eq_refl); congruence.
Qed.

Lemma send_linked :
  Forall calm (_segments_out (conn (end_ e))) -> permitted started Send e peer ->
  exists e', occur p Send e = ok e' /\ linked started p e' /\ acted (end_ e) (end_ e') (end_ peer).
Proof.
  intros Hc Ha. unfold occur. destruct (_segments_out (conn (end_ e))) as [|seg q] eqn:Eq.
  { exists e. split; [done|]. split; [done|]. by left. }
  destruct L as (l&Hl&Hr&Hi&Hp). destruct l; [by destruct (Hi eq_refl); congruence|].
  apply Forall_cons in Hc as [Hc _].
  destruct (station_write _ _ _ _ Hr (calm_wrappable _ Hc)) as (a'&out&seg'&->&Hr'&Ho).
  rewrite bindR_ok. eexists. split; [reflexivity|]. split; [|right; by exists Dequeue].
  exists false. cbn [end_ adapter packets act wire]. rewrite Eq. cbn [take].
  split; [done|]. split; [done|]. split; [done|]. apply packets_grow with (e := end_ e); [set_solver|done|done].
Qed.

Lemma arrive_linked i :
  permitted started (Arrive i) e peer ->
  exists e', occur p (Arrive i) e = ok e' /\ linked started p e' /\ acted (end_ e) (end_ e') (end_ peer).
Proof.
  intros [Hin Hh]. destruct L as (l&Hl&Hr&Hi&Hp), L' as (_&_&_&_&Hp'). rewrite Forall_forall in Hp'.
  destruct (station_read _ _ _ _ _ _ Hr (Hp' i Hin)) as (a'&out&r&l'&E&Hr'&Ho&Hll&Hg).
  unfold occur. rewrite E, bindR_ok. eexists. split; [reflexivity|]. destruct r as [got|].
  - destruct (Hg got eq_refl) as (->&seg&Hseg&S). rewrite (act_same seg got S). destruct (Hh _ _ _ E) as [Hn Hx].
    rewrite (segment_received_same seg got S) in Hn. split.
    + exists false. cbn [end_ adapter packets]. rewrite wire_act by done. split; [done|]. split; [done|].
      split; [done|]. by apply packets_grow with (e := end_ e).
    + right. exists (Receive seg). split; [|done]. split; [exact Hn|]. split; [done|].
      destruct Hx as [?|Hx]; [by left|right]. by eapply handled_same.
  - split; [|by left]. exists l'. cbn [end_ adapter packets]. split; [auto|]. split; [done|].
    split; [|by apply packets_grow with (e := end_ e)]. intros ->. apply Hi. destruct l; [done|]. by specialize (Hll eq_refl).
Qed.

Lemma pass_linked ms :
  permitted started (Pass ms) e peer ->
  exists e', occur p (Pass ms) e = ok e' /\ linked started p e' /\ acted (end_ e) (end_ e') (end_ peer).
Proof.
  intros Ha. destruct L as (l&Hl&Hr&Hi&Hp). destruct (station_tick _ _ _ _ ms Hr) as (a'&out&E&Hr'&Ho).
  unfold occur. rewrite E, bindR_ok. eexists. split; [reflexivity|]. split; [|right; by exists (Tick ms)].
  exists l. split; [done|]. split; [done|]. split; [|by apply packets_grow with (e := end_ e)].
  intros Hlt. apply tick_idle; [auto|]. apply Ha.
Qed.

Lemma occur_linked v :
  Forall calm (_segments_out (conn (end_ e))) -> permitted started v e peer ->
  exists e', occur p v e = ok e' /\ linked started p e' /\ acted (end_ e) (end_ e') (end_ peer).
Proof.
  destruct v; intros Hc; [apply happens_linked|by apply send_linked|apply arrive_linked|apply pass_linked].
Qed.

End Side.

(** ** Both sides *)
Section Run.
Context (p : path) (la lb : bool) (ra rb : Z) (ca cb : TCPConfig.TCPConfig) (a0 b0 : A).

(** From adapters that are ready on both ends of the path, connected or listening. *)
Inductive reached : station -> station -> Prop :=
  | reached_start : reached (mkStation (make_side ra ca) a0 []) (mkStation (make_side rb cb) b0 [])
  | reached_left a b v a' :
      reached a b -> permitted la v a b -> occur p v a = ok a' -> reached a' b
  | reached_right a b v b' :
      reached a b -> permitted lb v b a -> occur (back p) v b = ok b' -> reached a b'.

Context (Ha : Handshake.config_ok ra ca) (Hb : Handshake.config_ok rb cb).
Context (Ra : ready la p [] a0) (Rb : ready lb (back p) [] b0).

Lemma start_linked l q r c (x : A) : ready l q [] x -> linked l q (mkStation (make_side r c) x []).
Proof. intros Hr. exists l. by split_and!. Qed.

Lemma acted_reached (a b a' : side) :
  Peers.reached ra rb ca cb a b -> acted a a' b -> Peers.reached ra rb ca cb a' b.
Proof. intros R [->|(o&Ho&->)]; [done|by apply Peers.reached_left]. Qed.
Lemma acted_reached' (a b b' : side) :
  Peers.reached ra rb ca cb a b -> acted b b' a -> Peers.reached ra rb ca cb a b'.
Proof. intros R [->|(o&Ho&->)]; [done|by apply Peers.reached_right]. Qed.

Lemma left_occurs a b v :
  Peers.reached ra rb ca cb (end_ a) (end_ b) -> linked la p a -> linked lb (back p) b -> permitted la v a b ->
  exists a', occur p v a = ok a' /\ linked la p a' /\ acted (end_ a) (end_ a') (end_ b).
Proof.
  intros R La Lb. apply (occur_linked la lb); [done|done|].
  destruct (reached_calm _ _ _ _ Ha Hb _ _ R) as [Hc _]. by apply Forall_app in Hc as [? _].
Qed.
Lemma right_occurs a b v :
  Peers.reached ra rb ca cb (end_ a) (end_ b) -> linked la p a -> linked lb (back p) b -> permitted lb v b a ->
  exists b', occur (back p) v b = ok b' /\ linked lb (back p) b' /\ acted (end_ b) (end_ b') (end_ a).
Proof.
  intros R La Lb. apply (occur_linked lb la); [done|by rewrite back_back|].
  destruct (reached_calm _ _ _ _ Ha Hb _ _ R) as [_ Hc]. by apply Forall_app in Hc as [? _].
Qed.

(** Simulation: the connections of the stack do what two connections alone may do. *)
Lemma stack_simulates a b :
  reached a b -> Peers.reached ra rb ca cb (end_ a) (end_ b) /\ linked la p a /\ linked lb (back p) b.
Proof.
  induction 1 as [|a b v a' _ (R&La&Lb) Hv E|a b v b' _ (R&La&Lb) Hv E].
  - split; [constructor|]. split; by apply start_linked.
  - destruct (left_occurs a b v R La Lb Hv) as (a1&E1&L1&Hact). rewrite E in E1. unfold ok in E1. injection E1 as <-.
    split; [by eapply acted_reached|done].
  - destruct (right_occurs a b v R La Lb Hv) as (b1&E1&L1&Hact). rewrite E in E1. unfold ok in E1. injection E1 as <-.
    split; [by eapply acted_reached'|done].
Qed.

(** C1. Two connections talk over adapters of any kind that keeps the contract of a
    station - TUN, UDP, Ethernet, or one that drops packets at random above these - and a network
    that loses, repeats and reorders packets; one side may have been listening. Whatever
    may happen next happens without an exception in the adapters, and at every moment
    what each application has read and can read is a prefix of what the other wrote, and
    all of it when the stream has ended.

    What may happen ([permitted]) is limited as for two connections ([handled] and [allowed] of
    Peers): as long as the stream has not ended, no packet with a segment without data (an ACK
    or a FIN alone) arrives ahead of bytes that are still missing, none with a repeated SYN that
    has data or FIN, and none 2^31 or more away, which the receiver accepts and mishandles
    ([overtaking_fin_truncates], [empty_piece_duplicates]); neither side gives up after more than
    eight retransmissions or is destroyed, so that there is no RST; less than 2^31 is in
    flight and less than 2^62 bytes are written. *)
Theorem stack_delivers a b :
  reached a b ->
  delivered (end_ a) (end_ b) /\ delivered (end_ b) (end_ a) /\
  (forall v, permitted la v a b -> exists a', occur p v a = ok a') /\
  (forall v, permitted lb v b a -> exists b', occur (back p) v b = ok b').
Proof.
  intros (R&La&Lb)%stack_simulates. destruct (reached_delivered _ _ _ _ Ha Hb _ _ R) as [? ?].
  split; [done|]. split; [done|]. split; intros v Hv.
  - destruct (left_occurs a b v R La Lb Hv) as (a'&?&_). by exists a'.
  - destruct (right_occurs a b v R La Lb Hv) as (b'&?&_). by exists b'.
Qed.

End Run.

(** ** Runs that are checked step by step *)
Definition permittedb (l : bool) (v : event) (e peer : station) : bool :=
  match v with
  | Happens o =>
      allowedb o (end_ e) (end_ peer) &&
      match o with
      | Read _ => true
      | Write _ | EndInput | Connect => negb l || TCPReceiver._set_isn (_receiver (conn (end_ e)))
      | _ => false
      end
  | Send => allowedb Dequeue (end_ e) (end_ peer)
  | Arrive i =>
      match Adapters.read i (adapter e) with
      | inr (_, _, Some seg) =>
          (TCPSender._next_seqno (_sender (segment_received seg (conn (end_ e)))) -
             acked (_sender (conn (end_ e))) <? 2 ^ 31) && handledb seg (end_ e) (end_ peer)
      | _ => true
      end
  | Pass ms => allowedb (Tick ms) (end_ e) (end_ peer)
  end.

Lemma permittedb_ok l v e peer :
  (forall i, v = Arrive i -> i ∈ packets peer) -> permittedb l v e peer = true -> permitted l v e peer.
Proof.
  intros Hi. destruct v as [o| |i|ms]; cbn [permittedb permitted]; [|apply allowedb_ok| |apply allowedb_ok].
  - intros [Ha%allowedb_ok Ho]%andb_true_iff. split; [done|]. destruct o; try done;
      intros ->; by destruct (TCPReceiver._set_isn _).
  - intros Hb. split; [by apply Hi|]. intros a out seg E. rewrite E in Hb. cbn in Hb.
    apply andb_true_iff in Hb as [Hn%Z.ltb_lt Hh%handledb_ok]. split; [exact Hn|by right].
Qed.

(** A move: something happens, or packet number [n] of the other side arrives. *)
Inductive move := Do (v : event) | Take (n : nat).
Definition move_event (m : move) (peer : station) : option event :=
  match m with
  | Do (Arrive _) => None
  | Do v => Some v
  | Take n => Arrive <$> packets peer !! n
  end.
Definition make_move (l : bool) (p : path) (m : move) (e peer : station) : option station :=
  match move_event m peer with
  | Some v => if permittedb l v e peer then match occur p v e with inr e' => Some e' | inl _ => None end else None
  | None => None
  end.

Lemma make_move_ok l p m e peer e' :
  make_move l p m e peer = Some e' -> exists v, permitted l v e peer /\ occur p v e = ok e'.
Proof.
  unfold make_move. destruct (move_event m peer) as [v|] eqn:Ev; [|done].
  destruct (permittedb l v e peer) eqn:Hp; [|done]. destruct (occur p v e) as [|e1] eqn:E; [done|]. intros [= ->].
  exists v. split; [|done]. apply permittedb_ok; [|done]. intros i ->. destruct m as [w|n]; cbn in Ev.
  - by destruct w.
  - destruct (packets peer !! n) as [j|] eqn:Ej; [|done]. cbn in Ev. simplify_eq. by eapply list_elem_of_lookup_2.
Qed.

Fixpoint play (la lb : bool) (p : path) (l : list (bool * move)) (a b : station) : option (station * station) :=
  match l with
  | [] => Some (a, b)
  | (true, m) :: l => match make_move la p m a b with Some a => play la lb p l a b | None => None end
  | (false, m) :: l => match make_move lb (back p) m b a with Some b => play la lb p l a b | None => None end
  end.

Lemma moves_reached p la lb ra rb ca cb a0 b0 l a b a' b' :
  reached p la lb ra rb ca cb a0 b0 a b -> play la lb p l a b = Some (a', b') ->
  reached p la lb ra rb ca cb a0 b0 a' b'.
Proof.
  revert a b. induction l as [|[[] m] l IH]; intros a b R E; cbn [play] in E; [by simplify_eq| |].
  - destruct (make_move la p m a b) as [a1|] eqn:Em; [|done]. apply make_move_ok in Em as (v&?&?).
    eapply IH; [|exact E]. by eapply reached_left.
  - destruct (make_move lb (back p) m b a) as [b1|] eqn:Em; [|done]. apply make_move_ok in Em as (v&?&?).
    eapply IH; [|exact E]. by eapply reached_right.
Qed.

End Stack.

(** ** A run over lossy TUN adapters: the first SYN is dropped and sent again, the
    listening side accepts it, and three bytes arrive of which two are read. *)
Module Demo.
Import NumericResolver Run.

(** The random numbers: 0, which is below the loss rate, and then the highest. *)
Definition next (g : Z) : Z * Z := (if g =? 0 then 0 else 65535, g + 1).
#[local] Instance adapter_here : Adapter (LossyFdAdapter Z TCPOverIPv4OverTunFdAdapter) bytes BufferList.BufferList :=
  lossy_adapter next.
#[local] Instance station_here : Station (LossyFdAdapter Z TCPOverIPv4OverTunFdAdapter) bytes BufferList.BufferList :=
  lossy_station next.

Definition base (listen : bool) (ip p ip' p' : Z) : FdAdapterBase.FdAdapterBase :=
  FdAdapterBase.mkFdAdapterBase (mkFdAdapterConfig (AddressTheorems.ipv4_address ip p) (AddressTheorems.ipv4_address ip' p') 0 1) listen.
Definition client : LossyFdAdapter Z TCPOverIPv4OverTunFdAdapter := mkLossy 0 (mkTunAdapter (base false 1 4000 2 80)).
Definition server : LossyFdAdapter Z TCPOverIPv4OverTunFdAdapter := mkLossy 1 (mkTunAdapter (base true 0 80 0 0)).
Definition line : path := mkPath 1 4000 2 80.

Definition moves : list (bool * move (In := bytes)) :=
  [(true, Do (Happens Connect)); (true, Do Send); (true, Do (Pass 1000)); (true, Do Send); (false, Take 0);
   (false, Do Send); (true, Take 0); (true, Do (Happens (Write [x01; x02; x03]))); (true, Do Send); (true, Do Send);
   (false, Take 1); (false, Take 2); (false, Do (Happens (Read 2)))].
Abbreviation demo_run := (play false true line moves (mkStation (make_side 5 small) client [])
  (mkStation (make_side 9 small) server [])).

Lemma stack_delivers_witness :
  exists a b, demo_run = Some (a, b) /\ length (wire (end_ a)) = 4%nat /\ length (packets a) = 3%nat /\
    consumed (end_ b) = [x01; x02] /\ written (end_ a) = [x01; x02; x03] /\
    delivered (end_ a) (end_ b) /\ delivered (end_ b) (end_ a).
Proof.
  assert (option_map (fun '(x, y) => (length (wire (end_ x)), length (packets x), consumed (end_ y), written (end_ x)))
    demo_run = Some (4%nat, 3%nat, [x01; x02], [x01; x02; x03])) as F by (vm_compute; reflexivity).
  destruct demo_run as [[a b]|] eqn:E; [|discriminate F]. exists a, b. split; [reflexivity|].
  injection F as -> -> -> ->. do 4 (split; [reflexivity|]).
  destruct (stack_delivers line false true 5 9 small small client server) with (a := a) (b := b) as (Hd&Hd'&_).
  - by repeat split.
  - by repeat split.
  - by repeat split.
  - split; [by repeat split|]. split; [reflexivity|]. exists 0. split; [lia|reflexivity].
  - eapply moves_reached; [apply reached_start|exact E].
  - split; [exact Hd|exact Hd'].
Defined.

(** The same over Ethernet: the client asks for the server's address, and its SYN leaves
    when the answer arrives. *)
Definition eth_client : TCPOverIPv4OverEthernetAdapter :=
  (make_ethernet_adapter (base false 1 4000 2 80) [2; 0; 0; 0; 0; 1]
     (AddressTheorems.ipv4_address 1 0) (AddressTheorems.ipv4_address 2 0)).1.
Definition eth_server : TCPOverIPv4OverEthernetAdapter :=
  (make_ethernet_adapter (base true 0 80 0 0) [2; 0; 0; 0; 0; 2]
     (AddressTheorems.ipv4_address 2 0) (AddressTheorems.ipv4_address 1 0)).1.
Definition eth_moves : list (bool * move (In := bytes)) :=
  [(true, Do (Happens Connect)); (true, Do Send); (false, Take 0); (true, Take 0); (false, Take 1);
   (false, Do Send); (true, Take 1); (true, Do (Happens (Write [x01; x02; x03]))); (true, Do Send); (true, Do Send);
   (false, Take 2); (false, Take 3); (false, Do (Happens (Read 2)))].

Abbreviation eth_run := (play false true line eth_moves (mkStation (make_side 5 small) eth_client [])
  (mkStation (make_side 9 small) eth_server [])).

Lemma eth_ends_ready : ready false line [] eth_client /\ ready true (back line) [] eth_server.
Proof.
  split; (apply new_eth_ready; [|split; [done|]; repeat constructor; lia|lia|lia]); [by repeat split|].
  split; [by repeat split|]. split; [reflexivity|]. exists 0. split; [lia|reflexivity].
Qed.

Lemma ethernet_run :
  exists a b, reached line false true 5 9 small small eth_client eth_server a b /\
    ready false line [] eth_client /\ ready true (back line) [] eth_server /\
    length (packets a) = 4%nat /\ consumed (end_ b) = [x01; x02].
Proof.
  assert (option_map (fun '(x, y) => (length (packets x), consumed (end_ y))) eth_run = Some (4%nat, [x01; x02])) as F
    by (vm_compute; reflexivity).
  destruct eth_run as [[a b]|] eqn:E; [|discriminate F]. exists a, b.
  split; [eapply moves_reached; [apply reached_start|exact E]|]. clear E. injection F as -> ->.
  split; [apply eth_ends_ready|]. split; [apply eth_ends_ready|]. by split.
Qed.

End Demo.

End Stack.
