(* ===== verification/Socket.v ===== *)
(** * [Socket] and the devices (libsponge/util/socket.*, util/tun.*; socket_pair_helper
    of tcp_helpers/tcp_sponge_socket.cc)

    The socket classes are [FDWrapper]s with more system calls, those of the class
    [SocketKernel]. The subclasses differ in the domain and type they open with. *)
From S2P Require Import Prelude Buffers Addresses Descriptor Adapters.

Definition AF_UNIX : Z := 1.
Definition SOCK_STREAM : Z := 1.
Definition SOCK_DGRAM : Z := 2.
Definition SOL_SOCKET : Z := 1.
Definition SO_REUSEADDR : Z := 2.
Definition SO_TYPE : Z := 3.
Definition SO_DOMAIN : Z := 39.
Definition SHUT_RD : Z := 0.
Definition SHUT_WR : Z := 1.
Definition SHUT_RDWR : Z := 2.
Definition sizeof_int : Z := 4.

(** Every call gives the return value and [errno] first. An address goes to the kernel
    as an [Address], and comes back as the bytes and the size written. *)
Class SocketKernel (K : Type) := {
  k_socket : Z -> Z -> K -> Z * Z * K;
  k_socketpair : Z -> Z -> K -> Z * Z * (Z * Z) * K;
  (** level and option; the value and its length *)
  k_getsockopt : Z -> Z -> Z -> K -> Z * Z * (Z * Z) * K;
  k_setsockopt : Z -> Z -> Z -> Z -> K -> Z * Z * K;
  k_getsockname : Z -> K -> Z * Z * (bytes * Z) * K;
  k_getpeername : Z -> K -> Z * Z * (bytes * Z) * K;
  k_bind : Z -> Address.Address -> K -> Z * Z * K;
  k_connect : Z -> Address.Address -> K -> Z * Z * K;
  k_shutdown : Z -> Z -> K -> Z * Z * K;
  k_listen : Z -> Z -> K -> Z * Z * K;
  k_accept : Z -> K -> Z * Z * K;
  (** with [MSG_TRUNC]: the length of the datagram, what fitted of it, its source *)
  k_recvfrom : Z -> Z -> K -> Z * Z * bytes * (bytes * Z) * K;
  k_sendmsg : Z -> option Address.Address -> list (bytes * Z) -> K -> Z * Z * K;
  k_open : bytes -> K -> Z * Z * K;
  (** [TUNSETIFF] with the [ifreq]'s flags and name *)
  k_tunsetiff : Z -> Z -> bytes -> K -> Z * Z * K
}.

Module Socket.
Import FileDescriptor.

Section Calls.
Context {K : Type} `{Kernel K} `{SocketKernel K}.

(** [Socket(domain, type)] *)
Definition make (domain type : Z) (k : K) : result (FDWrapper * K) :=
  let '(r, errno, k) := k_socket domain type k in
  let! fd := SystemCall "socket" r errno 0 in
  let! w := FileDescriptor.make fd in
  ok (w, k).

(** One of the two checks of [Socket(fd, domain, type)]. *)
Definition verify (option expected : Z) (mismatch : string) (s : FDWrapper * K)
    : result (FDWrapper * K) :=
  let (w, k) := s in
  let '(r, errno, (actual_value, len), k) := k_getsockopt (fd_num w) SOL_SOCKET option k in
  let! _ := SystemCall "getsockopt" r errno 0 in
  if negb (len =? sizeof_int) || negb (actual_value =? expected)
  then throw (runtime_error mismatch) else ok (w, k).
Definition of_fd (domain type : Z) (s : FDWrapper * K) : result (FDWrapper * K) :=
  let! s := verify SO_DOMAIN domain "socket domain mismatch" s in
  verify SO_TYPE type "socket type mismatch" s.

Definition get_address (name_of_function : string)
    (function : Z -> K -> Z * Z * (bytes * Z) * K) (s : FDWrapper * K)
    : result (Address.Address * (FDWrapper * K)) :=
  let (w, k) := s in
  let '(r, errno, (address, size), k) := function (fd_num w) k in
  let! _ := SystemCall name_of_function r errno 0 in
  let! a := Address.of_sockaddr address size in
  ok (a, (w, k)).
Definition local_address (s : FDWrapper * K) := get_address "getsockname" k_getsockname s.
Definition peer_address (s : FDWrapper * K) := get_address "getpeername" k_getpeername s.

Definition bind (address : Address.Address) (s : FDWrapper * K) : result (FDWrapper * K) :=
  let (w, k) := s in
  let '(r, errno, k) := k_bind (fd_num w) address k in
  let! _ := SystemCall "bind" r errno 0 in ok (w, k).

Definition connect (address : Address.Address) (s : FDWrapper * K) : result (FDWrapper * K) :=
  let (w, k) := s in
  let '(r, errno, k) := k_connect (fd_num w) address k in
  let! _ := SystemCall "connect" r errno 0 in ok (w, k).

Definition shutdown (how : Z) (s : FDWrapper * K) : result (FDWrapper * K) :=
  let (w, k) := s in
  let '(r, errno, k) := k_shutdown (fd_num w) how k in
  let! _ := SystemCall "shutdown" r errno 0 in
  if how =? SHUT_RD then ok (register_read w, k)
  else if how =? SHUT_WR then ok (register_write w, k)
  else if how =? SHUT_RDWR then ok (register_write (register_read w), k)
  else throw (runtime_error "Socket::shutdown() called with invalid `how`").

Definition setsockopt (level option option_value : Z) (s : FDWrapper * K) : result (FDWrapper * K) :=
  let (w, k) := s in
  let '(r, errno, k) := k_setsockopt (fd_num w) level option option_value k in
  let! _ := SystemCall "setsockopt" r errno 0 in ok (w, k).
Definition set_reuseaddr (s : FDWrapper * K) : result (FDWrapper * K) :=
  setsockopt SOL_SOCKET SO_REUSEADDR (Z_of_bool true) s.

End Calls.
End Socket.

Module UDPSocket.
Import FileDescriptor.

Section Calls.
Context {K : Type} `{Kernel K} `{SocketKernel K}.

Definition make (k : K) : result (FDWrapper * K) := Socket.make Address.AF_INET SOCK_DGRAM k.
Definition of_fd (s : FDWrapper * K) : result (FDWrapper * K) :=
  Socket.of_fd Address.AF_INET SOCK_DGRAM s.

Definition default_mtu : Z := 65536.

Definition recv (mtu : Z) (s : FDWrapper * K) : result (received_datagram * (FDWrapper * K)) :=
  let (w, k) := s in
  let '(r, errno, data, (address, fromlen), k) := k_recvfrom (fd_num w) mtu k in
  let! recv_len := SystemCall "recvfrom" r errno 0 in
  if mtu <? recv_len then throw (runtime_error "recvfrom (oversized datagram)")
  else
    let w := register_read w in
    let! source_address := Address.of_sockaddr address fromlen in
    ok (mkReceivedDatagram source_address (resize recv_len data), (w, k)).

Definition sendmsg_helper (fd_num : Z) (destination : option Address.Address)
    (payload : BufferViewList.BufferViewList) (k : K) : result K :=
  let '(r, errno, k) := k_sendmsg fd_num destination (BufferViewList.as_iovecs payload) k in
  let! bytes_sent := SystemCall "sendmsg" r errno 0 in
  if negb (bytes_sent =? BufferViewList.size payload)
  then throw (runtime_error "datagram payload too big for sendmsg()") else ok k.

Definition sendto (destination : Address.Address) (payload : BufferViewList.BufferViewList)
    (s : FDWrapper * K) : result (FDWrapper * K) :=
  let (w, k) := s in
  let! k := sendmsg_helper (fd_num w) (Some destination) payload k in
  ok (register_write w, k).

Definition send (payload : BufferViewList.BufferViewList) (s : FDWrapper * K)
    : result (FDWrapper * K) :=
  let (w, k) := s in
  let! k := sendmsg_helper (fd_num w) None payload k in
  ok (register_write w, k).

End Calls.
End UDPSocket.

Module TCPSocket.
Import FileDescriptor.

Section Calls.
Context {K : Type} `{Kernel K} `{SocketKernel K}.

Definition make (k : K) : result (FDWrapper * K) := Socket.make Address.AF_INET SOCK_STREAM k.
Definition of_fd (s : FDWrapper * K) : result (FDWrapper * K) :=
  Socket.of_fd Address.AF_INET SOCK_STREAM s.

Definition listen (backlog : Z) (s : FDWrapper * K) : result (FDWrapper * K) :=
  let (w, k) := s in
  let '(r, errno, k) := k_listen (fd_num w) backlog k in
  let! _ := SystemCall "listen" r errno 0 in ok (w, k).

(** The new socket, and the listening one. *)
Definition accept (s : FDWrapper * K) : result (FDWrapper * (FDWrapper * K)) :=
  let (w, k) := s in
  let w := register_read w in
  let '(r, errno, k) := k_accept (fd_num w) k in
  let! fd := SystemCall "accept" r errno 0 in
  let! new := FileDescriptor.make fd in
  let! (new, k) := of_fd (new, k) in
  ok (new, (w, k)).

End Calls.
End TCPSocket.

Module LocalStreamSocket.
Import FileDescriptor.

Section Calls.
Context {K : Type} `{Kernel K} `{SocketKernel K}.

Definition of_fd (s : FDWrapper * K) : result (FDWrapper * K) := Socket.of_fd AF_UNIX SOCK_STREAM s.

Definition socket_pair_helper (type : Z) (k : K) : result (FDWrapper * FDWrapper * K) :=
  let '(r, errno, (fd0, fd1), k) := k_socketpair AF_UNIX type k in
  let! _ := SystemCall "socketpair" r errno 0 in
  let! w0 := FileDescriptor.make fd0 in
  let! w1 := FileDescriptor.make fd1 in
  ok (w0, w1, k).

End Calls.
End LocalStreamSocket.

Module TunTapFD.
Import FileDescriptor.

Definition CLONEDEV : bytes := bytes_of_string "/dev/net/tun".
Definition IFF_TUN : Z := 1.
Definition IFF_TAP : Z := 2.
Definition IFF_NO_PI : Z := 4096.
Definition IFNAMSIZ : Z := 16.

(** [strncpy]: up to [n] bytes of the string before its first zero, padded with zeros. *)
Fixpoint strncpy (n : nat) (src : bytes) : bytes :=
  match n, src with
  | O, _ => []
  | S n, [] => x00 :: strncpy n []
  | S n, c :: src => if bool_decide (c = x00) then replicate (S n) x00 else c :: strncpy n src
  end.

(** [ifr_name]: the copy, and the last byte. *)
Definition ifr_name (devname : bytes) : bytes :=
  strncpy (Z.to_nat (IFNAMSIZ - 1)) devname ++ [x00].

Section Calls.
Context {K : Type} `{SocketKernel K}.

Definition make (devname : bytes) (is_tun : bool) (k : K) : result (FDWrapper * K) :=
  let '(r, errno, k) := k_open CLONEDEV k in
  let! fd := SystemCall "open" r errno 0 in
  let! w := FileDescriptor.make fd in
  let ifr_flags := Z.lor (if is_tun then IFF_TUN else IFF_TAP) IFF_NO_PI in
  let '(r, errno, k) := k_tunsetiff (fd_num w) ifr_flags (ifr_name devname) k in
  let! _ := SystemCall "ioctl" r errno 0 in
  ok (w, k).
Definition TunFD (devname : bytes) (k : K) : result (FDWrapper * K) := make devname true k.
Definition TapFD (devname : bytes) (k : K) : result (FDWrapper * K) := make devname false k.

End Calls.
End TunTapFD.
