(* ===== verification/EventLoop.v ===== *)
(** * [EventLoop] (libsponge/util/eventloop.* )

    The rules an application registers and the call that polls their descriptors. The
    state [St] is all that the callbacks can reach, the descriptors included: a rule
    holds a duplicate of a descriptor, which shares its [FDWrapper], so its [fd] is an
    accessor of the state. *)
From S2P Require Import Prelude Descriptor.

Module EventLoop.
Import FileDescriptor.

Definition POLLIN : Z := 1.
Definition POLLOUT : Z := 4.
Definition POLLERR : Z := 8.
Definition POLLHUP : Z := 16.
Definition POLLNVAL : Z := 32.
Definition EINTR : Z := 4.

Inductive Direction := In | Out.
#[export] Instance Direction_eq_dec : EqDecision Direction.
Proof. solve_decision. Defined.

(** [static_cast<short>(direction)] *)
Definition events_of (d : Direction) : Z := match d with In => POLLIN | Out => POLLOUT end.

Inductive Result := Success | Timeout | Exit.

(** A [pollfd] as given to [poll]; [revents] is in what [poll] returns. *)
Record pollfd := mkPollfd { poll_fd : Z; events : Z }.

(** [poll] gives the return value, [errno] and the [revents] of each index. *)
Class Poll (St : Type) := poll : list pollfd -> Z -> St -> Z * Z * (nat -> Z) * St.

Section Loop.
Context {St : Type}.

Record Rule := mkRule {
  fd : St -> FDWrapper;
  direction : Direction;
  callback : St -> result St;
  interest : St -> bool;
  cancel : St -> result St
}.

Definition service_count (r : Rule) (s : St) : Z :=
  match direction r with In => read_count (fd r s) | Out => write_count (fd r s) end.

Definition add_rule (fd : St -> FDWrapper) (direction : Direction) (callback : St -> result St)
    (interest : St -> bool) (cancel : St -> result St) (rules : list Rule) : list Rule :=
  rules ++ [mkRule fd direction callback interest cancel].

(** The default arguments of [add_rule]. *)
Definition always : St -> bool := fun _ => true.
Definition nothing : St -> result St := fun s => ok s.

(** The first loop: the rules that are left with their [pollfd]s, and
    [something_to_poll]. *)
Fixpoint set_up (rules : list Rule) (s : St) : result (list (Rule * pollfd) * bool * St) :=
  match rules with
  | [] => ok ([], false, s)
  | this_rule :: rest =>
      let this_fd := fd this_rule s in
      if bool_decide (direction this_rule = In) && eof this_fd then
        let! s := cancel this_rule s in set_up rest s
      else if closed this_fd then
        let! s := cancel this_rule s in set_up rest s
      else
        let interested := interest this_rule s in
        let p := mkPollfd (fd_num this_fd) (if interested then events_of (direction this_rule) else 0) in
        let! (ps, something_to_poll, s) := set_up rest s in
        ok ((this_rule, p) :: ps, interested || something_to_poll, s)
  end.

Definition polled_error : exception := runtime_error "EventLoop: error on polled file descriptor".
Definition busy_wait : exception := runtime_error
  "EventLoop: busy wait detected: callback did not read/write fd and is still interested".

(** The call of a ready rule's callback, and the check behind it. *)
Definition call (this_rule : Rule) (s : St) : result St :=
  let count_before := service_count this_rule s in
  let! s := callback this_rule s in
  if (count_before =? service_count this_rule s) && interest this_rule s
  then throw busy_wait else ok s.

(** The second loop, from index [idx] on: the rules that are left. *)
Fixpoint serve (revents : nat -> Z) (idx : nat) (ps : list (Rule * pollfd)) (s : St)
    : result (list Rule * St) :=
  match ps with
  | [] => ok ([], s)
  | (this_rule, this_pollfd) :: rest =>
      let rev := revents idx in
      if bool_of_Z (Z.land rev (Z.lor POLLERR POLLNVAL)) then throw polled_error
      else
        let poll_ready := bool_of_Z (Z.land rev (events this_pollfd)) in
        let poll_hup := bool_of_Z (Z.land rev POLLHUP) in
        if poll_hup && bool_of_Z (events this_pollfd) && negb poll_ready then
          let! s := cancel this_rule s in serve revents (S idx) rest s
        else
          let! s := if poll_ready then call this_rule s else ok s in
          let! (rules, s) := serve revents (S idx) rest s in
          ok (this_rule :: rules, s)
  end.

(** An error of [poll] other than [EINTR] is caught and the results are gone through. *)
Definition wait_next_event `{Poll St} (timeout_ms : Z) (rules : list Rule) (s : St)
    : result (Result * list Rule * St) :=
  let! (ps, something_to_poll, s) := set_up rules s in
  if negb something_to_poll then ok (Exit, map fst ps, s)
  else
    let '(r, errno, revents, s) := poll (map snd ps) timeout_ms s in
    match SystemCall "poll" r errno 0 with
    | inr 0 => ok (Timeout, map fst ps, s)
    | inl (tagged_error _ _ code) =>
        if code =? EINTR then ok (Exit, map fst ps, s)
        else let! (rules, s) := serve revents 0 ps s in ok (Success, rules, s)
    | _ => let! (rules, s) := serve revents 0 ps s in ok (Success, rules, s)
    end.

End Loop.
Arguments Rule : clear implicits.
End EventLoop.

(** ** What the loop guarantees *)
Module EventLoopTheorems.
Import FileDescriptor EventLoop.

(** *** Contracts

    The rules are named by [ix]. [I l] is an invariant of the state while the rules [l]
    are installed, and [Pre i] what the callback of rule [i] may rely on besides: it holds
    when the rule is polled, and nothing but the rule itself can undo it. [Idle i] is what
    is known of a rule that was not interested; the cancellation of a later rule, which may
    follow in the same call, leaves it. *)
Section Contract.
Context {St ix : Type} `{Poll St} (rule_of : ix -> Rule St).
Context (I : list ix -> St -> Prop) (Pre Idle : ix -> St -> Prop) (E : exception -> Prop).

(** What the callbacks of the other rules rely on is left. *)
Definition spared (i : ix) (s s' : St) : Prop := forall j, j <> i -> Pre j s -> Pre j s'.

(** A rule that is not cancelled before the poll. *)
Definition open (i : ix) (s : St) : Prop :=
  (direction (rule_of i) = In -> eof (fd (rule_of i) s) = false) /\ closed (fd (rule_of i) s) = false.

Record contract : Prop := mk_contract {
  con_interest : forall l i s, i ∈ l -> I l s -> open i s ->
    if interest (rule_of i) s then Pre i s else Idle i s;
  con_poll : forall l ps t s r errno revents s', I l s -> poll ps t s = (r, errno, revents, s') ->
    I l s' /\ forall i, Pre i s -> Pre i s';
  con_cancel : forall l1 i l2 s, I (l1 ++ i :: l2) s ->
    outcome E (fun s' => I (l1 ++ l2) s' /\ spared i s s' /\ forall j, j ∈ l1 -> Idle j s -> Idle j s')
      (cancel (rule_of i) s);
  con_callback : forall l i s, i ∈ l -> I l s -> Pre i s ->
    outcome E (fun s' => I l s' /\ spared i s s' /\
      (service_count (rule_of i) s <> service_count (rule_of i) s' \/
       interest (rule_of i) s' = false)) (callback (rule_of i) s)
}.

(** A state in which [poll] was interrupted by a signal. *)
Definition interrupted (s' : St) : Prop :=
  exists ps t s r revents, r < 0 /\ poll ps t s = (r, EINTR, revents, s').

(** When the rules keep a contract, a call of [wait_next_event] keeps the invariant,
    only takes rules away, never reports a busy wait, and throws only what a callback
    throws or the error of a polled descriptor; it gives [Exit] when no rule was
    interested, or after a signal. *)
Definition wait_post (ids : list ix) (r : Result * list (Rule St) * St) : Prop :=
  let '(res, rules, s') := r in
  exists ids', ids' `sublist_of` ids /\ rules = map rule_of ids' /\ I ids' s' /\
    (res = Exit -> Forall (fun i => Idle i s') ids' \/ interrupted s').

Definition polled (e : exception) : Prop := E e \/ e = polled_error.

(** The same with the reason why a rule goes away: [names i n] says that [n] may be the
    number of the descriptor of rule [i], [hung n] that [poll] has reported a hang-up on
    descriptor [n]. *)
Section Reasons.
Context (names : ix -> Z -> Prop) (hung : Z -> St -> Prop).

Definition gone (i : ix) (s : St) : Prop :=
  (direction (rule_of i) = In /\ eof (fd (rule_of i) s) = true) \/ closed (fd (rule_of i) s) = true \/
  exists n, names i n /\ hung n s.
Definition spared_hung (i : ix) (s s' : St) : Prop := spared i s s' /\ forall n, hung n s -> hung n s'.

Record reasoned : Prop := mk_reasoned {
  rea_names : forall l i s, i ∈ l -> I l s -> names i (fd_num (fd (rule_of i) s));
  rea_interest : forall l i s, i ∈ l -> I l s -> open i s ->
    if interest (rule_of i) s then Pre i s else Idle i s;
  rea_poll : forall l ps t s r errno revents s', I l s -> poll ps t s = (r, errno, revents, s') ->
    I l s' /\ (forall i, Pre i s -> Pre i s') /\ (forall n, hung n s -> hung n s') /\
    forall idx p, ps !! idx = Some p -> bool_of_Z (Z.land (revents idx) POLLHUP) = true -> hung (poll_fd p) s';
  rea_cancel : forall l1 i l2 s, I (l1 ++ i :: l2) s -> gone i s ->
    outcome E (fun s' => I (l1 ++ l2) s' /\ spared_hung i s s' /\ forall j, j ∈ l1 -> Idle j s -> Idle j s')
      (cancel (rule_of i) s);
  rea_callback : forall l i s, i ∈ l -> I l s -> Pre i s ->
    outcome E (fun s' => I l s' /\ spared_hung i s s' /\
      (service_count (rule_of i) s <> service_count (rule_of i) s' \/
       interest (rule_of i) s' = false)) (callback (rule_of i) s)
}.
Context (C : reasoned).

(** The entries that are polled for something have what their callbacks rely on. *)
Definition prepared (ids : list ix) (ps : list (Rule St * pollfd)) (s : St) : Prop :=
  Forall2 (fun i p => p.1 = rule_of i /\ names i (poll_fd p.2) /\ (events p.2 <> 0 -> Pre i s)) ids ps.

Lemma prepared_fst ids ps s : prepared ids ps s -> map fst ps = map rule_of ids.
Proof. induction 1 as [|i p ids ps [? _] _ IH]; [done|]. simpl. congruence. Qed.

Lemma prepared_mono ids ps s s' :
  prepared ids ps s -> (forall j, j ∈ ids -> Pre j s -> Pre j s') -> prepared ids ps s'.
Proof.
  intros F Hk. induction F as [|i p ids ps (?&?&?) F IH]; [constructor|].
  constructor; [|apply IH; intros; apply Hk; [by right|done]].
  split; [done|]. split; [done|]. intros. apply Hk; [left|auto].
Qed.

(** What [set_up] does on rules [ids] from state [s], behind the rules [front]. *)
Definition set_up_post (front ids : list ix) (s : St) (r : list (Rule St * pollfd) * bool * St) : Prop :=
  let '(ps, polling, s') := r in
  (forall j, j ∉ ids -> Pre j s -> Pre j s') /\ (forall j, j ∈ front -> Idle j s -> Idle j s') /\
  exists ids', ids' `sublist_of` ids /\ I (front ++ ids') s' /\ prepared ids' ps s' /\
    (polling = false -> Forall (fun i => Idle i s') ids').

Lemma set_up_cancelled front i ids s s' r :
  i ∉ ids -> spared i s s' -> (forall j, j ∈ front -> Idle j s -> Idle j s') ->
  set_up_post front ids s' r -> set_up_post front (i :: ids) s r.
Proof.
  destruct r as [[ps b] s2]. intros Hi K KI (K2&KI2&ids'&Hs&P). split.
  { intros j [Hj1 Hj2]%not_elem_of_cons Hp. auto. } split; [auto|].
  exists ids'. split; [by apply sublist_cons|done].
Qed.

Lemma set_up_kept front i ids s ps polling s' p (interested : bool) :
  i ∉ ids -> names i (poll_fd p) -> (if interested then Pre i s else Idle i s) -> (events p <> 0 -> interested = true) ->
  set_up_post (front ++ [i]) ids s (ps, polling, s') ->
  set_up_post front (i :: ids) s ((rule_of i, p) :: ps, interested || polling, s').
Proof.
  intros Hi Hnm Hint He (K&KI&ids'&Hsub&I'&P&Q). split.
  { intros j [? ?]%not_elem_of_cons. auto. } split.
  { intros j Hj. apply KI. apply elem_of_app. by left. }
  exists (i :: ids'). split; [by apply sublist_skip|]. split; [by rewrite <- app_assoc in I'|]. split.
  - constructor; [|done]. split; [done|]. split; [done|]. cbn [snd]. intros Hp. rewrite (He Hp) in Hint. auto.
  - intros [Hf1 Hf2]%orb_false_iff. subst interested. constructor; [|auto].
    apply KI; [|done]. apply elem_of_app. right. by left.
Qed.

Lemma set_up_outcome front ids s :
  NoDup ids -> I (front ++ ids) s -> outcome E (set_up_post front ids s) (set_up (map rule_of ids) s).
Proof.
  intros Hd. revert front s. induction Hd as [|i ids Hi Hd IH]; intros front s Hs; cbn [set_up map].
  - split; [auto|]. split; [auto|]. exists []. split; [done|]. split; [done|]. by split; constructor.
  - assert (gone i s -> outcome E (set_up_post front (i :: ids) s)
      (let! s0 := cancel (rule_of i) s in set_up (map rule_of ids) s0)) as Hskip.
    { intros Hg. eapply outcome_bind; [by apply (rea_cancel C front i ids)|]. intros s1 (I1&[K _]&KI).
      eapply outcome_mono; [by apply IH|done|]. intros r. by apply set_up_cancelled. }
    destruct (bool_decide _ && _) eqn:Ee.
    { apply andb_true_iff in Ee as [?%bool_decide_eq_true ?]. apply Hskip. by left. }
    destruct (closed _) eqn:Ec; [apply Hskip; right; by left|].
    assert (i ∈ front ++ i :: ids) as Hin by (apply elem_of_app; right; by left).
    eapply outcome_bind; [apply (IH (front ++ [i])); by rewrite <- app_assoc|]. intros [[ps b] s'] P.
    apply set_up_kept; [done|by apply (rea_names C (front ++ i :: ids))| |by destruct (interest _ _)|done].
    apply (rea_interest C (front ++ i :: ids)); [done|done|split; [|done]].
    intros Hdir. by rewrite bool_decide_eq_true_2 in Ee.
Qed.

Lemma call_outcome l i s :
  i ∈ l -> I l s -> Pre i s -> outcome E (fun s' => I l s' /\ spared_hung i s s') (call (rule_of i) s).
Proof.
  intros Hi Hs Hp. unfold call. eapply outcome_bind; [by eapply (rea_callback C l)|]. intros s' (I'&K&Hprog).
  destruct (Z.eqb_spec (service_count (rule_of i) s) (service_count (rule_of i) s')); [|done].
  by destruct Hprog as [?| ->].
Qed.

Lemma serve_outcome revents front ids ps s idx :
  NoDup ids -> I (front ++ ids) s -> prepared ids ps s ->
  (forall j p, ps !! j = Some p -> bool_of_Z (Z.land (revents (idx + j)%nat) POLLHUP) = true -> hung (poll_fd p.2) s) ->
  outcome polled (fun '(rules, s') =>
      exists ids', ids' `sublist_of` ids /\ I (front ++ ids') s' /\ rules = map rule_of ids')
    (serve revents idx ps s).
Proof.
  intros Hd. revert front ps s idx. induction Hd as [|i ids Hi Hd IH]; intros front ps s idx Hs P Hh;
    inversion P as [|? [r p] ? ps' (Er&Hnm&Hp) P']; subst; clear P; cbn [serve].
  - by exists [].
  - cbn in Er, Hnm, Hp. subst r. destruct (bool_of_Z (Z.land _ (Z.lor _ _))); [by right|].
    assert (forall s', spared i s s' -> prepared ids ps' s') as Hmono.
    { intros s' K. eapply prepared_mono; [done|]. intros j Hj. apply K. congruence. }
    assert (forall s', (forall n, hung n s -> hung n s') -> forall j p', ps' !! j = Some p' ->
      bool_of_Z (Z.land (revents (S idx + j)%nat) POLLHUP) = true -> hung (poll_fd p'.2) s') as Hh'.
    { intros s' Hk j p' Hj Hb. apply Hk, (Hh (S j)); [done|]. by rewrite Nat.add_succ_r. }
    destruct (bool_of_Z (Z.land _ POLLHUP) && _ && negb _) eqn:Ehup.
    + apply andb_true_iff in Ehup as [[Eh _]%andb_true_iff _].
      assert (gone i s) as Hg.
      { right. right. exists (poll_fd p). split; [done|]. apply (Hh 0%nat (rule_of i, p)); [done|]. by rewrite Nat.add_0_r. }
      eapply outcome_bind with (P := fun s' => I (front ++ ids) s' /\ spared_hung i s s');
        [eapply outcome_mono; [by apply (rea_cancel C front i ids)|by left|by intros s' (?&?&_)]|]. intros s' [I' [K Kh]].
      eapply outcome_mono; [apply (IH front _ _ (S idx)); [done|by apply Hmono|by apply Hh']|done|].
      intros [rules s2] (ids'&?&?&?). exists ids'. split; [by apply sublist_cons|done].
    + eapply outcome_bind with (P := fun s' => I (front ++ i :: ids) s' /\ spared_hung i s s').
      * destruct (bool_of_Z (Z.land _ (events p))) eqn:Er; [|split; [exact Hs|unfold spared_hung, spared; auto]].
        eapply outcome_mono; [apply (call_outcome (front ++ i :: ids)); [apply elem_of_app; right; by left|done|]|by left|done].
        apply Hp. intros E0. by rewrite E0, Z.land_0_r in Er.
      * intros s' [I' [K Kh]]. eapply outcome_bind;
          [apply (IH (front ++ [i]) _ _ (S idx)); [by rewrite <- app_assoc|by apply Hmono|by apply Hh']|].
        intros [rules s2] (ids'&?&I2&->). rewrite <- app_assoc in I2. exists (i :: ids').
        split; [by apply sublist_skip|done].
Qed.

Lemma wait_reasoned timeout ids s :
  NoDup ids -> I ids s -> outcome polled (wait_post ids) (wait_next_event timeout (map rule_of ids) s).
Proof.
  intros Hd Hs. unfold wait_next_event.
  eapply outcome_bind with (P := set_up_post [] ids s);
    [eapply outcome_mono; [by apply (set_up_outcome [] ids)|by left|done]|].
  intros [[ps b] s1] (_&_&ids'&Hsub&I1&P&Q).
  assert (NoDup ids') as Hd' by by eapply sublist_NoDup.
  destruct b; cbn [negb].
  2: { exists ids'. rewrite (prepared_fst _ _ _ P). split; [done|]. split; [done|]. split; [done|]. auto. }
  destruct (poll (map snd ps) timeout s1) as [[[r errno] revents] s2] eqn:Ep.
  destruct (rea_poll C _ _ _ _ _ _ _ _ I1 Ep) as (I2&K2&_&Hh).
  assert (prepared ids' ps s2) as P2 by (eapply prepared_mono; [done|]; auto).
  assert (outcome polled (wait_post ids)
    (let! (rules, s) := serve revents 0 ps s2 in ok (Success, rules, s))) as Hserve.
  { eapply outcome_bind; [apply (serve_outcome _ [] ids'); [done|done|done|]|].
    { intros j p Hj. apply (Hh j). by rewrite list_lookup_fmap, Hj. } intros [rules s3] (ids2&?&?&->). exists ids2.
    split; [by etrans|done]. }
  assert (forall res : Result, (res = Exit -> interrupted s2) ->
    outcome polled (wait_post ids) (ok (res, map fst ps, s2))) as Hquit.
  { intros res Hres. exists ids'. rewrite (prepared_fst _ _ _ P). split; [done|]. split; [done|]. split; [done|]. auto. }
  unfold SystemCall. destruct (Z.leb_spec 0 r) as [Hr|Hr]; cbn [orb].
  - destruct r; [by apply Hquit|done|done].
  - destruct (Z.eqb_spec errno 0); [by destruct r|]. cbn. destruct (Z.eqb_spec errno EINTR) as [->|]; [|done].
    apply Hquit. intros _. by exists (map snd ps), timeout, s1, r, revents.
Qed.

End Reasons.

Context (C : contract).

Lemma contract_reasoned : reasoned (fun _ _ => True) (fun _ _ => True).
Proof.
  destruct C as [C1 C2 C3 C4]. split; [done|done|..].
  - intros l ps t s r errno revents s' Hs Ep. by destruct (C2 _ _ _ _ _ _ _ _ Hs Ep).
  - intros l1 i l2 s Hs _. eapply outcome_mono; [by apply C3|done|]. by intros s' (?&?&?).
  - intros l i s Hi Hs Hp. eapply outcome_mono; [by apply (C4 l)|done|]. by intros s' (?&?&?).
Qed.

Lemma wait_outcome timeout ids s :
  NoDup ids -> I ids s -> outcome polled (wait_post ids) (wait_next_event timeout (map rule_of ids) s).
Proof. apply (wait_reasoned _ _ contract_reasoned). Qed.

(** The states of a program that waits again and again, with any timeouts. *)
Inductive waited (ids : list ix) (s : St) : list (Rule St) -> St -> Prop :=
  | waited_start : waited ids s (map rule_of ids) s
  | waited_more timeout rules s1 res rules' s2 :
      waited ids s rules s1 -> wait_next_event timeout rules s1 = ok (res, rules', s2) ->
      waited ids s rules' s2.

Lemma waited_kept ids s rules s1 :
  NoDup ids -> I ids s -> waited ids s rules s1 ->
  exists ids', ids' `sublist_of` ids /\ rules = map rule_of ids' /\ I ids' s1.
Proof.
  intros Hd Hs. induction 1 as [|timeout rules s1 res rules' s2 _ (ids1&Hsub&->&I1) Ew].
  - by exists ids.
  - pose proof (wait_outcome timeout ids1 s1 (sublist_NoDup _ _ Hd Hsub) I1) as O. rewrite Ew in O.
    destruct O as (ids2&?&->&?&_). exists ids2. split; [by etrans|done].
Qed.

(** C13. A program whose rules keep a contract can wait for ever: after any number of
    calls of [wait_next_event] the rules are some of the first ones in their order and
    the invariant holds for them, and the next call again throws nothing but what a
    callback throws or the error of a polled descriptor; no busy wait is reported,
    although callbacks of other rules run between the poll and a callback. When the next
    call gives [Exit], no rule was interested or a signal came. *)
Theorem event_loop_contract timeout ids s rules s1 :
  NoDup ids -> I ids s -> ~ E busy_wait -> waited ids s rules s1 ->
  (exists ids', ids' `sublist_of` ids /\ rules = map rule_of ids' /\ I ids' s1) /\
  outcome (fun e => polled e /\ e <> busy_wait) (fun '(res, rules', s2) => res = Exit ->
      (exists ids', rules' = map rule_of ids' /\ Forall (fun i => Idle i s2) ids') \/ interrupted s2)
    (wait_next_event timeout rules s1).
Proof.
  intros Hd Hs Hb W. destruct (waited_kept _ _ _ _ Hd Hs W) as (ids1&Hsub&->&I1).
  split; [by exists ids1|].
  eapply outcome_mono; [apply (wait_outcome timeout ids1 s1 (sublist_NoDup _ _ Hd Hsub) I1)| |].
  - intros e [He| ->]; (split; [by constructor|]); [by intros ->|done].
  - intros [[res rules] s2] (ids2&_&->&_&Q) He. destruct (Q He); [left|by right]. by exists ids2.
Qed.

End Contract.

(** A program with a rule that reads and one that writes what was read. *)
Module Echo.

Record echo := mkEcho { source : FDWrapper; sink : FDWrapper; left_to_read : nat; held : nat }.

#[local] Instance echo_poll : Poll echo := fun ps _ s => (1, 0, (fun i => nth i (map events ps) 0), s).

Definition echo_rule (writes : bool) : Rule echo :=
  if writes then
    mkRule sink Out
      (fun s => match held s with
                | O => throw (runtime_error "nothing held")
                | S n => ok (mkEcho (source s) (mkFDWrapper 4 false false 0 (write_count (sink s) + 1))
                               (left_to_read s) n)
                end)
      (fun s => negb (Nat.eqb (held s) 0)) nothing
  else
    mkRule source In
      (fun s => match left_to_read s with
                | O => ok (mkEcho (mkFDWrapper 3 true false (read_count (source s) + 1) 0) (sink s) 0 (held s))
                | S n => ok (mkEcho (mkFDWrapper 3 false false (read_count (source s) + 1) 0) (sink s) n (S (held s)))
                end)
      always nothing.

Abbreviation echo_pre := (fun (w : bool) s => if w then held s <> O else True).
Abbreviation echo_idle := (fun (w : bool) s => if w then held s = O else False).

Lemma echo_contract : contract echo_rule (fun _ _ => True) echo_pre echo_idle (fun _ => False).
Proof.
  split.
  - by intros l [] [? ? ? []].
  - by intros l ps t s r errno revents s' _ [= <- <- <- <-].
  - intros l1 [] l2 s _; (split; [done|]); (split; [by intros []|done]).
  - intros l [] [src snk n h] _ _ Hp; cbn in *.
    + destruct h as [|h]; [done|]. cbn. split; [done|]. split; [by intros []|left; cbn; lia].
    + destruct n as [|n]; cbn; (split; [done|]); (split; [by intros [] ?|left; cbn; lia]).
Qed.

Definition two_rules : list (Rule echo) := map echo_rule [false; true].
Definition echo0 : echo := mkEcho (mkFDWrapper 3 false false 0 0) (mkFDWrapper 4 false false 0 0) 1 0.

Lemma event_loop_contract_witness :
  exists s1, wait_next_event 5 two_rules echo0 = ok (Success, two_rules, s1) /\ held s1 = 1%nat /\
    outcome (fun e => polled (fun _ => False) e /\ e <> busy_wait) (fun '(res, rules', s2) => res = Exit ->
        (exists ids', rules' = map echo_rule ids' /\ Forall (fun i => echo_idle i s2) ids') \/ interrupted s2)
      (wait_next_event 5 two_rules s1).
Proof.
  eexists. split; [reflexivity|]. split; [reflexivity|].
  eapply (event_loop_contract echo_rule (fun _ _ => True) echo_pre echo_idle
    (fun _ => False) echo_contract 5 [false; true] echo0); [|done|tauto|].
  - by apply (bool_decide_unpack _).
  - eapply (waited_more echo_rule [false; true] echo0 5 two_rules echo0 Success); [apply waited_start|]. reflexivity.
Defined.

End Echo.
End EventLoopTheorems.
