(* ===== verification/SpongeSocket.v ===== *)
(** * [TCPSpongeSocket] (libsponge/tcp_helpers/tcp_sponge_socket.* )

    The socket that runs a [TCPConnection]: four rules of an event loop move bytes
    between the owner's end of a socket pair and the connection, and segments between
    the connection and a datagram adapter. The owner's thread, the peer and the clock are
    the environment [K], the kernel included. *)
From S2P Require Import Prelude Stream Wrapping Reassembler Buffers TcpSegment Receiver Sender.
From S2P Require Import Connection Addresses Ethernet Interface Descriptor Adapters Socket.
From S2P Require Import EventLoop.

(** What the environment offers besides system calls on one descriptor: [poll], the clock,
    and the flag [_abort], which the owner's destructor sets. *)
Class Environment (K : Type) := {
  k_poll : list EventLoop.pollfd -> Z -> K -> Z * Z * (nat -> Z) * K;
  timestamp_ms : K -> Z * K;
  aborted : K -> bool
}.

(** The device under an adapter: how it is read, and how one write of the adapter is
    carried out. *)
Class Device (In Out K : Type) := {
  dev_read : FileDescriptor.FDWrapper * K -> result (In * (FileDescriptor.FDWrapper * K));
  dev_write : Out -> FileDescriptor.FDWrapper * K -> result (FileDescriptor.FDWrapper * K)
}.

(** A UDP socket: [_sock.recv()] and [_sock.sendto()]. *)
#[export] Instance udp_device {K : Type} `{Kernel K} `{SocketKernel K} :
  Device received_datagram (Address.Address * BufferList.BufferList) K := {
  dev_read := UDPSocket.recv UDPSocket.default_mtu;
  dev_write o := UDPSocket.sendto o.1 (BufferViewList.of_buffer_list o.2)
}.

(** A TUN or TAP device: [_tun.read()] and [_tun.write()]. *)
#[export] Instance tun_device {K : Type} `{Kernel K} : Device bytes BufferList.BufferList K := {
  dev_read := FileDescriptor.read (2 ^ 64 - 1);
  dev_write o s :=
    let! (_, s) := FileDescriptor.write (BufferViewList.of_buffer_list o) true s in ok s
}.

Module TCPSpongeSocket.
Import FileDescriptor.

Definition TCP_TICK_MS : Z := 10.

Section Socket.
Context {A In Out K : Type} `{Resolver} `{Adapter A In Out} `{Kernel K} `{SocketKernel K}
  `{Environment K} `{!Device In Out K}.

(** [_owner] is the descriptor the socket inherits, [_adapter_fd] the one the adapter
    converts to; [kernel] is the environment. *)
Record TCPSpongeSocket := mkTCPSpongeSocket {
  _owner : FDWrapper;
  _thread_data : FDWrapper;
  _datagram_adapter : A;
  _adapter_fd : FDWrapper;
  _tcp : option TCPConnection.TCPConnection;
  _inbound_shutdown : bool;
  _outbound_shutdown : bool;
  _fully_acked : bool;
  kernel : K
}.
#[global] Instance eta_TCPSpongeSocket : Eta TCPSpongeSocket := fun s =>
  mkTCPSpongeSocket (_owner s) (_thread_data s) (_datagram_adapter s) (_adapter_fd s) (_tcp s)
    (_inbound_shutdown s) (_outbound_shutdown s) (_fully_acked s) (kernel s).

#[export] Instance socket_poll : EventLoop.Poll TCPSpongeSocket := fun ps timeout s =>
  let '(r, errno, revents, k) := k_poll ps timeout (kernel s) in
  (r, errno, revents, s <| kernel := k |>).

(** An operation on one of the descriptors. *)
Definition on_thread {X} (f : FDWrapper * K -> result (X * (FDWrapper * K))) (s : TCPSpongeSocket)
    : result (X * TCPSpongeSocket) :=
  let! (x, (w, k)) := f (_thread_data s, kernel s) in
  ok (x, s <| _thread_data := w |> <| kernel := k |>).
Definition on_adapter (f : FDWrapper * K -> result (FDWrapper * K)) (s : TCPSpongeSocket)
    : result TCPSpongeSocket :=
  let! (w, k) := f (_adapter_fd s, kernel s) in
  ok (s <| _adapter_fd := w |> <| kernel := k |>).

(** [_tcp.value()]. Where the code writes [_tcp->] there is a value: the loop runs only
    after [_initialize_TCP]. *)
Definition bad_optional_access : exception := runtime_error "bad_optional_access".
Definition tcp (s : TCPSpongeSocket) : result TCPConnection.TCPConnection :=
  match _tcp s with Some c => ok c | None => throw bad_optional_access end.
Definition on_tcp (f : TCPConnection.TCPConnection -> TCPConnection.TCPConnection)
    (s : TCPSpongeSocket) : TCPSpongeSocket := s <| _tcp ::= fmap f |>.
Definition tcp_is (P : TCPConnection.TCPConnection -> bool) (s : TCPSpongeSocket) : bool :=
  match _tcp s with Some c => P c | None => false end.

(** The debugging output evaluates [destination.to_string()]. *)
Definition show_destination (s : TCPSpongeSocket) : result unit :=
  let! _ := Address.address_to_string (destination (config (_datagram_adapter s))) in ok tt.

(** The writes an adapter's operation makes, in order. *)
Fixpoint carry_out (out : list Out) (s : TCPSpongeSocket) : result TCPSpongeSocket :=
  match out with
  | [] => ok s
  | o :: out => let! s := on_adapter (dev_write o) s in carry_out out s
  end.

(** Rule 1: incoming datagrams. *)
Definition receive_datagram (s : TCPSpongeSocket) : result TCPSpongeSocket :=
  let! (i, (w, k)) := dev_read (_adapter_fd s, kernel s) in
  let s := s <| _adapter_fd := w |> <| kernel := k |> in
  let! (a, out, seg) := Adapters.read i (_datagram_adapter s) in
  let! s := carry_out out (s <| _datagram_adapter := a |>) in
  let s := match seg with
           | Some seg => on_tcp (TCPConnection.segment_received seg) s
           | None => s
           end in
  if eof (_thread_data s) then
    let! c := tcp s in
    if (TCPConnection.bytes_in_flight c =? 0) && negb (_fully_acked s) then
      let! _ := show_destination s in ok (s <| _fully_acked := true |>)
    else ok s
  else ok s.
Definition receive_interest (s : TCPSpongeSocket) : bool := tcp_is TCPConnection.active s.

(** Rule 2: the owner's bytes. *)
Definition accepted_less : exception :=
  runtime_error "TCPConnection::write() accepted less than advertised length".
Definition read_from_owner (s : TCPSpongeSocket) : result TCPSpongeSocket :=
  let! c := tcp s in
  let! (data, s) := on_thread (FileDescriptor.read (TCPConnection.remaining_outbound_capacity c)) s in
  let len := zlen data in
  let! c := tcp s in
  let (c, amount_written) := TCPConnection.write data c in
  let s := s <| _tcp := Some c |> in
  if negb (amount_written =? len) then throw accepted_less
  else if eof (_thread_data s) then
    let s := on_tcp TCPConnection.end_input_stream s <| _outbound_shutdown := true |> in
    let! _ := show_destination s in ok s
  else ok s.
Definition read_interest (s : TCPSpongeSocket) : bool :=
  tcp_is TCPConnection.active s && negb (_outbound_shutdown s) &&
  tcp_is (fun c => 0 <? TCPConnection.remaining_outbound_capacity c) s.
Definition stop_reading (s : TCPSpongeSocket) : result TCPSpongeSocket :=
  ok (on_tcp TCPConnection.end_input_stream s <| _outbound_shutdown := true |>).

(** The inbound stream of a connection. *)
Definition on_inbound (f : ByteStream.ByteStream -> ByteStream.ByteStream)
    (c : TCPConnection.TCPConnection) : TCPConnection.TCPConnection :=
  c <| TCPConnection._receiver ::= fun r => r <| TCPReceiver._reassembler ::= fun a =>
    a <| StreamReassembler._output ::= f |> |> |>.

(** Rule 3: bytes for the owner. *)
Definition write_to_owner (s : TCPSpongeSocket) : result TCPSpongeSocket :=
  let! c := tcp s in
  let inbound := TCPConnection.inbound_stream c in
  let amount_to_write := Z.min 65536 (ByteStream.buffer_size inbound) in
  let buffer := ByteStream.peek_output amount_to_write inbound in
  let! (bytes_written, s) :=
    on_thread (FileDescriptor.write (BufferViewList.of_string buffer) false) s in
  let s := on_tcp (on_inbound (ByteStream.pop_output bytes_written)) s in
  let inbound := ByteStream.pop_output bytes_written inbound in
  if ByteStream.eof inbound || ByteStream.error inbound then
    let! (_, s) := on_thread (fun t => let! t := Socket.shutdown SHUT_WR t in ok (tt, t)) s in
    let s := s <| _inbound_shutdown := true |> in
    let! _ := show_destination s in ok s
  else ok s.
Definition write_interest (s : TCPSpongeSocket) : bool :=
  tcp_is (fun c =>
    let inbound := TCPConnection.inbound_stream c in
    negb (ByteStream.buffer_empty inbound) ||
    ((ByteStream.eof inbound || ByteStream.error inbound) && negb (_inbound_shutdown s))) s.

(** Rule 4: outgoing segments; the loop runs down the connection's queue. *)
Fixpoint send_segments (q : list TCPSegment.TCPSegment) (s : TCPSpongeSocket)
    : result TCPSpongeSocket :=
  match q with
  | [] => ok s
  | seg :: q =>
      let! (a, out, _) := Adapters.write seg (_datagram_adapter s) in
      let! s := carry_out out (s <| _datagram_adapter := a |>) in
      send_segments q (on_tcp (fun c => c <| TCPConnection._segments_out ::= tail |>) s)
  end.
Definition send_datagrams (s : TCPSpongeSocket) : result TCPSpongeSocket :=
  let! c := tcp s in send_segments (TCPConnection.segments_out c) s.
Definition send_interest (s : TCPSpongeSocket) : bool :=
  tcp_is (fun c => negb (bool_decide (TCPConnection.segments_out c = []))) s.

(** [_initialize_TCP]: the connection, and the rules. *)
Definition rules : list (EventLoop.Rule TCPSpongeSocket) :=
  EventLoop.add_rule _adapter_fd EventLoop.Out send_datagrams send_interest EventLoop.nothing
    (EventLoop.add_rule _thread_data EventLoop.Out write_to_owner write_interest EventLoop.nothing
      (EventLoop.add_rule _thread_data EventLoop.In read_from_owner read_interest stop_reading
        (EventLoop.add_rule _adapter_fd EventLoop.In receive_datagram receive_interest
           EventLoop.nothing []))).
Definition _initialize_TCP (random : Z) (config : TCPConfig.TCPConfig) (s : TCPSpongeSocket)
    : TCPSpongeSocket * list (EventLoop.Rule TCPSpongeSocket) :=
  (s <| _tcp := Some (TCPConnection.make random config) |>, rules).

(** One turn of [_tcp_loop]: [base_time], the rules and the socket; [false] is [break]. *)
Definition loop_state : Type := Z * list (EventLoop.Rule TCPSpongeSocket) * TCPSpongeSocket.
Definition tcp_loop_body (t : loop_state) : result (bool * loop_state) :=
  let '(base_time, rules, s) := t in
  let! (ret, rules, s) := EventLoop.wait_next_event TCP_TICK_MS rules s in
  if match ret with EventLoop.Exit => true | _ => false end || aborted (kernel s)
  then ok (false, (base_time, rules, s))
  else
    let! c := tcp s in
    if TCPConnection.active c then
      let (next_time, k) := timestamp_ms (kernel s) in
      let ms := u64 (next_time - base_time) in
      let s := on_tcp (TCPConnection.tick ms) (s <| kernel := k |>) in
      let! (a, out) := Adapters.tick ms (_datagram_adapter s) in
      let! s := carry_out out (s <| _datagram_adapter := a |>) in
      ok (true, (next_time, rules, s))
    else ok (true, (base_time, rules, s)).

(** [_tcp_loop], for at most [fuel] turns; [None] when it is still running. *)
Fixpoint tcp_turns (fuel : nat) (condition : TCPSpongeSocket -> bool) (t : loop_state)
    : option (result loop_state) :=
  match fuel with
  | O => None
  | S fuel =>
      if condition t.2 then
        match tcp_loop_body t with
        | inl e => Some (throw e)
        | inr (true, t) => tcp_turns fuel condition t
        | inr (false, t) => Some (ok t)
        end
      else Some (ok t)
  end.
Definition _tcp_loop (fuel : nat) (condition : TCPSpongeSocket -> bool)
    (rules : list (EventLoop.Rule TCPSpongeSocket)) (s : TCPSpongeSocket)
    : option (result loop_state) :=
  let (base_time, k) := timestamp_ms (kernel s) in
  tcp_turns fuel condition (base_time, rules, s <| kernel := k |>).

(** The constructors: from the socket pair, and with a new one. *)
Definition of_pair (data_socket_pair : FDWrapper * FDWrapper) (datagram_interface : A)
    (adapter_fd : FDWrapper) (k : K) : result TCPSpongeSocket :=
  let! (owner, k) := LocalStreamSocket.of_fd (data_socket_pair.1, k) in
  let! (thread_data, k) := LocalStreamSocket.of_fd (data_socket_pair.2, k) in
  let! (thread_data, k) := set_blocking false (thread_data, k) in
  ok (mkTCPSpongeSocket owner thread_data datagram_interface adapter_fd None false false false k).
Definition make (datagram_interface : A) (adapter_fd : FDWrapper) (k : K) : result TCPSpongeSocket :=
  let! (w0, w1, k) := LocalStreamSocket.socket_pair_helper SOCK_STREAM k in
  of_pair (w0, w1) datagram_interface adapter_fd k.

(** What follows a loop that has ended. *)
Definition after (l : option (result loop_state)) (f : loop_state -> result loop_state)
    : option (result loop_state) := fmap (fun r => bindR r f) l.

Definition in_state (x : TCPState.State) (s : TCPSpongeSocket) : bool :=
  tcp_is (fun c => TCPState.eqb (TCPConnection.state c) (TCPState.of_state x)) s.

Definition unexpected_state : exception :=
  runtime_error "After TCPConnection::connect(), state was not as expected".

(** [connect] up to the start of the thread: the socket is ready for it, or throws. *)
Definition start_connect (random : Z) (c_tcp : TCPConfig.TCPConfig) (c_ad : FdAdapterConfig)
    (s : TCPSpongeSocket) : result (TCPSpongeSocket * list (EventLoop.Rule TCPSpongeSocket)) :=
  match _tcp s with
  | Some _ => throw (runtime_error "connect() with TCPConnection already initialized")
  | None =>
      let (s, rules) := _initialize_TCP random c_tcp s in
      let s := s <| _datagram_adapter ::= config_mut (fun _ => c_ad) |> in
      let! _ := show_destination s in
      let s := on_tcp TCPConnection.connect s in
      if negb (in_state TCPState.SYN_SENT s) then throw unexpected_state else ok (s, rules)
  end.
Definition connect (fuel : nat) (random : Z) (c_tcp : TCPConfig.TCPConfig) (c_ad : FdAdapterConfig)
    (s : TCPSpongeSocket) : option (result loop_state) :=
  match start_connect random c_tcp c_ad s with
  | inl e => Some (throw e)
  | inr (s, rules) =>
      after (_tcp_loop fuel (in_state TCPState.SYN_SENT) rules s)
        (fun t => let! _ := show_destination t.2 in ok t)
  end.

Definition start_listen (random : Z) (c_tcp : TCPConfig.TCPConfig) (c_ad : FdAdapterConfig)
    (s : TCPSpongeSocket) : result (TCPSpongeSocket * list (EventLoop.Rule TCPSpongeSocket)) :=
  match _tcp s with
  | Some _ => throw (runtime_error "listen_and_accept() with TCPConnection already initialized")
  | None =>
      let (s, rules) := _initialize_TCP random c_tcp s in
      let s := s <| _datagram_adapter ::= config_mut (fun _ => c_ad) |> in
      ok (s <| _datagram_adapter ::= set_listening true |>, rules)
  end.
Definition listen_and_accept (fuel : nat) (random : Z) (c_tcp : TCPConfig.TCPConfig)
    (c_ad : FdAdapterConfig) (s : TCPSpongeSocket) : option (result loop_state) :=
  match start_listen random c_tcp c_ad s with
  | inl e => Some (throw e)
  | inr (s, rules) =>
      after (_tcp_loop fuel (fun s => in_state TCPState.LISTEN s || in_state TCPState.SYN_RCVD s ||
                                      in_state TCPState.SYN_SENT s) rules s)
        (fun t => let! _ := show_destination t.2 in ok t)
  end.

Definition on_owner (f : FDWrapper * K -> result (FDWrapper * K)) (s : TCPSpongeSocket)
    : result TCPSpongeSocket :=
  let! (w, k) := f (_owner s, kernel s) in
  ok (s <| _owner := w |> <| kernel := k |>).

(** The thread. [_tcp.reset()] destroys the connection with its queue. *)
Definition _tcp_main (fuel : nat) (rules : list (EventLoop.Rule TCPSpongeSocket))
    (s : TCPSpongeSocket) : option (result loop_state) :=
  match _tcp s with
  | None => Some (throw (runtime_error "no TCP"))
  | Some _ =>
      after (_tcp_loop fuel (fun _ => true) rules s) (fun t =>
        let! s := on_owner (Socket.shutdown SHUT_RDWR) t.2 in
        ok (t.1, s <| _tcp := None |>))
  end.

(** The part of [wait_until_closed] before the thread is joined. *)
Definition wait_until_closed (s : TCPSpongeSocket) : result TCPSpongeSocket :=
  on_owner (Socket.shutdown SHUT_RDWR) s.

End Socket.
Arguments TCPSpongeSocket : clear implicits.
End TCPSpongeSocket.

(** The six bytes of [random_device] with the bits of a private address set. *)
Definition random_private_ethernet_address (random : list Z) : EthernetAddress :=
  match map u8 random with
  | b :: rest => Z.land (Z.lor b 2) 254 :: rest
  | [] => []
  end.

(** ** [CS144TCPSocket] and [FullStackSocket] *)
Section Helpers.
Context {K : Type} `{Resolver} `{Kernel K} `{SocketKernel K} `{Environment K}.
Import FileDescriptor.

(** The configuration both [connect]s use: [rt_timeout] 100 and a random source port. *)
Definition client_config : TCPConfig.TCPConfig :=
  TCPConfig.default_config <| TCPConfig.rt_timeout := 100 |>.
Definition client_adapter_config (source_ip : bytes) (random_port : Z) (address : Address.Address)
    : result FdAdapterConfig :=
  let! c := default_config in
  let! a := Address.of_hostname source_ip (to_string (u16 random_port)) in
  ok (c <| source := a |> <| destination := address |>).

Definition CS144TCPSocket_make (k : K)
    : result (TCPSpongeSocket.TCPSpongeSocket TCPOverIPv4OverTunFdAdapter K) :=
  let! (w, k) := TunTapFD.TunFD (bytes_of_string "tun144") k in
  let! c := default_config in
  TCPSpongeSocket.make (mkTunAdapter (FdAdapterBase.mkFdAdapterBase c false)) w k.
Definition CS144TCPSocket_connect (fuel : nat) (random random_port : Z) (address : Address.Address)
    (s : TCPSpongeSocket.TCPSpongeSocket TCPOverIPv4OverTunFdAdapter K) :=
  match client_adapter_config (bytes_of_string "169.254.144.9") random_port address with
  | inl e => Some (throw e)
  | inr c => TCPSpongeSocket.connect fuel random client_config c s
  end.

Definition LOCAL_TAP_IP_ADDRESS : bytes := bytes_of_string "169.254.10.9".
Definition LOCAL_TAP_NEXT_HOP_ADDRESS : bytes := bytes_of_string "169.254.10.1".

(** The adapter's constructor writes a frame to the device. *)
Definition FullStackSocket_make (random : list Z) (k : K)
    : result (TCPSpongeSocket.TCPSpongeSocket TCPOverIPv4OverEthernetAdapter K) :=
  let! (w, k) := TunTapFD.TapFD (bytes_of_string "tap10") k in
  let! ip_address := Address.of_hostname LOCAL_TAP_IP_ADDRESS (bytes_of_string "0") in
  let! next_hop := Address.of_hostname LOCAL_TAP_NEXT_HOP_ADDRESS (bytes_of_string "0") in
  let! c := default_config in
  let (a, out) := make_ethernet_adapter (FdAdapterBase.mkFdAdapterBase c false)
                    (random_private_ethernet_address random) ip_address next_hop in
  let! (w, k) := fold_left (fun (r : result (FDWrapper * K)) o => let! s := r in dev_write o s) out (ok (w, k)) in
  TCPSpongeSocket.make a w k.
Definition FullStackSocket_connect (fuel : nat) (random random_port : Z) (address : Address.Address)
    (s : TCPSpongeSocket.TCPSpongeSocket TCPOverIPv4OverEthernetAdapter K) :=
  match client_adapter_config LOCAL_TAP_IP_ADDRESS random_port address with
  | inl e => Some (throw e)
  | inr c => TCPSpongeSocket.connect fuel random client_config c s
  end.

End Helpers.
