(* ===== verification/SocketTheorems.v ===== *)
(** * What a [TCPSpongeSocket] guarantees

    The event loop of tcp_sponge_socket.cc relays: the bytes it takes from its owner are
    the outbound stream, the bytes it gives to its owner are the inbound stream, and
    neither the loop's check for busy waiting nor the check on [TCPConnection::write]
    ever fires. *)
From S2P Require Import Prelude Stream Wrapping Reassembler Buffers TcpSegment Receiver Sender.
From S2P Require Import Connection ConnectionStreams Handshake Addresses Interface Descriptor.
From S2P Require Import Adapters Socket EventLoop SpongeSocket.

Module SocketTheorems.
Import FileDescriptor StreamRefinement ConnectionStreams TCPSpongeSocket.

(** Any exception but those of the checks, and no undefined behaviour. *)
Definition ordinary (e : exception) : Prop :=
  e <> EventLoop.busy_wait /\ e <> accepted_less /\ e <> bad_optional_access /\ e <> unexpected_state /\
  e <> undefined.

Lemma system_call_outcome attempt r errno mask :
  outcome ordinary (fun n => n = r /\ (0 <= r \/ errno = mask)) (SystemCall attempt r errno mask).
Proof.
  unfold SystemCall. destruct (Z.leb_spec 0 r); cbn; [by auto|].
  destruct (Z.eqb_spec errno mask); cbn; [by auto|]. done.
Qed.

(** A call that sets [errno] when it fails. *)
Lemma system_call_sets attempt r errno :
  (r < 0 -> errno <> 0) -> outcome ordinary (fun n => n = r /\ 0 <= r) (SystemCall attempt r errno 0).
Proof.
  intros Hn. eapply outcome_mono; [apply system_call_outcome|done|]. intros n [-> Hr].
  split; [done|]. destruct (Z.le_gt_cases 0 r); [done|]. by destruct Hr; [|destruct Hn].
Qed.

(** *** The calls

    What [read], [write] and [shutdown] do, in terms of the one system call they make. *)
Section Calls.
Context {K : Type} `{Kernel K} `{SocketKernel K}.

Lemma read_calls limit w k :
  (forall n r errno data k', k_read (fd_num w) n k = (r, errno, data, k') -> r < 0 -> errno <> 0) ->
  0 <= limit ->
  outcome ordinary (fun '(data, (w', k')) =>
      zlen data <= limit /\ read_count w' = u32 (read_count w + 1) /\ fd_num w' = fd_num w /\
      exists n r errno d, k_read (fd_num w) n k = (r, errno, d, k') /\ 0 <= r /\
        data = take (Z.to_nat r) d) (read limit (w, k)).
Proof.
  intros Hneg Hl. unfold read. set (n := Z.min _ _).
  destruct (k_read (fd_num w) n k) as [[[r errno] data] k'] eqn:Er.
  eapply outcome_bind; [apply system_call_sets; by eapply Hneg|]. intros m [-> Hr].
  destruct (Z.ltb_spec n r); [done|]. split; [autorewrite with zlen; lia|].
  split; [by destruct (_ && _)|]. split; [by destruct (_ && _)|]. by exists n, r, errno, data.
Qed.

Lemma write_calls buffer w k :
  (forall iovs r errno k', k_writev (fd_num w) iovs k = (r, errno, k') -> r < 0 -> errno <> 0) ->
  zlen buffer < 2 ^ 63 ->
  outcome ordinary (fun '(n, (w', k')) =>
      0 <= n <= zlen buffer /\ write_count w' = u32 (write_count w + 1) /\ fd_num w' = fd_num w /\
      eof w' = eof w /\
      exists iovs errno, k_writev (fd_num w) iovs k = (n, errno, k') /\ concat (map fst iovs) = buffer)
    (write (BufferViewList.of_string buffer) false (w, k)).
Proof.
  intros Hneg Hb. unfold write, BufferViewList.of_string. cbn [write_loop].
  destruct (k_writev (fd_num w) _ k) as [[r errno] k'] eqn:Er. pose proof (zlen_nonneg buffer).
  eapply outcome_bind; [apply system_call_sets; by eapply Hneg|]. intros n [-> Hr].
  rewrite WriteTheorems.view_size by (cbn; rewrite app_nil_r; lia). cbn [concat] in *. rewrite app_nil_r in *.
  destruct (_ && _); [done|]. destruct (Z.ltb_spec (zlen buffer) r); [done|].
  destruct (WriteTheorems.view_remove_prefix r [buffer]) as (l'&->&_); [cbn; rewrite app_nil_r; lia..|].
  cbn [bindR ok andb]. rewrite u64_small by lia. split; [lia|]. split; [done|]. split; [done|]. split; [done|].
  exists (BufferViewList.as_iovecs [buffer]), errno. split; [done|]. cbn. apply app_nil_r.
Qed.

Lemma shutdown_calls how w k :
  outcome ordinary (fun '(w', k') =>
      fd_num w' = fd_num w /\ eof w' = eof w /\
      (how = SHUT_WR -> write_count w' = u32 (write_count w + 1)) /\
      exists r errno, k_shutdown (fd_num w) how k = (r, errno, k')) (Socket.shutdown how (w, k)).
Proof.
  unfold Socket.shutdown. destruct (k_shutdown _ _ _) as [[r errno] k'] eqn:Er.
  eapply outcome_bind; [apply system_call_outcome|]. intros _ _.
  destruct (Z.eqb_spec how SHUT_RD) as [->|];
    [|destruct (Z.eqb_spec how SHUT_WR) as [->|]; [|destruct (Z.eqb_spec how SHUT_RDWR) as [->|]; [|done]]].
  all: (split; [done|]); (split; [done|]); (split; [done|]); by exists r, errno.
Qed.

Lemma close_calls w k :
  outcome ordinary (fun '(w', k') => fd_num w' = fd_num w /\ write_count w' = write_count w /\
      exists r errno, k_close (fd_num w) k = (r, errno, k')) (close (w, k)).
Proof.
  unfold close. destruct (k_close _ _) as [[r errno] k'] eqn:Er.
  eapply outcome_bind; [apply system_call_outcome|]. intros _ _.
  split; [done|]. split; [done|]. by exists r, errno.
Qed.

End Calls.

(** The owner, as far as the kernel shows it: descriptor [fd] is the other end of its
    socket pair, [consumed k] are the bytes read from it so far and [delivered k] those
    written to it. A call that fails sets [errno]. *)
Class Owner (K : Type) `{Kernel K} `{SocketKernel K} `{Environment K} (fd : Z)
    (consumed delivered : K -> bytes) : Prop := {
  owner_read : forall n k r errno data k', k_read fd n k = (r, errno, data, k') ->
    (r < 0 -> errno <> 0) /\
    (0 <= r -> consumed k' = consumed k ++ take (Z.to_nat r) data /\ delivered k' = delivered k);
  owner_writev : forall iovs k r errno k', k_writev fd iovs k = (r, errno, k') ->
    (r < 0 -> errno <> 0) /\
    (0 <= r -> consumed k' = consumed k /\
       delivered k' = delivered k ++ take (Z.to_nat r) (concat (map fst iovs)));
  owner_shutdown : forall fd' how k r errno k', k_shutdown fd' how k = (r, errno, k') ->
    consumed k' = consumed k /\ delivered k' = delivered k;
  owner_poll : forall ps t k r errno revents k', k_poll ps t k = (r, errno, revents, k') ->
    consumed k' = consumed k /\ delivered k' = delivered k;
  owner_clock : forall k t k', timestamp_ms k = (t, k') ->
    consumed k' = consumed k /\ delivered k' = delivered k
}.

(** A device that is not the owner's descriptor: reading counts as one read, writing as
    none, and the owner notices nothing. *)
Class DeviceSpec (In Out K : Type) `{!Device In Out K} (fd : Z) (consumed delivered : K -> bytes)
    : Prop := {
  device_read : forall w k, fd_num w <> fd -> outcome ordinary (fun '(_, (w', k')) =>
    read_count w' = u32 (read_count w + 1) /\ fd_num w' = fd_num w /\
    consumed k' = consumed k /\ delivered k' = delivered k) (dev_read (w, k));
  device_write : forall o w k, fd_num w <> fd -> outcome ordinary (fun '(w', k') =>
    read_count w' = read_count w /\ fd_num w' = fd_num w /\
    consumed k' = consumed k /\ delivered k' = delivered k) (dev_write o (w, k))
}.

(** An adapter throws none of the checks' exceptions. *)
Class AdapterSpec (A In Out : Type) `{Adapter A In Out} : Prop := {
  adapter_read : forall i a, outcome ordinary (fun _ => True) (Adapters.read i a);
  adapter_write : forall seg a, outcome ordinary (fun _ => True) (Adapters.write seg a);
  adapter_tick : forall ms a, outcome ordinary (fun _ => True) (Adapters.tick ms a)
}.

(** *** The owner's descriptor *)
Section Owner.
Context {K : Type} `{Kernel K} `{SocketKernel K} `{Environment K} (fd : Z)
  (consumed delivered : K -> bytes) `{!Owner K fd consumed delivered}.

Lemma read_outcome limit w k :
  0 <= limit -> fd_num w = fd ->
  outcome ordinary (fun '(data, (w', k')) =>
      zlen data <= limit /\ consumed k' = consumed k ++ data /\ delivered k' = delivered k /\
      read_count w' = u32 (read_count w + 1) /\ fd_num w' = fd) (read limit (w, k)).
Proof.
  intros Hl Hw. eapply outcome_mono; [apply read_calls; [|done]|done|].
  - intros n r errno data k'. rewrite Hw. intros Er. by apply (owner_read _ _ _ _ _ _ Er).
  - intros [data [w' k']] (?&?&?&n&r&errno&d&Er&Hr&->). rewrite Hw in Er.
    destruct (owner_read _ _ _ _ _ _ Er) as [_ [? ?]]; [done|]. split_and!; congruence.
Qed.

Lemma write_once_outcome buffer w k :
  fd_num w = fd -> zlen buffer < 2 ^ 63 ->
  outcome ordinary (fun '(n, (w', k')) =>
      0 <= n <= zlen buffer /\ consumed k' = consumed k /\
      delivered k' = delivered k ++ take (Z.to_nat n) buffer /\
      write_count w' = u32 (write_count w + 1) /\ fd_num w' = fd)
    (write (BufferViewList.of_string buffer) false (w, k)).
Proof.
  intros Hw Hb. eapply outcome_mono; [apply write_calls; [|done]|done|].
  - intros iovs r errno k'. rewrite Hw. intros Er. by apply (owner_writev _ _ _ _ _ Er).
  - intros [n [w' k']] (?&?&?&_&iovs&errno&Er&<-). rewrite Hw in Er.
    destruct (owner_writev _ _ _ _ _ Er) as [_ [? ?]]; [lia|]. split_and!; try congruence; lia.
Qed.

Lemma shutdown_outcome how w k :
  outcome ordinary (fun '(w', k') =>
      consumed k' = consumed k /\ delivered k' = delivered k /\ fd_num w' = fd_num w /\
      (how = SHUT_WR -> write_count w' = u32 (write_count w + 1))) (Socket.shutdown how (w, k)).
Proof.
  eapply outcome_mono; [apply shutdown_calls|done|]. intros [w' k'] (?&_&?&r&errno&Er).
  by destruct (owner_shutdown _ _ _ _ _ _ Er).
Qed.

End Owner.

Lemma port_outcome `{Resolver} a : outcome ordinary (fun _ => True) (Address.ip_port a).
Proof.
  unfold Address.ip_port. destruct (getnameinfo _) as [?|[? ?]]; [done|].
  unfold stoi. repeat case_match; done.
Qed.

(** *** The connection's streams

    [streams_ok c given_in given_out ended]: the outbound stream is [given_in], ended or
    not, and what was popped of the inbound stream is [given_out]. *)
Definition streams_ok (c : TCPConnection.TCPConnection) (given_in given_out : bytes) (ended : bool) : Prop :=
  (exists p, refines (outbound_stream c) p /\ Pipe.written p = given_in /\ Pipe.ended p = ended) /\
  (exists q, refines (TCPConnection.inbound_stream c) q /\
     take (Z.to_nat (Pipe.popped q)) (Pipe.written q) = given_out).

Lemma streams_worked c c' i o e : worked c c' -> streams_ok c i o e -> streams_ok c' i o e.
Proof.
  intros [D F] [(p&R&Hw&He) (q&R'&Ho)]. split.
  - destruct (drawn_refines _ _ _ D R) as (p'&?&?&?). exists p'. split; [done|]. split; congruence.
  - destruct (fed_refines _ _ _ F R') as (q'&?&Hp&d&Hd). exists q'. split; [done|].
    rewrite Hp, Hd, take_app_le; [done|]. destruct (ref_wf _ _ R'). unfold zlen in *. lia.
Qed.

Lemma streams_write d c i o :
  streams_ok c i o false -> zlen d <= TCPConnection.remaining_outbound_capacity c ->
  streams_ok (TCPConnection.write d c).1 (i ++ d) o false /\ (TCPConnection.write d c).2 = zlen d.
Proof.
  intros [(p&R&Hw&He) Hq] Hd. destruct (write_streams d c) as (D&Ei&->).
  destruct (write_ok _ _ R d) as [R' E].
  change (zlen d <= ByteStream.remaining_capacity (outbound_stream c)) in Hd.
  rewrite (remaining_capacity_ok _ _ R) in Hd.
  assert (Pipe.accepted d p = d) as Ea.
  { unfold Pipe.accepted. rewrite He. apply take_ge. unfold zlen in Hd. lia. }
  cbn [Pipe.write fst snd] in R', E. rewrite Ea in R', E. split; [|done]. split; [|by rewrite Ei].
  destruct (drawn_refines _ _ _ D R') as (p'&?&Hw'&He'). exists p'. split; [done|].
  rewrite Hw', He'. cbn. by rewrite Hw.
Qed.

Lemma streams_end c i o e : streams_ok c i o e -> streams_ok (TCPConnection.end_input_stream c) i o true.
Proof.
  intros [(p&R&Hw&He) Hq]. destruct (end_input_streams c) as (D&Ei). split; [|by rewrite Ei].
  destruct (drawn_refines _ _ _ D (end_input_ok _ _ R)) as (p'&?&Hw'&He'). exists p'.
  split; [done|]. by rewrite Hw', He'.
Qed.

(** What is popped of a stream after a peek. *)
Lemma pop_output_prefix n m b q :
  refines b q -> 0 <= m -> 0 <= n <= zlen (ByteStream.peek_output m b) ->
  refines (ByteStream.pop_output n b) (Pipe.pop n q) /\
  take (Z.to_nat (Pipe.popped (Pipe.pop n q))) (Pipe.written q) =
    take (Z.to_nat (Pipe.popped q)) (Pipe.written q) ++ take (Z.to_nat n) (ByteStream.peek_output m b).
Proof.
  intros R Hm Hn. rewrite (peek_output_ok _ _ R) in * by lia.
  split; [by apply pop_output_ok; [|lia]|].
  destruct (ref_wf _ _ R) as [? Hpop ?]. unfold Pipe.peek in *. rewrite zlen_take in Hn.
  cbn [Pipe.popped Pipe.written Pipe.pop]. unfold Pipe.pop. cbn. unfold Pipe.peek. rewrite zlen_take.
  rewrite take_take, Nat.min_l by lia.
  replace (Z.to_nat (Pipe.popped q + _)) with (Z.to_nat (Pipe.popped q) + Z.to_nat n)%nat by lia.
  unfold Pipe.pending. by rewrite take_take_drop.
Qed.

Lemma streams_pop n m c i o e :
  0 <= m -> 0 <= n <= zlen (ByteStream.peek_output m (TCPConnection.inbound_stream c)) ->
  streams_ok c i o e ->
  streams_ok (on_inbound (ByteStream.pop_output n) c) i
    (o ++ take (Z.to_nat n) (ByteStream.peek_output m (TCPConnection.inbound_stream c))) e.
Proof.
  intros Hm Hn [Hp (q&R&Ho)]. split; [done|]. exists (Pipe.pop n q).
  destruct (pop_output_prefix n m _ _ R Hm Hn) as [R' E]. split; [done|]. by rewrite <- Ho, <- E.
Qed.

(** *** The rules *)
Section Relay.
Context {A In Out K : Type} `{Resolver} `{Adapter A In Out} `{Kernel K} `{SocketKernel K}
  `{Environment K} `{!Device In Out K} (fd : Z) (consumed delivered : K -> bytes)
  `{!Owner K fd consumed delivered} `{!DeviceSpec In Out K fd consumed delivered}
  `{!AdapterSpec A In Out}.
Local Abbreviation St := (TCPSpongeSocket A K).

(** The socket relays: the outbound stream is what was read from the owner and ended when
    the socket says so, and the owner got what was popped of the inbound stream. *)
Record relay (s : St) : Prop := mk_relay {
  rel_thread : fd_num (_thread_data s) = fd;
  rel_adapter : fd_num (_adapter_fd s) <> fd;
  rel_streams : exists c, _tcp s = Some c /\
    streams_ok c (consumed (kernel s)) (delivered (kernel s)) (_outbound_shutdown s)
}.

Definition same (k k' : K) : Prop := consumed k' = consumed k /\ delivered k' = delivered k.

Lemma relay_tcp (s : St) : relay s -> exists c, tcp s = ok c /\ _tcp s = Some c /\
  streams_ok c (consumed (kernel s)) (delivered (kernel s)) (_outbound_shutdown s).
Proof. intros [_ _ (c&E&Hc)]. exists c. unfold tcp. by rewrite E. Qed.

Lemma relay_worked f (s : St) :
  relay s -> (forall c, worked c (f c)) -> relay (on_tcp f s).
Proof.
  intros [Ht Ha (c&E&Hc)] Hf. split; [done..|]. exists (f c). cbn. rewrite E. split; [done|].
  by eapply streams_worked.
Qed.

(** Replacing the adapter, its descriptor and the environment. *)
Lemma relay_adapter (s : St) a w k :
  relay s -> fd_num w = fd_num (_adapter_fd s) -> same (kernel s) k ->
  relay (s <| _datagram_adapter := a |> <| _adapter_fd := w |> <| kernel := k |>).
Proof.
  intros [Ht Ha (c&E&Hc)] Hw [Hk1 Hk2]. split; cbn; [done|congruence|]. exists c. by rewrite Hk1, Hk2.
Qed.

Lemma show_destination_outcome (s : St) : outcome ordinary (fun _ => True) (show_destination s).
Proof.
  unfold show_destination, Address.address_to_string.
  eapply outcome_bind with (P := fun _ => True); [|done].
  eapply outcome_bind; [apply port_outcome|]. by intros [].
Qed.

(** The writes of an adapter change its descriptor and the environment only. *)
Lemma carry_out_outcome out (s : St) :
  relay s -> outcome ordinary (fun s' => relay s' /\
      _outbound_shutdown s' = _outbound_shutdown s /\ _thread_data s' = _thread_data s /\
      _tcp s' = _tcp s /\ read_count (_adapter_fd s') = read_count (_adapter_fd s)) (carry_out out s).
Proof.
  revert s. induction out as [|o out IH]; intros s R; cbn [carry_out]; [done|].
  eapply outcome_bind with (P := fun s' => relay s' /\
      _outbound_shutdown s' = _outbound_shutdown s /\ _thread_data s' = _thread_data s /\
      _tcp s' = _tcp s /\ read_count (_adapter_fd s') = read_count (_adapter_fd s)).
  - unfold on_adapter. eapply outcome_bind; [apply device_write, R|]. intros [w k] (Hr&Hf&Hs).
    split; [|done]. apply (relay_adapter s (_datagram_adapter s)); done.
  - intros s' (R'&E1&E2&E3&E4). eapply outcome_mono; [by apply IH|done|].
    intros s2 (?&?&?&?&?). split; [done|]. split_and!; congruence.
Qed.

Lemma receive_outcome (s : St) :
  relay s -> outcome ordinary (fun s' => relay s' /\
    _outbound_shutdown s' = _outbound_shutdown s /\
    read_count (_adapter_fd s') = u32 (read_count (_adapter_fd s) + 1)) (receive_datagram s).
Proof.
  intros R. unfold receive_datagram.
  eapply outcome_bind; [apply device_read, R|]. intros [i [w k]] (Hr&Hf&Hs). cbv zeta.
  eapply outcome_bind; [apply adapter_read|]. intros [[a out] seg] _.
  pose proof (relay_adapter s a w k R Hf Hs) as R1.
  eapply outcome_bind; [apply carry_out_outcome, R1|]. intros s1 (R2&E1&_&_&E4).
  set (s2 := match seg with Some _ => _ | None => s1 end).
  assert (relay s2 /\ _outbound_shutdown s2 = _outbound_shutdown s /\
    read_count (_adapter_fd s2) = u32 (read_count (_adapter_fd s) + 1)) as Hs2.
  { subst s2. destruct seg as [seg|]; (split; [|split; [by rewrite <- E1 || exact E1|rewrite <- Hr; exact E4]]); [|done].
    apply relay_worked; [done|]. intros c. apply segment_received_worked. }
  destruct (eof _); [|done]. destruct (relay_tcp s2) as (c&->&_); [by destruct Hs2|]. rewrite bindR_ok.
  destruct (_ && _); [|done]. eapply outcome_bind; [apply show_destination_outcome|]. intros _ _.
  destruct Hs2 as [[] ?]. by split.
Qed.

Lemma read_from_owner_outcome (s : St) :
  relay s -> _outbound_shutdown s = false ->
  outcome ordinary (fun s' => relay s' /\
    read_count (_thread_data s') = u32 (read_count (_thread_data s) + 1)) (read_from_owner s).
Proof.
  intros R Ho. unfold read_from_owner. destruct (relay_tcp s R) as (c&->&Ec&Hc). rewrite bindR_ok.
  rewrite Ho in Hc. destruct R as [Ht Ha _]. unfold on_thread.
  assert (0 <= TCPConnection.remaining_outbound_capacity c) as Hcap.
  { unfold TCPConnection.remaining_outbound_capacity, ByteStream.remaining_capacity. apply u64_range. }
  pose proof (read_outcome fd consumed delivered _ (_thread_data s) (kernel s) Hcap Ht) as Hr.
  destruct (read _ _) as [e|[data [w k]]]; [done|]. destruct Hr as (Hl&Hc1&Hd1&Hn&Hf). cbn [bindR ok].
  unfold tcp. cbn [_tcp upd]. cbn. rewrite Ec. cbn.
  destruct (streams_write data c _ _ Hc Hl) as [Hc' Hn']. rewrite <- Hc1, <- Hd1 in Hc'.
  destruct (TCPConnection.write data c) as [c' n]. cbn [fst snd] in *. subst n.
  rewrite Z.eqb_refl. cbn [negb]. destruct (eof _).
  - eapply outcome_bind; [apply show_destination_outcome|]. intros _ _. split; [|done].
    split; [done..|]. eexists. split; [done|]. cbn. by eapply streams_end.
  - split; [|done]. split; [done..|]. exists c'. split; [done|]. cbn. by rewrite Ho.
Qed.

Lemma write_to_owner_outcome (s : St) :
  relay s ->
  outcome ordinary (fun s' => relay s' /\ _outbound_shutdown s' = _outbound_shutdown s /\
    write_count (_thread_data s') <> write_count (_thread_data s)) (write_to_owner s).
Proof.
  intros R. unfold write_to_owner. destruct (relay_tcp s R) as (c&->&Ec&Hc). rewrite bindR_ok.
  destruct R as [Ht Ha _]. unfold on_thread. set (m := Z.min 65536 _).
  assert (0 <= m <= 65536) as Hm.
  { destruct Hc as [_ (q&Rq&_)]. subst m. rewrite (buffer_size_ok _ _ Rq).
    pose proof (zlen_nonneg (Pipe.pending q)). lia. }
  set (buffer := ByteStream.peek_output m _).
  assert (zlen buffer < 2 ^ 63) as Hb.
  { destruct Hc as [_ (q&Rq&_)]. subst buffer. rewrite (peek_output_ok _ _ Rq), zlen_peek by lia. lia. }
  pose proof (write_once_outcome fd consumed delivered buffer (_thread_data s) (kernel s) Ht Hb) as Hw.
  destruct (write _ _ _) as [e|[n [w k]]]; [done|]. destruct Hw as (Hn&Hc1&Hd1&Hcount&Hf). cbn [bindR ok].
  set (s1 := on_tcp _ _).
  assert (relay s1) as R1.
  { split; [done..|]. exists (on_inbound (ByteStream.pop_output n) c). cbn. rewrite Ec. split; [done|].
    rewrite Hc1, Hd1. apply streams_pop; [lia|done|done]. }
  assert (_outbound_shutdown s1 = _outbound_shutdown s) as Eo by done.
  assert (write_count (_thread_data s1) = u32 (write_count (_thread_data s) + 1)) as Ew by exact Hcount.
  clearbody s1. destruct (_ || _); [|split; [done|]; split; [done|]; rewrite Ew; zmod].
  pose proof (shutdown_outcome fd consumed delivered SHUT_WR (_thread_data s1) (kernel s1)) as Hsh.
  destruct (Socket.shutdown _ _) as [e|[w2 k2]]; [done|]. destruct Hsh as (Hc2&Hd2&Hf2&Hw2).
  cbn [bindR ok]. eapply outcome_bind; [apply show_destination_outcome|]. intros _ _.
  destruct R1 as [Ht1 Ha1 (c1&Ec1&Hs1)]. split; [|split; [done|]].
  - split; cbn; [congruence|done|]. exists c1. by rewrite Hc2, Hd2.
  - cbn. rewrite (Hw2 eq_refl), Ew. zmod.
Qed.

Lemma send_segments_outcome q (s : St) :
  relay s -> (exists c, _tcp s = Some c /\ TCPConnection.segments_out c = q) ->
  outcome ordinary (fun s' => relay s' /\ _outbound_shutdown s' = _outbound_shutdown s /\
    send_interest s' = false) (send_segments q s).
Proof.
  revert s. induction q as [|seg q IH]; intros s R (c&Ec&Eq); cbn [send_segments].
  - split; [done|]. split; [done|]. unfold send_interest, tcp_is. by rewrite Ec, Eq.
  - eapply outcome_bind; [apply adapter_write|]. intros [[a out] _] _.
    eapply outcome_bind; [apply carry_out_outcome|].
    { exact (relay_adapter s a _ _ R eq_refl (conj eq_refl eq_refl)). }
    intros s1 (R1&Eo&_&Et&_). eapply outcome_mono; [apply IH|done|].
    + apply relay_worked; [done|]. intros c'. by apply worked_same.
    + exists (c <| TCPConnection._segments_out ::= tail |>). cbn. rewrite Et. cbn. rewrite Ec.
      split; [done|]. unfold TCPConnection.segments_out in *. cbn. by rewrite Eq.
    + intros s2 (?&E2&?). split; [done|]. split; [|done]. rewrite E2. cbn. exact Eo.
Qed.

(** *** The loop *)
Inductive which := ReceiveDatagram | ReadOwner | WriteOwner | SendDatagrams.

#[local] Instance which_eq_dec : EqDecision which.
Proof. solve_decision. Defined.

Definition rule_of (i : which) : EventLoop.Rule St :=
  match i with
  | ReceiveDatagram => EventLoop.mkRule _adapter_fd EventLoop.In receive_datagram receive_interest EventLoop.nothing
  | ReadOwner => EventLoop.mkRule _thread_data EventLoop.In read_from_owner read_interest stop_reading
  | WriteOwner => EventLoop.mkRule _thread_data EventLoop.Out write_to_owner write_interest EventLoop.nothing
  | SendDatagrams => EventLoop.mkRule _adapter_fd EventLoop.Out send_datagrams send_interest EventLoop.nothing
  end.
Definition all_rules : list which := [ReceiveDatagram; ReadOwner; WriteOwner; SendDatagrams].

Lemma all_rules_nodup : NoDup all_rules.
Proof. by apply (bool_decide_unpack _). Qed.

Lemma rules_eq : (rules : list (EventLoop.Rule St)) = map rule_of all_rules.
Proof. done. Qed.

(** The rule that reads from the owner relies on the stream not having ended. *)
Definition relies (i : which) (s : St) : Prop :=
  match i with ReadOwner => _outbound_shutdown s = false | _ => True end.

(** Nothing is claimed of a rule that is not interested. *)
Definition any (i : which) (s : St) : Prop := True.

Lemma rules_contract : EventLoopTheorems.contract rule_of (fun _ => relay) relies any ordinary.
Proof.
  split.
  - intros l i s _ R _. destruct (EventLoop.interest _ s) eqn:Ei; [|done]. revert Ei. destruct i; try done.
    cbn. unfold read_interest. by destruct (_outbound_shutdown s); [rewrite andb_false_r|].
  - intros l ps t s r errno revents s' R. unfold EventLoop.poll, socket_poll.
    destruct (k_poll _ _ _) as [[[r0 e0] rev0] k'] eqn:Ep. intros [= <- <- <- <-].
    destruct (owner_poll _ _ _ _ _ _ _ Ep) as [Hc Hd]. split; [|by intros []].
    destruct R as [Ht Ha (c&E&Hs)]. split; [done..|]. exists c. cbn. by rewrite Hc, Hd.
  - intros l1 i l2 s R. destruct i; try (split; [done|]; split; [by intros []|done]). cbn.
    split; [|split; [by intros []|done]].
    destruct R as [Ht Ha (c&E&Hs)]. split; [done..|]. exists (TCPConnection.end_input_stream c). cbn.
    rewrite E. split; [done|]. by eapply streams_end.
  - intros l i s _ R Hp. destruct i; cbn [EventLoop.callback rule_of].
    + eapply outcome_mono; [by apply receive_outcome|done|]. intros s' (R'&Eo&Er).
      split; [done|]. split; [intros []; cbn; congruence|]. left. cbn. rewrite Er. zmod.
    + eapply outcome_mono; [by apply read_from_owner_outcome|done|]. intros s' (R'&Er).
      split; [done|]. split; [by intros []|]. left. cbn. rewrite Er. zmod.
    + eapply outcome_mono; [by apply write_to_owner_outcome|done|]. intros s' (R'&Eo&Er).
      split; [done|]. split; [intros []; cbn; congruence|]. left. cbn. congruence.
    + unfold send_datagrams. destruct (relay_tcp s R) as (c&->&Ec&_). rewrite bindR_ok.
      eapply outcome_mono; [apply send_segments_outcome; [done|by exists c]|done|]. intros s' (R'&Eo&Ei).
      split; [done|]. split; [intros []; cbn; congruence|]. by right.
Qed.

(** What may come out of the loop: an exception of the environment, or of [poll]. *)
Definition loop_error (e : exception) : Prop := ordinary e \/ e = EventLoop.polled_error.

(** A state the loop can be in. *)
Definition running (t : loop_state) : Prop :=
  relay t.2 /\ exists ids, ids `sublist_of` all_rules /\ t.1.2 = map rule_of ids.

Lemma tcp_loop_body_outcome t :
  running t -> outcome loop_error (fun '(_, t') => running t') (tcp_loop_body t).
Proof.
  destruct t as [[base rs] s]. intros [R (ids&Hsub&E)]. cbn in R, E. subst rs. unfold tcp_loop_body.
  assert (NoDup ids) as Hd by (eapply sublist_NoDup; [apply all_rules_nodup|done]).
  eapply outcome_bind; [apply (EventLoopTheorems.wait_outcome _ _ _ _ _ rules_contract); done|].
  intros [[ret rs] s1] (ids1&Hsub1&->&R1&_).
  assert (forall b s2, relay s2 -> running (b, map rule_of ids1, s2)) as Hrun.
  { intros b s2 R2. split; [done|]. exists ids1. split; [by etrans|done]. }
  destruct (_ || _); [by apply Hrun|].
  destruct (relay_tcp s1 R1) as (c&->&Ec&Hc). rewrite bindR_ok. destruct (TCPConnection.active c); [|by apply Hrun].
  destruct (timestamp_ms (kernel s1)) as [next_time k] eqn:Et. destruct (owner_clock _ _ _ Et) as [Hk1 Hk2].
  set (s2 := on_tcp _ _). assert (relay s2) as R2.
  { apply relay_worked; [|intros; apply tick_worked].
    exact (relay_adapter s1 (_datagram_adapter s1) (_adapter_fd s1) k R1 eq_refl (conj Hk1 Hk2)). }
  clearbody s2. eapply outcome_bind; [eapply outcome_mono; [apply adapter_tick|by left|done]|].
  intros [a out] _. eapply outcome_bind;
    [eapply outcome_mono; [apply carry_out_outcome|by left|intros s3 Hs3; exact Hs3]|].
  { exact (relay_adapter s2 a _ _ R2 eq_refl (conj eq_refl eq_refl)). }
  intros s3 (R3&_). by apply Hrun.
Qed.

(** *** From the start *)

(** A socket as its constructor leaves it, whose owner has not used it yet. *)
Record fresh (s : St) : Prop := mk_fresh {
  fresh_tcp : _tcp s = None;
  fresh_thread : fd_num (_thread_data s) = fd;
  fresh_adapter : fd_num (_adapter_fd s) <> fd;
  fresh_open : _outbound_shutdown s = false;
  fresh_consumed : consumed (kernel s) = [];
  fresh_delivered : delivered (kernel s) = []
}.

Lemma streams_make random cfg :
  Handshake.config_ok random cfg -> streams_ok (TCPConnection.make random cfg) [] [] false.
Proof.
  intros (_&Hr&Hs). split.
  - exists (Pipe.make (TCPConfig.send_capacity cfg)). split; [by apply make_ok|done].
  - exists (Pipe.make (TCPConfig.recv_capacity cfg)). split; [by apply make_ok|done].
Qed.

Lemma fresh_relay random cfg (s : St) :
  Handshake.config_ok random cfg -> fresh s -> relay (s <| _tcp := Some (TCPConnection.make random cfg) |>).
Proof.
  intros Hc []. split; [done..|]. eexists. split; [reflexivity|]. cbn [kernel _outbound_shutdown upd].
  rewrite fresh_consumed0, fresh_delivered0, fresh_open0. by apply streams_make.
Qed.
Lemma relay_configured g (s : St) : relay s -> relay (s <| _datagram_adapter ::= g |>).
Proof. by intros []. Qed.

(** The states of the loop after [connect] or [listen_and_accept] has set it up. *)
Inductive reached (random : Z) (c_tcp : TCPConfig.TCPConfig) (c_ad : FdAdapterConfig) (s : St) : loop_state -> Prop :=
| reached_connect s1 rs base k :
    start_connect random c_tcp c_ad s = ok (s1, rs) -> timestamp_ms (kernel s1) = (base, k) ->
    reached random c_tcp c_ad s (base, rs, s1 <| kernel := k |>)
| reached_listen s1 rs base k :
    start_listen random c_tcp c_ad s = ok (s1, rs) -> timestamp_ms (kernel s1) = (base, k) ->
    reached random c_tcp c_ad s (base, rs, s1 <| kernel := k |>)
| reached_turn t b t' :
    reached random c_tcp c_ad s t -> tcp_loop_body t = ok (b, t') -> reached random c_tcp c_ad s t'.

Lemma relay_clock (s : St) base k : relay s -> timestamp_ms (kernel s) = (base, k) -> relay (s <| kernel := k |>).
Proof.
  intros R E. destruct (owner_clock _ _ _ E) as [E1 E2].
  exact (relay_adapter s (_datagram_adapter s) (_adapter_fd s) k R eq_refl (conj E1 E2)).
Qed.

Lemma start_connect_relay random c_tcp c_ad (s s1 : St) rs :
  Handshake.config_ok random c_tcp -> fresh s -> start_connect random c_tcp c_ad s = ok (s1, rs) ->
  relay s1 /\ rs = rules.
Proof.
  intros Hc Hf. unfold start_connect. rewrite (fresh_tcp _ Hf). unfold _initialize_TCP. cbv zeta.
  pose proof (relay_configured (config_mut (fun _ => c_ad)) _ (fresh_relay random c_tcp s Hc Hf)) as R. revert R.
  generalize (s <| _tcp := Some (TCPConnection.make random c_tcp) |>
                <| _datagram_adapter ::= config_mut (fun _ => c_ad) |>). intros s0 R.
  destruct (show_destination s0); [done|]. cbn [bindR]. destruct (negb _); [done|]. intros [= <- <-].
  split; [|done]. apply relay_worked; [done|apply connect_worked].
Qed.

Lemma start_listen_relay random c_tcp c_ad (s s1 : St) rs :
  Handshake.config_ok random c_tcp -> fresh s -> start_listen random c_tcp c_ad s = ok (s1, rs) ->
  relay s1 /\ rs = rules.
Proof.
  intros Hc Hf. unfold start_listen. rewrite (fresh_tcp _ Hf). unfold _initialize_TCP. cbv zeta.
  intros [= <- <-]. split; [|done].
  exact (relay_configured (set_listening true) _ (relay_configured (config_mut (fun _ => c_ad)) _
    (fresh_relay random c_tcp s Hc Hf))).
Qed.

Lemma reached_running random c_tcp c_ad s t :
  Handshake.config_ok random c_tcp -> fresh s -> reached random c_tcp c_ad s t -> running t.
Proof.
  intros Hc Hf. induction 1 as [s1 rs base k E Et|s1 rs base k E Et|t b t' _ IH E].
  - apply start_connect_relay in E as [R ->]; [|done..].
    split; [by eapply relay_clock|]. exists all_rules. split; [done|apply rules_eq].
  - apply start_listen_relay in E as [R ->]; [|done..].
    split; [by eapply relay_clock|]. exists all_rules. split; [done|apply rules_eq].
  - pose proof (tcp_loop_body_outcome t IH) as O. by rewrite E in O.
Qed.

(** C12. A socket relays. In every state of its loop the outbound stream of the connection
    consists of the bytes read from the owner, in order, and has ended exactly when the
    socket has shut it down; the bytes written to the owner are those taken from the
    inbound stream, in order; and the next turn reports neither a busy wait nor a short
    [TCPConnection::write]. *)
Theorem socket_relays random c_tcp c_ad s t :
  Handshake.config_ok random c_tcp -> fresh s -> reached random c_tcp c_ad s t ->
  (exists c p q, _tcp t.2 = Some c /\
     refines (TCPSender.stream_in (TCPConnection._sender c)) p /\
     Pipe.written p = consumed (kernel t.2) /\ Pipe.ended p = _outbound_shutdown t.2 /\
     refines (TCPConnection.inbound_stream c) q /\
     take (Z.to_nat (Pipe.popped q)) (Pipe.written q) = delivered (kernel t.2)) /\
  outcome (fun e => e <> EventLoop.busy_wait /\ e <> accepted_less) (fun _ => True) (tcp_loop_body t).
Proof.
  intros Hc Hf H4. pose proof (reached_running _ _ _ _ _ Hc Hf H4) as R. split.
  - destruct R as [[_ _ (c&E&(p&?&?&?)&q&?&?)] _]. by exists c, p, q.
  - eapply outcome_mono; [by apply tcp_loop_body_outcome| |done]. by intros e [(?&?&_)| ->].
Qed.

(** [connect] finds the connection in the state it expects: what it throws comes from
    the resolver that prints the address. *)
Theorem connect_starts random c_tcp c_ad s :
  Handshake.config_ok random c_tcp -> _tcp s = None ->
  outcome (fun e => e <> unexpected_state) (fun '(s1, rs) =>
      in_state TCPState.SYN_SENT s1 = true /\ rs = rules /\
      exists c syn, _tcp s1 = Some c /\ TCPConnection.segments_out c = [syn])
    (start_connect (A := A) (K := K) random c_tcp c_ad s).
Proof.
  intros Hc Hs. unfold start_connect. rewrite Hs. cbn [_initialize_TCP].
  eapply outcome_bind with (P := fun _ => True);
    [eapply outcome_mono; [apply show_destination_outcome|by intros e (_&_&_&?&_)|done]|].
  intros _ _. set (s1 := on_tcp _ _).
  assert (_tcp s1 = Some (TCPConnection.connect (TCPConnection.make random c_tcp))) as Et by reflexivity.
  clearbody s1. pose proof (Handshake.connect_sends_syn random c_tcp Hc) as E.
  assert (in_state TCPState.SYN_SENT s1 = true) as Hst.
  { unfold in_state, tcp_is. rewrite Et, E. by apply Handshake.state_syn_sent. }
  rewrite Hst. split; [done|]. split; [done|]. eexists _, _. split; [exact Et|]. rewrite E. reflexivity.
Qed.

End Relay.
End SocketTheorems.
