(* ===== verification/SocketStack.v ===== *)
(** * The socket as a side of the stack

    [TCPSpongeSocket] (tcp_helpers/tcp_sponge_socket.* ) drives the connection and the adapter
    the way a side of [Stack] goes on: every turn of its loop is a sequence of the events
    there. The events are those of the environment: the bytes it took from its owner are
    those written to the connection, the bytes it gave to the owner are those read from
    it, the packets that arrive are those read from the device, the packets sent are
    those written to it, and the time that passes is that of the clock. *)
From S2P Require Import Prelude Stream Wrapping Reassembler Buffers TcpSegment Receiver Sender.
From S2P Require Import Connection ConnectionStreams Handshake Peers Addresses Descriptor Adapters Stations Stack.
From S2P Require Import Socket EventLoop SpongeSocket SocketTheorems.

Module SocketStack.
Import FileDescriptor TCPSpongeSocket SocketTheorems Stations.
Import ConnectionTheorems(op(..), write_eq).
Import Peers(side, conn, written, act, make_side).

(** ** Lists of events *)
Section Runs.
Context {A In Out : Type} `{Station A In Out} (p : path).
Local Abbreviation station := (Stack.station (A := A) (In := In)).

(** The events of a socket. A segment leaves the queue only by [Send], which writes it, and
    reaches the connection only by [Arrive], with a packet. *)
Definition by_socket (v : Stack.event (In := In)) : Prop :=
  match v with
  | Stack.Happens (Write _ | Read _ | EndInput) => True
  | Stack.Happens _ => False
  | Stack.Send | Stack.Arrive _ | Stack.Pass _ => True
  end.

(** The packets that arrive and the time that passes in a list of events. *)
Definition arrivals (vs : list (Stack.event (In := In))) : list In :=
  omap (fun v => match v with Stack.Arrive i => Some i | _ => None end) vs.
Definition elapsed (vs : list (Stack.event (In := In))) : Z :=
  foldr (fun v t => match v with Stack.Pass ms => ms + t | _ => t end) 0 vs.

Inductive runs (e : station) : list Stack.event -> station -> Prop :=
  | runs_none : runs e [] e
  | runs_event e1 vs v e2 : runs e vs e1 -> by_socket v -> Stack.occur p v e1 = ok e2 -> runs e (vs ++ [v]) e2.

Lemma runs_one e v e' : by_socket v -> Stack.occur p v e = ok e' -> runs e [v] e'.
Proof. intros. apply (runs_event e e [] v); [apply runs_none|done|done]. Qed.
Lemma runs_trans e1 vs e2 vs' e3 : runs e1 vs e2 -> runs e2 vs' e3 -> runs e1 (vs ++ vs') e3.
Proof.
  intros R1. induction 1 as [|e v vs' e' _ IH Hv E]; [by rewrite app_nil_r|].
  rewrite app_assoc. by eapply runs_event.
Qed.

Lemma elapsed_app vs vs' : elapsed (vs ++ vs') = elapsed vs + elapsed vs'.
Proof. unfold elapsed. induction vs as [|v vs IH]; cbn [foldr app]; [done|]. rewrite IH. destruct v; lia. Qed.

End Runs.

(** The first bytes of what is peeked are what a shorter peek gives. *)
Lemma take_peek n m s :
  0 <= n <= zlen (ByteStream.peek_output m s) ->
  take (Z.to_nat n) (ByteStream.peek_output m s) = ByteStream.peek_output n s.
Proof.
  assert (forall k s start, length (ByteStream.peek_loop k s start) = k) as Hlen.
  { intros k. induction k as [|k IH]; intros s' start; cbn; [done|]. by rewrite IH. }
  assert (forall j k s start, (j <= k)%nat -> take j (ByteStream.peek_loop k s start) = ByteStream.peek_loop j s start) as Ht.
  { intros j. induction j as [|j IH]; intros k s' start Hk; [done|]. destruct k as [|k]; [lia|]. cbn. rewrite IH; [done|lia]. }
  unfold ByteStream.peek_output, zlen. rewrite Hlen. intros Hn. rewrite Ht by lia. f_equal. lia.
Qed.

(** What the environment does with the packets: [came] are those that the device gave and
    [went] those written to it, as they arrive at the end of the path. Nothing else than
    reading and writing the device changes them. *)
Class Traffic {A In Out : Type} (K : Type) `{Station A In Out} `{Kernel K} `{SocketKernel K} `{Environment K}
    `{!Device In Out K} (fd : Z) (p : path) (came went : K -> list In) : Prop := {
  traffic_in : forall w k i w' k', fd_num w <> fd -> dev_read (w, k) = ok (i, (w', k')) ->
    came k' = came k ++ [i] /\ went k' = went k;
  traffic_out : forall o w k w' k', fd_num w <> fd -> dev_write o (w, k) = ok (w', k') ->
    came k' = came k /\ went k' = went k ++ [arrival p o];
  traffic_read : forall n k r errno data k', k_read fd n k = (r, errno, data, k') ->
    came k' = came k /\ went k' = went k;
  traffic_writev : forall iovs k r errno k', k_writev fd iovs k = (r, errno, k') ->
    came k' = came k /\ went k' = went k;
  traffic_shutdown : forall fd' how k r errno k', k_shutdown fd' how k = (r, errno, k') ->
    came k' = came k /\ went k' = went k;
  traffic_poll : forall ps t k r errno revents k', k_poll ps t k = (r, errno, revents, k') ->
    came k' = came k /\ went k' = went k;
  traffic_clock : forall k t k', timestamp_ms k = (t, k') ->
    came k' = came k /\ went k' = went k
}.

Section Mirror.
Context {A In Out K : Type} `{Resolver} `{Station A In Out} `{Kernel K} `{SocketKernel K}
  `{Environment K} `{!Device In Out K} (fd : Z) (took gave : K -> bytes)
  `{!Owner K fd took gave} `{!DeviceSpec In Out K fd took gave}
  `{!AdapterSpec A In Out} (p : path) (came went : K -> list In) `{!Traffic K fd p came went}.
Local Abbreviation St := (TCPSpongeSocket A K).
Local Abbreviation station := (Stack.station (A := A) (In := In)).
Local Abbreviation relay := (relay (A := A) fd took gave).
Local Abbreviation same_traffic k k' := (came k' = came k /\ went k' = went k).

(** *** Calls on the owner's descriptor are no traffic. *)
Lemma read_traffic limit w k data w' k' :
  fd_num w = fd -> read limit (w, k) = ok (data, (w', k')) -> same_traffic k k'.
Proof.
  intros Hw E. unfold read in E. destruct (k_read _ _ k) as [[[r errno] d] k1] eqn:Ek. rewrite Hw in Ek.
  apply bindR_inv in E as (n&_&E). destruct (_ <? n); [done|]. unfold ok in E. injection E as _ _ <-.
  by eapply traffic_read.
Qed.

Lemma write_loop_traffic fuel all l total w k n w' k' :
  fd_num w = fd -> write_loop fuel all l total (w, k) = ok (n, (w', k')) -> same_traffic k k'.
Proof.
  revert l total w k. induction fuel as [|fuel IH]; intros l total w k Hw E; cbn [write_loop] in E.
  { unfold ok in E. by injection E as _ _ <-. }
  destruct (k_writev _ _ k) as [[r errno] k1] eqn:Ek. rewrite Hw in Ek.
  destruct (traffic_writev _ _ _ _ _ Ek) as [Hc Hg].
  apply bindR_inv in E as (m&_&E). destruct (_ && _); [done|]. destruct (_ <? _); [done|].
  apply bindR_inv in E as (l'&_&E). destruct (_ && _).
  - apply IH in E as [? ?]; [|done]. split; congruence.
  - unfold ok in E. by injection E as _ _ <-.
Qed.

Lemma shutdown_traffic how w k w' k' : Socket.shutdown how (w, k) = ok (w', k') -> same_traffic k k'.
Proof.
  intros E. unfold Socket.shutdown in E. destruct (k_shutdown _ _ k) as [[r errno] k1] eqn:Ek.
  apply traffic_shutdown in Ek. apply bindR_inv in E as (m&_&E).
  repeat (destruct (_ =? _) in E; [unfold ok in E; by injection E as _ <-|]). done.
Qed.

(** [s] after the events [vs]: [k0] is the environment at the start and [base] the reading of
    the clock up to which time has passed. *)
Record mirrors (k0 : K) (base : Z) (vs : list Stack.event) (s : St) (e : station) : Prop := mk_mirrors {
  mir_tcp : _tcp s = Some (conn (Stack.end_ e));
  mir_adapter : _datagram_adapter s = Stack.adapter e;
  mir_took : took (kernel s) = written (Stack.end_ e);
  mir_gave : gave (kernel s) = Peers.consumed (Stack.end_ e);
  mir_came : came (kernel s) = came k0 ++ arrivals vs;
  mir_went : went (kernel s) = went k0 ++ Stack.packets e;
  mir_time : u64 (elapsed vs) = u64 (base - (timestamp_ms k0).1)
}.

(** The writes of an adapter change its descriptor and the environment only, and put the
    packets out. *)
Lemma carry_out_keeps out (s s' : St) :
  fd_num (_adapter_fd s) <> fd -> carry_out out s = ok s' ->
  exists w k, s' = s <| _adapter_fd := w |> <| kernel := k |> /\ fd_num w <> fd /\ same took gave (kernel s) k /\
    came k = came (kernel s) /\ went k = went (kernel s) ++ map (arrival p) out.
Proof.
  revert s. induction out as [|o out IH]; intros s Hf E; cbn [carry_out] in E.
  - unfold ok in E. injection E as <-. exists (_adapter_fd s), (kernel s). rewrite app_nil_r. by destruct s.
  - apply bindR_inv in E as (s1&E1&E). unfold on_adapter in E1. apply bindR_inv in E1 as ([w k]&Ew&E1).
    unfold ok in E1. injection E1 as <-. destruct (traffic_out _ _ _ _ _ Hf Ew) as [Hi Ho].
    pose proof (device_write o (_adapter_fd s) (kernel s) Hf) as Hd. rewrite Ew in Hd. destruct Hd as (_&Hw&Hk1&Hk2).
    apply IH in E as (w'&k'&->&Hw'&Hk'&Hi'&Ho'); [|cbn; congruence]. exists w', k'. split; [by destruct s|]. split; [done|].
    destruct Hk'. cbn in *. split; [split; congruence|]. split; [congruence|]. rewrite Ho', Ho, <- app_assoc. done.
Qed.

(** What a function on the socket does is a sequence of events. *)
Definition follows (f : St -> result St) : Prop :=
  forall k0 base vs s s' e, relay s -> mirrors k0 base vs s e -> f s = ok s' ->
    exists vs' e', runs p e vs' e' /\ mirrors k0 base (vs ++ vs') s' e'.

Lemma socket_arrivals_snoc vs v : arrivals (vs ++ [v]) = arrivals vs ++ arrivals (In := In) [v].
Proof. apply omap_app. Qed.

Lemma receive_follows : follows receive_datagram.
Proof.
  intros k0 base vs s s' e [Ht Ha _] [Mt Ma Mk Mg Mc Mw Mtm] E. unfold receive_datagram in E.
  apply bindR_inv in E as ([i [w k]]&Er&E). destruct (traffic_in _ _ _ _ _ Ha Er) as [Hi Ho].
  pose proof (device_read (_adapter_fd s) (kernel s) Ha) as Hd. rewrite Er in Hd. destruct Hd as (_&Hw&Hk1&Hk2).
  cbv zeta in E. apply bindR_inv in E as ([[a out] seg]&Ea&E). cbn [_datagram_adapter] in Ea.
  change (_datagram_adapter (s <| _adapter_fd := w |> <| kernel := k |>)) with (_datagram_adapter s) in Ea.
  apply bindR_inv in E as (s1&Ec&E). apply carry_out_keeps in Ec as (w'&k'&->&_&[Hk1' Hk2']&Hi'&Ho'); [|cbn; congruence].
  rewrite Ma in Ea. exists [Stack.Arrive i]. eexists. split.
  { apply runs_one; [done|]. cbn [Stack.occur]. rewrite Ea, bindR_ok. reflexivity. }
  set (s2 := match seg with Some _ => _ | None => _ end) in E. cbn in Hk1', Hk2', Hi', Ho'.
  match goal with |- mirrors _ _ ?l _ ?e' => assert (mirrors k0 base l s2 e') as M2 end.
  { unfold s2. assert (came k' = came k0 ++ arrivals (vs ++ [Stack.Arrive i])) as Hcame
      by (rewrite socket_arrivals_snoc, app_assoc, <- Mc; cbn; congruence).
    assert (went k' = went k0 ++ Stack.packets e ++ map (arrival p) out) as Hwent
      by (rewrite app_assoc, <- Mw; congruence).
    assert (u64 (elapsed (vs ++ [Stack.Arrive i])) = u64 (base - (timestamp_ms k0).1)) as Htm
      by (rewrite elapsed_app; cbn; by rewrite Z.add_0_r).
    destruct seg as [seg|]; split; cbn -[u64]; try done; try congruence. by rewrite Mt. }
  clearbody s2. destruct (eof _); [|unfold ok in E; by injection E as <-].
  apply bindR_inv in E as (c&_&E). destruct (_ && _); [|unfold ok in E; by injection E as <-].
  apply bindR_inv in E as (u&_&E). unfold ok in E. injection E as <-. by destruct M2.
Qed.

(** An event that is neither an arrival nor the passing of time. *)
Lemma mirrors_event k0 base vs v (s : St) e :
  arrivals [v] = [] -> elapsed [v] = 0 ->
  _tcp s = Some (conn (Stack.end_ e)) -> _datagram_adapter s = Stack.adapter e ->
  took (kernel s) = written (Stack.end_ e) -> gave (kernel s) = Peers.consumed (Stack.end_ e) ->
  came (kernel s) = came k0 ++ arrivals vs -> went (kernel s) = went k0 ++ Stack.packets e ->
  u64 (elapsed vs) = u64 (base - (timestamp_ms k0).1) -> mirrors k0 base (vs ++ [v]) s e.
Proof. intros Ha Ht. split; try done; by rewrite ?socket_arrivals_snoc, ?elapsed_app, ?Ha, ?Ht, ?app_nil_r, ?Z.add_0_r. Qed.

Lemma end_input_mirrors k0 base vs (s : St) e b :
  mirrors k0 base vs s e ->
  exists vs' e', runs p e vs' e' /\
    mirrors k0 base (vs ++ vs') (on_tcp TCPConnection.end_input_stream s <| _outbound_shutdown := b |>) e'.
Proof.
  intros [Mt Ma Mk Mg Mc Mw Mtm]. exists [Stack.Happens EndInput]. eexists. split; [apply runs_one; reflexivity|].
  apply mirrors_event; try done. cbn. by rewrite Mt.
Qed.

Lemma read_owner_follows : follows read_from_owner.
Proof.
  intros k0 base vs s s' e [Ht Ha _] [Mt Ma Mk Mg Mc Mw Mtm] E. unfold read_from_owner, tcp in E. rewrite Mt, bindR_ok in E.
  set (c := conn (Stack.end_ e)) in *. apply bindR_inv in E as ([data s1]&Er&E). unfold on_thread in Er.
  apply bindR_inv in Er as ([data' [w k]]&Er&E1). unfold ok in E1. injection E1 as <- <-.
  assert (0 <= TCPConnection.remaining_outbound_capacity c) as Hcap by apply u64_range.
  pose proof (read_outcome fd took gave _ (_thread_data s) (kernel s) Hcap Ht) as Hr. rewrite Er in Hr.
  destruct Hr as (_&Hk1&Hk2&_&_). destruct (read_traffic _ _ _ _ _ _ Ht Er) as [Hi Ho].
  cbn [_tcp] in E. rewrite Mt, bindR_ok in E. destruct (TCPConnection.write data' c) as [c' n] eqn:Ew.
  destruct (Z.eqb_spec n (zlen data')) as [->|]; [|done]. cbn [negb] in E.
  set (s2 := _ <| _tcp := Some c' |>) in E.
  set (e2 := Stack.mkStation (act (Write data') (Stack.end_ e)) (Stack.adapter e) (Stack.packets e)).
  assert (mirrors k0 base (vs ++ [Stack.Happens (Write data')]) s2 e2) as M2.
  { apply mirrors_event; try done; cbn; fold c; rewrite ?Ew; cbn; try congruence. rewrite Hk1, Mk. f_equal. unfold zlen.
    by rewrite Nat2Z.id, firstn_all. }
  assert (runs p e [Stack.Happens (Write data')] e2) as R2 by (by apply runs_one).
  clearbody s2. destruct (eof _); [|unfold ok in E; injection E as <-; by eexists _, e2].
  apply bindR_inv in E as (u&_&E). unfold ok in E. injection E as <-.
  destruct (end_input_mirrors _ _ _ s2 e2 true M2) as (vs3&e3&R3&M3). exists ([Stack.Happens (Write data')] ++ vs3), e3.
  split; [by eapply runs_trans|]. by rewrite app_assoc.
Qed.

Lemma write_owner_follows : follows write_to_owner.
Proof.
  intros k0 base vs s s' e [Ht Ha (c0&Ec0&Hs0)] [Mt Ma Mk Mg Mc Mw Mtm] E. rewrite Mt in Ec0. injection Ec0 as <-.
  unfold write_to_owner, tcp in E. rewrite Mt, bindR_ok in E. set (c := conn (Stack.end_ e)) in *.
  destruct Hs0 as [_ (q&Rq&_)]. cbv zeta in E. set (m := Z.min 65536 _) in E.
  assert (0 <= m <= 65536) as Hm.
  { unfold m. rewrite (StreamRefinement.buffer_size_ok _ _ Rq). pose proof (zlen_nonneg (Pipe.pending q)). lia. }
  assert (zlen (ByteStream.peek_output m (TCPConnection.inbound_stream c)) < 2 ^ 63) as Hb.
  { rewrite (StreamRefinement.peek_output_ok _ _ Rq), StreamRefinement.zlen_peek by lia. lia. }
  apply bindR_inv in E as ([n s1]&Ew&E). unfold on_thread in Ew. apply bindR_inv in Ew as ([n' [w k]]&Ew&E1).
  unfold ok in E1. injection E1 as <- <-.
  pose proof (write_once_outcome fd took gave _ (_thread_data s) (kernel s) Ht Hb) as Hw. rewrite Ew in Hw.
  destruct Hw as (Hn&Hk1&Hk2&_&_). rewrite take_peek in Hk2 by done.
  destruct (write_loop_traffic _ _ _ _ _ _ _ _ _ Ht Ew) as [Hi Ho]. set (s2 := on_tcp _ _) in E.
  set (e2 := Stack.mkStation (act (Read n') (Stack.end_ e)) (Stack.adapter e) (Stack.packets e)).
  assert (mirrors k0 base (vs ++ [Stack.Happens (Read n')]) s2 e2) as M2
    by (apply mirrors_event; cbn -[u64]; try done; try congruence; [by rewrite Mt|by rewrite Hk2, Mg]).
  exists [Stack.Happens (Read n')], e2. split; [by apply runs_one|]. clearbody s2.
  destruct (_ || _); [|unfold ok in E; by injection E as <-].
  apply bindR_inv in E as ([u s3]&Esh&E). unfold on_thread in Esh. apply bindR_inv in Esh as ([u' [w3 k3]]&Esh&E3).
  apply bindR_inv in Esh as ([w4 k4]&Esh&E4). unfold ok in E4. injection E4 as <- <- <-. unfold ok in E3. injection E3 as <- <-.
  pose proof (shutdown_outcome fd took gave SHUT_WR (_thread_data s2) (kernel s2)) as Hsh. rewrite Esh in Hsh.
  destruct Hsh as (Hs1&Hs2&_). destruct (shutdown_traffic _ _ _ _ _ Esh) as [Hi2 Ho2].
  apply bindR_inv in E as (u2&_&E). unfold ok in E. injection E as <-.
  destruct M2 as [Mt2 Ma2 Mk2 Mg2 Mc2 Mw2 Mtm2]. split; cbn -[u64] in *; congruence.
Qed.

Lemma send_segments_follows q k0 base vs (s s' : St) e :
  fd_num (_adapter_fd s) <> fd -> mirrors k0 base vs s e -> TCPConnection._segments_out (conn (Stack.end_ e)) = q ->
  send_segments q s = ok s' ->
  exists vs' e', runs p e vs' e' /\ mirrors k0 base (vs ++ vs') s' e'.
Proof.
  revert vs s e. induction q as [|seg q IH]; intros vs s e Hf M Eq E; cbn [send_segments] in E.
  { unfold ok in E. injection E as <-. exists [], e. rewrite app_nil_r. by split; [constructor|]. }
  destruct M as [Mt Ma Mk Mg Mc Mw Mtm].
  apply bindR_inv in E as ([[a out] seg']&Ew&E). apply bindR_inv in E as (s1&Ec&E).
  apply carry_out_keeps in Ec as (w&k&->&Hw&[Hk1 Hk2]&Hi&Ho); [|done]. cbn in Hk1, Hk2, Hi, Ho. rewrite Ma in Ew.
  set (e1 := Stack.mkStation (act Dequeue (Stack.end_ e)) a (Stack.packets e ++ map (arrival p) out)).
  destruct (IH (vs ++ [Stack.Send]) (on_tcp (fun c => c <| TCPConnection._segments_out ::= tail |>)
      (s <| _datagram_adapter := a |> <| _adapter_fd := w |> <| kernel := k |>)) e1) as (vs2&e2&R2&M2); [done| | |exact E|].
  - apply mirrors_event; cbn -[u64]; try done; try congruence; [by rewrite Mt|]. rewrite app_assoc, <- Mw. congruence.
  - cbn. by rewrite Eq.
  - exists ([Stack.Send] ++ vs2), e2. rewrite app_assoc. split; [|done]. eapply runs_trans; [|exact R2].
    apply runs_one; [done|]. cbn [Stack.occur]. by rewrite Eq, Ew, bindR_ok.
Qed.

(** One rule of the loop. *)
Lemma callback_follows i : follows (EventLoop.callback (rule_of i)).
Proof.
  destruct i; cbn [EventLoop.callback rule_of].
  - apply receive_follows.
  - apply read_owner_follows.
  - apply write_owner_follows.
  - intros k0 base vs s s' e R M. unfold send_datagrams, tcp. rewrite (mir_tcp _ _ _ _ _ M), bindR_ok.
    apply send_segments_follows; [apply R|done|done].
Qed.

(** ** The loop *)
Definition followed (k0 : K) (base : Z) (e0 : station) (s : St) : Prop :=
  relay s /\ exists vs e, runs p e0 vs e /\ mirrors k0 base vs s e.

Lemma followed_more k0 base e0 vs e (s : St) :
  runs p e0 vs e -> (exists vs' e', runs p e vs' e' /\ mirrors k0 base (vs ++ vs') s e') ->
  exists vs e, runs p e0 vs e /\ mirrors k0 base vs s e.
Proof. intros R (vs'&e'&R'&M'). exists (vs ++ vs'), e'. split; [by eapply runs_trans|done]. Qed.

Lemma outcome_with {X} E (P Q : X -> Prop) (m : result X) :
  outcome E P m -> (forall x, m = ok x -> Q x) -> outcome E (fun x => P x /\ Q x) m.
Proof. destruct m as [err|x]; cbn; [done|]. intros HP HQ. auto. Qed.

Lemma followed_contract k0 base e0 :
  EventLoopTheorems.contract rule_of (fun _ => followed k0 base e0) relies any ordinary.
Proof.
  pose proof (rules_contract (A := A) fd took gave) as [Ci Cp Cc Cb].
  set (Q s' := exists vs e, runs p e0 vs e /\ mirrors k0 base vs s' e). split.
  - intros l i s Hi [R _]. by apply (Ci l).
  - intros l ps t s r errno revents s' [R (vs&e&Re&M)] Ep. destruct (Cp l _ _ _ _ _ _ _ R Ep) as [R' Hr].
    split; [|done]. split; [done|]. exists vs, e. split; [done|]. revert Ep. unfold EventLoop.poll, socket_poll.
    destruct (k_poll _ _ _) as [[[r0 err0] rev0] k'] eqn:Ek. intros [= <- <- <- <-].
    destruct (owner_poll _ _ _ _ _ _ _ Ek) as [Hk1 Hk2], (traffic_poll _ _ _ _ _ _ _ Ek) as [Hi Ho].
    destruct M. split; cbn -[u64]; congruence.
  - intros l1 i l2 s [R (vs&e&Re&M)]. eapply outcome_mono; [apply (outcome_with _ _ Q _ (Cc l1 i l2 s R))|done|].
    + intros s' E. destruct i; cbn in E; try (unfold EventLoop.nothing, ok in E; injection E as <-; by exists vs, e).
      unfold stop_reading, ok in E. injection E as <-. eapply followed_more; [exact Re|by apply end_input_mirrors].
    + intros s' [(R'&Hsp&Hid) Hm]. split; [by split|done].
  - intros l i s Hi [R (vs&e&Re&M)] Hp. eapply outcome_mono; [apply (outcome_with _ _ Q _ (Cb l i s Hi R Hp))|done|].
    + intros s' E. eapply followed_more; [exact Re|by eapply callback_follows].
    + intros s' [(R'&Hsp&Hid) Hm]. split; [by split|done].
Qed.

(** Time passes for the connection and the adapter. *)
Lemma pass_follows k0 base next vs k (s s' : St) e a out :
  relay s -> mirrors k0 base vs s e -> timestamp_ms (kernel s) = (next, k) ->
  let ms := u64 (next - base) in
  Adapters.tick ms (_datagram_adapter s) = ok (a, out) ->
  carry_out out (on_tcp (TCPConnection.tick ms) (s <| kernel := k |>) <| _datagram_adapter := a |>) = ok s' ->
  exists e', runs p e [Stack.Pass ms] e' /\ mirrors k0 next (vs ++ [Stack.Pass ms]) s' e'.
Proof.
  intros [_ Hf _] [Mt Ma Mk Mg Mc Mw Mtm] Et ms Ea Ec. rewrite Ma in Ea.
  destruct (owner_clock _ _ _ Et) as [Hk1 Hk2], (traffic_clock _ _ _ Et) as [Hi Ho].
  apply carry_out_keeps in Ec as (w&k'&->&_&[Hk1' Hk2']&Hi'&Ho'); [|done]. cbn in Hk1', Hk2', Hi', Ho'. eexists. split.
  { apply runs_one; [done|]. cbn [Stack.occur]. rewrite Ea, bindR_ok. reflexivity. }
  split; cbn -[u64]; try congruence; [by rewrite Mt| | |].
  - rewrite socket_arrivals_snoc, app_nil_r. congruence.
  - rewrite app_assoc, <- Mw. congruence.
  - rewrite elapsed_app. cbn -[u64]. rewrite Z.add_0_r. unfold ms, u64 in *. rewrite Zplus_mod_idemp_r.
    rewrite <- Zplus_mod_idemp_l, Mtm, Zplus_mod_idemp_l. f_equal. lia.
Qed.

Definition following (k0 : K) (e0 : station) (t : loop_state) : Prop :=
  followed k0 t.1.1 e0 t.2 /\ running (A := A) fd took gave t.

Lemma turn_following k0 e0 t b t' : following k0 e0 t -> tcp_loop_body t = ok (b, t') -> following k0 e0 t'.
Proof.
  intros [[R Hm] Hrun] E. pose proof (tcp_loop_body_outcome fd took gave t Hrun) as O. rewrite E in O.
  split; [|exact O]. split; [apply O|]. clear O. destruct t as [[base rs] s].
  destruct Hrun as [_ (ids&Hsub&Eids)]. cbn in Eids, R, Hm. subst rs. unfold tcp_loop_body in E.
  assert (NoDup ids) as Hd by (eapply sublist_NoDup; [apply all_rules_nodup|done]).
  apply bindR_inv in E as ([[ret rs] s1]&Ew&E).
  pose proof (EventLoopTheorems.wait_outcome _ _ _ _ _ (followed_contract k0 base e0) TCP_TICK_MS ids s Hd (conj R Hm)) as O.
  rewrite Ew in O. destruct O as (ids1&_&_&[R1 Hnow]&_). clear Ew.
  destruct (_ || _); [unfold ok in E; by injection E as <- <-|].
  apply bindR_inv in E as (c&Ec&E). destruct (TCPConnection.active c); [|unfold ok in E; by injection E as <- <-].
  destruct (timestamp_ms (kernel s1)) as [next_time k] eqn:Et. apply bindR_inv in E as ([a out]&Ea&E).
  apply bindR_inv in E as (s3&Eo&E). unfold ok in E. injection E as <- <-. cbn [fst snd]. destruct Hnow as (vs&e&Re&M).
  destruct (pass_follows k0 base next_time vs k s1 s3 e a out R1 M Et Ea Eo) as (e'&R'&M').
  eexists _, e'. split; [by eapply runs_trans|done].
Qed.

(** Where the socket starts: the adapter is given the configuration; [connect] sends the SYN,
    and [listen_and_accept] makes the adapter listen. *)
Definition first_station (listen : bool) (random : Z) (c_tcp : TCPConfig.TCPConfig) (c_ad : FdAdapterConfig)
    (s : St) : station :=
  let a := config_mut (fun _ => c_ad) (_datagram_adapter s) in
  if listen then Stack.mkStation (make_side random c_tcp) (set_listening true a) []
  else Stack.mkStation (act Connect (make_side random c_tcp)) a [].

Lemma first_mirrors listen random c_tcp c_ad (s s1 : St) k base :
  fresh fd took gave s -> timestamp_ms (kernel s) = (base, k) -> kernel s1 = kernel s ->
  _tcp s1 = Some (conn (Stack.end_ (first_station listen random c_tcp c_ad s))) ->
  _datagram_adapter s1 = Stack.adapter (first_station listen random c_tcp c_ad s) ->
  mirrors (kernel s) base [] (s1 <| kernel := k |>) (first_station listen random c_tcp c_ad s).
Proof.
  intros [] Et Ek Ht Ha. destruct (owner_clock _ _ _ Et), (traffic_clock _ _ _ Et).
  split; cbn -[u64]; try done; rewrite ?app_nil_r, ?Et; try congruence; destruct listen; cbn; rewrite ?app_nil_r; try congruence.
  all: by rewrite Z.sub_diag.
Qed.

Lemma start_connect_mirrors random c_tcp c_ad (s s1 : St) rs base k :
  fresh fd took gave s -> start_connect random c_tcp c_ad s = ok (s1, rs) -> timestamp_ms (kernel s1) = (base, k) ->
  mirrors (kernel s) base [] (s1 <| kernel := k |>) (first_station false random c_tcp c_ad s).
Proof.
  intros Hf. unfold start_connect. rewrite (fresh_tcp _ _ _ _ Hf). unfold _initialize_TCP. cbv zeta.
  destruct (show_destination _); [done|]. cbn [bindR]. destruct (negb _); [done|]. intros [= <- <-] Et.
  by apply (first_mirrors false).
Qed.

Lemma start_listen_mirrors random c_tcp c_ad (s s1 : St) rs base k :
  fresh fd took gave s -> start_listen random c_tcp c_ad s = ok (s1, rs) -> timestamp_ms (kernel s1) = (base, k) ->
  mirrors (kernel s) base [] (s1 <| kernel := k |>) (first_station true random c_tcp c_ad s).
Proof.
  intros Hf. unfold start_listen. rewrite (fresh_tcp _ _ _ _ Hf). unfold _initialize_TCP. cbv zeta.
  intros [= <- <-] Et. by apply (first_mirrors true).
Qed.

(** C3. The socket is a side of the stack. In every state of its loop after [connect] or
    [listen_and_accept], its connection and its adapter are those of a side that a sequence
    of events has led to from the start, and the events are those of its environment: the
    bytes taken from the owner are those written to the connection, the bytes given to the
    owner those read from it; the packets read from the device are, one by one and in order,
    those that arrive, and the packets written to the device are, in order, those that the
    segments sent, the replies of the adapter and its timer made; and the time that passes is
    that of the clock, modulo 2^64 ms. A segment leaves the queue only by being written to
    the adapter and reaches the connection only in a packet ([by_socket]). *)
Theorem socket_refines_station random c_tcp c_ad s t :
  Handshake.config_ok random c_tcp -> fresh fd took gave s -> reached random c_tcp c_ad s t ->
  exists listen vs e,
    runs p (first_station listen random c_tcp c_ad s) vs e /\
    _tcp t.2 = Some (conn (Stack.end_ e)) /\ _datagram_adapter t.2 = Stack.adapter e /\
    took (kernel t.2) = written (Stack.end_ e) /\ gave (kernel t.2) = Peers.consumed (Stack.end_ e) /\
    came (kernel t.2) = came (kernel s) ++ arrivals vs /\
    went (kernel t.2) = went (kernel s) ++ Stack.packets e /\
    u64 (elapsed vs) = u64 (t.1.1 - (timestamp_ms (kernel s)).1).
Proof.
  intros Hc Hf Hr.
  assert (exists listen, following (kernel s) (first_station listen random c_tcp c_ad s) t)
    as (listen&[_ (vs&e&R&[])] & _); [|by exists listen, vs, e].
  induction Hr as [s1 rs base k E Et|s1 rs base k E Et|t b t' Hr [listen IH] E].
  - exists false. pose proof (start_connect_mirrors random c_tcp c_ad s s1 rs base k Hf E Et) as M.
    assert (running fd took gave (base, rs, s1 <| kernel := k |>)) as Hrun
      by (apply (reached_running fd took gave random c_tcp c_ad s _ Hc Hf); by eapply reached_connect).
    split; [split; [apply Hrun|]|done]. eexists [], _. split; [constructor|exact M].
  - exists true. pose proof (start_listen_mirrors random c_tcp c_ad s s1 rs base k Hf E Et) as M.
    assert (running fd took gave (base, rs, s1 <| kernel := k |>)) as Hrun
      by (apply (reached_running fd took gave random c_tcp c_ad s _ Hc Hf); by eapply reached_listen).
    split; [split; [apply Hrun|]|done]. eexists [], _. split; [constructor|exact M].
  - exists listen. by eapply turn_following.
Qed.

End Mirror.

End SocketStack.
