(* ===== verification/SocketInstances.v ===== *)
(** * The adapters and devices under a [TCPSpongeSocket]

    The adapters of tcp_helpers/fd_adapter.*, tuntap_adapter.* and lossy_fd_adapter.hh,
    and the descriptors they use, keep what SocketTheorems asks of them. *)
From S2P Require Import Prelude Stream Wrapping Reassembler Buffers Parser TcpSegment Ipv4.
From S2P Require Import Ethernet Receiver Sender Connection ConnectionStreams Handshake.
From S2P Require Import Addresses Interface Descriptor Adapters Socket EventLoop SpongeSocket.
From S2P Require Import SocketTheorems Peers Stations Stack SocketStack.

Module SocketInstances.
Import FileDescriptor TCPSpongeSocket SocketTheorems.

(** [quiet m]: [m] throws none of the exceptions of the checks. *)
Definition quiet {A} (m : result A) : Prop := outcome ordinary (fun _ => True) m.
Definition quietM {S A} (m : M S A) : Prop := forall s, quiet (m s).

Lemma quiet_ok {A} (a : A) : quiet (ok a).
Proof. done. Qed.
Lemma quiet_bind {A B} (m : result A) (k : A -> result B) :
  quiet m -> (forall a, quiet (k a)) -> quiet (bindR m k).
Proof. intros Hm Hk. eapply outcome_bind; [exact Hm|]. intros a _. apply Hk. Qed.
Lemma quietM_bind {S A B} (m : M S A) (k : A -> M S B) :
  quietM m -> (forall a, quietM (k a)) -> quietM (bind m k).
Proof. intros Hm Hk s. apply quiet_bind; [apply Hm|]. intros [a s']. apply Hk. Qed.
Lemma quietM_ret {S A} (a : A) : quietM (ret (St := S) a).
Proof. done. Qed.
Lemma quietM_gets {S A} (f : S -> A) : quietM (gets f).
Proof. done. Qed.

Create HintDb quiet.
#[local] Hint Resolve quiet_ok quietM_ret quietM_gets : quiet.
(** Goes through a program: sequencing, case distinctions, and what is known. *)
Ltac quiet :=
  repeat first
    [ solve [auto with quiet nocore]
    | match goal with |- quiet (?m ?s) => assert (quietM m) as Hm by auto with quiet nocore; exact (Hm s) end
    | apply quiet_bind; [|intros ?]
    | apply quietM_bind; [|intros ?]
    | solve [repeat split; discriminate]
    | case_match ].

(** *** The formats *)
Lemma quiet_at i b : quiet (Buffer.at_ i b).
Proof. unfold Buffer.at_. quiet. Qed.
Lemma quiet_remove_prefix n b : quiet (Buffer.remove_prefix n b).
Proof. unfold Buffer.remove_prefix. quiet. Qed.
#[local] Hint Resolve quiet_at quiet_remove_prefix : quiet.
Lemma quiet_parse_loop n w i b r : quiet (NetParser.parse_loop n w i b r).
Proof. revert i r. induction n as [|n IH]; intros i r; cbn [NetParser.parse_loop]; quiet. Qed.
#[local] Hint Resolve quiet_parse_loop : quiet.
Lemma quietM_parse_int n : quietM (NetParser._parse_int n).
Proof. intros p. unfold NetParser._parse_int. quiet. Qed.
Lemma quietM_u8 : quietM NetParser.u8. Proof. apply quietM_parse_int. Qed.
Lemma quietM_u16 : quietM NetParser.u16. Proof. apply quietM_parse_int. Qed.
Lemma quietM_u32 : quietM NetParser.u32. Proof. apply quietM_parse_int. Qed.
Lemma quietM_skip n : quietM (NetParser.remove_prefix n).
Proof. intros p. unfold NetParser.remove_prefix. quiet. Qed.
#[local] Hint Resolve quietM_u8 quietM_u16 quietM_u32 quietM_skip : quiet.

Lemma quietM_tcp_header : quietM TCPHeader.parse.
Proof. unfold TCPHeader.parse, TCPHeader.parse_fields. quiet. Qed.
Lemma quietM_ipv4_header h : quietM (IPv4Header.parse h).
Proof. unfold IPv4Header.parse, IPv4Header.parse_fields, IPv4Header.check_header. quiet. Qed.
#[local] Hint Resolve quietM_tcp_header quietM_ipv4_header : quiet.
Lemma quiet_tcp_segment b ck seg : quiet (TCPSegment.parse b ck seg).
Proof. unfold TCPSegment.parse. quiet. Qed.
Lemma quiet_ipv4_datagram b d : quiet (IPv4Datagram.parse b d).
Proof. unfold IPv4Datagram.parse. quiet. Qed.
Lemma quietM_parse_address : quietM parse_address.
Proof. unfold parse_address. quiet. Qed.
#[local] Hint Resolve quietM_parse_address quiet_tcp_segment quiet_ipv4_datagram : quiet.
Lemma quietM_ethernet_header h : quietM (EthernetHeader.parse h).
Proof. unfold EthernetHeader.parse. quiet. Qed.
Lemma quietM_arp_fields m : quietM (ARPMessage.parse_fields m).
Proof. unfold ARPMessage.parse_fields. quiet. Qed.
#[local] Hint Resolve quietM_ethernet_header quietM_arp_fields : quiet.
Lemma quiet_frame b f : quiet (EthernetFrame.parse b f).
Proof. unfold EthernetFrame.parse. quiet. Qed.
Lemma quiet_arp b m : quiet (ARPMessage.parse b m).
Proof. unfold ARPMessage.parse. quiet. Qed.
Lemma quiet_to_buffer l : quiet (BufferList.to_buffer l).
Proof. unfold BufferList.to_buffer. quiet. Qed.
Lemma quiet_tcp_serialize ck seg : quiet (TCPSegment.serialize ck seg).
Proof. unfold TCPSegment.serialize, TCPHeader.serialize. quiet. Qed.
Lemma quiet_ipv4_serialize d : quiet (IPv4Datagram.serialize d).
Proof. unfold IPv4Datagram.serialize, IPv4Header.serialize. quiet. Qed.
Lemma quiet_arp_serialize m : quiet (ARPMessage.serialize m).
Proof. unfold ARPMessage.serialize. quiet. Qed.
#[local] Hint Resolve quiet_frame quiet_arp quiet_to_buffer quiet_tcp_serialize quiet_ipv4_serialize
  quiet_arp_serialize : quiet.

(** *** The adapters *)
Lemma quiet_numeric a : quiet (Address.ipv4_numeric a).
Proof. unfold Address.ipv4_numeric. quiet. Qed.
#[local] Hint Resolve quiet_numeric : quiet.

Section Adapters.
Context `{Resolver}.

Lemma quiet_port a : quiet (Address.port a).
Proof. unfold Address.port. quiet. apply port_outcome. Qed.
Lemma quiet_of_ip_port ip port : quiet (Address.of_ip_port ip port).
Proof. unfold Address.of_ip_port, Address.resolve, Address.of_sockaddr. quiet. Qed.
#[local] Hint Resolve quiet_port quiet_of_ip_port : quiet.

Lemma quiet_unwrap dgram b : quiet (unwrap_tcp_in_ip dgram b).
Proof. unfold unwrap_tcp_in_ip, differs, filter_segment, adopt_peer. quiet. Qed.
Lemma quiet_wrap seg b : quiet (wrap_tcp_in_ip seg b).
Proof. unfold wrap_tcp_in_ip. quiet. Qed.
#[local] Hint Resolve quiet_unwrap quiet_wrap : quiet.

#[export] Instance udp_adapter_spec :
  AdapterSpec TCPOverUDPSocketAdapter received_datagram (Address.Address * BufferList.BufferList).
Proof.
  split; intros; cbn; change (outcome ordinary (fun _ => True) ?m) with (quiet m);
    unfold udp_read, udp_write; quiet.
Qed.

#[export] Instance tun_adapter_spec : AdapterSpec TCPOverIPv4OverTunFdAdapter bytes BufferList.BufferList.
Proof.
  split; intros; cbn; change (outcome ordinary (fun _ => True) ?m) with (quiet m);
    unfold tun_read, tun_write; quiet.
Qed.

Lemma quiet_interface_pending ip l n : quiet (NetworkInterface.send_pending ip l n).
Proof. revert n. induction l as [|d l IH]; intros n; cbn [NetworkInterface.send_pending]; quiet. Qed.
#[local] Hint Resolve quiet_interface_pending : quiet.
Lemma quiet_recv_frame f n : quiet (NetworkInterface.recv_frame f n).
Proof. unfold NetworkInterface.recv_frame, NetworkInterface.recv_arp. quiet. Qed.
Lemma quiet_send_datagram d a n : quiet (NetworkInterface.send_datagram d a n).
Proof. unfold NetworkInterface.send_datagram, NetworkInterface.send_arp_request. quiet. Qed.
#[local] Hint Resolve quiet_recv_frame quiet_send_datagram : quiet.

#[export] Instance eth_adapter_spec : AdapterSpec TCPOverIPv4OverEthernetAdapter bytes BufferList.BufferList.
Proof.
  split; intros; cbn; change (outcome ordinary (fun _ => True) ?m) with (quiet m);
    unfold eth_read, eth_write; quiet.
Qed.

End Adapters.

#[export] Instance lossy_adapter_spec {G : Type} (next : G -> Z * G) {A In Out : Type} `{Adapter A In Out}
  `{!AdapterSpec A In Out} : AdapterSpec (H := lossy_adapter next) (LossyFdAdapter G A) In Out.
Proof.
  split; intros; cbn; change (outcome ordinary (fun _ => True) ?m) with (quiet m);
    unfold lossy_read, lossy_write; quiet; first [apply adapter_read|apply adapter_write|apply adapter_tick].
Qed.

(** *** The devices *)

(** Calls on other descriptors than the owner's leave what it sees alone, and set [errno]
    when they fail. *)
Class Bystander (K : Type) `{Kernel K} `{SocketKernel K} (fd : Z) (consumed delivered : K -> bytes)
    : Prop := {
  other_read : forall fd' n k r errno data k', fd' <> fd -> k_read fd' n k = (r, errno, data, k') ->
    (r < 0 -> errno <> 0) /\ consumed k' = consumed k /\ delivered k' = delivered k;
  other_writev : forall fd' iovs k r errno k', fd' <> fd -> k_writev fd' iovs k = (r, errno, k') ->
    consumed k' = consumed k /\ delivered k' = delivered k;
  other_recvfrom : forall fd' n k r errno data from k', k_recvfrom fd' n k = (r, errno, data, from, k') ->
    consumed k' = consumed k /\ delivered k' = delivered k;
  other_sendmsg : forall fd' to iovs k r errno k', k_sendmsg fd' to iovs k = (r, errno, k') ->
    consumed k' = consumed k /\ delivered k' = delivered k
}.

Lemma quiet_system_call attempt r errno mask : quiet (SystemCall attempt r errno mask).
Proof. unfold SystemCall. quiet. Qed.
Lemma quiet_view_remove n l : quiet (BufferViewList.remove_prefix n l).
Proof. revert n. induction l as [|v l IH]; intros n; cbn [BufferViewList.remove_prefix]; quiet. Qed.

Section Devices.
Context {K : Type} `{Kernel K} `{SocketKernel K} (fd : Z) (consumed delivered : K -> bytes)
  `{!Bystander K fd consumed delivered}.

(** The owner notices nothing. *)
Definition unnoticed (w : FDWrapper) (k : K) (s : FDWrapper * K) : Prop :=
  read_count s.1 = read_count w /\ fd_num s.1 = fd_num w /\
  consumed s.2 = consumed k /\ delivered s.2 = delivered k.

Lemma write_loop_unnoticed fuel l total w k :
  fd_num w <> fd ->
  outcome ordinary (fun '(_, s) => unnoticed w k s) (write_loop fuel true l total (w, k)).
Proof.
  revert l total w k. induction fuel as [|fuel IH]; intros l total w k Hw; cbn [write_loop]; [done|].
  destruct (k_writev _ _ k) as [[r errno] k'] eqn:E. apply other_writev in E as [Hc Hd]; [|done].
  eapply outcome_bind; [apply quiet_system_call|]. intros n _. destruct (_ && _); [by repeat split|].
  destruct (_ <? _); [by repeat split|]. eapply outcome_bind; [apply quiet_view_remove|]. intros l' _.
  destruct (_ && _); [|done]. eapply outcome_mono; [by apply IH|done|].
  intros [m s] (?&?&?&?). split_and!; congruence || done.
Qed.

#[export] Instance tun_device_spec : DeviceSpec bytes BufferList.BufferList K fd consumed delivered.
Proof.
  split.
  - intros w k Hw. cbn. unfold read. destruct (k_read _ _ k) as [[[r errno] data] k'] eqn:E.
    apply other_read in E as (Hn&Hc&Hd); [|done].
    eapply outcome_bind; [apply quiet_system_call|]. intros n _. destruct (_ <? n); [by repeat split|].
    by destruct (_ && _).
  - intros o w k Hw. unfold dev_write, tun_device, write. eapply outcome_bind; [by apply write_loop_unnoticed|].
    by intros [n [w' k']] Hs.
Qed.

#[export] Instance udp_device_spec :
  DeviceSpec received_datagram (Address.Address * BufferList.BufferList) K fd consumed delivered.
Proof.
  split.
  - intros w k Hw. cbn. unfold UDPSocket.recv.
    destruct (k_recvfrom _ _ k) as [[[[r errno] data] [addr len]] k'] eqn:E. apply other_recvfrom in E as [Hc Hd].
    eapply outcome_bind; [apply quiet_system_call|]. intros n _. destruct (_ <? n); [by repeat split|].
    eapply outcome_bind; [|by intros a _]. unfold Address.of_sockaddr.
    destruct (_ <? _); [by repeat split|]. instantiate (1 := fun _ => True). done.
  - intros [a o] w k Hw. cbn. unfold UDPSocket.sendmsg_helper.
    destruct (k_sendmsg _ _ _ k) as [[r errno] k'] eqn:E. apply other_sendmsg in E as [Hc Hd].
    eapply outcome_bind with (P := fun k2 => k2 = k'); [|by intros ? ->].
    eapply outcome_bind; [apply quiet_system_call|]. intros n _. by destruct (negb _); [repeat split|].
Qed.

End Devices.

(** ** A machine

    A kernel with the owner on descriptor 3 and a TUN device on 4. *)
Module Machine.

Record machine := mkMachine {
  from_owner : bytes;
  taken : bytes;
  given : bytes;
  arriving : list bytes;
  arrived : list bytes;
  sent : list bytes;
  now : Z
}.
#[global] Instance eta_machine : Eta machine := fun m =>
  mkMachine (from_owner m) (taken m) (given m) (arriving m) (arrived m) (sent m) (now m).

Definition EAGAIN : Z := 11.
Definition EMSGSIZE : Z := 90.

#[export] Instance machine_kernel : Kernel machine := {
  k_read fd n m :=
    if fd =? 3 then
      let d := take (Z.to_nat n) (from_owner m) in
      (zlen d, 0, d, m <| from_owner ::= drop (Z.to_nat n) |> <| taken ::= fun t => t ++ d |>)
    else match arriving m with
         | d :: l => (zlen d, 0, d, m <| arriving := l |> <| arrived ::= fun a => a ++ [d] |>)
         | [] => (-1, EAGAIN, [], m)
         end;
  k_writev fd iovs m :=
    let d := concat (map fst iovs) in
    if fd =? 3 then (zlen d, 0, m <| given ::= fun g => g ++ d |>)
    else if 65535 <? zlen d then (-1, EMSGSIZE, m)
    else (zlen d, 0, m <| sent ::= fun l => l ++ [d] |>);
  k_close fd m := (0, 0, m);
  k_fcntl fd cmd arg m := (0, 0, m)
}.

#[export] Instance machine_sockets : SocketKernel machine := {
  k_socket d t m := (5, 0, m);
  k_socketpair d t m := (0, 0, (2, 3), m);
  k_getsockopt fd level o m := (0, 0, ((if o =? SO_DOMAIN then AF_UNIX else SOCK_STREAM), 4), m);
  k_setsockopt fd l o v m := (0, 0, m);
  k_getsockname fd m := (0, 0, ([], 0), m);
  k_getpeername fd m := (0, 0, ([], 0), m);
  k_bind fd a m := (0, 0, m);
  k_connect fd a m := (0, 0, m);
  k_shutdown fd how m := (0, 0, m);
  k_listen fd b m := (0, 0, m);
  k_accept fd m := (-1, EAGAIN, m);
  k_recvfrom fd n m := (-1, EAGAIN, [], ([], 0), m);
  k_sendmsg fd to iovs m := (0, 0, m);
  k_open path m := (4, 0, m);
  k_tunsetiff fd flags name m := (0, 0, m)
}.

(** Writing is always possible, reading when something is there. *)
Definition ready (m : machine) (p : EventLoop.pollfd) : Z :=
  let readable := if EventLoop.poll_fd p =? 3 then negb (bool_decide (from_owner m = []))
                  else negb (bool_decide (arriving m = [])) in
  Z.land (EventLoop.events p) (if readable then 5 else 4).
#[export] Instance machine_environment : Environment machine := {
  k_poll ps timeout m :=
    (zlen (List.filter (fun p => negb (ready m p =? 0)) ps), 0,
     fun i => match ps !! i with Some p => ready m p | None => 0 end, m);
  timestamp_ms m := (now m, m <| now ::= fun t => t + 1 |>);
  aborted m := false
}.

Lemma machine_owner : Owner machine 3 taken given.
Proof.
  split.
  - intros n k r errno data k'. cbn. intros [= <- <- <- <-].
    split; [intros Hneg; pose proof (zlen_nonneg (take (Z.to_nat n) (from_owner k))); lia|]. intros _. cbn.
    split; [|done]. f_equal. symmetry. apply take_ge. unfold zlen. lia.
  - intros iovs k r errno k'. cbn. intros [= <- <- <-].
    split; [intros Hneg; pose proof (zlen_nonneg (concat (map fst iovs))); lia|]. intros _. cbn.
    split; [done|]. f_equal. symmetry. apply take_ge. unfold zlen. lia.
  - by intros fd how k r errno k' [= <- <- <-].
  - by intros ps t k r errno revents k' [= <- <- <- <-].
  - by intros k t k' [= <- <-].
Qed.

Lemma machine_bystander : Bystander machine 3 taken given.
Proof.
  split.
  - intros fd n k r errno data k' Hfd. cbn. destruct (Z.eqb_spec fd 3); [done|].
    destruct (arriving k) as [|d l]; intros [= <- <- <- <-]; [done|].
    split; [|done]. intros Hneg. pose proof (zlen_nonneg d). lia.
  - intros fd iovs k r errno k' Hfd. cbn. destruct (Z.eqb_spec fd 3); [done|].
    by destruct (_ <? _); intros [= <- <- <-].
  - by intros fd n k r errno data from k' [= <- <- <- <- <-].
  - by intros fd to iovs k r errno k' [= <- <- <-].
Qed.

(** A client of 10.0.0.2:80 whose owner has written two bytes. *)
Definition demo_config : FdAdapterConfig :=
  mkFdAdapterConfig (AddressTheorems.ipv4_address 167772161 1000) (AddressTheorems.ipv4_address 167772162 80) 0 0.
Definition demo_tcp_config : TCPConfig.TCPConfig := TCPConfig.mkTCPConfig 1000 8 8 None.
Definition demo_socket : TCPSpongeSocket TCPOverIPv4OverTunFdAdapter machine :=
  mkTCPSpongeSocket (mkFDWrapper 2 false false 0 0) (mkFDWrapper 3 false false 0 0)
    (mkTunAdapter (FdAdapterBase.mkFdAdapterBase demo_config false)) (mkFDWrapper 4 false false 0 0)
    None false false false (mkMachine [x68; x69] [] [] [] [] [] 0).
Import NumericResolver.

(** [connect] and the first turn of the loop: the bytes are taken, and a datagram is sent. *)
Abbreviation demo_start := (start_connect 7 demo_tcp_config demo_config demo_socket).
Abbreviation demo_turn := (bindR demo_start (fun '(s, rs) =>
  let (base, k) := timestamp_ms (kernel s) in
  tcp_loop_body (base, rs, s <| kernel := k |>))).

Lemma demo_turn_ok :
  match demo_turn with
  | inr (true, t) => taken (kernel t.2) = [x68; x69] /\ map zlen (sent (kernel t.2)) = [40] /\
      arrived (kernel t.2) = []
  | _ => False
  end.
Proof. vm_compute. done. Qed.

Lemma demo_config_ok : Handshake.config_ok 7 demo_tcp_config.
Proof. by repeat split. Qed.
Lemma demo_fresh : fresh 3 taken given demo_socket.
Proof. by split. Qed.

Lemma connect_starts_witness :
  outcome (fun e => e <> unexpected_state) (fun '(s1, rs) =>
      in_state TCPState.SYN_SENT s1 = true /\ rs = rules /\
      exists c syn, _tcp s1 = Some c /\ TCPConnection.segments_out c = [syn])
    (start_connect 7 demo_tcp_config demo_config demo_socket).
Proof. apply connect_starts; done. Defined.

Lemma socket_relays_witness :
  exists t c p, demo_turn = ok (true, t) /\ _tcp t.2 = Some c /\
    StreamRefinement.refines (TCPSender.stream_in (TCPConnection._sender c)) p /\ Pipe.written p = [x68; x69].
Proof.
  pose proof demo_turn_ok as Hok. revert Hok. destruct demo_turn as [e|[[] t]] eqn:E; intros Hok; [destruct Hok| |destruct Hok].
  destruct (bindR_inv _ _ _ E) as ([s rs]&Es&Eb). destruct (timestamp_ms (kernel s)) as [base k] eqn:Et.
  destruct (socket_relays (Owner0 := machine_owner) (DeviceSpec0 := tun_device_spec 3 taken given (Bystander0 := machine_bystander))
    3 taken given 7 demo_tcp_config demo_config demo_socket t) as ((c&p&_&Hc&R&Hw&_)&_).
  - exact demo_config_ok.
  - exact demo_fresh.
  - eapply reached_turn; [|exact Eb]. eapply reached_connect; [exact Es|exact Et].
  - exists t, c, p. split; [reflexivity|]. split; [exact Hc|]. split; [exact R|]. rewrite Hw. apply Hok.
Defined.

Import Stations.

(** A TUN device takes a packet with one call. *)
Lemma machine_write_packet fuel l w m n w' m' :
  fd_num w <> 3 -> write_loop (S fuel) true l 0 (w, m) = ok (n, (w', m')) ->
  arrived m' = arrived m /\ sent m' = sent m ++ [concat l].
Proof.
  intros Hw E. cbn [write_loop] in E. unfold k_writev, machine_kernel in E.
  rewrite WriteTheorems.as_iovecs_bytes in E. destruct (Z.eqb_spec (fd_num w) 3); [done|].
  destruct (Z.ltb_spec 65535 (zlen (concat l))); [done|]. pose proof (zlen_nonneg (concat l)).
  rewrite WriteTheorems.view_size in E by lia. unfold SystemCall in E. rewrite (proj2 (Z.leb_le _ _)) in E by lia. cbn [orb] in E.
  rewrite bindR_ok, Z.ltb_irrefl, andb_negb_r in E.
  destruct (WriteTheorems.view_remove_prefix (zlen (concat l)) l) as (l'&El&Hl'); [lia|lia|].
  rewrite El, bindR_ok in E. unfold zlen in Hl'. rewrite Nat2Z.id, drop_all in Hl'.
  rewrite WriteTheorems.view_size, Hl' in E by (rewrite Hl'; done). cbn [negb Z.eqb andb zlen length Z.of_nat] in E.
  unfold ok in E. by injection E as <- <- <-.
Qed.

Lemma views_bytes (o : BufferList.BufferList) : concat (BufferViewList.of_buffer_list o) = BufferList.concatenate o.
Proof. unfold BufferViewList.of_buffer_list. induction o as [|b o IH]; [done|]. cbn [map concat BufferList.concatenate]. by f_equal. Qed.

#[local] Instance machine_traffic p : SocketStack.Traffic machine 3 p arrived sent.
Proof.
  split.
  - intros w k i w' k' Hw E. cbn [dev_read tun_device] in E. unfold read in E. unfold k_read, machine_kernel in E.
    destruct (Z.eqb_spec (fd_num w) 3); [done|]. destruct (arriving k) as [|d l]; [done|].
    apply bindR_inv in E as (r&En&E). destruct (_ <? r); [done|]. unfold ok in E. injection E as <- _ <-.
    unfold SystemCall in En. rewrite (proj2 (Z.leb_le _ _)) in En by apply zlen_nonneg. cbn [orb] in En.
    unfold ok in En. injection En as <-. unfold zlen. rewrite Nat2Z.id, firstn_all. done.
  - intros o w k w' k' Hw E. unfold dev_write, tun_device, write in E. apply bindR_inv in E as ([n [w1 m1]]&E&E1).
    unfold ok in E1. injection E1 as <- <-. apply machine_write_packet in E; [|done]. by rewrite views_bytes in E.
  - intros n k r errno data k'. cbn. by intros [= <- <- <- <-].
  - intros iovs k r errno k'. cbn. by intros [= <- <- <-].
  - by intros fd how k r errno k' [= <- <- <-].
  - by intros ps t k r errno revents k' [= <- <- <- <-].
  - by intros k t k' [= <- <-].
Qed.

Lemma socket_refines_station_witness :
  exists t listen vs e, demo_turn = ok (true, t) /\
    SocketStack.runs (mkPath 167772161 1000 167772162 80)
      (SocketStack.first_station listen 7 demo_tcp_config demo_config demo_socket) vs e /\
    _tcp t.2 = Some (Peers.conn (Stack.end_ e)) /\ Peers.written (Stack.end_ e) = [x68; x69] /\
    SocketStack.arrivals vs = [] /\ map zlen (Stack.packets e) = [40].
Proof.
  pose proof demo_turn_ok as Hok. revert Hok. destruct demo_turn as [e|[[] t]] eqn:E; intros Hok; [destruct Hok| |destruct Hok].
  destruct (bindR_inv _ _ _ E) as ([s rs]&Es&Eb). destruct (timestamp_ms (kernel s)) as [base k] eqn:Et.
  destruct (SocketStack.socket_refines_station (Owner0 := machine_owner)
    (DeviceSpec0 := tun_device_spec 3 taken given (Bystander0 := machine_bystander))
    3 taken given (mkPath 167772161 1000 167772162 80) arrived sent 7 demo_tcp_config demo_config demo_socket t)
    as (listen&vs&e&R&Mt&_&Mk&_&Mc&Mw&_).
  - exact demo_config_ok.
  - exact demo_fresh.
  - eapply reached_turn; [|exact Eb]. eapply reached_connect; [exact Es|exact Et].
  - destruct Hok as (Htk&Hs&Ha). exists t, listen, vs, e. split; [reflexivity|]. split; [exact R|]. split; [exact Mt|].
    split; [rewrite <- Mk; exact Htk|]. split; [rewrite Ha in Mc; exact (eq_sym Mc)|]. rewrite Mw in Hs. exact Hs.
Defined.

End Machine.
End SocketInstances.
