(* ===== verification/StreamCopy.v ===== *)
(** * [bidirectional_stream_copy] (apps/bidirectional_stream_copy.cc)

    Standard input to a socket and the socket to standard output, by four rules of an
    event loop around two [ByteStream]s. *)
From S2P Require Import Prelude Stream Buffers Descriptor Socket EventLoop SpongeSocket SocketTheorems.

Module StreamCopy.
Import FileDescriptor.

Definition STDIN_FILENO : Z := 0.
Definition STDOUT_FILENO : Z := 1.
Definition max_copy_length : Z := 65536.
Definition buffer_size : Z := 1048576.

Section Copy.
Context {K : Type} `{Kernel K} `{SocketKernel K} `{Environment K}.

(** The local variables, the socket and the kernel. *)
Record StreamCopy := mkStreamCopy {
  _input : FDWrapper;
  _output : FDWrapper;
  socket : FDWrapper;
  _outbound : ByteStream.ByteStream;
  _inbound : ByteStream.ByteStream;
  _outbound_shutdown : bool;
  _inbound_shutdown : bool;
  kernel : K
}.
#[global] Instance eta_StreamCopy : Eta StreamCopy := fun s =>
  mkStreamCopy (_input s) (_output s) (socket s) (_outbound s) (_inbound s) (_outbound_shutdown s)
    (_inbound_shutdown s) (kernel s).

#[export] Instance copy_poll : EventLoop.Poll StreamCopy := fun ps timeout s =>
  let '(r, errno, revents, k) := k_poll ps timeout (kernel s) in
  (r, errno, revents, s <| kernel := k |>).

(** Rule 1: read from stdin into outbound byte stream. *)
Definition read_input (s : StreamCopy) : result StreamCopy :=
  let! (data, (w, k)) := FileDescriptor.read (ByteStream.remaining_capacity (_outbound s)) (_input s, kernel s) in
  let s := s <| _input := w |> <| kernel := k |>
             <| _outbound ::= fun b => (ByteStream.write data b).1 |> in
  ok (if eof (_input s) then s <| _outbound ::= ByteStream.end_input |> else s).
Definition read_input_interest (s : StreamCopy) : bool :=
  negb (ByteStream.error (_outbound s)) && (0 <? ByteStream.remaining_capacity (_outbound s)) &&
  negb (ByteStream.error (_inbound s)).
Definition end_outbound (s : StreamCopy) : result StreamCopy :=
  ok (s <| _outbound ::= ByteStream.end_input |>).

(** Rule 2: read from outbound byte stream into socket. *)
Definition write_socket (s : StreamCopy) : result StreamCopy :=
  let bytes_to_write := Z.min max_copy_length (ByteStream.buffer_size (_outbound s)) in
  let! (bytes_written, (w, k)) := FileDescriptor.write
    (BufferViewList.of_string (ByteStream.peek_output bytes_to_write (_outbound s))) false (socket s, kernel s) in
  let s := s <| socket := w |> <| kernel := k |> <| _outbound ::= ByteStream.pop_output bytes_written |> in
  if ByteStream.eof (_outbound s) then
    let! (w, k) := Socket.shutdown SHUT_WR (socket s, kernel s) in
    ok (s <| socket := w |> <| kernel := k |> <| _outbound_shutdown := true |>)
  else ok s.
Definition write_socket_interest (s : StreamCopy) : bool :=
  negb (ByteStream.buffer_empty (_outbound s)) ||
  (ByteStream.eof (_outbound s) && negb (_outbound_shutdown s)).

(** Rule 3: read from socket into inbound byte stream. *)
Definition read_socket (s : StreamCopy) : result StreamCopy :=
  let! (data, (w, k)) := FileDescriptor.read (ByteStream.remaining_capacity (_inbound s)) (socket s, kernel s) in
  let s := s <| socket := w |> <| kernel := k |>
             <| _inbound ::= fun b => (ByteStream.write data b).1 |> in
  ok (if eof (socket s) then s <| _inbound ::= ByteStream.end_input |> else s).
Definition read_socket_interest (s : StreamCopy) : bool :=
  negb (ByteStream.error (_inbound s)) && (0 <? ByteStream.remaining_capacity (_inbound s)) &&
  negb (ByteStream.error (_outbound s)).
Definition end_inbound (s : StreamCopy) : result StreamCopy :=
  ok (s <| _inbound ::= ByteStream.end_input |>).

(** Rule 4: read from inbound byte stream into stdout. *)
Definition write_output (s : StreamCopy) : result StreamCopy :=
  let bytes_to_write := Z.min max_copy_length (ByteStream.buffer_size (_inbound s)) in
  let! (bytes_written, (w, k)) := FileDescriptor.write
    (BufferViewList.of_string (ByteStream.peek_output bytes_to_write (_inbound s))) false (_output s, kernel s) in
  let s := s <| _output := w |> <| kernel := k |> <| _inbound ::= ByteStream.pop_output bytes_written |> in
  if ByteStream.eof (_inbound s) then
    let! (w, k) := FileDescriptor.close (_output s, kernel s) in
    ok (s <| _output := w |> <| kernel := k |> <| _inbound_shutdown := true |>)
  else ok s.
Definition write_output_interest (s : StreamCopy) : bool :=
  negb (ByteStream.buffer_empty (_inbound s)) ||
  (ByteStream.eof (_inbound s) && negb (_inbound_shutdown s)).

Definition rules : list (EventLoop.Rule StreamCopy) :=
  EventLoop.add_rule _output EventLoop.Out write_output write_output_interest end_inbound
    (EventLoop.add_rule socket EventLoop.In read_socket read_socket_interest end_inbound
      (EventLoop.add_rule socket EventLoop.Out write_socket write_socket_interest end_outbound
        (EventLoop.add_rule _input EventLoop.In read_input read_input_interest end_outbound []))).

(** Up to the loop. *)
Definition start (sock : FDWrapper) (k : K) : result StreamCopy :=
  let! input := FileDescriptor.make STDIN_FILENO in
  let! output := FileDescriptor.make STDOUT_FILENO in
  let! (sock, k) := set_blocking false (sock, k) in
  let! (input, k) := set_blocking false (input, k) in
  let! (output, k) := set_blocking false (output, k) in
  ok (mkStreamCopy input output sock (ByteStream.make buffer_size) (ByteStream.make buffer_size) false false k).

(** Loop until completion, for at most [fuel] turns; [None] when it is still running. *)
Fixpoint copy_loop (fuel : nat) (rules : list (EventLoop.Rule StreamCopy)) (s : StreamCopy)
    : option (result (list (EventLoop.Rule StreamCopy) * StreamCopy)) :=
  match fuel with
  | O => None
  | S fuel =>
      match EventLoop.wait_next_event (-1) rules s with
      | inl e => Some (throw e)
      | inr (EventLoop.Exit, rules, s) => Some (ok (rules, s))
      | inr (_, rules, s) => copy_loop fuel rules s
      end
  end.

(** The state at the return; the destructors of [_input] and [_output] follow. *)
Definition bidirectional_stream_copy (fuel : nat) (sock : FDWrapper) (k : K)
    : option (result (list (EventLoop.Rule StreamCopy) * StreamCopy)) :=
  match start sock k with
  | inl e => Some (throw e)
  | inr s => copy_loop fuel rules s
  end.

End Copy.
Arguments StreamCopy : clear implicits.
End StreamCopy.

(** ** What the copy guarantees *)
Module StreamCopyTheorems.
Import FileDescriptor StreamRefinement SocketTheorems StreamCopy.

(** The kernel as far as bytes go: [got fd k] are the bytes read from [fd] so far, [put fd k]
    those written to it. A call that fails sets [errno]. *)
Class Channels (K : Type) `{Kernel K} `{SocketKernel K} `{Environment K} (got put : Z -> K -> bytes) : Prop := {
  ch_read : forall fd n k r errno data k', k_read fd n k = (r, errno, data, k') ->
    (r < 0 -> errno <> 0) /\ got fd k' = got fd k ++ take (Z.to_nat r) data /\
    (forall fd', fd' <> fd -> got fd' k' = got fd' k) /\ forall fd', put fd' k' = put fd' k;
  ch_writev : forall fd iovs k r errno k', k_writev fd iovs k = (r, errno, k') ->
    (r < 0 -> errno <> 0) /\ put fd k' = put fd k ++ take (Z.to_nat r) (concat (map fst iovs)) /\
    (forall fd', fd' <> fd -> put fd' k' = put fd' k) /\ forall fd', got fd' k' = got fd' k;
  ch_close : forall fd k r errno k', k_close fd k = (r, errno, k') ->
    forall fd', got fd' k' = got fd' k /\ put fd' k' = put fd' k;
  ch_fcntl : forall fd cmd arg k r errno k', k_fcntl fd cmd arg k = (r, errno, k') ->
    forall fd', got fd' k' = got fd' k /\ put fd' k' = put fd' k;
  ch_shutdown : forall fd how k r errno k', k_shutdown fd how k = (r, errno, k') ->
    forall fd', got fd' k' = got fd' k /\ put fd' k' = put fd' k;
  ch_poll : forall ps t k r errno revents k', k_poll ps t k = (r, errno, revents, k') ->
    forall fd', got fd' k' = got fd' k /\ put fd' k' = put fd' k
}.

(** The kernel as far as ends go: [ended fd k] when nothing more can be written to [fd], which
    was closed or its writing side shut down, [hung fd k] when [poll] has reported a
    hang-up on [fd]. A call that fails sets [errno]. *)
Class Ends (K : Type) `{Kernel K} `{SocketKernel K} `{Environment K} (ended hung : Z -> K -> Prop) : Prop := {
  ends_read : forall fd n k r errno data k', k_read fd n k = (r, errno, data, k') ->
    forall fd', (ended fd' k -> ended fd' k') /\ (hung fd' k -> hung fd' k');
  ends_writev : forall fd iovs k r errno k', k_writev fd iovs k = (r, errno, k') ->
    forall fd', (ended fd' k -> ended fd' k') /\ (hung fd' k -> hung fd' k');
  ends_close : forall fd k r errno k', k_close fd k = (r, errno, k') ->
    (r < 0 -> errno <> 0) /\ (0 <= r -> ended fd k') /\
    forall fd', (ended fd' k -> ended fd' k') /\ (hung fd' k -> hung fd' k');
  ends_shutdown : forall fd k r errno k', k_shutdown fd SHUT_WR k = (r, errno, k') ->
    (r < 0 -> errno <> 0) /\ (0 <= r -> ended fd k') /\
    forall fd', (ended fd' k -> ended fd' k') /\ (hung fd' k -> hung fd' k');
  ends_poll : forall ps t k r errno revents k', k_poll ps t k = (r, errno, revents, k') ->
    (forall idx p, ps !! idx = Some p ->
       bool_of_Z (Z.land (revents idx) EventLoop.POLLHUP) = true -> hung (EventLoop.poll_fd p) k') /\
    forall fd', (ended fd' k -> ended fd' k') /\ (hung fd' k -> hung fd' k')
}.

(** *** One direction

    A stream [b] between a source of which [got] was read, at its end or not, and a sink
    to which [put] was written; [reading] and [writing] say whether the two rules are
    installed, [shut] whether the end was passed on. *)
Record direction_ok (b : ByteStream.ByteStream) (src_eof : bool) (got put : bytes)
    (reading writing shut : bool) (p : Pipe.Pipe) : Prop := mk_direction {
  dir_refines : refines b p;
  dir_capacity : Pipe.capacity p = buffer_size;
  dir_failed : Pipe.failed p = false;
  dir_put : put = take (Z.to_nat (Pipe.popped p)) (Pipe.written p);
  dir_got : Pipe.written p `prefix_of` got;
  dir_whole : writing || shut = true ->
    Pipe.written p = got /\ (Pipe.ended p = true -> src_eof = true \/ reading = false);
  dir_reading : reading = false -> Pipe.ended p = true;
  dir_writing : writing = false -> Pipe.ended p = true;
  dir_shut : shut = true -> Pipe.ended p = true /\ Pipe.pending p = []
}.
Definition direction b e got put reading writing shut : Prop :=
  exists p, direction_ok b e got put reading writing shut p.

Lemma direction_start : direction (ByteStream.make buffer_size) false [] [] true true false.
Proof. exists (Pipe.make buffer_size). split; [by apply make_ok|done..]. Qed.

Lemma direction_read data e got put w s b :
  direction b false got put true w s -> zlen data <= ByteStream.remaining_capacity b ->
  let b' := (ByteStream.write data b).1 in
  direction (if e : bool then ByteStream.end_input b' else b') e (got ++ data) put true w s.
Proof.
  intros [p D] Hl. rewrite (remaining_capacity_ok _ _ (dir_refines _ _ _ _ _ _ _ _ D)) in Hl.
  destruct D as [R Hc Hf Hput Hgot Hwhole _ Hw Hs]. destruct (write_ok _ _ R data) as [R' _].
  assert (exists p', refines (ByteStream.write data b).1 p' /\
    direction_ok (ByteStream.write data b).1 e (got ++ data) put true w s p') as (p'&_&D').
  { exists (Pipe.write data p).1. split; [done|]. pose proof (ref_wf _ _ R) as [? ? ?].
    destruct (Pipe.ended p) eqn:Ee.
    - assert (Pipe.accepted data p = []) as Ea by (unfold Pipe.accepted; by rewrite Ee).
      destruct (w || s) eqn:Ews; [by destruct (Hwhole eq_refl) as [_ []]|]. apply orb_false_iff in Ews as [-> ->].
      split; [exact R'|..]; cbn; rewrite ?Ea, ?app_nil_r; try done. by apply prefix_app_r.
    - assert (w = true) as -> by (destruct w; [done|by specialize (Hw eq_refl)]).
      assert (s = false) as -> by (destruct s; [by destruct Hs|done]).
      assert (Pipe.accepted data p = data) as Ea.
      { unfold Pipe.accepted. rewrite Ee. apply take_ge. unfold zlen in *. lia. }
      destruct (Hwhole eq_refl) as [Hwr _]. split; [exact R'|..]; cbn; rewrite ?Ea; try done.
      + rewrite take_app_le; [done|]. unfold zlen in *. lia.
      + by rewrite Hwr.
      + intros _. rewrite Hwr. split; [done|]. congruence. }
  destruct D' as [R2 Hc2 Hf2 Hput2 Hgot2 Hwhole2 _ Hw2 Hs2]. destruct e; [|by exists p'].
  exists (Pipe.end_input p'). split; try done; [by apply end_input_ok|..].
  - intros Hws. destruct (Hwhole2 Hws) as [? _]. split; [done|]. by left.
  - intros Hss. by destruct (Hs2 Hss).
Qed.

Lemma direction_write n m e got put r w s b :
  0 <= m -> 0 <= n <= zlen (ByteStream.peek_output m b) -> direction b e got put r w s ->
  direction (ByteStream.pop_output n b) e got (put ++ take (Z.to_nat n) (ByteStream.peek_output m b)) r w s.
Proof.
  intros Hm Hn [p [R Hc Hf Hput Hgot Hwhole Hr Hw Hs]].
  destruct (pop_output_prefix n m _ _ R Hm Hn) as [R' E]. exists (Pipe.pop n p). split; try done.
  - rewrite Hput. symmetry. exact E.
  - intros Hss. destruct (Hs Hss) as [? Hp]. split; [done|]. rewrite (pending_pop _ _ R), Hp by lia. apply drop_nil.
Qed.

Lemma direction_shut b e got put r s :
  ByteStream.eof b = true -> direction b e got put r true s -> direction b e got put r true true.
Proof.
  intros Heof [p [R Hc Hf Hput Hgot Hwhole Hr Hw Hs]]. rewrite (eof_ok _ _ R) in Heof.
  apply andb_true_iff in Heof as [He Hz%Z.eqb_eq]. exists p. split; try done.
  intros _. split; [done|]. apply nil_length_inv. unfold zlen in Hz. lia.
Qed.

Lemma direction_stop_reading b e got put w s :
  direction b e got put true w s -> direction (ByteStream.end_input b) e got put false w s.
Proof.
  intros [p [R Hc Hf Hput Hgot Hwhole Hr Hw Hs]]. exists (Pipe.end_input p).
  split; try done; [by apply end_input_ok|..].
  - intros Hws. destruct (Hwhole Hws). split; [done|]. by right.
  - intros Hss. by destruct (Hs Hss).
Qed.

Lemma direction_stop_writing b e got put r s :
  direction b e got put r true s -> direction (ByteStream.end_input b) e got put r false s.
Proof.
  intros [p [R Hc Hf Hput Hgot Hwhole Hr Hw Hs]]. exists (Pipe.end_input p).
  split; try done; [by apply end_input_ok|..].
  - intros Hss. cbn in Hss. destruct Hwhole as [? He]; [done|]. split; [done|]. intros _. by apply He, Hs.
  - intros Hss. by destruct (Hs Hss).
Qed.

(** Passed on: everything that was read was written. *)
Lemma direction_done b e got put r w : direction b e got put r w true -> put = got /\ ByteStream.eof b = true.
Proof.
  intros [p [R Hc Hf -> Hgot Hwhole Hr Hw Hs]]. destruct Hwhole as [Ew _]; [by rewrite orb_true_r|].
  destruct Hs as [He Hp]; [done|]. split; [|by rewrite (eof_ok _ _ R), He, Hp].
  rewrite <- Ew. apply take_ge. apply (f_equal length) in Hp. unfold Pipe.pending in Hp.
  rewrite length_drop in Hp. cbn in Hp. lia.
Qed.

Lemma direction_source b e got put r w : direction b e got put r w true -> e = true \/ r = false.
Proof.
  intros [p [R Hc Hf -> Hgot Hwhole Hr Hw Hs]]. destruct Hwhole as [_ He]; [by rewrite orb_true_r|]. apply He, Hs. done.
Qed.

Lemma direction_prefix b e got put r w s : direction b e got put r w s -> put `prefix_of` got.
Proof.
  intros [p [R Hc Hf -> Hgot Hwhole Hr Hw Hs]]. etrans; [|done]. apply prefix_take.
Qed.

(** When the writing rule has nothing to do and the reading rule no room, the end was
    passed on. *)
Lemma direction_idle b e got put r s :
  direction b e got put r true s ->
  ByteStream.buffer_empty b = true -> (ByteStream.input_ended b = true -> s = true) ->
  (r = true -> ByteStream.remaining_capacity b = 0) -> s = true.
Proof.
  intros [p [R Hc Hf Hput Hgot Hwhole Hr Hw Hs]] Hempty Hend Hfull. apply Hend.
  unfold ByteStream.input_ended. rewrite (ref_ended _ _ R). apply Hr. destruct r; [|done]. exfalso.
  specialize (Hfull eq_refl). rewrite (remaining_capacity_ok _ _ R) in Hfull. unfold Pipe.room in Hfull.
  unfold ByteStream.buffer_empty in Hempty. apply Z.eqb_eq in Hempty. rewrite (ref_size _ _ R) in Hempty.
  rewrite Hc, Hempty in Hfull. done.
Qed.

(** *** The rules *)
Inductive which := StdinIn | SocketOut | SocketIn | StdoutOut.
#[local] Instance which_eq_dec : EqDecision which.
Proof. solve_decision. Defined.
Definition has (l : list which) (i : which) : bool := bool_decide (i ∈ l).

Lemma has_true l i : i ∈ l -> has l i = true.
Proof. apply bool_decide_eq_true_2. Qed.
Lemma before l1 i l2 (l : list which) j : l1 ++ i :: l2 `sublist_of` l -> j ∈ l1 -> [j; i] `sublist_of` l.
Proof.
  intros Hl Hj. etrans; [|done]. apply (sublist_app [j] l1 [i] (i :: l2)); [by apply singleton_sublist_l|].
  apply sublist_skip, sublist_nil_l.
Qed.

Lemma has_removed l1 i l2 : NoDup (l1 ++ i :: l2) ->
  forall j, has (l1 ++ l2) j = if decide (j = i) then false else has (l1 ++ i :: l2) j.
Proof.
  rewrite <- Permutation_middle. intros [Hi Hd]%NoDup_cons j. unfold has.
  destruct (decide (j = i)) as [->|]; [by apply bool_decide_eq_false_2|].
  apply bool_decide_ext. rewrite !elem_of_app, elem_of_cons. tauto.
Qed.

Section Copying.
Context {K : Type} `{Kernel K} `{SocketKernel K} `{Environment K} (got put : Z -> K -> bytes)
  `{!Channels K got put} (sfd : Z) (Hsfd : sfd <> STDIN_FILENO /\ sfd <> STDOUT_FILENO).
Local Abbreviation St := (StreamCopy K).

Definition rule_of (i : which) : EventLoop.Rule St :=
  match i with
  | StdinIn => EventLoop.mkRule _input EventLoop.In read_input read_input_interest end_outbound
  | SocketOut => EventLoop.mkRule socket EventLoop.Out write_socket write_socket_interest end_outbound
  | SocketIn => EventLoop.mkRule socket EventLoop.In read_socket read_socket_interest end_inbound
  | StdoutOut => EventLoop.mkRule _output EventLoop.Out write_output write_output_interest end_inbound
  end.
Definition all_rules : list which := [StdinIn; SocketOut; SocketIn; StdoutOut].

Lemma copy_rules_nodup : NoDup all_rules.
Proof. by apply (bool_decide_unpack _). Qed.
Lemma copy_rules_eq : (rules : list (EventLoop.Rule St)) = map rule_of all_rules.
Proof. done. Qed.

#[local] Arguments Socket.shutdown : simpl never.
#[local] Arguments close : simpl never.

(** The copy with the rules [l] installed. *)
Record copying (l : list which) (s : St) : Prop := mk_copying {
  cp_rules : l `sublist_of` all_rules;
  cp_input : fd_num (_input s) = STDIN_FILENO;
  cp_output : fd_num (_output s) = STDOUT_FILENO;
  cp_socket : fd_num (socket s) = sfd;
  cp_outbound : direction (_outbound s) (eof (_input s)) (got STDIN_FILENO (kernel s)) (put sfd (kernel s))
    (has l StdinIn) (has l SocketOut) (_outbound_shutdown s);
  cp_inbound : direction (_inbound s) (eof (socket s)) (got sfd (kernel s)) (put STDOUT_FILENO (kernel s))
    (has l SocketIn) (has l StdoutOut) (_inbound_shutdown s)
}.

Lemma read_input_outcome l s :
  copying l s -> StdinIn ∈ l -> eof (_input s) = false ->
  outcome ordinary (fun s' => copying l s' /\ socket s' = socket s /\
    read_count (_input s') = u32 (read_count (_input s) + 1)) (read_input s).
Proof.
  intros [Hd Hi Ho Hs D1 D2] Hin He. unfold read_input.
  eapply outcome_bind; [apply read_calls; [|apply capacity_nonneg]|].
  { intros n r errno data k' Er. by apply (ch_read _ _ _ _ _ _ _ Er). }
  intros [data [w k]] (Hl&Hc&Hf&n&r&errno&d&Er&_&Ed).
  destruct (ch_read _ _ _ _ _ _ _ Er) as (_&Hg&Hg'&Hp). rewrite <- Ed, Hi in Hg. rewrite Hi in Hg'.
  rewrite He, (has_true _ _ Hin) in D1. pose proof (direction_read data (eof w) _ _ _ _ _ D1 Hl) as D1'. revert D1'.
  cbv zeta. cbn. rewrite <- Hg. destruct (eof w) eqn:Ew; intros D1'; (split; [|done]);
    (split; cbn; rewrite ?Ew, ?Hp, ?(has_true _ _ Hin); [done|congruence|done|done|done|]);
    rewrite Hg'; tauto.
Qed.

Lemma read_socket_outcome l s :
  copying l s -> SocketIn ∈ l -> eof (socket s) = false ->
  outcome ordinary (fun s' => copying l s' /\ _input s' = _input s /\
    read_count (socket s') = u32 (read_count (socket s) + 1)) (read_socket s).
Proof.
  intros [Hd Hi Ho Hs D1 D2] Hin He. unfold read_socket.
  eapply outcome_bind; [apply read_calls; [|apply capacity_nonneg]|].
  { intros n r errno data k' Er. by apply (ch_read _ _ _ _ _ _ _ Er). }
  intros [data [w k]] (Hl&Hc&Hf&n&r&errno&d&Er&_&Ed).
  destruct (ch_read _ _ _ _ _ _ _ Er) as (_&Hg&Hg'&Hp). rewrite <- Ed, Hs in Hg. rewrite Hs in Hg'.
  rewrite He, (has_true _ _ Hin) in D2. pose proof (direction_read data (eof w) _ _ _ _ _ D2 Hl) as D2'. revert D2'.
  cbv zeta. cbn. rewrite <- Hg. destruct (eof w) eqn:Ew; intros D2'; (split; [|done]);
    (split; cbn; rewrite ?Ew, ?Hp, ?(has_true _ _ Hin); [done|done|done|congruence| |done]);
    rewrite Hg'; tauto || (destruct Hsfd; congruence).
Qed.

(** The bytes to write are a peek of a stream that is not too long. *)
Lemma peek_short b e g o r w sh :
  direction b e g o r w sh ->
  let m := Z.min max_copy_length (ByteStream.buffer_size b) in
  0 <= m /\ zlen (ByteStream.peek_output m b) < 2 ^ 63.
Proof.
  intros [p [R _ _ _ _ _ _ _ _]]. cbv zeta. rewrite (buffer_size_ok _ _ R). set (m := Z.min _ _).
  pose proof (zlen_nonneg (Pipe.pending p)). assert (0 <= m <= 65536) by (unfold m, max_copy_length; lia).
  split; [lia|]. rewrite (peek_output_ok _ _ R), zlen_peek by lia. lia.
Qed.

Lemma write_socket_outcome l s :
  copying l s -> SocketOut ∈ l ->
  outcome ordinary (fun s' => copying l s' /\ _input s' = _input s /\ eof (socket s') = eof (socket s) /\
    write_count (socket s') <> write_count (socket s)) (write_socket s).
Proof.
  intros [Hd Hi Ho Hs D1 D2] Hout. unfold write_socket. destruct (peek_short _ _ _ _ _ _ _ D1) as [Hm Hb].
  eapply outcome_bind; [apply write_calls; [|done]|].
  { intros iovs r errno k' Er. by apply (ch_writev _ _ _ _ _ _ Er). }
  intros [n [w k]] (Hn&Hc&Hf&He&iovs&errno&Er&Ei). cbv zeta.
  destruct (ch_writev _ _ _ _ _ _ Er) as (_&Hp&Hp'&Hg). rewrite Ei, Hs in Hp. rewrite Hs in Hp'.
  pose proof (direction_write _ _ _ _ _ _ _ _ _ Hm Hn D1) as D1'. rewrite <- Hp in D1'.
  rewrite (has_true _ _ Hout) in D1'. cbn [_outbound upd]. cbn.
  assert (put STDOUT_FILENO k = put STDOUT_FILENO (kernel s)) as Hp1 by (apply Hp'; destruct Hsfd; congruence).
  destruct (ByteStream.eof _) eqn:Ee.
  - eapply outcome_bind; [apply shutdown_calls|]. intros [w2 k2] (Hf2&He2&Hw2&r2&errno2&Er2).
    pose proof (ch_shutdown _ _ _ _ _ _ Er2) as Hk. split; [|split; [done|]; split; [cbn; congruence|]].
    + split; cbn; [done|done|done|congruence|..]; rewrite ?(has_true _ _ Hout), !(proj1 (Hk _)), !(proj2 (Hk _)), ?Hg.
      * by eapply (direction_shut _ _ _ _ _ _ Ee).
      * by rewrite He2, He, Hp1.
    + cbn. rewrite Hw2, Hc by done. zmod.
  - split; [|split; [done|]; split; [done|]; cbn; rewrite Hc; zmod].
    split; cbn; rewrite ?Hg, ?He, ?Hp1, ?(has_true _ _ Hout); try done. congruence.
Qed.

Lemma write_output_outcome l s :
  copying l s -> StdoutOut ∈ l ->
  outcome ordinary (fun s' => copying l s' /\ _input s' = _input s /\ socket s' = socket s /\
    write_count (_output s') <> write_count (_output s)) (write_output s).
Proof.
  intros [Hd Hi Ho Hs D1 D2] Hout. unfold write_output. destruct (peek_short _ _ _ _ _ _ _ D2) as [Hm Hb].
  eapply outcome_bind; [apply write_calls; [|done]|].
  { intros iovs r errno k' Er. by apply (ch_writev _ _ _ _ _ _ Er). }
  intros [n [w k]] (Hn&Hc&Hf&He&iovs&errno&Er&Ei). cbv zeta.
  destruct (ch_writev _ _ _ _ _ _ Er) as (_&Hp&Hp'&Hg). rewrite Ei, Ho in Hp. rewrite Ho in Hp'.
  pose proof (direction_write _ _ _ _ _ _ _ _ _ Hm Hn D2) as D2'. rewrite <- Hp in D2'.
  rewrite (has_true _ _ Hout) in D2'. cbn [_inbound upd]. cbn.
  assert (put sfd k = put sfd (kernel s)) as Hp1 by (apply Hp'; tauto).
  destruct (ByteStream.eof _) eqn:Ee.
  - eapply outcome_bind; [apply close_calls|]. intros [w2 k2] (Hf2&Hw2&r2&errno2&Er2).
    pose proof (ch_close _ _ _ _ _ Er2) as Hk. split; [|split; [done|]; split; [done|]].
    + split; cbn; [done|done|congruence|done|..]; rewrite ?(has_true _ _ Hout), !(proj1 (Hk _)), !(proj2 (Hk _)), ?Hg.
      * by rewrite Hp1.
      * by eapply (direction_shut _ _ _ _ _ _ Ee).
    + cbn. rewrite Hw2, Hc. zmod.
  - split; [|split; [done|]; split; [done|]; cbn; rewrite Hc; zmod].
    split; cbn; rewrite ?Hg, ?Hp1, ?(has_true _ _ Hout); try done. congruence.
Qed.

(** What the reading rules rely on, and what is known of a rule that is not interested. *)
Definition relies (i : which) (s : St) : Prop :=
  match i with
  | StdinIn => eof (_input s) = false
  | SocketIn => eof (socket s) = false
  | _ => True
  end.
Definition idle (i : which) (s : St) : Prop :=
  match i with
  | StdinIn => ByteStream.remaining_capacity (_outbound s) = 0
  | SocketOut => ByteStream.buffer_empty (_outbound s) = true /\
      (ByteStream.input_ended (_outbound s) = true -> _outbound_shutdown s = true)
  | SocketIn => ByteStream.remaining_capacity (_inbound s) = 0
  | StdoutOut => ByteStream.buffer_empty (_inbound s) = true /\
      (ByteStream.input_ended (_inbound s) = true -> _inbound_shutdown s = true)
  end.

Lemma no_error b e g o r w sh : direction b e g o r w sh -> ByteStream.error b = false.
Proof. intros [p [R _ Hf _ _ _ _ _ _]]. unfold ByteStream.error. by rewrite (ref_failed _ _ R). Qed.

(** A writing rule that is not interested. *)
Lemma write_idle b (shut : bool) :
  negb (ByteStream.buffer_empty b) || (ByteStream.eof b && negb shut) = false ->
  ByteStream.buffer_empty b = true /\ (ByteStream.input_ended b = true -> shut = true).
Proof.
  unfold ByteStream.eof, ByteStream.input_ended. by destruct (ByteStream.buffer_empty b), (ByteStream._input_ended b), shut.
Qed.

Lemma interest_splits l i s :
  copying l s -> EventLoopTheorems.open rule_of i s ->
  if EventLoop.interest (rule_of i) s then relies i s else idle i s.
Proof.
  intros [_ _ _ _ D1 D2] [He _]. pose proof (no_error _ _ _ _ _ _ _ D1) as E1.
  pose proof (no_error _ _ _ _ _ _ _ D2) as E2.
  destruct i; cbn in *; unfold read_input_interest, read_socket_interest, write_socket_interest, write_output_interest;
    rewrite ?E1, ?E2, ?andb_true_r; cbn [negb andb].
  - destruct (Z.ltb_spec 0 (ByteStream.remaining_capacity (_outbound s))); [by apply He|].
    pose proof (capacity_nonneg (_outbound s)). lia.
  - destruct (_ || _) eqn:Ei; [done|]. by apply write_idle.
  - destruct (Z.ltb_spec 0 (ByteStream.remaining_capacity (_inbound s))); [by apply He|].
    pose proof (capacity_nonneg (_inbound s)). lia.
  - destruct (_ || _) eqn:Ei; [done|]. by apply write_idle.
Qed.

Lemma copying_kernel l s k :
  copying l s -> (forall fd, got fd k = got fd (kernel s) /\ put fd k = put fd (kernel s)) ->
  copying l (s <| kernel := k |>).
Proof. intros [] Hk. split; cbn; try done; by rewrite (proj1 (Hk _)), (proj2 (Hk _)). Qed.

Lemma cancel_kept l1 i l2 s :
  copying (l1 ++ i :: l2) s ->
  outcome ordinary (fun s' => copying (l1 ++ l2) s' /\ _input s' = _input s /\ socket s' = socket s)
    (EventLoop.cancel (rule_of i) s).
Proof.
  intros [Hd Hi Ho Hs D1 D2]. pose proof (has_removed _ _ _ (sublist_NoDup _ _ copy_rules_nodup Hd)) as Hh.
  assert (l1 ++ l2 `sublist_of` all_rules) as Hd'
    by (etrans; [|exact Hd]; apply sublist_app; [done|by apply sublist_cons]).
  assert (has (l1 ++ i :: l2) i = true) as Hin by (apply has_true, elem_of_app; right; by left).
  destruct i; rewrite Hin in *; (split; [|done]); (split; [done..| |]); cbn; rewrite !Hh; cbn; try done.
  - by apply direction_stop_reading.
  - by apply direction_stop_writing.
  - by apply direction_stop_reading.
  - by apply direction_stop_writing.
Qed.

(** Cancelling a rule leaves the earlier ones idle. *)
Lemma cancel_idle l1 i l2 s s' j :
  copying (l1 ++ i :: l2) s -> EventLoop.cancel (rule_of i) s = ok s' -> j ∈ l1 -> idle j s -> idle j s'.
Proof.
  intros [Hd _ _ _ _ _] E Hj. pose proof (before _ _ _ _ _ Hd Hj) as B.
  destruct i, j; injection E as <-; try done; cbn; intros _; exfalso;
    repeat (inversion B as [|? ? ? B'|? ? ? B']; subst; clear B; rename B' into B).
Qed.

Lemma copy_contract : EventLoopTheorems.contract rule_of copying relies idle ordinary.
Proof.
  split.
  - intros l i s _. apply interest_splits.
  - intros l ps t s r errno revents s' C. unfold EventLoop.poll, copy_poll.
    destruct (k_poll _ _ _) as [[[r0 e0] rev0] k'] eqn:Ep. intros [= <- <- <- <-].
    split; [|by intros []]. apply copying_kernel; [done|]. by apply (ch_poll _ _ _ _ _ _ _ Ep).
  - intros l1 i l2 s C. pose proof (cancel_kept _ _ _ _ C) as Hk. pose proof (cancel_idle l1 i l2 s) as Hidle.
    destruct (EventLoop.cancel _ _) as [e|s']; [done|]. destruct Hk as (C'&E1&E2). split; [done|].
    split; [|intros j; by apply Hidle]. intros [] _; cbn; congruence.
  - intros l i s Hin C Hp. destruct i; cbn [EventLoop.callback rule_of].
    + eapply outcome_mono; [by apply read_input_outcome|done|]. intros s' (C'&Es&Er). split; [done|].
      split; [intros []; cbn; congruence|]. left. cbn. rewrite Er. zmod.
    + eapply outcome_mono; [by apply write_socket_outcome|done|]. intros s' (C'&Es&Er&Ew). split; [done|].
      split; [intros []; cbn; congruence|]. left. cbn. congruence.
    + eapply outcome_mono; [by apply read_socket_outcome|done|]. intros s' (C'&Es&Er). split; [done|].
      split; [intros []; cbn; congruence|]. left. cbn. rewrite Er. zmod.
    + eapply outcome_mono; [by apply write_output_outcome|done|]. intros s' (C'&Es&Er&Ew). split; [done|].
      split; [intros []; cbn; congruence|]. left. cbn. congruence.
Qed.

(** *** From the start *)

(** The kernel before any byte was read or written. *)
Definition untouched (k : K) : Prop := forall fd, got fd k = [] /\ put fd k = [].

Lemma set_blocking_kept b w k :
  outcome (fun _ => True) (fun '(w', k') => w' = w /\ forall fd, got fd k' = got fd k /\ put fd k' = put fd k)
    (set_blocking b (w, k)).
Proof.
  unfold set_blocking. destruct (k_fcntl _ _ _ k) as [[r errno] k1] eqn:E1. pose proof (ch_fcntl _ _ _ _ _ _ _ E1) as H1k.
  destruct (SystemCall _ _ _ _); [done|]. cbn [bindR]. destruct (k_fcntl _ _ _ k1) as [[r2 errno2] k2] eqn:E2.
  pose proof (ch_fcntl _ _ _ _ _ _ _ E2) as H2k. destruct (SystemCall _ _ _ _); [done|]. split; [done|].
  intros fd. destruct (H1k fd), (H2k fd). split; congruence.
Qed.

Lemma start_copying w k s :
  fd_num w = sfd -> eof w = false -> untouched k -> start w k = ok s -> copying all_rules s.
Proof.
  intros Hw He Hk. unfold start, make. cbn [Z.ltb Z.compare STDIN_FILENO STDOUT_FILENO bindR ok].
  pose proof (set_blocking_kept false w k) as B1. destruct (set_blocking _ (w, k)) as [e|[w1 k1]]; [done|].
  destruct B1 as [-> B1]. cbn [bindR].
  set (w0 := mkFDWrapper STDIN_FILENO false false 0 0). pose proof (set_blocking_kept false w0 k1) as B2.
  destruct (set_blocking _ (w0, k1)) as [e|[w2 k2]]; [done|]. destruct B2 as [-> B2]. cbn [bindR].
  set (w3 := mkFDWrapper STDOUT_FILENO false false 0 0). pose proof (set_blocking_kept false w3 k2) as B3.
  destruct (set_blocking _ (w3, k2)) as [e|[w4 k3]]; [done|]. destruct B3 as [-> B3]. cbn [bindR].
  assert (forall fd, got fd k3 = [] /\ put fd k3 = []) as Hk3.
  { intros fd. destruct (B1 fd), (B2 fd), (B3 fd), (Hk fd). split; congruence. }
  intros [= <-]. split; cbn [_input _output socket _outbound _inbound _outbound_shutdown _inbound_shutdown kernel];
    rewrite ?(proj1 (Hk3 _)), ?(proj2 (Hk3 _)), ?He; try done; apply direction_start.
Qed.

(** The states the loop can be in, with the rules it has. *)
Inductive reached (w : FDWrapper) (k : K) : list (EventLoop.Rule St) -> St -> Prop :=
  | reached_start s : start w k = ok s -> reached w k rules s
  | reached_turn rs s res rs' s' :
      reached w k rs s -> EventLoop.wait_next_event (-1) rs s = ok (res, rs', s') -> reached w k rs' s'.

Lemma reached_copying w k rs s :
  fd_num w = sfd -> eof w = false -> untouched k -> reached w k rs s ->
  exists l, rs = map rule_of l /\ copying l s.
Proof.
  intros Hw He Hk. induction 1 as [s E|rs s res rs' s' _ (l&->&C) Ew].
  - exists all_rules. split; [done|]. by eapply start_copying.
  - pose proof (EventLoopTheorems.wait_outcome _ _ _ _ _ copy_contract (-1) l s
      (sublist_NoDup _ _ copy_rules_nodup (cp_rules _ _ C)) C) as O.
    rewrite Ew in O. destruct O as (l'&_&->&C'&_). by exists l'.
Qed.

(** C30. The copy relays. In every state of its loop the bytes written to the socket are
    the first ones of those read from standard input and the bytes written to standard
    output the first ones of those read from the socket, all of them once the end was
    passed on; and the next turn does not report a busy wait. *)
Theorem stream_copy_relays w k rs s :
  fd_num w = sfd -> eof w = false -> untouched k -> reached w k rs s ->
  put sfd (kernel s) `prefix_of` got STDIN_FILENO (kernel s) /\
  put STDOUT_FILENO (kernel s) `prefix_of` got sfd (kernel s) /\
  (_outbound_shutdown s = true -> put sfd (kernel s) = got STDIN_FILENO (kernel s)) /\
  (_inbound_shutdown s = true -> put STDOUT_FILENO (kernel s) = got sfd (kernel s)) /\
  outcome (fun e => e <> EventLoop.busy_wait) (fun _ => True) (EventLoop.wait_next_event (-1) rs s).
Proof.
  intros Hw He Hk Hr. destruct (reached_copying _ _ _ _ Hw He Hk Hr) as (l&->&C).
  pose proof C as [Hl _ _ _ D1 D2]. split; [by eapply direction_prefix|]. split; [by eapply direction_prefix|].
  split; [intros Eo; rewrite Eo in D1; by eapply direction_done|].
  split; [intros Ei; rewrite Ei in D2; by eapply direction_done|].
  eapply outcome_mono; [apply (EventLoopTheorems.wait_outcome _ _ _ _ _ copy_contract (-1) l s);
    [by eapply sublist_NoDup; [apply copy_rules_nodup|]|done]| |done].
  by intros e [[? _]| ->].
Qed.

(** When nothing is left to poll, a direction whose writing rule is installed is done. *)
Lemma idle_done l s :
  copying l s -> Forall (fun i => idle i s) l ->
  (SocketOut ∈ l -> _outbound_shutdown s = true) /\ (StdoutOut ∈ l -> _inbound_shutdown s = true).
Proof.
  intros [_ _ _ _ D1 D2] Hq. rewrite Forall_forall in Hq. split; intros Hout.
  - destruct (Hq _ Hout) as [He Hs]. rewrite (has_true _ _ Hout) in D1.
    apply (direction_idle _ _ _ _ _ _ D1 He Hs). unfold has. intros Hin%bool_decide_eq_true. by apply (Hq StdinIn).
  - destruct (Hq _ Hout) as [He Hs]. rewrite (has_true _ _ Hout) in D2.
    apply (direction_idle _ _ _ _ _ _ D2 He Hs). unfold has. intros Hin%bool_decide_eq_true. by apply (Hq SocketIn).
Qed.

(** *** The ends *)

Section Ending.
Context (ended hung : Z -> K -> Prop) `{!Ends K ended hung}.

Definition kept (k k' : K) : Prop := forall fd, (ended fd k -> ended fd k') /\ (hung fd k -> hung fd k').

Lemma kept_trans k1 k2 k3 : kept k1 k2 -> kept k2 k3 -> kept k1 k3.
Proof. intros G1 G2 fd. destruct (G1 fd), (G2 fd). auto. Qed.

Lemma read_keeps limit w k :
  outcome (fun _ => True) (fun '(_, (w', k')) => kept k k' /\ closed w' = closed w /\ (eof w = true -> eof w' = true))
    (read limit (w, k)).
Proof.
  unfold read. destruct (k_read _ _ _) as [[[r errno] data] k'] eqn:E. destruct (SystemCall _ _ _ _); [done|].
  cbn [bindR]. destruct (_ <? _); [done|]. split; [exact (ends_read _ _ _ _ _ _ _ E)|]. by destruct (_ && _).
Qed.

Lemma write_keeps buffer w k :
  outcome (fun _ => True) (fun '(_, (w', k')) => kept k k' /\ closed w' = closed w /\ eof w' = eof w /\ fd_num w' = fd_num w)
    (write buffer false (w, k)).
Proof.
  unfold write. cbn [write_loop]. destruct (k_writev _ _ _) as [[r errno] k'] eqn:E.
  destruct (SystemCall _ _ _ _); [done|]. cbn [bindR]. destruct (_ && _); [done|]. destruct (_ <? _); [done|].
  destruct (BufferViewList.remove_prefix _ _); [done|]. cbn [bindR andb].
  split; [exact (ends_writev _ _ _ _ _ _ E)|done].
Qed.

Lemma succeeds attempt r errno (P : Prop) :
  (r < 0 -> errno <> 0) -> (0 <= r -> P) -> outcome (fun _ => True) (fun _ => P) (SystemCall attempt r errno 0).
Proof.
  intros G1 G2. unfold SystemCall. destruct (Z.leb_spec 0 r); [by apply G2|]. cbn [orb].
  destruct (Z.eqb_spec errno 0); [|done]. exfalso. by apply G1.
Qed.

Lemma shutdown_keeps w k :
  outcome (fun _ => True) (fun '(w', k') =>
    kept k k' /\ closed w' = closed w /\ eof w' = eof w /\ ended (fd_num w) k') (Socket.shutdown SHUT_WR (w, k)).
Proof.
  unfold Socket.shutdown. destruct (k_shutdown _ _ _) as [[r errno] k'] eqn:E.
  destruct (ends_shutdown _ _ _ _ _ E) as (G1&G2&G3). eapply outcome_bind; [exact (succeeds _ _ _ _ G1 G2)|]. done.
Qed.

Lemma close_keeps w k :
  outcome (fun _ => True) (fun '(w', k') => kept k k' /\ ended (fd_num w) k') (close (w, k)).
Proof.
  unfold close. destruct (k_close _ _) as [[r errno] k'] eqn:E.
  destruct (ends_close _ _ _ _ _ E) as (G1&G2&G3). eapply outcome_bind; [exact (succeeds _ _ _ _ G1 G2)|]. done.
Qed.

(** What a callback does to the ends. *)
Record moved (s s' : St) : Prop := mk_moved {
  mv_kernel : kept (kernel s) (kernel s');
  mv_input : closed (_input s') = closed (_input s) /\ (eof (_input s) = true -> eof (_input s') = true);
  mv_socket : closed (socket s') = closed (socket s) /\ (eof (socket s) = true -> eof (socket s') = true);
  mv_output : closed (_output s') = true -> closed (_output s) = true \/ _inbound_shutdown s' = true;
  mv_out : _outbound_shutdown s' = true -> _outbound_shutdown s = true \/ ended (fd_num (socket s)) (kernel s');
  mv_in : _inbound_shutdown s' = true -> _inbound_shutdown s = true \/ ended (fd_num (_output s)) (kernel s');
  mv_shut : _inbound_shutdown s = true -> _inbound_shutdown s' = true
}.

Lemma read_input_moved s : outcome (fun _ => True) (moved s) (read_input s).
Proof.
  unfold read_input. eapply outcome_bind; [apply read_keeps|]. intros [data [w k]] (H1k&Hc&He).
  cbn -[eof closed]. destruct (eof w) eqn:Ew; split; cbn -[eof closed]; rewrite ?Ew; auto.
Qed.
Lemma read_socket_moved s : outcome (fun _ => True) (moved s) (read_socket s).
Proof.
  unfold read_socket. eapply outcome_bind; [apply read_keeps|]. intros [data [w k]] (H1k&Hc&He).
  cbn -[eof closed]. destruct (eof w) eqn:Ew; split; cbn -[eof closed]; rewrite ?Ew; auto.
Qed.
Lemma write_socket_moved s : outcome (fun _ => True) (moved s) (write_socket s).
Proof.
  unfold write_socket. eapply outcome_bind; [apply write_keeps|]. intros [n [w k]] (H1k&Hc&He&Hf). cbv zeta.
  cbn [_outbound upd]. cbn. destruct (ByteStream.eof _); [|by split; cbn -[eof closed]; rewrite ?He; auto].
  eapply outcome_bind; [apply shutdown_keeps|]. intros [w2 k2] (H2k&Hc2&He2&Hend). rewrite Hf in Hend.
  split; cbn -[eof closed]; rewrite ?Hc2, ?He2, ?He; auto. by eapply kept_trans.
Qed.
Lemma write_output_moved s : outcome (fun _ => True) (moved s) (write_output s).
Proof.
  unfold write_output. eapply outcome_bind; [apply write_keeps|]. intros [n [w k]] (H1k&Hc&He&Hf). cbv zeta.
  cbn [_inbound upd]. cbn. destruct (ByteStream.eof _); [|by split; cbn -[eof closed]; rewrite ?Hc; auto].
  eapply outcome_bind; [apply close_keeps|]. intros [w2 k2] (H2k&Hend). rewrite Hf in Hend.
  split; cbn -[eof closed]; auto. by eapply kept_trans.
Qed.

(** The copy with the rules [l] installed, and why the others are gone. *)
Record ending (l : list which) (s : St) : Prop := mk_ending {
  en_copying : copying l s;
  en_input : closed (_input s) = false;
  en_socket : closed (socket s) = false;
  en_output : closed (_output s) = true -> _inbound_shutdown s = true;
  en_out : _outbound_shutdown s = true -> ended sfd (kernel s);
  en_in : _inbound_shutdown s = true -> ended STDOUT_FILENO (kernel s);
  en_gone : forall i, i ∉ l ->
    match i with
    | StdinIn => eof (_input s) = true \/ hung STDIN_FILENO (kernel s)
    | SocketOut => hung sfd (kernel s)
    | SocketIn => eof (socket s) = true \/ hung sfd (kernel s)
    | StdoutOut => _inbound_shutdown s = true \/ hung STDOUT_FILENO (kernel s)
    end
}.

Lemma ending_moved l s s' : ending l s -> copying l s' -> moved s s' -> ending l s'.
Proof.
  intros [C G2 G3 G4 G5 G6 G7] C' [M1 [M2 M2'] [M3 M3'] M4 M5 M6 M7].
  pose proof (cp_output _ _ C) as Eo. pose proof (cp_socket _ _ C) as Es. rewrite Eo in M6. rewrite Es in M5.
  split; [done|congruence|congruence|..].
  - intros [?|?]%M4; auto.
  - intros [?|?]%M5; [|done]. by apply (proj1 (M1 sfd)), G5.
  - intros [?|?]%M6; [|done]. by apply (proj1 (M1 STDOUT_FILENO)), G6.
  - intros i Hi. specialize (G7 i Hi). destruct i; try (destruct G7; [left; auto|right]); by apply (proj2 (M1 _)).
Qed.

Definition number (i : which) : Z :=
  match i with StdinIn => STDIN_FILENO | SocketOut | SocketIn => sfd | StdoutOut => STDOUT_FILENO end.

Lemma cancel_ending l1 i l2 s s' :
  ending (l1 ++ i :: l2) s ->
  EventLoopTheorems.gone rule_of (fun i n => n = number i) (fun n s => hung n (kernel s)) i s ->
  EventLoop.cancel (rule_of i) s = ok s' -> copying (l1 ++ l2) s' -> ending (l1 ++ l2) s'.
Proof.
  intros [C G2 G3 G4 G5 G6 G7] Hg E C'.
  assert (forall j, j ∉ l1 ++ l2 -> j = i \/ j ∉ l1 ++ i :: l2) as Hl.
  { intros j Hj. destruct (decide (j = i)); [by left|right]. rewrite elem_of_app, elem_of_cons in *. tauto. }
  assert (match i with
    | StdinIn => eof (_input s) = true \/ hung STDIN_FILENO (kernel s)
    | SocketOut => hung sfd (kernel s)
    | SocketIn => eof (socket s) = true \/ hung sfd (kernel s)
    | StdoutOut => _inbound_shutdown s = true \/ hung STDOUT_FILENO (kernel s)
    end) as Hi.
  { destruct Hg as [[Hd He]|[Hc|(n&->&Hh)]]; destruct i; cbn in *; try done; auto; congruence. }
  destruct i; injection E as <-; (split; cbn; try done); intros j [->|Hj]%Hl; try done; by specialize (G7 j Hj); destruct j.
Qed.

Lemma callback_ending l i s :
  i ∈ l -> ending l s -> relies i s ->
  outcome ordinary (fun s' => copying l s' /\ EventLoopTheorems.spared relies i s s' /\
    (EventLoop.service_count (rule_of i) s <> EventLoop.service_count (rule_of i) s' \/
     EventLoop.interest (rule_of i) s' = false)) (EventLoop.callback (rule_of i) s) /\
  outcome (fun _ => True) (moved s) (EventLoop.callback (rule_of i) s).
Proof.
  intros Hi [C _ _ _ _ _ _] Hp. split; [by apply (EventLoopTheorems.con_callback _ _ _ _ _ copy_contract)|].
  destruct i; cbn [EventLoop.callback rule_of].
  - apply read_input_moved.
  - apply write_socket_moved.
  - apply read_socket_moved.
  - apply write_output_moved.
Qed.

Lemma ending_contract :
  EventLoopTheorems.reasoned rule_of ending relies idle ordinary (fun i n => n = number i) (fun n s => hung n (kernel s)).
Proof.
  pose proof copy_contract as [C1 C2 C3 C4]. split.
  - intros l i s _ [[_ Ei Eo Es _ _] _ _ _ _ _ _]. by destruct i.
  - intros l i s Hi [C _ _ _ _ _ _]. by apply (C1 l).
  - intros l ps t s r errno revents s' En Ep. destruct (C2 _ _ _ _ _ _ _ _ (en_copying _ _ En) Ep) as [C' Hp].
    revert Ep. unfold EventLoop.poll, copy_poll. destruct (k_poll _ _ _) as [[[r0 e0] rev0] k'] eqn:Ek.
    intros [= <- <- <- <-]. destruct (ends_poll _ _ _ _ _ _ _ Ek) as [Hh Hk].
    split; [|split; [done|split; [intros n; apply Hk|done]]].
    apply (ending_moved _ _ _ En C'). split; cbn; auto.
  - intros l1 i l2 s En Hg. pose proof (C3 _ _ _ _ (en_copying _ _ En)) as O. pose proof (cancel_ending l1 i l2 s) as Hc.
    assert (forall s', EventLoop.cancel (rule_of i) s = ok s' -> kernel s' = kernel s) as Hk by (intros s'; by destruct i; intros [= <-]).
    destruct (EventLoop.cancel (rule_of i) s) as [e|s']; [done|]. destruct O as (C'&Hs&Hi).
    split; [by apply Hc|]. split; [split; [done|]|done]. intros n. by rewrite (Hk s' eq_refl).
  - intros l i s Hi En Hp. destruct (callback_ending _ _ _ Hi En Hp) as [O M].
    destruct (EventLoop.callback (rule_of i) s) as [e|s']; [done|]. destruct O as (C'&Hs&Hc).
    split; [by eapply ending_moved|]. split; [split; [done|]|done]. intros n. apply (mv_kernel _ _ M).
Qed.

Lemma start_state w k s :
  start w k = ok s -> closed (_input s) = false /\ closed (socket s) = closed w /\ closed (_output s) = false /\
    _outbound_shutdown s = false /\ _inbound_shutdown s = false.
Proof.
  unfold start, make. cbn [Z.ltb Z.compare STDIN_FILENO STDOUT_FILENO bindR ok].
  pose proof (set_blocking_kept false w k) as B1. destruct (set_blocking _ (w, k)) as [e|[w1 k1]]; [done|].
  destruct B1 as [-> _]. cbn [bindR].
  set (w0 := mkFDWrapper STDIN_FILENO false false 0 0). pose proof (set_blocking_kept false w0 k1) as B2.
  destruct (set_blocking _ (w0, k1)) as [e|[w2 k2]]; [done|]. destruct B2 as [-> _]. cbn [bindR].
  set (w3 := mkFDWrapper STDOUT_FILENO false false 0 0). pose proof (set_blocking_kept false w3 k2) as B3.
  destruct (set_blocking _ (w3, k2)) as [e|[w4 k3]]; [done|]. destruct B3 as [-> _]. cbn [bindR]. by intros [= <-].
Qed.

Lemma reached_ending w k rs s :
  fd_num w = sfd -> eof w = false -> closed w = false -> untouched k -> reached w k rs s ->
  exists l, rs = map rule_of l /\ ending l s.
Proof.
  intros Hw He Hcl Hk. induction 1 as [s E|rs s res rs' s' _ (l&->&C) Ew].
  - exists all_rules. split; [done|]. pose proof (start_copying _ _ _ Hw He Hk E) as C.
    destruct (start_state _ _ _ E) as (E1&E2&E3&E4&E5). split; [done|congruence|congruence|congruence|congruence|congruence|].
    intros [] Hi; exfalso; apply Hi; unfold all_rules; rewrite !elem_of_cons; auto.
  - pose proof (EventLoopTheorems.wait_reasoned _ _ _ _ _ _ _ ending_contract (-1) l s
      (sublist_NoDup _ _ copy_rules_nodup (cp_rules _ _ (en_copying _ _ C))) C) as O.
    rewrite Ew in O. destruct O as (l'&_&->&C'&_). by exists l'.
Qed.

(** The function returns from a state of its loop. *)
Lemma copy_loop_exit fuel w k rs s rs' s' :
  reached w k rs s -> copy_loop fuel rs s = Some (ok (rs', s')) ->
  exists rs1 s1, reached w k rs1 s1 /\ EventLoop.wait_next_event (-1) rs1 s1 = ok (EventLoop.Exit, rs', s').
Proof.
  revert rs s. induction fuel as [|fuel IH]; intros rs s Hr; cbn [copy_loop]; [done|].
  destruct (EventLoop.wait_next_event (-1) rs s) as [e|[[res rs1] s1]] eqn:Ew; [done|].
  pose proof (reached_turn _ _ _ _ _ _ _ Hr Ew) as Hr1.
  destruct res; [by apply IH|by apply IH|]. intros [= <- <-]. by exists rs, s.
Qed.

Lemma stream_copy_exit fuel w k rs' s' :
  bidirectional_stream_copy fuel w k = Some (ok (rs', s')) ->
  exists rs s, reached w k rs s /\ EventLoop.wait_next_event (-1) rs s = ok (EventLoop.Exit, rs', s').
Proof.
  unfold bidirectional_stream_copy. destruct (start w k) as [e|s0] eqn:Es; [done|].
  apply copy_loop_exit. by apply reached_start.
Qed.

(** C31. The copy does not stop early. When the loop leaves, from any state it can reach and without
    a signal during [poll], each direction is over: the end of the source was seen (or a hang-up
    on it reported), exactly the bytes read from it were written to the sink, and the
    end was passed on, the socket's writing side shut down or standard output closed; unless
    [poll] reported a hang-up on the sink. *)
Theorem stream_copy_completes w k rs s rs' s' :
  fd_num w = sfd -> eof w = false -> closed w = false -> untouched k ->
  (forall ps t k0 r revents k1, r < 0 -> k_poll ps t k0 <> (r, EventLoop.EINTR, revents, k1)) ->
  reached w k rs s -> EventLoop.wait_next_event (-1) rs s = ok (EventLoop.Exit, rs', s') ->
  (hung sfd (kernel s') \/
   put sfd (kernel s') = got STDIN_FILENO (kernel s') /\ ended sfd (kernel s') /\
   (eof (_input s') = true \/ hung STDIN_FILENO (kernel s'))) /\
  (hung STDOUT_FILENO (kernel s') \/
   put STDOUT_FILENO (kernel s') = got sfd (kernel s') /\ ended STDOUT_FILENO (kernel s') /\
   (eof (socket s') = true \/ hung sfd (kernel s'))).
Proof.
  intros Hw He Hcl Hk Hsig Hr Ew. destruct (reached_ending _ _ _ _ Hw He Hcl Hk Hr) as (l&->&C).
  pose proof (EventLoopTheorems.wait_reasoned _ _ _ _ _ _ _ ending_contract (-1) l s
    (sublist_NoDup _ _ copy_rules_nodup (cp_rules _ _ (en_copying _ _ C))) C) as O.
  rewrite Ew in O. destruct O as (l'&_&->&[C' _ _ _ Hout Hin Hgone]&Q). destruct (Q eq_refl) as [Hi|(ps&t&s1&r&rev&Hr'&Ei)].
  2: { exfalso. unfold EventLoop.poll, copy_poll in Ei. specialize (Hsig ps t (kernel s1)).
       destruct (k_poll _ _ _) as [[[r0 e0] rev0] k1]. injection Ei as -> -> -> _. by eapply Hsig. }
  destruct (idle_done _ _ C' Hi) as [Hd1 Hd2]. destruct C' as [_ _ _ _ D1 D2]. split.
  - destruct (decide (SocketOut ∈ l')) as [Hl|Hl]; [right|left; exact (Hgone _ Hl)].
    rewrite (Hd1 Hl) in D1. destruct (direction_done _ _ _ _ _ _ D1) as [? _]. split; [done|]. split; [auto|].
    destruct (direction_source _ _ _ _ _ _ D1) as [?|Hn]; [by left|]. apply (Hgone StdinIn).
    by apply bool_decide_eq_false in Hn.
  - assert (_inbound_shutdown s' = true \/ hung STDOUT_FILENO (kernel s')) as [Hl|?]; [|right|by left].
    { destruct (decide (StdoutOut ∈ l')) as [Hl|Hl]; [left; auto|exact (Hgone _ Hl)]. }
    rewrite Hl in D2. destruct (direction_done _ _ _ _ _ _ D2) as [? _]. split; [done|]. split; [auto|].
    destruct (direction_source _ _ _ _ _ _ D2) as [?|Hn]; [by left|]. apply (Hgone SocketIn).
    by apply bool_decide_eq_false in Hn.
Qed.

End Ending.
End Copying.

(** *** An example *)
Module Machine.

(** What is still to be read from each descriptor, a log of what was read and written, and
    the descriptors closed or shut down for writing. *)
Record machine := mkMachine {
  pending : Z -> bytes;
  gets : list (Z * bytes);
  puts : list (Z * bytes);
  ends : list Z
}.

Definition total (fd : Z) (log : list (Z * bytes)) : bytes :=
  concat (map (fun e => if e.1 =? fd then e.2 else []) log).
Definition got (fd : Z) (m : machine) : bytes := total fd (gets m).
Definition put (fd : Z) (m : machine) : bytes := total fd (puts m).

(** At most one byte is read or written at a time. *)
#[local] Instance machine_kernel : Kernel machine := {
  k_read fd n m :=
    let d := take 1 (pending m fd) in
    (zlen d, 0, d, mkMachine (fun x => if x =? fd then drop 1 (pending m x) else pending m x)
                     (gets m ++ [(fd, d)]) (puts m) (ends m));
  k_writev fd iovs m :=
    let d := take 1 (concat (map fst iovs)) in
    (zlen d, 0, mkMachine (pending m) (gets m) (puts m ++ [(fd, d)]) (ends m));
  k_close fd m := (0, 0, mkMachine (pending m) (gets m) (puts m) (fd :: ends m));
  k_fcntl fd cmd arg m := (0, 0, m)
}.
#[local] Instance machine_sockets : SocketKernel machine := {
  k_socket d t m := (5, 0, m);
  k_socketpair d t m := (0, 0, (2, 3), m);
  k_getsockopt fd level o m := (0, 0, (0, 4), m);
  k_setsockopt fd l o v m := (0, 0, m);
  k_getsockname fd m := (0, 0, ([], 0), m);
  k_getpeername fd m := (0, 0, ([], 0), m);
  k_bind fd a m := (0, 0, m);
  k_connect fd a m := (0, 0, m);
  k_shutdown fd how m := (0, 0, mkMachine (pending m) (gets m) (puts m) (fd :: ends m));
  k_listen fd b m := (0, 0, m);
  k_accept fd m := (6, 0, m);
  k_recvfrom fd n m := (0, 0, [], ([], 0), m);
  k_sendmsg fd to iovs m := (0, 0, m);
  k_open path m := (4, 0, m);
  k_tunsetiff fd flags name m := (0, 0, m)
}.
(** Every descriptor is ready for what it is polled for. *)
#[local] Instance machine_environment : Environment machine := {
  k_poll ps timeout m := (1, 0, (fun i => Z.land (nth i (map EventLoop.events ps) 0) 5), m);
  timestamp_ms m := (0, m);
  aborted m := false
}.

Lemma total_snoc fd log e : total fd (log ++ [e]) = total fd log ++ (if e.1 =? fd then e.2 else []).
Proof. unfold total. rewrite map_app, concat_app. cbn. by rewrite app_nil_r. Qed.

Lemma take_whole (d : bytes) : take (Z.to_nat (zlen d)) d = d.
Proof. apply take_ge. unfold zlen. lia. Qed.

Lemma machine_channels : Channels machine got put.
Proof.
  split.
  - intros fd n k r errno data k' [= <- <- <- <-]. split; [intros Hneg; pose proof (zlen_nonneg (take 1 (pending k fd))); lia|].
    rewrite take_whole. unfold got. cbn [gets]. rewrite total_snoc. cbn [fst snd]. rewrite Z.eqb_refl.
    split; [done|]. split; [|done]. intros fd' Hfd. rewrite total_snoc. cbn [fst snd].
    destruct (Z.eqb_spec fd fd'); [congruence|]. apply app_nil_r.
  - intros fd iovs k r errno k' [= <- <- <-]. split; [intros Hneg; pose proof (zlen_nonneg (take 1 (concat (map fst iovs)))); lia|].
    unfold put. cbn [puts]. rewrite total_snoc. cbn [fst snd]. rewrite Z.eqb_refl.
    split; [f_equal; by destruct (concat _)|].
    split; [|done]. intros fd' Hfd. rewrite total_snoc. cbn [fst snd].
    destruct (Z.eqb_spec fd fd'); [congruence|]. apply app_nil_r.
  - by intros fd k r errno k' [= <- <- <-].
  - by intros fd cmd arg k r errno k' [= <- <- <-].
  - by intros fd how k r errno k' [= <- <- <-].
  - by intros ps t k r errno revents k' [= <- <- <- <-].
Qed.

Lemma machine_ends : Ends machine (fun fd m => fd ∈ ends m) (fun _ _ => False).
Proof.
  split.
  - by intros fd n k r errno data k' [= <- <- <- <-].
  - by intros fd iovs k r errno k' [= <- <- <-].
  - intros fd k r errno k' [= <- <- <-]. split; [done|]. split; [intros _; by left|].
    intros fd'. split; [by right|done].
  - intros fd k r errno k' [= <- <- <-]. split; [done|]. split; [intros _; by left|].
    intros fd'. split; [by right|done].
  - intros ps t k r errno revents k' [= <- <- <- <-]. split; [|done]. intros idx p _.
    by rewrite <- Z.land_assoc, Z.land_0_r.
Qed.

Definition sock : FDWrapper := mkFDWrapper 5 false false 0 0.
Definition machine0 : machine :=
  mkMachine (fun fd => if fd =? 0 then [x68; x69] else if fd =? 5 then [x79] else []) [] [] [].

Lemma sock_fd : 5 <> STDIN_FILENO /\ 5 <> STDOUT_FILENO.
Proof. done. Qed.

Abbreviation copy_turn := (bindR (start sock machine0) (EventLoop.wait_next_event (-1) rules)).

Lemma copy_turn_ok :
  match copy_turn with
  | inr (_, _, s) => (got 0 (kernel s), got 5 (kernel s)) = ([x68], [x79])
  | _ => False
  end.
Proof. vm_compute. reflexivity. Qed.

Lemma stream_copy_relays_witness :
  exists res rs s, copy_turn = ok (res, rs, s) /\
    put 5 (kernel s) `prefix_of` [x68] /\ put 1 (kernel s) `prefix_of` [x79].
Proof.
  pose proof copy_turn_ok as Hd. revert Hd. destruct copy_turn as [e|[[res rs] s]] eqn:E; intros Hd; [destruct Hd|].
  destruct (bindR_inv _ _ _ E) as (s0&Es&Ew).
  destruct (stream_copy_relays (Channels0 := machine_channels) got put 5 sock_fd sock machine0 rs s) as (P1&P2&_).
  - reflexivity.
  - reflexivity.
  - intros fd. split; reflexivity.
  - eapply reached_turn; [|exact Ew]. by apply reached_start.
  - injection Hd as Hg0 Hg5. exists res, rs, s. split; [reflexivity|]. rewrite <- Hg0, <- Hg5.
    split; [exact P1|exact P2].
Defined.

Lemma demo_returns :
  match bidirectional_stream_copy 10 sock machine0 with
  | Some (inr (_, s)) => (got 0 (kernel s), got 5 (kernel s)) = ([x68; x69], [x79])
  | _ => False
  end.
Proof. vm_compute. reflexivity. Qed.

Lemma stream_copy_completes_witness :
  exists rs s, bidirectional_stream_copy 10 sock machine0 = Some (ok (rs, s)) /\
    put 5 (kernel s) = [x68; x69] /\ put 1 (kernel s) = [x79] /\ 5 ∈ ends (kernel s) /\ 1 ∈ ends (kernel s).
Proof.
  pose proof demo_returns as Hd. revert Hd.
  destruct (bidirectional_stream_copy 10 sock machine0) as [[e|[rs s]]|] eqn:E; intros Hd; [destruct Hd| |destruct Hd].
  injection Hd as Hg0 Hg5. exists rs, s. split; [reflexivity|].
  destruct (stream_copy_exit 10 sock machine0 rs s E) as (rs1&s1&Hr&Ew).
  destruct (stream_copy_completes (Channels0 := machine_channels) (Ends0 := machine_ends) got put 5 sock_fd
    (fun fd m => fd ∈ ends m) (fun _ _ => False) sock machine0 rs1 s1 rs s) as [H1 H2].
  - reflexivity.
  - reflexivity.
  - reflexivity.
  - intros fd. split; reflexivity.
  - intros ps t k0 r revents k1 Hr0 [= <- _ _ _].
  - exact Hr.
  - exact Ew.
  - destruct H1 as [[]|(P1&E1&_)]. destruct H2 as [[]|(P2&E2&_)]. rewrite <- Hg0, <- Hg5.
    split; [exact P1|]. split; [exact P2|]. split; [exact E1|exact E2].
Defined.

End Machine.
End StreamCopyTheorems.
