(* ===== verification/Bouncer.v ===== *)
(** * The bouncer (apps/bouncer.cc)

    A server that passes datagrams between two programs behind address translators: each
    side sends to one socket of a pair, and what it sends goes out of the other socket, to
    the address last seen there. *)
From S2P Require Import Prelude Buffers Addresses Descriptor Adapters Socket EventLoop SpongeSocket SocketTheorems.

Module Bouncer.
Import FileDescriptor.

Section Bouncer.
Context {K : Type} `{Resolver} `{Kernel K} `{SocketKernel K} `{Environment K}.

(** The two vectors, which the callbacks refer into by index, and the kernel. *)
Record Bouncer := mkBouncer {
  sockets : list FDWrapper;
  peers : list (option Address.Address);
  kernel : K
}.
#[global] Instance eta_Bouncer : Eta Bouncer := fun s => mkBouncer (sockets s) (peers s) (kernel s).

#[export] Instance bouncer_poll : EventLoop.Poll Bouncer := fun ps timeout s =>
  let '(r, errno, revents, k) := k_poll ps timeout (kernel s) in
  (r, errno, revents, s <| kernel := k |>).

(** An element that exists; the vectors hold more than [i] elements when it is used. *)
Definition socket (i : nat) (s : Bouncer) : FDWrapper :=
  nth i (sockets s) (mkFDWrapper 0 false false 0 0).
Definition peer (i : nat) (s : Bouncer) : option Address.Address := nth i (peers s) None.

Definition on_socket {X} (i : nat) (f : FDWrapper * K -> result (X * (FDWrapper * K))) (s : Bouncer)
    : result (X * Bouncer) :=
  let! (x, (w, k)) := f (socket i s, kernel s) in
  ok (x, s <| sockets ::= <[i := w]> |> <| kernel := k |>).

(** The callback of socket [me], whose datagrams go out of socket [other]. *)
Definition bounce (me other : nat) (s : Bouncer) : result Bouncer :=
  let! (rec, s) := on_socket me (UDPSocket.recv UDPSocket.default_mtu) s in
  let source := source_address rec in
  let! s :=
    if match peer me s with None => true | Some a => negb (Address.eqb a source) end then
      let s := s <| peers ::= <[me := Some source]> |> in
      let! (a, s) := on_socket me Socket.local_address s in
      let! _ := Address.address_to_string a in
      let! _ := Address.address_to_string source in
      ok s
    else ok s in
  match peer other s with
  | Some a =>
      if negb (bool_decide (udp_payload rec = [])) then
        let! (_, s) := on_socket other (fun t =>
          let! t := UDPSocket.sendto a (BufferViewList.of_string (udp_payload rec)) t in ok (tt, t)) s in
        ok s
      else ok s
  | None => ok s
  end.

Definition bounce_rule (me other : nat) (rules : list (EventLoop.Rule Bouncer)) : list (EventLoop.Rule Bouncer) :=
  EventLoop.add_rule (socket me) EventLoop.In (bounce me other) EventLoop.always EventLoop.nothing rules.

(** The body of the loop over the ports. *)
Definition add_pair (lower_port : Z) (t : list (EventLoop.Rule Bouncer) * Bouncer)
    : result (list (EventLoop.Rule Bouncer) * Bouncer) :=
  let (rules, s) := t in
  let i := length (sockets s) in
  let! (x, k) := UDPSocket.make (kernel s) in
  let! (y, k) := UDPSocket.make k in
  let! a := Address.of_ip_port (bytes_of_string "0") lower_port in
  let! (x, k) := Socket.bind a (x, k) in
  let! a := Address.of_ip_port (bytes_of_string "0") (u16 (lower_port + 1)) in
  let! (y, k) := Socket.bind a (y, k) in
  ok (bounce_rule (S i) i (bounce_rule i (S i) rules),
      mkBouncer (sockets s ++ [x; y]) (peers s ++ [None; None]) k).

(** [reserve(66000)]: the references into the vectors stay valid up to this size. *)
Definition reserved : Z := 66000.

Fixpoint add_pairs (fuel : nat) (lower_port : Z) (t : list (EventLoop.Rule Bouncer) * Bouncer)
    : option (result (list (EventLoop.Rule Bouncer) * Bouncer)) :=
  match fuel with
  | O => None
  | S fuel =>
      if lower_port <=? 64000 then
        match add_pair lower_port t with
        | inl e => Some (throw e)
        | inr t => add_pairs fuel (u16 (lower_port + 2)) t
        end
      else Some (ok t)
  end.

Fixpoint bounce_loop (fuel : nat) (rules : list (EventLoop.Rule Bouncer)) (s : Bouncer)
    : option (result (list (EventLoop.Rule Bouncer) * Bouncer)) :=
  match fuel with
  | O => None
  | S fuel =>
      match EventLoop.wait_next_event (-1) rules s with
      | inl e => Some (throw e)
      | inr (EventLoop.Exit, rules, s) => Some (ok (rules, s))
      | inr (_, rules, s) => bounce_loop fuel rules s
      end
  end.

Definition program_body (fuel : nat) (k : K) : option (result (list (EventLoop.Rule Bouncer) * Bouncer)) :=
  match add_pairs fuel 1024 ([], mkBouncer [] [] k) with
  | Some (inr (rules, s)) => bounce_loop fuel rules s
  | r => r
  end.

End Bouncer.
Arguments Bouncer : clear implicits.
End Bouncer.

(** ** What the bouncer guarantees *)
Module BouncerTheorems.
Import FileDescriptor SocketTheorems Bouncer.

(** The datagrams a program took from its sockets and those it sent, in order, with the
    descriptor and the address. A call that fails sets [errno], and a source address fits
    into a [sockaddr_storage]. *)
Abbreviation letter := (Z * Address.Address * bytes)%type.
Class Post (K : Type) `{SocketKernel K} `{Environment K} (taken mailed : K -> list letter) : Prop := {
  post_recvfrom : forall fd n k r errno data address fromlen k',
    k_recvfrom fd n k = (r, errno, data, (address, fromlen), k') ->
    (r < 0 -> errno <> 0) /\ mailed k' = mailed k /\
    (0 <= r -> exists a, Address.of_sockaddr address fromlen = ok a /\
       taken k' = taken k ++ [(fd, a, resize r data)]);
  post_sendmsg : forall fd a iovs k r errno k', k_sendmsg fd (Some a) iovs k = (r, errno, k') ->
    (r < 0 -> errno <> 0) /\ taken k' = taken k /\
    (0 <= r -> mailed k' = mailed k ++ [(fd, a, take (Z.to_nat r) (concat (map fst iovs)))]);
  post_getsockname : forall fd k r errno address size k', k_getsockname fd k = (r, errno, (address, size), k') ->
    taken k' = taken k /\ mailed k' = mailed k;
  post_socket : forall domain type k r errno k', k_socket domain type k = (r, errno, k') ->
    taken k' = taken k /\ mailed k' = mailed k;
  post_bind : forall fd a k r errno k', k_bind fd a k = (r, errno, k') ->
    taken k' = taken k /\ mailed k' = mailed k;
  post_poll : forall ps t k r errno revents k', k_poll ps t k = (r, errno, revents, k') ->
    taken k' = taken k /\ mailed k' = mailed k
}.

(** *** The specification

    A datagram from socket [i] goes out of its partner to the address last seen there; an
    empty one only makes the source known. *)
Definition partner (i : nat) : nat := if Nat.even i then S i else pred i.

Abbreviation piece := (nat * Address.Address * bytes)%type.
Definition relay (known : list (option Address.Address)) (e : piece)
    : list (option Address.Address) * list piece :=
  let '(i, source, payload) := e in
  let known := match nth i known None with
               | Some a => if Address.eqb a source then known else <[i := Some source]> known
               | None => <[i := Some source]> known
               end in
  (known, match nth (partner i) known None, payload with
          | Some a, _ :: _ => [(partner i, a, payload)]
          | _, _ => []
          end).
Fixpoint relays (known : list (option Address.Address)) (es : list piece)
    : list (option Address.Address) * list piece :=
  match es with
  | [] => (known, [])
  | e :: es =>
      let (known, out) := relay known e in
      let (known, out') := relays known es in (known, out ++ out')
  end.

Lemma relays_snoc known es e :
  relays known (es ++ [e]) =
    let (known, out) := relays known es in let (known, out') := relay known e in (known, out ++ out').
Proof.
  revert known. induction es as [|x es IH]; intros known; cbn [relays app].
  - destruct (relay known e). by rewrite app_nil_r.
  - destruct (relay known x) as [k1 o1]. rewrite IH. destruct (relays k1 es) as [k2 o2].
    destruct (relay k2 e). by rewrite app_assoc.
Qed.

Lemma relay_length known e : length (relay known e).1 = length known.
Proof. destruct e as [[i a] d]. unfold relay. cbn. repeat case_match; by rewrite ?length_insert. Qed.

Section Bouncing.
Context {K : Type} `{Resolver} `{Kernel K} `{SocketKernel K} `{Environment K}
  (taken mailed : K -> list letter) `{!Post K taken mailed}.
Abbreviation St := (Bouncer K).

Lemma show_outcome a : outcome ordinary (fun _ => True) (Address.address_to_string a).
Proof. unfold Address.address_to_string. eapply outcome_bind; [apply port_outcome|]. by intros [? ?]. Qed.

Definition recv_post (w : FDWrapper) (k : K) (r : received_datagram * (FDWrapper * K)) : Prop :=
  let '(rec, (w', k')) := r in
  fd_num w' = fd_num w /\ read_count w' = u32 (read_count w + 1) /\ zlen (udp_payload rec) <= UDPSocket.default_mtu /\
  mailed k' = mailed k /\
  taken k' = taken k ++ [(fd_num w, source_address rec, udp_payload rec)].

Lemma recv_outcome w k : outcome ordinary (recv_post w k) (UDPSocket.recv UDPSocket.default_mtu (w, k)).
Proof.
  unfold UDPSocket.recv. destruct (k_recvfrom _ _ k) as [[[[r errno] data] [address fromlen]] k'] eqn:Er.
  destruct (post_recvfrom _ _ _ _ _ _ _ _ _ Er) as (Hn&Hm&Ht).
  eapply outcome_bind; [by apply system_call_sets|]. intros n [-> Hr].
  destruct (Z.ltb_spec UDPSocket.default_mtu r); [done|]. destruct (Ht Hr) as (a&->&Et). cbn -[UDPSocket.default_mtu].
  split; [done|]. split; [done|]. split; [rewrite zlen_resize; lia|]. done.
Qed.

Lemma local_address_outcome w k :
  outcome ordinary (fun '(_, (w', k')) => w' = w /\ taken k' = taken k /\ mailed k' = mailed k)
    (Socket.local_address (w, k)).
Proof.
  unfold Socket.local_address, Socket.get_address. destruct (k_getsockname _ k) as [[[r errno] [address size]] k'] eqn:Er.
  destruct (post_getsockname _ _ _ _ _ _ _ Er). eapply outcome_bind; [apply system_call_outcome|]. intros n _.
  unfold Address.of_sockaddr. by destruct (_ <? size).
Qed.

Lemma sendto_outcome a d w k :
  zlen d < 2 ^ 63 ->
  outcome ordinary (fun '(w', k') => fd_num w' = fd_num w /\ read_count w' = read_count w /\ taken k' = taken k /\
      mailed k' = mailed k ++ [(fd_num w, a, d)])
    (UDPSocket.sendto a (BufferViewList.of_string d) (w, k)).
Proof.
  intros Hd. unfold UDPSocket.sendto, UDPSocket.sendmsg_helper.
  destruct (k_sendmsg _ _ _ k) as [[r errno] k'] eqn:Er. destruct (post_sendmsg _ _ _ _ _ _ _ Er) as (Hn&Ht&Hm).
  eapply outcome_bind with (P := fun k1 => taken k1 = taken k /\ mailed k1 = mailed k ++ [(fd_num w, a, d)]);
    [|by intros k1 [? ?]].
  eapply outcome_bind; [by apply system_call_sets|]. intros n [-> Hr].
  rewrite WriteTheorems.view_size by (cbn; rewrite app_nil_r; lia). cbn [BufferViewList.of_string concat]. rewrite app_nil_r.
  destruct (Z.eqb_spec r (zlen d)) as [->|]; [|done]. split; [done|]. rewrite Hm by done. cbn. rewrite app_nil_r.
  by rewrite take_ge by (unfold zlen; lia).
Qed.

(** *** The invariant *)
Definition name (fds : list Z) (e : piece) : letter := (nth e.1.1 fds 0, e.1.2, e.2).

Record bouncing (fds : list Z) (s : St) (es : list piece) : Prop := mk_bouncing {
  bc_fds : map fd_num (sockets s) = fds;
  bc_peers : peers s = (relays (replicate (length fds) None) es).1;
  bc_taken : taken (kernel s) = map (name fds) es;
  bc_mailed : mailed (kernel s) = map (name fds) (relays (replicate (length fds) None) es).2
}.

Lemma socket_fd fds s es i : bouncing fds s es -> fd_num (socket i s) = nth i fds 0.
Proof. intros [<- _ _ _]. unfold socket. symmetry. exact (map_nth fd_num (sockets s) (mkFDWrapper 0 false false 0 0) i). Qed.

Lemma insert_same_fd i w (l : list FDWrapper) d :
  fd_num w = fd_num (nth i l d) -> map fd_num (<[i:=w]> l) = map fd_num l.
Proof.
  revert i. induction l as [|x l IH]; intros [|i] Hw; cbn in *; [done|done|by rewrite Hw|]. by rewrite IH.
Qed.

Lemma nth_insert {X} i j (x d : X) l :
  (i < length l)%nat -> nth j (<[i := x]> l) d = if (i =? j)%nat then x else nth j l d.
Proof.
  intros Hi. rewrite !nth_lookup. destruct (Nat.eqb_spec i j) as [<-|Hj].
  - by rewrite list_lookup_insert_eq.
  - by rewrite list_lookup_insert_ne.
Qed.

Lemma name_fds fds s es i a d : bouncing fds s es -> (fd_num (socket i s), a, d) = name fds (i, a, d).
Proof. intros B. unfold name. cbn. by rewrite (socket_fd _ _ _ _ B). Qed.

Lemma bouncing_lengths fds s es :
  bouncing fds s es -> length (sockets s) = length fds /\ length (peers s) = length fds.
Proof.
  intros [E Ep _ _]. split; [by rewrite <- E, length_map|]. rewrite Ep. clear.
  induction es as [|e es IH] using rev_ind; [apply length_replicate|]. rewrite relays_snoc.
  destruct (relays _ es) as [p o]. pose proof (relay_length p e). destruct (relay p e). cbn in *. congruence.
Qed.

Section Callback.
Context (fds : list Z) (s : St) (es : list piece) (B : bouncing fds s es) (i : nat).
Context (Hi : (i < length fds)%nat) (Ho : (partner i < length fds)%nat).

Lemma partner_ne : partner i <> i.
Proof. unfold partner. destruct (Nat.even i) eqn:E; [lia|]. destruct i; [done|]. cbn. lia. Qed.

(** After the datagram is taken. *)
Record heard (rec : received_datagram) (s' : St) : Prop := mk_heard {
  hd_fds : map fd_num (sockets s') = fds;
  hd_count : read_count (socket i s') = u32 (read_count (socket i s) + 1);
  hd_taken : taken (kernel s') = map (name fds) (es ++ [(i, source_address rec, udp_payload rec)]);
  hd_mailed : mailed (kernel s') = mailed (kernel s);
  hd_size : zlen (udp_payload rec) <= UDPSocket.default_mtu
}.

Lemma heard_outcome :
  outcome ordinary (fun '(rec, s') => heard rec s' /\ peers s' = peers s)
    (on_socket i (UDPSocket.recv UDPSocket.default_mtu) s).
Proof.
  destruct (bouncing_lengths _ _ _ B) as [Hl _]. unfold on_socket.
  eapply outcome_bind; [apply recv_outcome|]. intros [rec [w k]] (Hf&Hc&Hz&Hm&Ht). split; [|done]. split; cbn.
  - rewrite (insert_same_fd _ _ _ _ Hf). apply B.
  - unfold socket at 1. cbn. rewrite nth_insert by lia. by rewrite Nat.eqb_refl.
  - rewrite Ht, (bc_taken _ _ _ B), map_app. cbn. by rewrite (name_fds _ _ _ _ _ _ B).
  - done.
  - done.
Qed.

(** Noting the source leaves all else. *)
Lemma noted_outcome rec s1 :
  heard rec s1 ->
  outcome ordinary (fun s2 => heard rec s2 /\ peers s2 = peers s1)
    (let! (a, s) := on_socket i Socket.local_address s1 in
     let! _ := Address.address_to_string a in
     let! _ := Address.address_to_string (source_address rec) in ok s).
Proof.
  intros [Hf Hc Ht Hm Hz]. unfold on_socket.
  assert (i < length (sockets s1))%nat as Hl by (rewrite <- (length_map fd_num), Hf; done).
  eapply outcome_bind with (P := fun '(_, s2) => heard rec s2 /\ peers s2 = peers s1).
  - eapply outcome_bind; [apply local_address_outcome|]. intros [a [w k]] (->&Et&Em). split; [|done]. split; cbn; try congruence.
    + by rewrite (insert_same_fd _ _ _ (mkFDWrapper 0 false false 0 0)).
    + unfold socket at 1. cbn. rewrite nth_insert by done. by rewrite Nat.eqb_refl.
  - intros [a s2] Hh. do 2 (eapply outcome_bind; [apply show_outcome|]; intros ? _). done.
Qed.

Section Datagram.
Context (rec : received_datagram).
Let e : piece := (i, source_address rec, udp_payload rec).

Lemma learned_outcome s1 :
  heard rec s1 -> peers s1 = peers s ->
  outcome ordinary (fun s2 => heard rec s2 /\ peers s2 = (relay (peers s) e).1)
    (if match peer i s1 with None => true | Some a => negb (Address.eqb a (source_address rec)) end then
       let s1 := s1 <| peers ::= <[i := Some (source_address rec)]> |> in
       let! (a, s) := on_socket i Socket.local_address s1 in
       let! _ := Address.address_to_string a in
       let! _ := Address.address_to_string (source_address rec) in ok s
     else ok s1).
Proof.
  intros Hh Ep. set (s1' := s1 <| peers ::= _ |>). cbv zeta.
  assert (outcome ordinary (fun s2 => heard rec s2 /\ peers s2 = <[i := Some (source_address rec)]> (peers s))
    (let! (a, s) := on_socket i Socket.local_address s1' in
     let! _ := Address.address_to_string a in
     let! _ := Address.address_to_string (source_address rec) in ok s)) as Hn.
  { eapply outcome_mono; [apply noted_outcome|done|].
    - destruct Hh. by split.
    - intros s2 [? ->]. cbn. by rewrite Ep. }
  unfold peer. rewrite Ep. unfold e, relay. cbn [fst].
  destruct (nth i (peers s) None) as [a|]; [destruct (Address.eqb a (source_address rec))|]; done.
Qed.

(** The datagrams sent are those of the specification. *)
Lemma heard_bouncing s2 s' :
  heard rec s2 -> peers s2 = (relay (peers s) e).1 ->
  map fd_num (sockets s') = fds -> peers s' = peers s2 -> taken (kernel s') = taken (kernel s2) ->
  mailed (kernel s') = mailed (kernel s) ++ map (name fds) (relay (peers s) e).2 -> bouncing fds s' (es ++ [e]).
Proof.
  intros [_ _ Ht _ _] Ep2 Hf' Hp' Ht' Hm'. destruct B as [_ Bp _ Bm].
  assert (relays (replicate (length fds) None) (es ++ [e]) = ((relay (peers s) e).1,
    (relays (replicate (length fds) None) es).2 ++ (relay (peers s) e).2)) as Er.
  { rewrite relays_snoc, Bp. destruct (relays _ es) as [p o]. cbn [fst snd]. by destruct (relay p e). }
  split; rewrite ?Er; cbn [fst snd]; [done|congruence|by rewrite Ht'|]. by rewrite Hm', Bm, map_app.
Qed.

Lemma sent_outcome s2 a :
  heard rec s2 -> peers s2 = (relay (peers s) e).1 -> (relay (peers s) e).2 = [(partner i, a, udp_payload rec)] ->
  outcome ordinary (fun '(_, s') => bouncing fds s' (es ++ [e]) /\ socket i s' = socket i s2)
    (on_socket (partner i) (fun t =>
       let! t := UDPSocket.sendto a (BufferViewList.of_string (udp_payload rec)) t in ok (tt, t)) s2).
Proof.
  intros Hh Ep2 Eo. pose proof Hh as [Hf _ _ Hm Hz]. pose proof partner_ne.
  assert (partner i < length (sockets s2))%nat as Hl by (rewrite <- (length_map fd_num), Hf; done).
  unfold on_socket. eapply outcome_bind with (P := fun '(_, (w, k)) => fd_num w = fd_num (socket (partner i) s2) /\
      taken k = taken (kernel s2) /\
      mailed k = mailed (kernel s2) ++ [(fd_num (socket (partner i) s2), a, udp_payload rec)]).
  { eapply outcome_bind; [apply sendto_outcome|by intros [w k] (?&_&?&?)]. unfold UDPSocket.default_mtu in Hz. lia. }
  intros [u [w k]] (Hfw&Htk&Hmk). split.
  - apply (heard_bouncing s2); cbn -[relay]; [done..|by rewrite (insert_same_fd _ _ _ _ Hfw)|done|done|].
    rewrite Hmk, Hm, Eo. unfold name. cbn. do 4 f_equal. rewrite <- Hf. unfold socket. symmetry.
    exact (map_nth fd_num (sockets s2) (mkFDWrapper 0 false false 0 0) (partner i)).
  - unfold socket at 1. cbn. rewrite nth_insert by done. by destruct (Nat.eqb_spec (partner i) i).
Qed.

End Datagram.

Lemma bounce_outcome :
  outcome ordinary (fun s' => (exists e, bouncing fds s' (es ++ [e])) /\
      read_count (socket i s') = u32 (read_count (socket i s) + 1)) (bounce i (partner i) s).
Proof.
  unfold bounce. eapply outcome_bind; [apply heard_outcome|]. intros [rec s1] [H1h Ep].
  eapply outcome_bind; [by apply learned_outcome|]. intros s2 [Hh Ep2]. pose proof Hh as [Hf Hc _ Hm _].
  unfold peer. rewrite Ep2. set (e := (i, source_address rec, udp_payload rec)) in *.
  assert ((relay (peers s) e).2 = match nth (partner i) (relay (peers s) e).1 None, udp_payload rec with
    Some a, _ :: _ => [(partner i, a, udp_payload rec)] | _, _ => [] end) as Eo by done.
  assert ((relay (peers s) e).2 = [] -> bouncing fds s2 (es ++ [e])) as Hnone.
  { intros E0. apply (heard_bouncing rec s2); try done. fold e. by rewrite E0, app_nil_r. }
  destruct (nth (partner i) (relay (peers s) e).1 None) as [a|]; [|split; [exists e; by apply Hnone|done]].
  destruct (bool_decide_reflect (udp_payload rec = [])) as [Ed|Ed]; cbn [negb].
  { split; [|done]. exists e. apply Hnone. by rewrite Eo, Ed. }
  eapply outcome_bind; [apply (sent_outcome rec s2 a); [done|done|]|].
  - fold e. rewrite Eo. by destruct (udp_payload rec).
  - intros [u s'] [? Es]. cbn. rewrite Es. by eauto.
Qed.

End Callback.

(** *** The rules *)
Definition rule_of (i : nat) : EventLoop.Rule St :=
  EventLoop.mkRule (socket i) EventLoop.In (bounce i (partner i)) EventLoop.always EventLoop.nothing.

Lemma partner_lt i n : (i < 2 * n)%nat -> (partner i < 2 * n)%nat.
Proof.
  unfold partner. intros Hi. destruct (Nat.even i) eqn:E; [|lia]. apply Nat.even_spec in E as [m ->]. lia.
Qed.

Lemma bouncing_kernel fds s es k :
  bouncing fds s es -> taken k = taken (kernel s) -> mailed k = mailed (kernel s) -> bouncing fds (s <| kernel := k |>) es.
Proof. intros [] Ht Hm. split; cbn; congruence. Qed.

Lemma bouncer_contract fds n :
  length fds = (2 * n)%nat ->
  EventLoopTheorems.contract rule_of
    (fun l s => Forall (fun i => i < 2 * n)%nat l /\ exists es, bouncing fds s es)
    (fun _ _ => True) (fun _ _ => False) ordinary.
Proof.
  intros Hn. split.
  - done.
  - intros l ps t s r errno revents s' [Hl [es B]]. unfold EventLoop.poll, bouncer_poll.
    destruct (k_poll _ _ _) as [[[r0 e0] rev0] k'] eqn:Ep. intros [= <- <- <- <-].
    split; [|done]. split; [done|]. exists es.
    destruct (post_poll _ _ _ _ _ _ _ Ep). by apply bouncing_kernel.
  - intros l1 i l2 s [Hl B]. split; [|done]. split; [|done].
    apply Forall_app in Hl as [? [_ ?]%Forall_cons]. by apply Forall_app.
  - intros l i s Hi [Hl [es B]] _. pose proof (proj1 (Forall_forall _ _) Hl i Hi) as Hlt.
    eapply outcome_mono; [apply (bounce_outcome fds s es B i); rewrite Hn; [done|by apply partner_lt]|done|].
    intros s' [[e B'] Hc]. split; [|split; [done|]].
    + split; [done|]. by eexists.
    + left. cbn. rewrite Hc. zmod.
Qed.

(** C38. The bouncer relays. In every state of its loop the datagrams sent are those of the
    specification for the datagrams received so far, in their order: each payload that is
    not empty went out of the partner of the socket it came from, to the address last seen
    there, and none before that address was known. The next turn does not report a busy
    wait. *)
Theorem bouncer_relays n s0 rules s :
  length (sockets s0) = (2 * n)%nat -> peers s0 = replicate (2 * n) None ->
  taken (kernel s0) = [] -> mailed (kernel s0) = [] ->
  EventLoopTheorems.waited rule_of (seq 0 (2 * n)) s0 rules s ->
  (exists es, let fds := map fd_num (sockets s0) in
     taken (kernel s) = map (name fds) es /\
     mailed (kernel s) = map (name fds) (relays (replicate (2 * n) None) es).2 /\
     peers s = (relays (replicate (2 * n) None) es).1 /\ map fd_num (sockets s) = fds) /\
  outcome (fun e => e <> EventLoop.busy_wait) (fun _ => True) (EventLoop.wait_next_event (-1) rules s).
Proof.
  intros Hl Hp Ht Hm W. set (fds := map fd_num (sockets s0)).
  assert (length fds = (2 * n)%nat) as Hf by (unfold fds; by rewrite length_map).
  assert (bouncing fds s0 []) as B0 by (split; cbn; rewrite ?Hf; done).
  pose proof (bouncer_contract fds n Hf) as C. pose proof (NoDup_seq 0 (2 * n)) as Hd.
  assert (Forall (fun i => i < 2 * n)%nat (seq 0 (2 * n))) as Hr by (apply Forall_seq; lia).
  destruct (EventLoopTheorems.waited_kept _ _ _ _ _ C _ _ _ _ Hd (conj Hr (ex_intro _ _ B0)) W) as (ids&Hs&->&Hi&es&B).
  split.
  { exists es. destruct B as [B1 B2 B3 B4]. by rewrite Hf in *. }
  eapply outcome_mono; [apply (EventLoopTheorems.wait_outcome _ _ _ _ _ C (-1) ids s)| |done].
  - by eapply sublist_NoDup.
  - split; [done|]. by exists es.
  - by intros e [[? _]| ->].
Qed.

(** *** The set-up *)

(** After [m] pairs. *)
Record ready (k : K) (m : nat) (t : list (EventLoop.Rule St) * St) : Prop := mk_ready {
  rd_rules : t.1 = map rule_of (seq 0 (2 * m));
  rd_sockets : length (sockets t.2) = (2 * m)%nat;
  rd_peers : peers t.2 = replicate (2 * m) None;
  rd_taken : taken (kernel t.2) = taken k;
  rd_mailed : mailed (kernel t.2) = mailed k
}.

Lemma socket_make_outcome k :
  outcome ordinary (fun '(_, k') => taken k' = taken k /\ mailed k' = mailed k) (UDPSocket.make k).
Proof.
  unfold UDPSocket.make, Socket.make. destruct (k_socket _ _ k) as [[r errno] k'] eqn:Er.
  pose proof (post_socket _ _ _ _ _ _ Er). eapply outcome_bind; [apply system_call_outcome|]. intros n _.
  unfold FileDescriptor.make. by destruct (n <? 0).
Qed.

Lemma bind_outcome a w k :
  outcome ordinary (fun '(_, k') => taken k' = taken k /\ mailed k' = mailed k) (Socket.bind a (w, k)).
Proof.
  unfold Socket.bind. destruct (k_bind _ a k) as [[r errno] k'] eqn:Er.
  pose proof (post_bind _ _ _ _ _ _ Er). eapply outcome_bind; [apply system_call_outcome|]. by intros n _.
Qed.

Lemma add_pair_ready k m p t : ready k m t -> outcome (fun _ => True) (ready k (S m)) (add_pair p t).
Proof.
  destruct t as [rules s]. intros [Er Hs Hp Ht Hm]. cbn [fst snd] in *. unfold add_pair.
  assert (forall k, outcome (fun _ => True) (fun '(_, k') => taken k' = taken k /\ mailed k' = mailed k) (UDPSocket.make k)) as Hmake
    by (intros k0; by eapply outcome_mono; [apply socket_make_outcome| |]).
  assert (forall a w k, outcome (fun _ => True) (fun '(_, k') => taken k' = taken k /\ mailed k' = mailed k) (Socket.bind a (w, k))) as Hbind
    by (intros a w k0; by eapply outcome_mono; [apply bind_outcome| |]).
  assert (forall a b, outcome (fun _ => True) (fun _ : Address.Address => True) (Address.of_ip_port a b)) as Haddr
    by (intros a b; by destruct (Address.of_ip_port a b)).
  eapply outcome_bind; [apply Hmake|]. intros [x k1] [T1 M1]. eapply outcome_bind; [apply Hmake|]. intros [y k2] [T2 M2].
  eapply outcome_bind; [apply Haddr|]. intros a _. eapply outcome_bind; [apply Hbind|]. intros [x' k3] [T3 M3].
  eapply outcome_bind; [apply Haddr|]. intros a' _. eapply outcome_bind; [apply Hbind|]. intros [y' k4] [T4 M4].
  split; cbn [fst snd sockets peers kernel]; [|rewrite length_app; cbn [length]; lia| |congruence..].
  - replace (2 * S m)%nat with (2 * m + 2)%nat by lia. rewrite seq_app, map_app, <- Er, Hs.
    unfold bounce_rule, EventLoop.add_rule. rewrite <- app_assoc. cbn [seq map Nat.add app].
    assert (partner (2 * m) = S (2 * m) /\ partner (S (2 * m)) = (2 * m)%nat) as [E1 E2].
    { unfold partner. rewrite Nat.even_succ, <- Nat.negb_even, (proj2 (Nat.even_spec (2 * m))) by (by exists m). done. }
    unfold rule_of. by rewrite E1, E2.
  - rewrite Hp. replace (2 * S m)%nat with (2 * m + 2)%nat by lia. by rewrite replicate_add.
Qed.

Definition pairs : nat := Z.to_nat 31489.
#[local] Arguments pairs : simpl never.

Lemma add_pairs_ready k j m t :
  (m + j = pairs)%nat -> ready k m t ->
  exists r, add_pairs (S j) (1024 + 2 * Z.of_nat m) t = Some r /\ outcome (fun _ => True) (ready k pairs) r.
Proof.
  revert m t. induction j as [|j IH]; intros m t Hm R; cbn [add_pairs]; unfold pairs in Hm.
  - destruct (Z.leb_spec (1024 + 2 * Z.of_nat m) 64000); [lia|]. eexists. split; [reflexivity|].
    rewrite Nat.add_0_r in Hm. by rewrite Hm in R.
  - destruct (Z.leb_spec (1024 + 2 * Z.of_nat m) 64000); [|lia].
    pose proof (add_pair_ready k m (1024 + 2 * Z.of_nat m) t R) as R1. destruct (add_pair _ t) as [e|t1]; [by eexists|].
    rewrite u16_small by lia. replace (1024 + 2 * Z.of_nat m + 2) with (1024 + 2 * Z.of_nat (S m)) by lia.
    apply (IH (S m)); [unfold pairs; lia|exact R1].
Qed.

(** The loop over the ports ends, after 31489 pairs from 1024 on, although its counter
    is a [uint16_t]; the vectors have stayed within the size they reserved, so that the
    references in the callbacks are valid; and the rules are those of [bouncer_relays]. *)
Theorem bouncer_sets_up k :
  exists r, add_pairs (S pairs) 1024 ([], mkBouncer [] [] k) = Some r /\
    outcome (fun _ => True) (fun '(rules, s) =>
      rules = map rule_of (seq 0 (2 * pairs)) /\ length (sockets s) = (2 * pairs)%nat /\
      zlen (sockets s) <= reserved /\ zlen (peers s) <= reserved /\
      peers s = replicate (2 * pairs) None /\ taken (kernel s) = taken k /\ mailed (kernel s) = mailed k) r.
Proof.
  destruct (add_pairs_ready k pairs 0 ([], mkBouncer [] [] k)) as (r&E&R); [done|by split|].
  exists r. split; [exact E|]. destruct r as [e|[rules s]]; [done|]. destruct R as [Er Hs Hp Ht Hm]. cbn [fst snd] in *.
  split; [exact Er|]. split; [exact Hs|]. rewrite Hp. unfold zlen. rewrite Hs, length_replicate.
  split; [unfold reserved, pairs; lia|]. split; [unfold reserved, pairs; lia|]. split; [reflexivity|]. by split.
Qed.

End Bouncing.
(** A machine with datagrams that wait at the sockets. *)
Module Machine.

Record machine := mkMachine { inbox : list letter; took : list letter; sent : list letter }.

(** The first datagram that waits at [fd], and the others. *)
Fixpoint pick (fd : Z) (l : list letter) : option (letter * list letter) :=
  match l with
  | [] => None
  | e :: l => if e.1.1 =? fd then Some (e, l) else option_map (fun '(x, l) => (x, e :: l)) (pick fd l)
  end.

#[local] Instance machine_kernel : Kernel machine := {
  k_read fd n m := (0, 0, [], m);
  k_writev fd iovs m := (0, 0, m);
  k_close fd m := (0, 0, m);
  k_fcntl fd cmd arg m := (0, 0, m)
}.
#[local] Instance machine_sockets : SocketKernel machine := {
  k_socket d t m := (5, 0, m);
  k_socketpair d t m := (0, 0, (2, 3), m);
  k_getsockopt fd level o m := (0, 0, (0, 4), m);
  k_setsockopt fd l o v m := (0, 0, m);
  k_getsockname fd m := (0, 0, (Address.sockaddr_in Address.AF_INET 1024 0, 16), m);
  k_getpeername fd m := (0, 0, ([], 0), m);
  k_bind fd a m := (0, 0, m);
  k_connect fd a m := (0, 0, m);
  k_shutdown fd how m := (0, 0, m);
  k_listen fd b m := (0, 0, m);
  k_accept fd m := (6, 0, m);
  k_recvfrom fd n m :=
    match pick fd (inbox m) with
    | Some ((_, a, d), l) =>
        match Address.of_sockaddr (Address.storage a) (Address._size a) with
        | inr a' => (zlen d, 0, d, (Address.storage a, Address._size a), mkMachine l (took m ++ [(fd, a', d)]) (sent m))
        | inl _ => (-1, 11, [], ([], 0), m)
        end
    | None => (-1, 11, [], ([], 0), m)
    end;
  k_sendmsg fd to iovs m :=
    match to with
    | Some a => (zlen (concat (map fst iovs)), 0, mkMachine (inbox m) (took m) (sent m ++ [(fd, a, concat (map fst iovs))]))
    | None => (-1, 22, m)
    end;
  k_open path m := (4, 0, m);
  k_tunsetiff fd flags name m := (0, 0, m)
}.
(** A descriptor is ready when a datagram waits at it. *)
#[local] Instance machine_environment : Environment machine := {
  k_poll ps timeout m := (1, 0, (fun i => match pick (nth i (map EventLoop.poll_fd ps) 0) (inbox m) with
                                          | Some _ => EventLoop.POLLIN | None => 0 end), m);
  timestamp_ms m := (0, m);
  aborted m := false
}.

Lemma machine_post : Post machine took sent.
Proof.
  split.
  - intros fd n k r errno data address fromlen k'. cbn. destruct (pick fd (inbox k)) as [[[[fd0 a] d] l]|].
    + destruct (Address.of_sockaddr _ _) as [e|a'] eqn:Ea; intros [= <- <- <- <- <- <-]; [by split|].
      split; [intros Hr; pose proof (zlen_nonneg d); lia|]. split; [done|]. intros _. exists a'. split; [done|]. cbn. do 3 f_equal. unfold resize, zlen. rewrite Nat2Z.id, firstn_all.
      by rewrite Nat.sub_diag, app_nil_r.
    + by intros [= <- <- <- <- <- <-].
  - intros fd a iovs k r errno k' [= <- <- <-]. split; [intros Hr; pose proof (zlen_nonneg (concat (map fst iovs))); lia|].
    split; [done|]. intros _. cbn. by rewrite take_ge by (unfold zlen; lia).
  - by intros fd k r errno address size k' [= <- <- <- <- <-].
  - by intros domain type k r errno k' [= <- <- <-].
  - by intros fd a k r errno k' [= <- <- <-].
  - by intros ps t k r errno revents k' [= <- <- <- <-].
Qed.

Definition here : Address.Address := Address.from_ipv4_numeric 167772161.
Definition there : Address.Address := Address.from_ipv4_numeric 167772162.
Definition two_sockets : Bouncer machine :=
  mkBouncer [mkFDWrapper 3 false false 0 0; mkFDWrapper 4 false false 0 0] [None; None]
    (mkMachine [(3, here, []); (4, there, [x68; x69])] [] []).

#[local] Existing Instance NumericResolver.numeric_resolver.

Lemma turn_ok :
  match EventLoop.wait_next_event (-1) (map rule_of (seq 0 2)) two_sockets with
  | inr (_, _, s) => sent (kernel s) = [(3, here, [x68; x69])]
  | inl _ => False
  end.
Proof. vm_compute. reflexivity. Qed.

Lemma bouncer_relays_witness :
  exists res rules s, EventLoop.wait_next_event (-1) (map rule_of (seq 0 2)) two_sockets = ok (res, rules, s) /\
    sent (kernel s) = [(3, here, [x68; x69])] /\
    outcome (fun e => e <> EventLoop.busy_wait) (fun _ => True) (EventLoop.wait_next_event (-1) rules s).
Proof.
  pose proof turn_ok as Hd. revert Hd.
  destruct (EventLoop.wait_next_event (-1) (map rule_of (seq 0 2)) two_sockets) as [e|[[res rules] s]] eqn:E;
    intros Hd; [destruct Hd|].
  exists res, rules, s. split; [reflexivity|]. split; [exact Hd|].
  apply (bouncer_relays (Post0 := machine_post) took sent 1 two_sockets rules s); try reflexivity.
  eapply EventLoopTheorems.waited_more; [|exact E]. apply EventLoopTheorems.waited_start.
Defined.

Lemma bouncer_sets_up_witness :
  exists r, add_pairs (S pairs) 1024 ([], mkBouncer [] [] (mkMachine [] [] [])) = Some r /\
    outcome (fun _ => True) (fun '(rules, s) => sent (kernel s) = []) r.
Proof.
  destruct (bouncer_sets_up (Post0 := machine_post) took sent (mkMachine [] [] [])) as (r&E&R).
  exists r. split; [exact E|]. destruct r as [e|[rules s]]; [exact R|]. destruct R as (_&_&_&_&_&_&Hm). exact Hm.
Defined.

End Machine.
End BouncerTheorems.
