(* ===== verification/Benchmark.v ===== *)
(** * The benchmark (apps/tcp_benchmark.cc)

    Two connections in one process: one sends a string, the other receives it, and their
    segments are moved by hand, in order or in the reverse order. *)
From S2P Require Import Prelude Stream Wrapping Reassembler Buffers TcpSegment Receiver Sender.
From S2P Require Import Connection ConnectionStreams Handshake SpongeSocket SocketTheorems.

Module Benchmark.
Import TCPConnection.

Definition move_segments (reorder : bool) (x y : TCPConnection) : TCPConnection * TCPConnection :=
  let segments := segments_out x in
  (x <| _segments_out := [] |>,
   fold_left (fun y seg => segment_received seg y) (if reorder then rev segments else segments) y).

(** The variables the function [loop] refers to. *)
Record Bench := mkBench {
  x : TCPConnection;
  y : TCPConnection;
  bytes_to_send : Buffer.Buffer;
  x_closed : bool;
  string_received : bytes
}.
#[global] Instance eta_Bench : Eta Bench := fun b =>
  mkBench (x b) (y b) (bytes_to_send b) (x_closed b) (string_received b).

Definition short_write : exception := runtime_error "want differs from written".

(** Write input into [x]; [None] when the fuel is not enough. *)
Fixpoint write_input (fuel : nat) (b : Bench) : option (result Bench) :=
  match fuel with
  | O => None
  | S fuel =>
      if bool_of_Z (Buffer.size (bytes_to_send b)) && bool_of_Z (remaining_outbound_capacity (x b)) then
        let want := Z.min (remaining_outbound_capacity (x b)) (Buffer.size (bytes_to_send b)) in
        let (x', written) := write (take (Z.to_nat want) (Buffer.str (bytes_to_send b))) (x b) in
        if negb (want =? written) then Some (throw short_write)
        else match Buffer.remove_prefix written (bytes_to_send b) with
             | inl e => Some (throw e)
             | inr rest => write_input fuel (b <| x := x' |> <| bytes_to_send := rest |>)
             end
      else Some (ok b)
  end.

(** The rest of [loop]. *)
Definition exchange (reorder : bool) (b : Bench) : Bench :=
  let b := if (Buffer.size (bytes_to_send b) =? 0) && negb (x_closed b)
           then b <| x ::= end_input_stream |> <| x_closed := true |> else b in
  let (x1, y1) := move_segments reorder (x b) (y b) in
  let (y2, x2) := move_segments false y1 x1 in
  let b := b <| x := x2 |> <| y := y2 |> in
  let available_output := ByteStream.buffer_size (inbound_stream (y b)) in
  let b := if 0 <? available_output then
             b <| string_received ::= fun s => s ++ (ByteStream.read available_output (inbound_stream (y b))).2 |>
               <| y ::= TCPSpongeSocket.on_inbound (fun o => (ByteStream.read available_output o).1) |>
           else b in
  b <| x ::= tick 1000 |> <| y ::= tick 1000 |>.

Definition loop (fuel : nat) (reorder : bool) (b : Bench) : option (result Bench) :=
  fmap (fun r => bindR r (fun b => ok (exchange reorder b))) (write_input fuel b).

(** [while (condition) loop();] *)
Fixpoint loop_while (fuel : nat) (condition : Bench -> bool) (reorder : bool) (b : Bench)
    : option (result Bench) :=
  match fuel with
  | O => None
  | S fuel' =>
      if condition b then
        match loop fuel reorder b with
        | Some (inr b) => loop_while fuel' condition reorder b
        | r => r
        end
      else Some (ok b)
  end.

(** [rx] and [ry] are the random numbers of the two connections. *)
Definition start (config : TCPConfig.TCPConfig) (rx ry : Z) (string_to_send : bytes) : Bench :=
  mkBench (connect (make rx config)) (end_input_stream (make ry config)) (Buffer.make string_to_send) false [].

Definition mismatch : exception := runtime_error "strings sent vs. received don't match".
Definition main_loop (fuel : nat) (config : TCPConfig.TCPConfig) (rx ry : Z) (string_to_send : bytes) (reorder : bool)
    : option (result Bench) :=
  match loop_while fuel (fun b => negb (ByteStream.eof (inbound_stream (y b)))) reorder
          (start config rx ry string_to_send) with
  | Some (inr b) =>
      if negb (bool_decide (string_received b = string_to_send))
      then Some (throw mismatch)
      else loop_while fuel (fun b => active (x b) || active (y b)) reorder b
  | r => r
  end.

End Benchmark.

(** ** What the benchmark guarantees *)
Module BenchmarkTheorems.
Import StreamRefinement ConnectionStreams SocketTheorems TCPConnection Benchmark.

(** [sent] was written into [x], the rest of [data] is still to be sent; [string_received]
    was read from the stream of [y]. *)
Record benching (data : bytes) (b : Bench) (sent : bytes) : Prop := mk_benching {
  bn_data : data = sent ++ Buffer.str (bytes_to_send b);
  bn_wf : Buffer.wf (bytes_to_send b);
  bn_x : streams_ok (x b) sent [] (x_closed b);
  bn_closed : x_closed b = true -> Buffer.str (bytes_to_send b) = [];
  bn_y : streams_ok (y b) [] (string_received b) true
}.

Lemma write_input_ok data fuel b sent :
  benching data b sent ->
  (write_input fuel b = None /\ (fuel <= length (Buffer.str (bytes_to_send b)))%nat) \/
  exists b' sent', write_input fuel b = Some (ok b') /\ benching data b' sent' /\
    (Buffer.str (bytes_to_send b') = [] \/ remaining_outbound_capacity (x b') = 0).
Proof.
  revert b sent. induction fuel as [|fuel IH]; intros b sent B; [left; split; [done|lia]|]. cbn [write_input].
  destruct B as [Hd Hwf Hx Hc Hy]. pose proof (Buffer.size_range _ Hwf) as Hsz. unfold bool_of_Z.
  set (rest := Buffer.str (bytes_to_send b)) in *. change (Buffer.size (bytes_to_send b)) with (zlen rest) in *.
  pose proof (capacity_nonneg (outbound_stream (x b))) as Hcap.
  change (ByteStream.remaining_capacity (outbound_stream (x b))) with (remaining_outbound_capacity (x b)) in Hcap.
  destruct (Z.eqb_spec (zlen rest) 0) as [E0|E0]; cbn [negb andb].
  { right. exists b, sent. split; [done|]. split; [by split|]. left. apply nil_length_inv. fold rest. unfold zlen in E0. lia. }
  destruct (Z.eqb_spec (remaining_outbound_capacity (x b)) 0) as [E1|E1]; cbn [negb].
  { right. exists b, sent. split; [done|]. split; [by split|]. by right. }
  set (want := Z.min _ _).
  assert (x_closed b = false) as Ex by (destruct (x_closed b); [by rewrite Hc in E0|done]). rewrite Ex in Hx.
  assert (zlen (take (Z.to_nat want) rest) = want) as Hw by (rewrite zlen_take; lia).
  destruct (streams_write (take (Z.to_nat want) rest) (x b) _ _ Hx) as [Hx' En]; [lia|].
  destruct (write (take (Z.to_nat want) rest) (x b)) as [x' written]. cbn [fst snd] in Hx', En. rewrite Hw in En. subst written.
  rewrite Z.eqb_refl. cbn [negb].
  destruct (Buffer.remove_prefix_ok want (bytes_to_send b) Hwf) as (rest'&->&Hwf'&Es); [unfold Buffer.size; fold rest; lia|].
  set (b1 := b <| x := x' |> <| bytes_to_send := rest' |>).
  assert (benching data b1 (sent ++ take (Z.to_nat want) rest)) as B1.
  { split; cbn; [by rewrite Es, <- app_assoc, take_drop|done|by rewrite Ex|by rewrite Ex|done]. }
  destruct (IH b1 _ B1) as [[E Hl]|?]; [left|by right]. split; [exact E|].
  cbn in Hl. rewrite Es, length_drop in Hl. fold rest in Hl |- *. unfold zlen in *. lia.
Qed.

Lemma moved_worked l c : worked c (fold_left (fun y seg => segment_received seg y) l c).
Proof.
  revert c. induction l as [|seg l IH]; intros c; cbn [fold_left]; [by apply worked_same|].
  eapply worked_trans; [apply segment_received_worked|apply IH].
Qed.

Lemma move_segments_worked r c c' : worked c (move_segments r c c').1 /\ worked c' (move_segments r c c').2.
Proof. split; [by apply worked_same|apply moved_worked]. Qed.

Lemma streams_read c i o e n :
  0 <= n -> streams_ok c i o e ->
  streams_ok (TCPSpongeSocket.on_inbound (fun s => (ByteStream.read n s).1) c) i
    (o ++ (ByteStream.read n (inbound_stream c)).2) e.
Proof.
  intros Hn [Hp (q&R&Ho)]. split; [done|]. destruct (read_ok _ _ R n Hn) as [R' E].
  exists (Pipe.read n q).1. split; [exact R'|]. rewrite E, <- Ho.
  change (take (Z.to_nat (Pipe.popped (Pipe.pop n q))) (Pipe.written q) =
    take (Z.to_nat (Pipe.popped q)) (Pipe.written q) ++ Pipe.peek n q).
  apply SenderLog.pop_take; [apply (ref_wf _ _ R)|done].
Qed.

Lemma exchange_ok data r b sent :
  benching data b sent -> benching data (exchange r b) sent.
Proof.
  intros [Hd Hwf Hx Hc Hy]. unfold exchange.
  set (b1 := if _ && _ then _ else b).
  assert (benching data b1 sent) as [Hd1 Hwf1 Hx1 Hc1 Hy1].
  { unfold b1. destruct (Z.eqb_spec (Buffer.size (bytes_to_send b)) 0) as [E|E]; [|by split].
    destruct (x_closed b) eqn:Ex; cbn [negb andb]; split; cbn; try rewrite Ex; try done.
    - by eapply streams_end.
    - intros _. apply nil_length_inv. unfold Buffer.size, zlen in E. lia. }
  destruct (move_segments_worked r (x b1) (y b1)) as [W1 W2]. destruct (move_segments r (x b1) (y b1)) as [x1 y1].
  cbn [fst snd] in W1, W2. destruct (move_segments_worked false y1 x1) as [W3 W4].
  destruct (move_segments false y1 x1) as [y2 x2]. cbn [fst snd] in W3, W4.
  pose proof (streams_worked _ _ _ _ _ W4 (streams_worked _ _ _ _ _ W1 Hx1)) as Hx2.
  pose proof (streams_worked _ _ _ _ _ W3 (streams_worked _ _ _ _ _ W2 Hy1)) as Hy2.
  set (b2 := b1 <| x := x2 |> <| y := y2 |>). set (n := ByteStream.buffer_size (inbound_stream (y b2))).
  set (b3 := if 0 <? n then _ else b2).
  assert (benching data b3 sent) as [Hd3 Hwf3 Hx3 Hc3 Hy3].
  { unfold b3. destruct (Z.ltb_spec 0 n) as [Hn|]; [|by split]. split; try done. cbn. apply streams_read; [lia|done]. }
  split; try done; cbn; (eapply streams_worked; [apply tick_worked|]); done.
Qed.

(** The calls of [loop] so far. *)
Inductive looped (b0 : Bench) : Bench -> Prop :=
  | looped_start : looped b0 b0
  | looped_more fuel reorder b b' : looped b0 b -> loop fuel reorder b = Some (ok b') -> looped b0 b'.

Lemma loop_returns data fuel reorder b sent :
  benching data b sent ->
  (loop fuel reorder b = None /\ (fuel <= length data)%nat) \/
  exists b' sent', loop fuel reorder b = Some (ok b') /\ benching data b' sent'.
Proof.
  intros B. unfold loop. destruct (write_input_ok data fuel b sent B) as [[-> Hl]|(b1&sent1&->&B1&_)].
  - left. split; [done|]. destruct B as [-> _ _ _ _]. rewrite length_app. lia.
  - right. exists (exchange reorder b1), sent1. split; [reflexivity|]. by apply exchange_ok.
Qed.

Lemma loop_while_ok data fuel condition reorder b sent :
  benching data b sent ->
  loop_while fuel condition reorder b = None \/
  exists b' sent', loop_while fuel condition reorder b = Some (ok b') /\ benching data b' sent'.
Proof.
  revert b sent. induction fuel as [|fuel IH]; intros b sent B; [by left|]. cbn [loop_while].
  destruct (condition b); [|right; by exists b, sent].
  destruct (loop_returns data (S fuel) reorder b sent B) as [[-> _]|(b1&sent1&->&B1)]; [by left|]. by apply (IH _ sent1).
Qed.

Section Run.
Context (config : TCPConfig.TCPConfig) (rx ry : Z) (data : bytes).
Context (Hx : Handshake.config_ok rx config) (Hy : Handshake.config_ok ry config) (Hdata : zlen data < 2 ^ 63).

Lemma start_ok : benching data (start config rx ry data) [].
Proof.
  split; cbn [start bytes_to_send x y x_closed string_received]; [done|by apply Buffer.make_wf| |done|].
  - eapply streams_worked; [apply connect_worked|]. by apply streams_make.
  - eapply streams_end. by apply streams_make.
Qed.

Lemma looped_ok b : looped (start config rx ry data) b -> exists sent, benching data b sent.
Proof.
  induction 1 as [|fuel reorder b b' _ (sent&B) E]; [exists []; apply start_ok|].
  destruct (loop_returns data fuel reorder b sent B) as [[En _]|(b2&sent2&E2&B2)]; rewrite E in *; [done|].
  injection E2 as <-. by exists sent2.
Qed.

(** The benchmark writes all it wants to: in every iteration what was written into the
    sender is the part of the string that is not left to send, and the stream is ended only
    when nothing is left; what was received is what was read from the peer's stream; the
    next iteration returns, and never finds that a write was short. The only exception the
    benchmark can throw is that the strings do not match. *)
Theorem benchmark_sends fuel reorder b :
  looped (start config rx ry data) b -> (length data < fuel)%nat ->
  (exists sent, data = sent ++ Buffer.str (bytes_to_send b) /\
     streams_ok (x b) sent [] (x_closed b) /\ streams_ok (y b) [] (string_received b) true /\
     (x_closed b = true -> sent = data)) /\
  (exists b', loop fuel reorder b = Some (ok b')) /\
  match main_loop fuel config rx ry data reorder with
  | Some (inl e) => e = mismatch
  | _ => True
  end.
Proof.
  intros L Hf. destruct (looped_ok b L) as (sent&B). split; [|split].
  - destruct B as [Hd _ HxB Hc HyB]. exists sent. split_and!; try done. intros E. by rewrite Hd, (Hc E), app_nil_r.
  - destruct (loop_returns data fuel reorder b sent B) as [[_ ?]|(b'&?&E&_)]; [lia|]. by exists b'.
  - unfold main_loop. set (c1 := fun b : Bench => negb _). set (c2 := fun b : Bench => _ || _).
    destruct (loop_while_ok data fuel c1 reorder _ [] start_ok) as [->|(b1&sent1&->&B1)]; [done|].
    cbn -[loop_while mismatch]. destruct (negb _); [done|].
    by destruct (loop_while_ok data fuel c2 reorder b1 sent1 B1) as [->|(b2&sent2&->&_)].
Qed.

End Run.

(** Runs of the benchmark with a short string, in order and reversed: the strings match and
    both connections end. *)
Definition text : bytes := map (fun i => byte_of_Z (Z.of_nat i mod 251)) (seq 0 2500).
Definition ends_well (r : option (result Bench)) : bool :=
  match r with
  | Some (inr b) => bool_decide (string_received b = text) && negb (active (x b)) && negb (active (y b))
  | _ => false
  end.

Lemma benchmark_in_order : ends_well (main_loop 60 TCPConfig.default_config 4294967000 7 text false) = true.
Proof. vm_compute. reflexivity. Qed.
Lemma benchmark_reordered : ends_well (main_loop 60 TCPConfig.default_config 4294967000 7 text true) = true.
Proof. vm_compute. reflexivity. Qed.

Lemma benchmark_sends_witness :
  exists b', loop 2501 true (start TCPConfig.default_config 4294967000 7 text) = Some (ok b').
Proof.
  destruct (benchmark_sends TCPConfig.default_config 4294967000 7 text) with
    (fuel := 2501%nat) (reorder := true) (b := start TCPConfig.default_config 4294967000 7 text) as (_&Hn&_).
  - by repeat split.
  - by repeat split.
  - vm_compute. reflexivity.
  - apply looped_start.
  - unfold text. rewrite length_map, length_seq. lia.
  - exact Hn.
Defined.

End BenchmarkTheorems.
