(* ===== verification/Printing.v ===== *)
(** * The textual forms of the headers
    (to_string and summary of libsponge/tcp_helpers/ethernet_header.cc, arp_message.cc,
    tcp_header.cc, ipv4_header.cc; operator<< of wrapping_integers.hh) *)
From S2P Require Import Prelude Wrapping Buffers Parser TcpSegment Ipv4 Ethernet Addresses.

(** Numbers on a stream in [hex] mode; sixteen digits hold every 64-bit number. *)
Definition hex_digit (n : Z) : byte := byte_of_Z (if n <? 10 then 48 + n else 87 + n).
Fixpoint hex_digits (fuel : nat) (n : Z) : bytes :=
  match fuel with
  | O => []
  | S fuel => if n <? 16 then [hex_digit n] else hex_digits fuel (n / 16) ++ [hex_digit (n mod 16)]
  end.
Definition to_hex (n : Z) : bytes := hex_digits 16 n.

(** [width] and [setfill('0')]. *)
Definition pad (width : nat) (s : bytes) : bytes := replicate (width - length s) x30 ++ s.

(** [boolalpha] *)
Definition to_bool (b : bool) : bytes := bytes_of_string (if b then "true" else "false").

(** [operator<<] of a [WrappingInt32] on a decimal stream and on a [hex] one. *)
Definition wrapping_dec (n : WrappingInt32) : bytes := to_string (raw_value n).
Definition wrapping_hex (n : WrappingInt32) : bytes := to_hex (raw_value n).

Definition newline : bytes := [x0a].

Fixpoint ethernet_address_to_string (address : EthernetAddress) : bytes :=
  match address with
  | [] => []
  | [x] => pad 2 (to_hex x)
  | x :: address => pad 2 (to_hex x) ++ [x3a] ++ ethernet_address_to_string address
  end.

Definition ethernet_header_to_string (h : EthernetHeader.EthernetHeader) : bytes :=
  bytes_of_string "dst=" ++ ethernet_address_to_string (EthernetHeader.dst h) ++
  bytes_of_string ", src=" ++ ethernet_address_to_string (EthernetHeader.src h) ++
  bytes_of_string ", type=" ++
  (if EthernetHeader.type h =? EthernetHeader.TYPE_IPv4 then bytes_of_string "IPv4"
   else if EthernetHeader.type h =? EthernetHeader.TYPE_ARP then bytes_of_string "ARP"
   else bytes_of_string "[unknown type " ++ to_hex (EthernetHeader.type h) ++ bytes_of_string "!]").

(** The lines "name: value" of the TCP and IPv4 forms. *)
Definition line (name : string) (value : bytes) : bytes := bytes_of_string name ++ value ++ newline.

Definition tcp_header_to_string (h : TCPHeader.TCPHeader) : bytes :=
  line "TCP source port: " (to_hex (TCPHeader.sport h)) ++
  line "TCP dest port: " (to_hex (TCPHeader.dport h)) ++
  line "TCP seqno: " (wrapping_hex (TCPHeader.seqno h)) ++
  line "TCP ackno: " (wrapping_hex (TCPHeader.ackno h)) ++
  line "TCP doff: " (to_hex (TCPHeader.doff h)) ++
  bytes_of_string "Flags: urg: " ++ to_bool (TCPHeader.urg h) ++
  bytes_of_string " ack: " ++ to_bool (TCPHeader.ack h) ++
  bytes_of_string " psh: " ++ to_bool (TCPHeader.psh h) ++
  bytes_of_string " rst: " ++ to_bool (TCPHeader.rst h) ++
  bytes_of_string " syn: " ++ to_bool (TCPHeader.syn h) ++
  line " fin: " (to_bool (TCPHeader.fin h)) ++
  line "TCP winsize: " (to_hex (TCPHeader.win h)) ++
  line "TCP cksum: " (to_hex (TCPHeader.cksum h)) ++
  line "TCP uptr: " (to_hex (TCPHeader.uptr h)).

Definition flag (b : bool) (letter : string) : bytes := if b then bytes_of_string letter else [].
Definition tcp_header_summary (h : TCPHeader.TCPHeader) : bytes :=
  bytes_of_string "Header(flags=" ++ flag (TCPHeader.syn h) "S" ++ flag (TCPHeader.ack h) "A" ++
  flag (TCPHeader.rst h) "R" ++ flag (TCPHeader.fin h) "F" ++
  bytes_of_string ",seqno=" ++ wrapping_dec (TCPHeader.seqno h) ++
  bytes_of_string ",ack=" ++ wrapping_dec (TCPHeader.ackno h) ++
  bytes_of_string ",win=" ++ to_string (TCPHeader.win h) ++ bytes_of_string ")".

Definition ipv4_header_to_string (h : IPv4Header.IPv4Header) : bytes :=
  line "IP version: " (to_hex (IPv4Header.ver h)) ++
  line "IP hdr len: " (to_hex (IPv4Header.hlen h)) ++
  line "IP tos: " (to_hex (IPv4Header.tos h)) ++
  line "IP dgram len: " (to_hex (IPv4Header.len h)) ++
  line "IP id: " (to_hex (IPv4Header.id h)) ++
  bytes_of_string "Flags: df: " ++ to_bool (IPv4Header.df h) ++
  line " mf: " (to_bool (IPv4Header.mf h)) ++
  line "Offset: " (to_hex (IPv4Header.offset h)) ++
  line "TTL: " (to_hex (IPv4Header.ttl h)) ++
  line "Protocol: " (to_hex (IPv4Header.proto h)) ++
  line "Checksum: " (to_hex (IPv4Header.cksum h)) ++
  line "Src addr: " (to_hex (IPv4Header.src h)) ++
  line "Dst addr: " (to_hex (IPv4Header.dst h)).

Section Names.
Context `{Resolver}.

Definition ipv4_header_summary (h : IPv4Header.IPv4Header) : bytes :=
  bytes_of_string "IPv" ++ to_hex (IPv4Header.ver h) ++ bytes_of_string ", " ++
  bytes_of_string "len=" ++ to_hex (IPv4Header.len h) ++ bytes_of_string ", " ++
  bytes_of_string "protocol=" ++ to_hex (IPv4Header.proto h) ++ bytes_of_string ", " ++
  (if 10 <=? IPv4Header.ttl h then []
   else bytes_of_string "ttl=" ++ to_string (IPv4Header.ttl h) ++ bytes_of_string ", ") ++
  bytes_of_string "src=" ++ inet_ntoa (IPv4Header.src h) ++ bytes_of_string ", " ++
  bytes_of_string "dst=" ++ inet_ntoa (IPv4Header.dst h).

Definition arp_to_string (m : ARPMessage.ARPMessage) : bytes :=
  bytes_of_string "opcode=" ++
  (if ARPMessage.opcode m =? ARPMessage.OPCODE_REPLY then bytes_of_string "REPLY"
   else if ARPMessage.opcode m =? ARPMessage.OPCODE_REQUEST then bytes_of_string "REQUEST"
   else bytes_of_string "(unknown type)") ++
  bytes_of_string ", sender=" ++ ethernet_address_to_string (ARPMessage.sender_ethernet_address m) ++
  bytes_of_string "/" ++ inet_ntoa (ARPMessage.sender_ip_address m) ++
  bytes_of_string ", target=" ++ ethernet_address_to_string (ARPMessage.target_ethernet_address m) ++
  bytes_of_string "/" ++ inet_ntoa (ARPMessage.target_ip_address m).

End Names.

(** ** An address is determined by its text *)
Definition hex_value (c : byte) : Z :=
  let v := byte_to_Z c in if v <? 58 then v - 48 else v - 87.

(** The number that hexadecimal digits stand for, after [acc]. *)
Definition hex_number (acc : Z) (s : bytes) : Z := fold_left (fun acc c => 16 * acc + hex_value c) s acc.

Lemma hex_value_digit n : 0 <= n < 16 -> hex_value (hex_digit n) = n.
Proof.
  intros Hn. unfold hex_value, hex_digit. rewrite byte_to_of_Z.
  destruct (Z.ltb_spec n 10); rewrite u8_small by lia; match goal with |- context [?x <? 58] => destruct (Z.ltb_spec x 58) end; lia.
Qed.

Lemma hex_digits_value fuel n : (0 < fuel)%nat -> 0 <= n < 16 ^ Z.of_nat fuel -> hex_number 0 (hex_digits fuel n) = n.
Proof.
  revert n. induction fuel as [|fuel IH]; intros n Hf Hn; [lia|]. cbn [hex_digits].
  destruct (Z.ltb_spec n 16) as [Hlt|Hge]; [cbn; rewrite hex_value_digit; lia|].
  rewrite Nat2Z.inj_succ, Z.pow_succ_r in Hn by lia. unfold hex_number. rewrite fold_left_app. fold (hex_number 0 (hex_digits fuel (n / 16))).
  rewrite IH.
  - cbn. rewrite hex_value_digit; Z.div_mod_to_equations; lia.
  - destruct fuel; [simpl in Hn|]; lia.
  - split; [apply Z.div_pos; lia|apply Z.div_lt_upper_bound; lia].
Qed.

(** A 64-bit number on a [hex] stream can be read back. *)
Lemma to_hex_value n : 0 <= n < 2 ^ 64 -> hex_number 0 (to_hex n) = n.
Proof. intros Hn. apply hex_digits_value; [lia|]. simpl. lia. Qed.

(** Reads pairs of digits, skipping the separator after each. *)
Fixpoint read_address (s : bytes) : EthernetAddress :=
  match s with
  | a :: b :: s =>
      (16 * hex_value a + hex_value b) :: match s with _ :: s => read_address s | [] => [] end
  | _ => []
  end.

Lemma pad_hex_byte x :
  0 <= x < 2 ^ 8 ->
  exists a b, pad 2 (to_hex x) = [a; b] /\ 16 * hex_value a + hex_value b = x.
Proof.
  intros Hx.
  assert (forallb (fun n => match pad 2 (to_hex (Z.of_nat n)) with
    | [a; b] => 16 * hex_value a + hex_value b =? Z.of_nat n
    | _ => false
    end) (seq 0 256) = true) as H by (vm_compute; reflexivity).
  rewrite forallb_forall in H. specialize (H (Z.to_nat x)). rewrite Z2Nat.id in H by lia.
  destruct (pad 2 (to_hex x)) as [|a [|b [|]]]; try (discriminate H; apply in_seq; lia).
  exists a, b. split; [done|]. apply Z.eqb_eq, H, in_seq. lia.
Qed.

(** Reading the text of an address gives the address back. *)
Lemma ethernet_address_roundtrip a :
  Forall (fun x => 0 <= x < 2 ^ 8) a -> read_address (ethernet_address_to_string a) = a.
Proof.
  induction 1 as [|x a Hx Ha IH]; [done|].
  destruct (pad_hex_byte x Hx) as (c&d&E&Hv). destruct a as [|y a].
  - cbn [ethernet_address_to_string]. rewrite E. simpl. by rewrite Hv.
  - change (ethernet_address_to_string (x :: y :: a)) with
      (pad 2 (to_hex x) ++ [x3a] ++ ethernet_address_to_string (y :: a)).
    rewrite E. cbn [app read_address]. by rewrite Hv, IH.
Qed.
