(* ===== verification/Simulator.v ===== *)
(** * The network simulator (apps/network_simulator.cc)

    Hosts and a router joined by links, the traffic sent through them and the check of
    what arrives. The random engine is the parameter [rd], its draws in order; the state
    counts the draws. What is printed on the way is not modelled, except that the calls
    that prepare it may throw. *)
From S2P Require Import Prelude Buffers Parser Ipv4 Ethernet Addresses Interface Router Printing.

(** [frame.header()] and what is in the frame, for the log. *)
Section Summary.
Context `{Resolver}.

Definition payload_text (payload : BufferList.BufferList) : bytes :=
  bytes_of_string " payload=" ++ [x22] ++ BufferList.concatenate payload ++ [x22].

Definition summary (frame : EthernetFrame.EthernetFrame) : result bytes :=
  let ret := ethernet_header_to_string (EthernetFrame.header frame) in
  let type := EthernetHeader.type (EthernetFrame.header frame) in
  if type =? EthernetHeader.TYPE_IPv4 then
    let! b := BufferList.to_buffer (EthernetFrame.payload frame) in
    let! (dgram, r) := IPv4Datagram.parse b IPv4Datagram.default_datagram in
    ok (ret ++
        if bool_decide (r = NoError)
        then bytes_of_string " " ++ ipv4_header_summary (IPv4Datagram.header dgram) ++
             payload_text (IPv4Datagram.payload dgram)
        else bytes_of_string " (bad IPv4)")
  else if type =? EthernetHeader.TYPE_ARP then
    let! b := BufferList.to_buffer (EthernetFrame.payload frame) in
    let! (arp, r) := ARPMessage.parse b ARPMessage.default_message in
    ok (ret ++
        if bool_decide (r = NoError) then bytes_of_string " " ++ arp_to_string arp
        else bytes_of_string " (bad ARP)")
  else ok ret.

End Summary.

Module Host.
Import AsyncNetworkInterface.

Record Host := mkHost {
  _name : string;
  _my_address : Address.Address;
  _interface : AsyncNetworkInterface;
  _next_hop : Address.Address;
  _expecting_to_receive : list IPv4Datagram.IPv4Datagram
}.
#[global] Instance eta_Host : Eta Host := fun h =>
  mkHost (_name h) (_my_address h) (_interface h) (_next_hop h) (_expecting_to_receive h).

(** [x.serialize().concatenate()] *)
Definition wire (x : IPv4Datagram.IPv4Datagram) : result bytes :=
  let! l := IPv4Datagram.serialize x in ok (BufferList.concatenate l).

Fixpoint expecting (expected : IPv4Datagram.IPv4Datagram) (l : list IPv4Datagram.IPv4Datagram)
    : result bool :=
  match l with
  | [] => ok false
  | x :: l =>
      let! a := wire x in
      let! b := wire expected in
      if bool_decide (a = b) then ok true else expecting expected l
  end.

Fixpoint remove_expectation (expected : IPv4Datagram.IPv4Datagram)
    (l : list IPv4Datagram.IPv4Datagram) : result (list IPv4Datagram.IPv4Datagram) :=
  match l with
  | [] => ok []
  | x :: l =>
      let! a := wire x in
      let! b := wire expected in
      if bool_decide (a = b) then ok l
      else let! l := remove_expectation expected l in ok (x :: l)
  end.

Definition make (name : string) (mac : EthernetAddress) (my_address next_hop : Address.Address) : Host :=
  mkHost name my_address (of_interface (NetworkInterface.make mac my_address)) next_hop [].

Definition address (h : Host) : Address.Address := _my_address h.
Definition expect (expected : IPv4Datagram.IPv4Datagram) (h : Host) : Host :=
  h <| _expecting_to_receive ::= fun l => l ++ [expected] |>.

Section Send.
Context `{Resolver}.

(** [send_to], given the number drawn for the payload. *)
Definition send_to (random : Z) (destination : Address.Address) (ttl : Z) (h : Host)
    : result (IPv4Datagram.IPv4Datagram * Host) :=
  let! src := Address.ipv4_numeric (_my_address h) in
  let! dst := Address.ipv4_numeric destination in
  let payload := BufferList.of_string
    (bytes_of_string "random payload: {" ++ to_string random ++ bytes_of_string "}") in
  let header := IPv4Header.default_header <| IPv4Header.src := src |> <| IPv4Header.dst := dst |> in
  let dgram := IPv4Datagram.mkIPv4Datagram
    (header <| IPv4Header.len := u16 (IPv4Header.hlen header * 4 + BufferList.size payload) |>
            <| IPv4Header.ttl := ttl |>) payload in
  let! n := NetworkInterface.send_datagram dgram (_next_hop h) (base (_interface h)) in
  let! _ := Address.ip (_next_hop h) in
  ok (dgram, h <| _interface ::= fun a => a <| base := n |> |>).

(** What [check] reports. *)
Definition complaint (h : Host) (text : string) (d : IPv4Datagram.IPv4Datagram) : exception :=
  runtime_error ("Host " +:+ _name h +:+ text +:+
    String.string_of_list_byte (ipv4_header_summary (IPv4Datagram.header d) ++
                                payload_text (IPv4Datagram.payload d))).

(** The [while] loop of [check], over the queue it empties. *)
Fixpoint check_received (received : list IPv4Datagram.IPv4Datagram) (h : Host) : result Host :=
  match received with
  | [] => ok h
  | dgram_received :: received =>
      let! expected := expecting dgram_received (_expecting_to_receive h) in
      if negb expected then throw (complaint h " received unexpected Internet datagram: " dgram_received)
      else
        let! l := remove_expectation dgram_received (_expecting_to_receive h) in
        check_received received (h <| _expecting_to_receive := l |>
                                   <| _interface ::= fun a => a <| _datagrams_out ::= tail |> |>)
  end.
Definition check (h : Host) : result Host :=
  let! h := check_received (datagrams_out (_interface h)) h in
  match _expecting_to_receive h with
  | [] => ok h
  | expected :: _ => throw (complaint h " did NOT receive an expected Internet datagram: " expected)
  end.

End Send.
End Host.

Module Network.
Import AsyncNetworkInterface.

(** [clear]: pops both queues until the first is empty. *)
Fixpoint clear {T} (queue1 queue2 : list T) : list T :=
  match queue1 with
  | [] => queue2
  | _ :: queue1 => clear queue1 (tail queue2)
  end.
Definition clear_frames (frames : list EthernetFrame.EthernetFrame) (x : AsyncNetworkInterface)
    : AsyncNetworkInterface :=
  x <| base ::= fun n => n <| NetworkInterface._frames_out ::= clear frames |> |>.
Definition frames_out (x : AsyncNetworkInterface) : list EthernetFrame.EthernetFrame :=
  NetworkInterface.frames_out (base x).

Section Exchange.
Context `{Resolver}.

(** The frame with its payload in one buffer. *)
Definition flatten (f : EthernetFrame.EthernetFrame) : EthernetFrame.EthernetFrame :=
  f <| EthernetFrame._payload ::= fun p => BufferList.of_string (BufferList.concatenate p) |>.

Fixpoint deliver (src : list EthernetFrame.EthernetFrame) (dst : AsyncNetworkInterface)
    : result AsyncNetworkInterface :=
  match src with
  | [] => ok dst
  | f :: src =>
      let f := flatten f in
      let! _ := summary f in
      let! dst := recv_frame f dst in
      deliver src dst
  end.

(** [exchange_frames] on a link with two ends, and with three. *)
Definition exchange_frames (x y : AsyncNetworkInterface)
    : result (AsyncNetworkInterface * AsyncNetworkInterface) :=
  let x_frames := frames_out x in
  let y_frames := frames_out y in
  let! y := deliver x_frames y in
  let! x := deliver y_frames x in
  ok (clear_frames x_frames x, clear_frames y_frames y).
Definition exchange_frames3 (x y z : AsyncNetworkInterface)
    : result (AsyncNetworkInterface * AsyncNetworkInterface * AsyncNetworkInterface) :=
  let x_frames := frames_out x in
  let y_frames := frames_out y in
  let z_frames := frames_out z in
  let! y := deliver x_frames y in
  let! z := deliver x_frames z in
  let! x := deliver y_frames x in
  let! z := deliver y_frames z in
  let! x := deliver z_frames x in
  let! y := deliver z_frames y in
  ok (clear_frames x_frames x, clear_frames y_frames y, clear_frames z_frames z).

End Exchange.

(** The hosts are in an [unordered_map]; the order of its iteration, which decides only
    whose complaint comes first, is that of [_hosts]. [draws] counts the numbers drawn. *)
Record Network := mkNetwork {
  _router : Router.Router;
  default_id : Z;
  eth0_id : Z;
  eth1_id : Z;
  eth2_id : Z;
  uun3_id : Z;
  hs4_id : Z;
  mit5_id : Z;
  _hosts : list (string * Host.Host);
  draws : nat
}.
#[global] Instance eta_Network : Eta Network := fun w =>
  mkNetwork (_router w) (default_id w) (eth0_id w) (eth1_id w) (eth2_id w) (uun3_id w) (hs4_id w)
    (mit5_id w) (_hosts w) (draws w).

Fixpoint find (name : string) (l : list (string * Host.Host)) : option Host.Host :=
  match l with
  | [] => None
  | (n, h) :: l => if bool_decide (n = name) then Some h else find name l
  end.
Definition host (name : string) (w : Network) : result Host.Host :=
  match find name (_hosts w) with
  | None => throw (runtime_error ("unknown host: " +:+ name))
  | Some h => if negb (bool_decide (Host._name h = name))
              then throw (runtime_error ("invalid host: " +:+ name)) else ok h
  end.

(** A change of the host that [host(name)] refers to, and of an interface of the router. *)
Definition set_host (name : string) (h : Host.Host) (w : Network) : Network :=
  w <| _hosts ::= map (fun e => if bool_decide (e.1 = name) then (name, h) else e) |>.
Definition set_interface (id : Z) (a : AsyncNetworkInterface) (w : Network) : Network :=
  w <| _router ::= fun r => r <| Router._interfaces ::= insert (Z.to_nat id) a |> |>.

Section Network.
Context `{Resolver} (shr32 : Z -> Z) (rd : nat -> Z).

Definition ip (str : bytes) : result Z :=
  let! a := Address.of_ip_port str 0 in Address.ipv4_numeric a.

(** Six numbers drawn from the generator. *)
Definition draw6 (n : nat) : list Z := map (fun i => u8 (rd (n + i)%nat)) (seq 0 6).
Definition random_host_ethernet_address (n : nat) : EthernetAddress :=
  match draw6 n with
  | b :: rest => Z.land (Z.lor b 2) 254 :: rest
  | [] => []
  end.
Definition random_router_ethernet_address (n : nat) : EthernetAddress :=
  match draw6 n with
  | _ :: _ :: _ :: rest => 2 :: 0 :: 0 :: rest
  | _ => []
  end.

(** An interface of the router, a host and a route of the constructor. *)
Definition new_interface (str : string) (r : Router.Router * nat) : result (Z * (Router.Router * nat)) :=
  let (r, n) := r in
  let! a := Address.of_ip_port (bytes_of_string str) 0 in
  let (r, id) := Router.add_interface
    (of_interface (NetworkInterface.make (random_router_ethernet_address n) a)) r in
  ok (id, (r, n + 6)%nat).
Definition new_host (name my_address next_hop : string) (w : list (string * Host.Host) * nat)
    : result (list (string * Host.Host) * nat) :=
  let (hosts, n) := w in
  let! a := Address.of_ip_port (bytes_of_string my_address) 0 in
  let! b := Address.of_ip_port (bytes_of_string next_hop) 0 in
  ok (hosts ++ [(name, Host.make name (random_host_ethernet_address n) a b)], (n + 6)%nat).
Definition new_route (prefix : string) (len : Z) (next_hop : option Address.Address) (id : Z)
    (w : Network) : result Network :=
  let! p := ip (bytes_of_string prefix) in
  let! r := Router.add_route p len next_hop id (_router w) in
  ok (w <| _router := r |>).
Definition host_address (name : string) (w : Network) : result (option Address.Address) :=
  let! h := host name w in ok (Some (Host.address h)).

(** The constructor. *)
Definition make : result Network :=
  let! (default_id, r) := new_interface "171.67.76.46" (Router.make, 0%nat) in
  let! (eth0_id, r) := new_interface "10.0.0.1" r in
  let! (eth1_id, r) := new_interface "172.16.0.1" r in
  let! (eth2_id, r) := new_interface "192.168.0.1" r in
  let! (uun3_id, r) := new_interface "198.178.229.1" r in
  let! (hs4_id, r) := new_interface "143.195.0.2" r in
  let! (mit5_id, r) := new_interface "128.30.76.255" r in
  let! h := new_host "applesauce" "10.0.0.2" "10.0.0.1" ([], r.2) in
  let! h := new_host "default_router" "171.67.76.1" "0" h in
  let! h := new_host "cherrypie" "192.168.0.2" "192.168.0.1" h in
  let! h := new_host "hs_router" "143.195.0.1" "0" h in
  let! h := new_host "dm42" "198.178.229.42" "198.178.229.1" h in
  let! h := new_host "dm43" "198.178.229.43" "198.178.229.1" h in
  let w := mkNetwork r.1 default_id eth0_id eth1_id eth2_id uun3_id hs4_id mit5_id h.1 h.2 in
  let! a := host_address "default_router" w in
  let! w := new_route "0.0.0.0" 0 a default_id w in
  let! w := new_route "10.0.0.0" 8 None eth0_id w in
  let! w := new_route "172.16.0.0" 16 None eth1_id w in
  let! w := new_route "192.168.0.0" 24 None eth2_id w in
  let! w := new_route "198.178.229.0" 24 None uun3_id w in
  let! a := host_address "hs_router" w in
  let! w := new_route "143.195.0.0" 17 a hs4_id w in
  let! w := new_route "143.195.128.0" 18 a hs4_id w in
  let! w := new_route "143.195.192.0" 19 a hs4_id w in
  let! a := Address.of_ip_port (bytes_of_string "128.30.0.1") 0 in
  new_route "128.30.76.255" 16 (Some a) mit5_id w.

(** A link between an interface of the router and one or two hosts. *)
Definition link (id : Z) (name : string) (w : Network) : result Network :=
  let! x := Router.interface id (_router w) in
  let! h := host name w in
  let! (x, y) := exchange_frames x (Host._interface h) in
  ok (set_host name (h <| Host._interface := y |>) (set_interface id x w)).
Definition link3 (id : Z) (name1 name2 : string) (w : Network) : result Network :=
  let! x := Router.interface id (_router w) in
  let! h1 := host name1 w in
  let! h2 := host name2 w in
  let! (x, y, z) := exchange_frames3 x (Host._interface h1) (Host._interface h2) in
  ok (set_host name2 (h2 <| Host._interface := z |>)
       (set_host name1 (h1 <| Host._interface := y |>) (set_interface id x w))).
Definition simulate_physical_connections (w : Network) : result Network :=
  let! w := link (default_id w) "default_router" w in
  let! w := link (eth0_id w) "applesauce" w in
  let! w := link (eth2_id w) "cherrypie" w in
  let! w := link (hs4_id w) "hs_router" w in
  link3 (uun3_id w) "dm42" "dm43" w.

Fixpoint simulate_rounds (rounds : nat) (w : Network) : option (result Network) :=
  match rounds with
  | O => Some (ok w)
  | S rounds =>
      let? r := Router.route shr32 (_router w) in
      let? w := Some (simulate_physical_connections (w <| _router := r |>)) in
      simulate_rounds rounds w
  end.
Fixpoint check_hosts (l : list (string * Host.Host)) : result (list (string * Host.Host)) :=
  match l with
  | [] => ok []
  | (name, h) :: l =>
      let! h := Host.check h in
      let! l := check_hosts l in
      ok ((name, h) :: l)
  end.
Definition simulate (w : Network) : option (result Network) :=
  let? w := simulate_rounds 256 w in
  let? l := Some (check_hosts (_hosts w)) in
  Some (ok (w <| _hosts := l |>)).

(** [host(from).send_to(destination, ttl)] *)
Definition send (from : string) (destination : Address.Address) (ttl : Z) (w : Network)
    : result (IPv4Datagram.IPv4Datagram * Network) :=
  let! h := host from w in
  let! (dgram, h) := Host.send_to (rd (draws w)) destination ttl h in
  ok (dgram, set_host from h (w <| draws ::= S |>)).
Definition expect_at (name : string) (dgram : IPv4Datagram.IPv4Datagram) (w : Network) : result Network :=
  let! h := host name w in ok (set_host name (Host.expect dgram h) w).
Definition one_less (dgram : IPv4Datagram.IPv4Datagram) : IPv4Datagram.IPv4Datagram :=
  dgram <| IPv4Datagram._header ::= fun h => h <| IPv4Header.ttl ::= fun t => u8 (t - 1) |> |>.

(** A datagram from [from] that is to arrive, one hop older, at [to]; and one that is not
    to arrive. *)
Definition transfer (from : string) (destination : Address.Address) (to : string) (w : Network)
    : option (result Network) :=
  let? (dgram, w) := Some (send from destination 64 w) in
  let? w := Some (expect_at to (one_less dgram) w) in
  simulate w.
Definition transfer_to_host (from to : string) (w : Network) : option (result Network) :=
  let? h := Some (host to w) in transfer from (Host.address h) to w.
Definition transfer_to (from : string) (destination : string) (to : string) (w : Network)
    : option (result Network) :=
  let? a := Some (Address.of_ip_port (bytes_of_string destination) 0) in transfer from a to w.
Definition lose (from : string) (destination : string) (ttl : Z) (w : Network) : option (result Network) :=
  let? a := Some (Address.of_ip_port (bytes_of_string destination) 0) in
  let? (_, w) := Some (send from a ttl w) in
  simulate w.

Definition network_simulator : option (result Network) :=
  let? w := Some make in
  let? w := transfer_to_host "applesauce" "cherrypie" w in
  let? w := transfer_to_host "cherrypie" "applesauce" w in
  let? w := transfer_to "applesauce" "1.2.3.4" "default_router" w in
  let? w := transfer_to "applesauce" "143.195.131.17" "hs_router" w in
  let? w := transfer_to "cherrypie" "143.195.193.52" "hs_router" w in
  let? w := transfer_to "cherrypie" "143.195.223.255" "hs_router" w in
  let? w := transfer_to "cherrypie" "143.195.224.0" "default_router" w in
  let? w := transfer_to_host "dm42" "dm43" w in
  let? w := lose "applesauce" "1.2.3.4" 1 w in
  lose "applesauce" "1.2.3.4" 0 w.

End Network.
End Network.

(** ** Theorems *)
Module SimulatorTheorems.
Import AsyncNetworkInterface Network InterfaceQueue RouterQueue.

(** *** Links *)

Section Exchange.
Context `{Resolver}.

Lemma deliver_ahead q src x : deliver src (ahead_of q x) = behind (ahead_of q) (deliver src x).
Proof.
  revert x. induction src as [|f src IH]; intros x; cbn [deliver]; [done|].
  destruct (summary _) as [e|t]; [done|]. cbn [bindR]. rewrite async_recv_ahead. by apply behind_bind.
Qed.

(** An interface whose frames have been taken. *)
Definition emptied (x : AsyncNetworkInterface) : AsyncNetworkInterface :=
  x <| base ::= fun n => n <| NetworkInterface._frames_out := [] |> |>.

Lemma ahead_emptied x : x = ahead_of (frames_out x) (emptied x).
Proof.
  destruct x as [[] l]. unfold ahead_of, emptied, ahead, frames_out, NetworkInterface.frames_out. cbn. by rewrite app_nil_r.
Qed.

Lemma clear_app {T} (q l : list T) : clear q (q ++ l) = l.
Proof. induction q as [|a q IH]; [done|]. apply IH. Qed.
Lemma clear_ahead q x : clear_frames q (ahead_of q x) = x.
Proof. destruct x as [[] l]. unfold clear_frames, ahead_of, ahead. cbn. by rewrite clear_app. Qed.

Lemma deliver_emptied src x :
  (let! x' := deliver src x in ok (clear_frames (frames_out x) x')) = deliver src (emptied x).
Proof.
  rewrite (ahead_emptied x) at 1. rewrite deliver_ahead.
  replace (frames_out x) with (frames_out (ahead_of (frames_out x) (emptied x))) by (by rewrite <- ahead_emptied).
  rewrite <- (ahead_emptied x). destruct (deliver src (emptied x)) as [e|y]; [done|]. cbn. by rewrite clear_ahead.
Qed.

(** A link exchanges frames: each end receives, in order, exactly the frames the other
    had queued before, and what is queued after are the frames either sent in answer.
    Copying the queues, delivering, and popping what was copied is the same as taking the
    frames out first. *)
Theorem exchange_swaps x y :
  exchange_frames x y =
  (let! y' := deliver (frames_out x) (emptied y) in
   let! x' := deliver (frames_out y) (emptied x) in
   ok (x', y')).
Proof.
  unfold exchange_frames. cbv zeta. rewrite <- !deliver_emptied.
  destruct (deliver (frames_out x) y) as [e|y']; [done|]. cbn [bindR].
  by destruct (deliver (frames_out y) x) as [e|x'].
Qed.

End Exchange.

(** *** Checking *)
Section Check.
Context `{Resolver}.
Import Host.

(** [serializes l ws]: the datagrams [l] serialize to [ws]. *)
Abbreviation serializes := (Forall2 (fun d w => wire d = ok w)).

Lemma expecting_eq d w l ws :
  wire d = ok w -> serializes l ws -> expecting d l = ok (bool_decide (w ∈ ws)).
Proof.
  intros Hd. induction 1 as [|x v l ws Hx Hl IH]; cbn [expecting].
  - by rewrite bool_decide_eq_false_2 by apply not_elem_of_nil.
  - rewrite Hx, Hd, !bindR_ok. destruct (decide (v = w)) as [->|Hn].
    + rewrite !bool_decide_eq_true_2; [done|by left|done].
    + rewrite bool_decide_eq_false_2, IH by done. f_equal. apply bool_decide_ext. rewrite elem_of_cons. split; [by right|]. by intros [->|].
Qed.

Lemma remove_expectation_eq d w l ws :
  wire d = ok w -> serializes l ws -> w ∈ ws ->
  exists l' ws', remove_expectation d l = ok l' /\ serializes l' ws' /\ ws ≡ₚ w :: ws'.
Proof.
  intros Hd. induction 1 as [|x v l ws Hx Hl IH]; intros Hin; cbn [remove_expectation]; [by apply not_elem_of_nil in Hin|].
  rewrite Hx, Hd, !bindR_ok. destruct (decide (v = w)) as [->|Hn].
  - rewrite bool_decide_eq_true_2 by done. by exists l, ws.
  - rewrite bool_decide_eq_false_2 by done. apply elem_of_cons in Hin as [->|Hin]; [done|]. destruct (IH Hin) as (l'&ws'&->&Hl'&Hp).
    exists (x :: l'), (v :: ws'). split; [done|]. split; [by constructor|]. rewrite Hp. apply perm_swap.
Qed.

Lemma check_received_ok received rs h es :
  serializes received rs -> serializes (_expecting_to_receive h) es ->
  datagrams_out (_interface h) = received ->
  match check_received received h with
  | inr h' => exists es', serializes (_expecting_to_receive h') es' /\ es ≡ₚ rs ++ es' /\
      datagrams_out (_interface h') = []
  | inl _ => ~ exists es', es ≡ₚ rs ++ es'
  end.
Proof.
  intros Hr. revert h es. induction Hr as [|d w received rs Hd Hr IH]; intros h es He Hq; cbn [check_received].
  - by exists es.
  - rewrite (expecting_eq _ _ _ _ Hd He), bindR_ok. destruct (decide (w ∈ es)) as [Hin|Hin].
    2: { rewrite bool_decide_eq_false_2 by done. cbn. intros (es'&Hp). apply Hin. rewrite Hp. by left. }
    rewrite bool_decide_eq_true_2 by done. cbn [negb].
    destruct (remove_expectation_eq _ _ _ _ Hd He Hin) as (l'&ws'&->&Hl'&Hp). rewrite bindR_ok.
    match goal with |- context [check_received received ?h'] => set (h1 := h') end.
    assert (datagrams_out (_interface h1) = received) as Hq1 by (unfold h1, datagrams_out in *; cbn; by rewrite Hq).
    specialize (IH h1 ws' Hl' Hq1).
    destruct (check_received _ _) as [e|h'].
    + intros (es'&Hp'). apply IH. exists es'. rewrite Hp in Hp'. by apply Permutation_cons_inv in Hp'.
    + destruct IH as (es'&?&Hp'&?). exists es'. split; [done|]. split; [|done]. cbn. by rewrite Hp, Hp'.
Qed.

(** A host's check passes exactly when the datagrams it received are those it expected,
    in any order, each as often as expected, compared as they are on the wire; it leaves
    no datagram and no expectation. *)
Theorem check_compares h rs es :
  serializes (datagrams_out (_interface h)) rs -> serializes (_expecting_to_receive h) es ->
  (is_ok (check h) <-> rs ≡ₚ es) /\
  forall h', check h = ok h' -> datagrams_out (_interface h') = [] /\ _expecting_to_receive h' = [].
Proof.
  intros Hr He. pose proof (check_received_ok _ _ _ _ Hr He eq_refl) as O. unfold check.
  destruct (check_received _ h) as [e|h'].
  - split; [|done]. split; [by intros []|]. intros Hp. exfalso. apply O. exists []. by rewrite app_nil_r.
  - destruct O as (es'&He'&Hp&Hq). rewrite bindR_ok. inversion He' as [E1 E2|x v l ws Hx Hl E1 E2]; subst es'.
    + rewrite app_nil_r in Hp. split; [|by intros h2 [= <-]]. split; [done|by eexists].
    + split; [|done]. split; [by intros []|]. intros Hp'%Permutation_length. rewrite Hp, length_app in Hp'. cbn in Hp'. lia.
Qed.

End Check.

(** *** The result of the shift by 32 does not matter *)
Section Shift.
Context (f g : Z -> Z).

(** The last round gives 0 whatever the shifts are. *)
Lemma match_loop_shift fuel i d p :
  i = 33 - Z.of_nat fuel -> Router.match_loop f fuel i d p = Router.match_loop g fuel i d p.
Proof.
  revert i. induction fuel as [|fuel IH]; intros i Hi; [done|]. cbn [Router.match_loop]. unfold Router.shr.
  destruct (Z.ltb_spec i 32); [rewrite (IH (i + 1)) by lia; done|].
  assert (i = 32) as -> by lia. assert (fuel = O) as -> by lia. cbn. by destruct (_ =? _), (_ =? _).
Qed.

Lemma match_len_shift d p : Router.match_len f d p = Router.match_len g d p.
Proof. unfold Router.match_len. apply match_loop_shift. reflexivity. Qed.

#[local] Opaque Router.match_len.

Lemma fold_left_same {A B} (h k : A -> B -> A) l a :
  (forall a b, h a b = k a b) -> fold_left h l a = fold_left k l a.
Proof. intros Hk. revert a. induction l as [|b l IH]; intros a; [done|]. simpl. by rewrite Hk. Qed.

Lemma best_match_shift d table : Router.best_match f d table = Router.best_match g d table.
Proof.
  unfold Router.best_match. apply (f_equal snd), fold_left_same. intros [m b] r. unfold Router.consider.
  rewrite (match_len_shift d (Router.route_prefix r)). reflexivity.
Qed.

Lemma route_one_shift d r : Router.route_one_datagram f d r = Router.route_one_datagram g d r.
Proof. unfold Router.route_one_datagram. rewrite best_match_shift. reflexivity. Qed.

Lemma drain_shift fuel i r : Router.drain f fuel i r = Router.drain g fuel i r.
Proof.
  revert r. induction fuel as [|fuel IH]; intros r; [done|]. cbn [Router.drain].
  destruct (_ !! i) as [a|]; [|done]. destruct (datagrams_out a) as [|d l]; [done|]. rewrite route_one_shift.
  destruct (Router.route_one_datagram g d r) as [[e|r']|]; [done|apply IH|done].
Qed.

Lemma route_shift r : Router.route f r = Router.route g r.
Proof.
  unfold Router.route. generalize (length (Router._interfaces r)) as count. intros count. generalize O as i. revert r.
  induction count as [|count IH]; intros r i; [done|]. cbn [Router.route_from]. rewrite drain_shift.
  destruct (Router.drain g _ i r) as [[e|r']|]; [done|apply IH|done].
Qed.

Context `{Resolver} (rd : nat -> Z).

Lemma bindO_ext {A B} (m : option (result A)) (h k : A -> option (result B)) :
  (forall a, h a = k a) -> bindO m h = bindO m k.
Proof. intros Hk. destruct m as [[e|a]|]; [done|apply Hk|done]. Qed.

Lemma simulate_shift w : simulate f w = simulate g w.
Proof.
  unfold simulate. assert (forall n w, simulate_rounds f n w = simulate_rounds g n w) as ->; [|done].
  intros n. induction n as [|n IH]; intros w'; [done|]. cbn [simulate_rounds]. rewrite route_shift.
  apply bindO_ext. intros r. by apply bindO_ext.
Qed.

Lemma transfer_shift from a to w : transfer f rd from a to w = transfer g rd from a to w.
Proof.
  unfold transfer. apply bindO_ext. intros [d w']. apply bindO_ext. intros w2. apply simulate_shift.
Qed.

Lemma simulator_shift : network_simulator f rd = network_simulator g rd.
Proof.
  assert (forall x y w, transfer_to_host f rd x y w = transfer_to_host g rd x y w) as E1
    by (intros; apply bindO_ext; intros; apply transfer_shift).
  assert (forall x y z w, transfer_to f rd x y z w = transfer_to g rd x y z w) as E2
    by (intros; apply bindO_ext; intros; apply transfer_shift).
  assert (forall x y t w, lose f rd x y t w = lose g rd x y t w) as E3.
  { intros. apply bindO_ext. intros a. apply bindO_ext. intros [d w']. apply simulate_shift. }
  unfold network_simulator. apply bindO_ext. intros w0.
  rewrite E1. apply bindO_ext. intros w1. rewrite E1. apply bindO_ext. intros w2.
  repeat (rewrite E2; apply bindO_ext; intros ?). rewrite E1. apply bindO_ext. intros w8.
  rewrite E3. apply bindO_ext. intros w9. apply E3.
Qed.

End Shift.

(** *** A run *)
Module Run.
Import NumericResolver.

#[local] Existing Instance short_resolver.

(** The numbers drawn. *)
Definition sequence (n : nat) : Z := Z.of_nat n * 7919 + 13.

Lemma run_succeeds :
  match network_simulator (fun x => x) sequence with
  | Some (inr w) => (draws w, map fst (_hosts w)) =
      (88%nat, ["applesauce"; "default_router"; "cherrypie"; "hs_router"; "dm42"; "dm43"]%string)
  | _ => False
  end.
Proof. vm_compute. reflexivity. Qed.

(** The simulator reports success: with the addresses and payloads drawn from
    [sequence], every datagram of the eight transfers arrives where the program expects it,
    nothing else arrives anywhere, and the two whose time to live runs out are dropped,
    whatever a shift by 32 gives. *)
Theorem simulator_succeeds shr32 : exists w, network_simulator shr32 sequence = Some (ok w) /\ draws w = 88%nat.
Proof.
  rewrite (simulator_shift shr32 (fun x => x)). pose proof run_succeeds as R. revert R.
  destruct (network_simulator _ _) as [[e|w]|]; [done| |done]. intros R. exists w. split; [done|].
  by injection R.
Qed.

Definition demo_host : Host.Host :=
  (Host.make "demo" [2; 0; 0; 0; 0; 1] (Address.from_ipv4_numeric 167772161) (Address.from_ipv4_numeric 167772162))
    <| Host._interface ::= fun a => a <| _datagrams_out := [Ipv4Theorems.demo_datagram] |> |>
    <| Host._expecting_to_receive := [Ipv4Theorems.demo_datagram] |>.

Lemma check_compares_witness : exists w, Host.wire Ipv4Theorems.demo_datagram = ok w /\ is_ok (Host.check demo_host).
Proof.
  eexists. split; [vm_compute; reflexivity|].
  eapply (check_compares demo_host); [| |reflexivity]; (constructor; [vm_compute; reflexivity|constructor]).
Defined.

End Run.
End SimulatorTheorems.
