(* ===== verification/Lab7.v ===== *)
(** * The lab 7 program (apps/lab7.cc)

    A client or server with a small network of its own: a TCP socket over a network
    interface, a router with an interface to this host and one to the Internet, and a
    thread that moves frames between the socket, the router and a UDP socket, behind which
    a bouncer leads to the other program. *)
From S2P Require Import Prelude Buffers Parser Ipv4 Ethernet TcpSegment Sender Addresses.
From S2P Require Import Interface Router Descriptor Adapters Socket EventLoop SpongeSocket.
From S2P Require Import SocketTheorems StreamCopy Printing.

Module Lab7.
Import FileDescriptor.

(** Addresses from six random numbers. *)
Definition random_host_ethernet_address (rd : list Z) : EthernetAddress := random_private_ethernet_address rd.
Definition random_router_ethernet_address (rd : list Z) : EthernetAddress :=
  match map u8 rd with
  | _ :: _ :: _ :: rest => 2 :: 0 :: 0 :: rest
  | l => l
  end.

(** What a frame holds, for the debug output. *)
Section Summary.
Context `{Resolver}.

Definition segment_summary (dgram : IPv4Datagram.IPv4Datagram) : result bytes :=
  let h := IPv4Datagram.header dgram in
  if IPv4Header.proto h =? IPv4Header.PROTO_TCP then
    let! (tcp_seg, r) := TCPSegment.parse (Buffer.make (BufferList.concatenate (IPv4Datagram.payload dgram)))
                           (IPv4Header.pseudo_cksum h) TCPSegment.default_segment in
    ok (if bool_decide (r = NoError)
        then bytes_of_string " " ++ tcp_header_summary (TCPSegment.header tcp_seg) else [])
  else ok [].

Definition summary (frame : EthernetFrame.EthernetFrame) : result bytes :=
  let ret := ethernet_header_to_string (EthernetFrame.header frame) in
  let type := EthernetHeader.type (EthernetFrame.header frame) in
  if type =? EthernetHeader.TYPE_IPv4 then
    let! (dgram, r) := IPv4Datagram.parse (Buffer.make (BufferList.concatenate (EthernetFrame.payload frame)))
                         IPv4Datagram.default_datagram in
    if bool_decide (r = NoError) then
      let! t := segment_summary dgram in
      ok (ret ++ bytes_of_string " " ++ ipv4_header_summary (IPv4Datagram.header dgram) ++ t)
    else ok (ret ++ bytes_of_string " (bad IPv4)")
  else if type =? EthernetHeader.TYPE_ARP then
    let! b := BufferList.to_buffer (EthernetFrame.payload frame) in
    let! (arp, r) := ARPMessage.parse b ARPMessage.default_message in
    ok (ret ++
        if bool_decide (r = NoError) then bytes_of_string " " ++ arp_to_string arp
        else bytes_of_string " (bad ARP)")
  else ok ret.

End Summary.

(** ** [NetworkInterfaceAdapter]

    Its members but for the pair of datagram sockets, and its functions, are those of
    [TCPOverIPv4OverEthernetAdapter], with a socket in place of the device. *)
Definition NetworkInterfaceAdapter : Type := TCPOverIPv4OverEthernetAdapter.

Section Adapter.
Context `{Resolver}.

Definition nia_send_pending (a : NetworkInterfaceAdapter) : NetworkInterfaceAdapter * list BufferList.BufferList :=
  send_pending a.
Definition nia_read (data : bytes) (a : NetworkInterfaceAdapter)
    : result (NetworkInterfaceAdapter * list BufferList.BufferList * option TCPSegment.TCPSegment) := eth_read data a.
Definition nia_write (seg : TCPSegment.TCPSegment) (a : NetworkInterfaceAdapter)
    : result (NetworkInterfaceAdapter * list BufferList.BufferList * TCPSegment.TCPSegment) := eth_write seg a.
Definition nia_tick (ms_since_last_tick : Z) (a : NetworkInterfaceAdapter)
    : NetworkInterfaceAdapter * list BufferList.BufferList := eth_tick ms_since_last_tick a.

#[export] Instance nia_adapter : Adapter NetworkInterfaceAdapter bytes BufferList.BufferList := {
  read := nia_read;
  write := nia_write;
  set_listening l a := a <| eth_base ::= FdAdapterBase.set_listening l |>;
  config a := FdAdapterBase.config (eth_base a);
  config_mut f a := a <| eth_base ::= FdAdapterBase.config_mut f |>;
  tick ms a := ok (nia_tick ms a)
}.

(** The constructor, and the two sockets: the adapter's own, and [frame_fd]. *)
Definition make_adapter {K : Type} `{SocketKernel K} (rd : list Z) (ip_address next_hop : Address.Address) (k : K)
    : result (NetworkInterfaceAdapter * FDWrapper * FDWrapper * K) :=
  let! c := default_config in
  let! (w0, w1, k) := LocalStreamSocket.socket_pair_helper SOCK_DGRAM k in
  ok (mkEthernetAdapter (FdAdapterBase.mkFdAdapterBase c false)
        (NetworkInterface.make (random_host_ethernet_address rd) ip_address) next_hop, w0, w1, k).

End Adapter.

(** ** [TCPSocketLab7] *)
Abbreviation Sponge K := (TCPSpongeSocket.TCPSpongeSocket NetworkInterfaceAdapter K).
Abbreviation Running K := (Z * list (EventLoop.Rule (Sponge K)) * Sponge K)%type.
Section Socket.
Context {K : Type} `{Resolver} `{Kernel K} `{SocketKernel K} `{Environment K}.

Record TCPSocketLab7 := mkTCPSocketLab7 {
  sponge : Sponge K;
  _local_address : Address.Address
}.
#[global] Instance eta_TCPSocketLab7 : Eta TCPSocketLab7 := fun s => mkTCPSocketLab7 (sponge s) (_local_address s).

(** The socket and the other end of its adapter. *)
Definition make_socket (rd : list Z) (ip_address next_hop : Address.Address) (k : K)
    : result (TCPSocketLab7 * FDWrapper) :=
  let! (a, w0, w1, k) := make_adapter rd ip_address next_hop k in
  let! s := TCPSpongeSocket.make a w0 k in
  ok (mkTCPSocketLab7 s ip_address, w1).

(** The local address and the configuration that [connect] uses, with a random port. *)
Definition connect_config (random_port : Z) (address : Address.Address) (s : TCPSocketLab7)
    : result (Address.Address * FdAdapterConfig) :=
  let! c := default_config in
  let! ip := Address.ip (_local_address s) in
  let! local := Address.of_ip_port ip (u16 random_port) in
  let! _ := Address.address_to_string local in
  ok (local, c <| source := local |> <| destination := address |>).
Definition connect (fuel : nat) (random random_port : Z) (address : Address.Address) (s : TCPSocketLab7)
    : option (result (Running K * TCPSocketLab7)) :=
  match connect_config random_port address s with
  | inl e => Some (throw e)
  | inr (local, c) =>
      fmap (fun r => bindR r (fun t : Running K => ok (t, mkTCPSocketLab7 t.2 local)))
        (TCPSpongeSocket.connect fuel random TCPConfig.default_config c (sponge s))
  end.

Definition bind (address : Address.Address) (s : TCPSocketLab7) : result TCPSocketLab7 :=
  let! ip := Address.ip address in
  let! local_ip := Address.ip (_local_address s) in
  if negb (bool_decide (ip = local_ip)) then
    let! _ := Address.address_to_string address in throw (runtime_error "Cannot bind to address")
  else
    let! port := Address.port address in
    let! local := Address.of_ip_port local_ip port in
    ok (s <| _local_address := local |>).

Definition listen_and_accept (fuel : nat) (random : Z) (s : TCPSocketLab7) : option (result (Running K * TCPSocketLab7)) :=
  match default_config with
  | inl e => Some (throw e)
  | inr c =>
      fmap (fun r => bindR r (fun t : Running K => ok (t, s <| sponge := t.2 |>)))
        (TCPSpongeSocket.listen_and_accept fuel random TCPConfig.default_config
           (c <| source := _local_address s |>) (sponge s))
  end.

End Socket.
Arguments TCPSocketLab7 : clear implicits.
(** ** The router *)
Section Network.
Context {K : Type} `{Resolver} `{Kernel K} `{SocketKernel K} `{Environment K} (shr32 : Z -> Z).
Import AsyncNetworkInterface.

Definition new_interface (rd : list Z) (str : string) (r : Router.Router) : result (Router.Router * Z) :=
  let! a := Address.of_ip_port (bytes_of_string str) 0 in
  ok (Router.add_interface (of_interface (NetworkInterface.make (random_router_ethernet_address rd) a)) r).
Definition new_route (prefix : string) (len : Z) (next_hop : option string) (id : Z) (r : Router.Router)
    : result Router.Router :=
  let! p := Address.of_ip_port (bytes_of_string prefix) 0 in
  let! n := Address.ipv4_numeric p in
  let! hop := match next_hop with
              | Some str => let! a := Address.of_ip_port (bytes_of_string str) 0 in ok (Some a)
              | None => ok None
              end in
  Router.add_route n len hop id r.

(** The router, [host_side] and [internet_side]. *)
Definition set_up_router (is_client : bool) (rd1 rd2 : list Z) : result (Router.Router * Z * Z) :=
  if is_client then
    let! (r, host_side) := new_interface rd1 "192.168.0.1" Router.make in
    let! (r, internet_side) := new_interface rd2 "10.0.0.192" r in
    let! r := new_route "192.168.0.0" 16 None host_side r in
    let! r := new_route "10.0.0.0" 8 None internet_side r in
    let! r := new_route "172.16.0.0" 12 (Some "10.0.0.172") internet_side r in
    ok (r, host_side, internet_side)
  else
    let! (r, host_side) := new_interface rd1 "172.16.0.1" Router.make in
    let! (r, internet_side) := new_interface rd2 "10.0.0.172" r in
    let! r := new_route "172.16.0.0" 12 None host_side r in
    let! r := new_route "10.0.0.0" 8 None internet_side r in
    let! r := new_route "192.168.0.0" 16 (Some "10.0.0.192") internet_side r in
    ok (r, host_side, internet_side).

(** ** The network thread

    The variables its rules refer to. Behaviour the language leaves undefined is the
    exception [undefined]. *)
Record Net := mkNet {
  router : Router.Router;
  host_side : Z;
  internet_side : Z;
  frame_fd : FDWrapper;
  internet_socket : FDWrapper;
  bounce_address : Address.Address;
  debug : bool;
  kernel : K
}.
#[global] Instance eta_Net : Eta Net := fun s =>
  mkNet (router s) (host_side s) (internet_side s) (frame_fd s) (internet_socket s) (bounce_address s) (debug s)
    (kernel s).

#[export] Instance net_poll : EventLoop.Poll Net := fun ps timeout s =>
  let '(r, errno, revents, k) := k_poll ps timeout (kernel s) in
  (r, errno, revents, s <| kernel := k |>).

Definition set_interface (id : Z) (a : AsyncNetworkInterface) (s : Net) : Net :=
  s <| router ::= fun r => r <| Router._interfaces ::= insert (Z.to_nat id) a |> |>.
Definition route (s : Net) : result Net :=
  match Router.route shr32 (router s) with
  | Some r => let! r := r in ok (s <| router := r |>)
  | None => throw undefined
  end.
Definition show (frame : EthernetFrame.EthernetFrame) (s : Net) : result unit :=
  if debug s then let! _ := summary frame in ok tt else ok tt.

(** What a rule does with a frame that arrives on the interface [id]. *)
Definition receive (id : Z) (data : bytes) (s : Net) : result Net :=
  let! (frame, r) := EthernetFrame.parse (Buffer.make data) EthernetFrame.default_frame in
  if bool_decide (r <> NoError) then ok s
  else
    let! _ := show frame s in
    let! a := Router.interface id (router s) in
    let! a := recv_frame frame a in
    route (set_interface id a s).

(** Frames from host to router. *)
Definition host_to_router (s : Net) : result Net :=
  let! (data, (w, k)) := FileDescriptor.read (2 ^ 64 - 1) (frame_fd s, kernel s) in
  receive (host_side s) data (s <| frame_fd := w |> <| kernel := k |>).

(** The first frame an interface has to send, and the interface. *)
Definition front (id : Z) (s : Net) : result (EthernetFrame.EthernetFrame * AsyncNetworkInterface) :=
  let! a := Router.interface id (router s) in
  match NetworkInterface.frames_out (base a) with
  | [] => throw undefined
  | f :: _ => ok (f, a)
  end.
Definition pop_frame (a : AsyncNetworkInterface) : AsyncNetworkInterface :=
  a <| base ::= fun n => n <| NetworkInterface._frames_out ::= tail |> |>.
Definition has_frames (id : Z) (s : Net) : bool :=
  match Router.interface id (router s) with
  | inr a => negb (bool_decide (NetworkInterface.frames_out (base a) = []))
  | inl _ => false
  end.

(** Frames from router to host. *)
Definition router_to_host (s : Net) : result Net :=
  let! (f, a) := front (host_side s) s in
  let! _ := show f s in
  let! (_, (w, k)) := FileDescriptor.write (BufferViewList.of_buffer_list (EthernetFrame.serialize f)) true
                        (frame_fd s, kernel s) in
  ok (set_interface (host_side s) (pop_frame a) (s <| frame_fd := w |> <| kernel := k |>)).

(** Frames from router to Internet. *)
Definition router_to_internet (s : Net) : result Net :=
  let! (f, a) := front (internet_side s) s in
  let! _ := show f s in
  let! (w, k) := UDPSocket.sendto (bounce_address s) (BufferViewList.of_buffer_list (EthernetFrame.serialize f))
                   (internet_socket s, kernel s) in
  ok (set_interface (internet_side s) (pop_frame a) (s <| internet_socket := w |> <| kernel := k |>)).

(** Frames from Internet to router. *)
Definition internet_to_router (s : Net) : result Net :=
  let! (data, (w, k)) := FileDescriptor.read (2 ^ 64 - 1) (internet_socket s, kernel s) in
  receive (internet_side s) data (s <| internet_socket := w |> <| kernel := k |>).

Definition rules : list (EventLoop.Rule Net) :=
  EventLoop.add_rule internet_socket EventLoop.In internet_to_router EventLoop.always EventLoop.nothing
    (EventLoop.add_rule internet_socket EventLoop.Out router_to_internet (fun s => has_frames (internet_side s) s)
       EventLoop.nothing
      (EventLoop.add_rule frame_fd EventLoop.Out router_to_host (fun s => has_frames (host_side s) s) EventLoop.nothing
        (EventLoop.add_rule frame_fd EventLoop.In host_to_router EventLoop.always EventLoop.nothing []))).

Definition tick_interface (id : Z) (s : Net) : result Net :=
  let! a := Router.interface id (router s) in
  ok (set_interface id (a <| base ::= NetworkInterface.tick 50 |>) s).

(** One turn of the thread's loop: [false] when it returns. [exit_flag] is a flag of the
    environment; it is read after the ticks. *)
Definition network_turn (t : list (EventLoop.Rule Net) * Net) : result (bool * (list (EventLoop.Rule Net) * Net)) :=
  let! (ret, rules, s) := EventLoop.wait_next_event 50 t.1 t.2 in
  match ret with
  | EventLoop.Exit => ok (false, (rules, s))
  | _ =>
      let! s := tick_interface (host_side s) s in
      let! s := tick_interface (internet_side s) s in
      ok (negb (aborted (kernel s)), (rules, s))
  end.

(** The thread, for at most [fuel] turns. An exception ends it: it is caught and printed. *)
Fixpoint network_thread (fuel : nat) (t : list (EventLoop.Rule Net) * Net)
    : option (result (list (EventLoop.Rule Net) * Net)) :=
  match fuel with
  | O => None
  | S fuel =>
      match network_turn t with
      | inl e => Some (throw e)
      | inr (true, t) => network_thread fuel t
      | inr (false, t) => Some (ok t)
      end
  end.

(** ** The program *)

(** [program_body] up to the start of the thread; [rd1], [rd2] and [rd3] are the numbers
    drawn for the three Ethernet addresses. *)
Definition set_up (is_client : bool) (bounce_host bounce_port : bytes) (debug : bool) (rd1 rd2 rd3 : list Z) (k : K)
    : result (Net * TCPSocketLab7 K) :=
  let! (u, k) := UDPSocket.make k in
  let! bounce := Address.of_hostname bounce_host bounce_port in
  let! s := UDPSocket.sendto bounce (BufferViewList.of_string []) (u, k) in
  let! s := UDPSocket.sendto bounce (BufferViewList.of_string []) s in
  let! (u, k) := UDPSocket.sendto bounce (BufferViewList.of_string []) s in
  let! (r, host_side, internet_side) := set_up_router is_client rd1 rd2 in
  let! ip := Address.of_ip_port (bytes_of_string (if is_client then "192.168.0.50" else "172.16.0.100")) 0 in
  let! hop := Address.of_ip_port (bytes_of_string (if is_client then "192.168.0.1" else "172.16.0.1")) 0 in
  let! (sock, w) := make_socket rd3 ip hop k in
  ok (mkNet r host_side internet_side w u bounce debug (TCPSpongeSocket.kernel (sponge sock)), sock).

(** The rest of the main thread, as far as the socket is concerned; its exceptions are
    caught and printed, and the network thread is told to end. *)
Definition open_socket (fuel : nat) (is_client : bool) (random random_port : Z) (s : TCPSocketLab7 K)
    : option (result (Running K * TCPSocketLab7 K)) :=
  match Address.of_ip_port (bytes_of_string "172.16.0.100") 1234 with
  | inl e => Some (throw e)
  | inr a =>
      if is_client then connect fuel random random_port a s
      else match bind a s with
           | inl e => Some (throw e)
           | inr s => listen_and_accept fuel random s
           end
  end.
Definition use_socket (fuel : nat) (s : TCPSocketLab7 K) : option (result (TCPSocketLab7 K)) :=
  match StreamCopy.bidirectional_stream_copy fuel (TCPSpongeSocket._owner (sponge s)) (TCPSpongeSocket.kernel (sponge s)) with
  | None => None
  | Some (inl e) => Some (throw e)
  | Some (inr (_, c)) =>
      let s1 := (sponge s) <| TCPSpongeSocket._owner := StreamCopy.socket c |>
                         <| TCPSpongeSocket.kernel := StreamCopy.kernel c |> in
      Some (let! s2 := TCPSpongeSocket.wait_until_closed s1 in ok (s <| sponge := s2 |>))
  end.

(** [main]: the arguments of [program_body], or the usage message. *)
Definition arguments (argv : list bytes) : option (bool * bytes * bytes * bool) :=
  match argv with
  | _ :: role :: host :: port :: rest =>
      if match rest with [] | [_] => true | _ => false end &&
         (bool_decide (role = bytes_of_string "client") || bool_decide (role = bytes_of_string "server"))
      then Some (bool_decide (role = bytes_of_string "client"), host, port, match rest with [] => false | _ => true end)
      else None
  | _ => None
  end.

End Network.
Arguments Net : clear implicits.
End Lab7.

(** ** What the network thread guarantees *)
Module Lab7Theorems.
Import FileDescriptor AsyncNetworkInterface SocketTheorems InterfaceQueue RouterQueue RouterTheorems Lab7.

Abbreviation plain := ordinary.

Abbreviation plainly := (outcome plain (fun _ => True)).

Lemma numeric_plain a : plainly (Address.ipv4_numeric a).
Proof. unfold Address.ipv4_numeric. by destruct (_ || _). Qed.
Lemma header_serialize_plain h : plainly (IPv4Header.serialize h).
Proof. unfold IPv4Header.serialize. destruct (negb _); [done|]. by destruct (_ <? _). Qed.
Lemma datagram_serialize_plain d : plainly (IPv4Datagram.serialize d).
Proof.
  unfold IPv4Datagram.serialize. destruct (negb _); [done|].
  do 2 (eapply outcome_bind; [apply header_serialize_plain|]; intros ? _). done.
Qed.
Lemma arp_serialize_plain m : plainly (ARPMessage.serialize m).
Proof. unfold ARPMessage.serialize. by destruct (negb _). Qed.

#[local] Arguments IPv4Datagram.serialize : simpl never.
#[local] Arguments ARPMessage.serialize : simpl never.

Lemma send_arp_request_plain ip n : plainly (NetworkInterface.send_arp_request ip n).
Proof.
  unfold NetworkInterface.send_arp_request. eapply outcome_bind; [apply numeric_plain|]. intros my _.
  eapply outcome_bind; [apply arp_serialize_plain|]. done.
Qed.

Lemma send_datagram_plain d hop n : plainly (NetworkInterface.send_datagram d hop n).
Proof.
  unfold NetworkInterface.send_datagram. eapply outcome_bind; [apply numeric_plain|]. intros ip _.
  destruct (NetworkInterface.recent _ _ _ _); [eapply outcome_bind; [apply datagram_serialize_plain|done]|].
  eapply outcome_bind with (P := fun _ => True); [|done].
  destruct (NetworkInterface.recent _ _ _ _); [done|apply send_arp_request_plain].
Qed.

Lemma send_pending_plain ip ds n : plainly (NetworkInterface.send_pending ip ds n).
Proof.
  revert n. induction ds as [|d ds IH]; intros n; cbn [NetworkInterface.send_pending]; [done|].
  eapply outcome_bind; [apply datagram_serialize_plain|]. intros b _. apply IH.
Qed.

Lemma recv_arp_plain m n : plainly (NetworkInterface.recv_arp m n).
Proof.
  unfold NetworkInterface.recv_arp. cbv zeta. eapply outcome_bind; [apply send_pending_plain|]. intros n1 _.
  destruct (_ =? _); [|done]. eapply outcome_bind; [apply numeric_plain|]. intros my _.
  destruct (_ =? _); [|done]. eapply outcome_bind; [apply arp_serialize_plain|]. done.
Qed.

(** Parsers throw nothing but [out_of_range]. *)
Definition plain_m {A} (m : M NetParser.NetParser A) : Prop := forall p, plainly (m p).
Create HintDb plain.

Lemma plain_ret {A} (a : A) : plain_m (ret a).
Proof. done. Qed.
Lemma plain_gets {A} (f : NetParser.NetParser -> A) : plain_m (gets f).
Proof. done. Qed.
Lemma plain_bind {A B} (m : M NetParser.NetParser A) (k : A -> M NetParser.NetParser B) :
  plain_m m -> (forall a, plain_m (k a)) -> plain_m (Prelude.bind m k).
Proof. intros Hm Hk p. eapply outcome_bind; [apply Hm|]. intros [a p'] _. apply Hk. Qed.
Lemma plain_if {A} (b : bool) (m m' : M NetParser.NetParser A) : plain_m m -> plain_m m' -> plain_m (if b then m else m').
Proof. by destruct b. Qed.

Lemma buffer_remove_plain n b : plainly (Buffer.remove_prefix n b).
Proof. unfold Buffer.remove_prefix. by destruct (_ <? _). Qed.
Lemma parse_loop_plain n w i b v : plainly (NetParser.parse_loop n w i b v).
Proof.
  revert i v. induction n as [|n IH]; intros i v; cbn [NetParser.parse_loop]; [done|].
  eapply outcome_bind with (P := fun _ => True); [|intros c _; apply IH]. unfold Buffer.at_. by destruct (_ !! _).
Qed.
Lemma plain_int n : plain_m (NetParser._parse_int n).
Proof.
  intros p. unfold NetParser._parse_int. destruct (NetParser.error _); [done|].
  eapply outcome_bind; [apply parse_loop_plain|]. intros v _. eapply outcome_bind; [apply buffer_remove_plain|done].
Qed.
Lemma plain_remove_prefix n : plain_m (NetParser.remove_prefix n).
Proof.
  intros p. unfold NetParser.remove_prefix. destruct (NetParser.error _); [done|].
  eapply outcome_bind; [apply buffer_remove_plain|done].
Qed.
#[local] Hint Resolve plain_ret plain_gets plain_int plain_remove_prefix : plain.
#[local] Hint Extern 3 (plain_m NetParser.u8) => apply plain_int : plain.
#[local] Hint Extern 3 (plain_m NetParser.u16) => apply plain_int : plain.
#[local] Hint Extern 3 (plain_m NetParser.u32) => apply plain_int : plain.
Ltac plain_parser := repeat first [progress eauto 2 with plain | apply plain_if | apply plain_bind; [|intros ?]].

Lemma plain_address : plain_m parse_address.
Proof. unfold parse_address. generalize 6%nat as n. induction n as [|n IH]; cbn [read_bytes]; plain_parser. Qed.
#[local] Hint Resolve plain_address : plain.

Lemma frame_parse_plain b f : plainly (EthernetFrame.parse b f).
Proof.
  unfold EthernetFrame.parse. eapply outcome_bind with (P := fun _ => True); [|by intros [[h r] p] _].
  apply (ltac:(unfold EthernetHeader.parse; plain_parser) : plain_m (EthernetHeader.parse _)).
Qed.
Lemma datagram_parse_plain b d : plainly (IPv4Datagram.parse b d).
Proof.
  unfold IPv4Datagram.parse. eapply outcome_bind with (P := fun _ => True); [|intros [[h r] p] _; by destruct (negb _)].
  assert (plain_m IPv4Header.parse_fields) as Hf by (unfold IPv4Header.parse_fields; plain_parser).
  assert (forall o h, plain_m (IPv4Header.check_header o h)) as Hc by (intros o h; unfold IPv4Header.check_header; plain_parser).
  assert (plain_m (IPv4Header.parse (IPv4Datagram._header d))) as Hp by (unfold IPv4Header.parse; plain_parser). apply Hp.
Qed.
Lemma arp_parse_plain b m : plainly (ARPMessage.parse b m).
Proof.
  unfold ARPMessage.parse. cbv zeta. destruct (_ <? _); [done|].
  eapply outcome_bind with (P := fun _ => True); [|by intros [r p] _].
  assert (plain_m (ARPMessage.parse_fields m)) as Hp by (unfold ARPMessage.parse_fields; plain_parser). apply Hp.
Qed.
Lemma segment_parse_plain b c seg : plainly (TCPSegment.parse b c seg).
Proof.
  unfold TCPSegment.parse. cbv zeta. destruct (bool_of_Z _); [done|].
  eapply outcome_bind with (P := fun _ => True); [|by intros [[h r] p] _].
  assert (plain_m TCPHeader.parse_fields) as Hf by (unfold TCPHeader.parse_fields; plain_parser).
  assert (plain_m TCPHeader.parse) as Hp by (unfold TCPHeader.parse; plain_parser). apply Hp.
Qed.
Lemma to_buffer_plain l : plainly (BufferList.to_buffer l).
Proof. by destruct l as [|b [|c l]]. Qed.

Lemma recv_frame_plain f n : plainly (NetworkInterface.recv_frame f n).
Proof.
  unfold NetworkInterface.recv_frame. destruct (_ =? _).
  - eapply outcome_bind; [apply to_buffer_plain|]. intros b _. eapply outcome_bind; [apply datagram_parse_plain|].
    intros [d r] _. by destruct (_ && _).
  - destruct (_ =? _); [|done]. eapply outcome_bind; [apply to_buffer_plain|]. intros b _.
    eapply outcome_bind; [apply arp_parse_plain|]. intros [m r] _. destruct (bool_decide _); [|done].
    eapply outcome_bind; [apply recv_arp_plain|]. done.
Qed.

Lemma summary_plain `{Resolver} f : plainly (summary f).
Proof.
  unfold summary. destruct (_ =? _).
  - eapply outcome_bind; [apply datagram_parse_plain|]. intros [d r] _. destruct (bool_decide _); [|done].
    eapply outcome_bind with (P := fun _ => True); [|done]. unfold segment_summary. destruct (_ =? _); [|done].
    eapply outcome_bind; [apply segment_parse_plain|]. by intros [seg r'] _.
  - destruct (_ =? _); [|done]. eapply outcome_bind; [apply to_buffer_plain|]. intros b _.
    eapply outcome_bind; [apply arp_parse_plain|]. by intros [m r] _.
Qed.

(** What is defined, with an outcome. *)
Definition outcome_o {A} (E : exception -> Prop) (Q : A -> Prop) (o : option (result A)) : Prop :=
  match o with Some r => outcome E Q r | None => False end.

Section Router.
Context (shr32 : Z -> Z).
Definition kept (r r' : Router.Router) : Prop :=
  length (Router._interfaces r') = length (Router._interfaces r) /\ Router._route_table r' = Router._route_table r.

Lemma kept_in_table r r' : kept r r' -> in_table r -> in_table r'.
Proof. intros [Hl Ht] Hi. unfold in_table. by rewrite Hl, Ht. Qed.

Lemma route_one_plain d r : in_table r -> outcome_o plain (kept r) (Router.route_one_datagram shr32 d r).
Proof.
  intros Hi. destruct (Router.route_one_datagram shr32 d r) as [[e|r']|] eqn:E.
  - unfold Router.route_one_datagram in E. destruct (_ || _); [done|]. destruct (Router.best_match _ _ _) as [rt|]; [|done].
    unfold Router.send_on in E. destruct (_ !! _) as [a|]; [|done]. injection E as E.
    pose proof (send_datagram_plain (Router.forwarded d)
      (Address.from_ipv4_numeric (if Router.next_hop rt =? 0 then IPv4Header.dst (IPv4Datagram.header (Router.forwarded d)) else Router.next_hop rt)) (base a)) as P.
    destruct (NetworkInterface.send_datagram _ _ _); [|done]. by injection E as <-.
  - by destruct (route_one_shape shr32 _ _ _ E) as (_&?&?).
  - unfold Router.route_one_datagram in E. destruct (_ || _); [done|].
    destruct (Router.best_match _ _ _) as [rt|] eqn:Eb; [|done]. unfold Router.send_on in E.
    pose proof (proj1 (Forall_forall _ _) Hi _ (best_match_elem _ _ _ _ Eb)) as Hk.
    apply lookup_lt_is_Some_2 in Hk as [a Ea]. by rewrite Ea in E.
Qed.

Lemma forward_all_plain ds r : in_table r -> outcome_o plain (kept r) (forward_all shr32 ds r).
Proof.
  revert r. induction ds as [|d ds IH]; intros r Hi; [by split|]. cbn [forward_all].
  pose proof (route_one_plain d r Hi) as P. destruct (Router.route_one_datagram shr32 d r) as [[e|r1]|]; [done| |done].
  pose proof (IH r1 (kept_in_table _ _ P Hi)) as P1. destruct (forward_all shr32 ds r1) as [[e|r2]|]; [done| |done].
  destruct P, P1. split; congruence.
Qed.

(** [route] is defined when the routes name existing interfaces. *)
Lemma route_plain r : in_table r -> outcome_o plain (kept r) (Router.route shr32 r).
Proof.
  intros Hi. rewrite route_eq. pose proof (forward_all_plain (concat (queues r)) r Hi) as P.
  destruct (forward_all shr32 _ r) as [[e|r1]|]; [done| |done]. destruct P as [Hl Ht]. split; [|done].
  cbn. rewrite length_zip_with, length_map, length_replicate. lia.
Qed.

(** *** The specification

    A router that takes what arrives one datagram at a time, with time going by between;
    the frames it has sent stay in its interfaces' queues. *)
Inductive event := Arrives (i : nat) (data : bytes) | Passes.

Definition on_frame (i : nat) (f : EthernetFrame.EthernetFrame) (r : Router.Router) : result Router.Router :=
  match Router._interfaces r !! i with
  | None => throw undefined
  | Some a =>
      let! a := recv_frame f a in
      match Router.route shr32 (r <| Router._interfaces ::= insert i a |>) with
      | Some r => r
      | None => throw undefined
      end
  end.
Definition step (e : event) (r : Router.Router) : result Router.Router :=
  match e with
  | Arrives i data =>
      let! (f, res) := EthernetFrame.parse (Buffer.make data) EthernetFrame.default_frame in
      if bool_decide (res <> NoError) then ok r else on_frame i f r
  | Passes => ok (r <| Router._interfaces ::= map (fun a => a <| base ::= NetworkInterface.tick 50 |>) |>)
  end.
Fixpoint run (es : list event) (r : Router.Router) : result Router.Router :=
  match es with [] => ok r | e :: es => let! r := step e r in run es r end.

Lemma run_snoc es e r : run (es ++ [e]) r = let! r := run es r in step e r.
Proof.
  revert r. induction es as [|x es IH]; intros r; cbn [run app].
  - rewrite bindR_ok. by destruct (step e r) as [|r'].
  - destruct (step x r) as [|r']; [done|apply IH].
Qed.

Definition arrival (e : event) : list (nat * bytes) := match e with Arrives i d => [(i, d)] | Passes => [] end.
Definition arrivals (es : list event) : list (nat * bytes) := concat (map arrival es).
Fixpoint ticks (es : list event) : nat :=
  match es with [] => O | Passes :: es => S (ticks es) | Arrives _ _ :: es => ticks es end.

Lemma arrivals_snoc es e : arrivals (es ++ [e]) = arrivals es ++ arrival e.
Proof. unfold arrivals. rewrite map_app, concat_app. cbn. by rewrite app_nil_r. Qed.
Lemma ticks_snoc es e : ticks (es ++ [e]) = (ticks es + ticks [e])%nat.
Proof. induction es as [|[i d|] es IH]; [done|exact IH|]. cbn [ticks app]. by rewrite IH. Qed.

(** What is queued already does not change what a step does. *)
Lemma step_ahead j q e r : step e (ahead_at j q r) = behind (ahead_at j q) (step e r).
Proof.
  destruct e as [i data|]; cbn [step].
  - destruct (EthernetFrame.parse _ _) as [e|[f res]]; [done|]. cbn [bindR]. destruct (bool_decide _); [done|].
    unfold on_frame. rewrite ahead_lookup. destruct (Router._interfaces r !! i) as [a|] eqn:Ea; [|done].
    cbn [fmap option_fmap option_map].
    assert (recv_frame f ((if bool_decide (j = i) then ahead_of q else id) a) =
      behind (if bool_decide (j = i) then ahead_of q else id) (recv_frame f a)) as ->.
    { destruct (bool_decide _); [apply async_recv_ahead|]. unfold id. by destruct (recv_frame f a). }
    destruct (recv_frame f a) as [e|a']; [done|]. cbn [behind bindR ok].
    assert ((ahead_at j q r) <| Router._interfaces ::= insert i ((if bool_decide (j = i) then ahead_of q else id) a') |> =
      ahead_at j q (r <| Router._interfaces ::= insert i a' |>)) as ->.
    { unfold ahead_at. cbn. f_equal. rewrite <- alter_insert_ahead by (by eapply lookup_lt_Some).
      by destruct (bool_decide _). }
    rewrite route_ahead. by destruct (Router.route shr32 _) as [[e|r']|].
  - unfold behind, ahead_at. cbn. do 2 f_equal. apply list_eq. intros i. rewrite list_lookup_fmap, !list_lookup_alter.
    case_decide; subst; rewrite ?list_lookup_fmap; by destruct (Router._interfaces r !! _).
Qed.

Lemma tick_kept r : kept r (r <| Router._interfaces ::= map (fun a => a <| base ::= NetworkInterface.tick 50 |>) |>).
Proof. split; [apply length_map|done]. Qed.

Lemma step_plain e r :
  in_table r -> (forall i d, e = Arrives i d -> (i < length (Router._interfaces r))%nat) -> outcome plain (kept r) (step e r).
Proof.
  intros Ht Hi. destruct e as [i data|]; [|apply tick_kept]. cbn [step].
  eapply outcome_bind; [apply frame_parse_plain|]. intros [f res] _. destruct (bool_decide _); [by split|]. unfold on_frame.
  destruct (lookup_lt_is_Some_2 _ _ (Hi i data eq_refl)) as [a ->].
  eapply outcome_bind with (P := fun _ => True).
  { unfold recv_frame. eapply outcome_bind; [apply recv_frame_plain|]. by intros [n d] _. }
  intros a' _. set (r1 := r <| Router._interfaces ::= _ |>).
  assert (kept r r1) as K1 by (split; [apply length_insert|done]).
  pose proof (route_plain r1 (kept_in_table _ _ K1 Ht)) as P. destruct (Router.route shr32 r1) as [[e|r2]|]; [done| |done].
  destruct K1, P. split; congruence.
Qed.

(** A queue that is not empty stays so. *)
Lemma step_frames i e r r' a :
  step e r = ok r' -> Router._interfaces r !! i = Some a -> NetworkInterface.frames_out (base a) <> [] ->
  length (Router._interfaces r') = length (Router._interfaces r) ->
  exists a', Router._interfaces r' !! i = Some a' /\ NetworkInterface.frames_out (base a') <> [].
Proof.
  intros Es Ea Hf Hl. destruct (NetworkInterface.frames_out (base a)) as [|f q] eqn:Eq; [done|].
  assert (r = ahead_at i [f] (r <| Router._interfaces ::= insert i (pop_frame a) |>)) as Er.
  { destruct r as [l t]. unfold ahead_at. cbn in *. f_equal. rewrite <- (list_insert_id l i a Ea) at 1.
    apply list_eq. intros j. destruct (decide (i = j)) as [<-|Hj].
    - apply lookup_lt_Some in Ea. rewrite list_lookup_alter_eq, !list_lookup_insert_eq by done. cbn. f_equal.
      destruct a as [n ds]. unfold ahead_of, pop_frame. cbn in *. f_equal. destruct n. cbn in *. by rewrite Eq.
    - by rewrite list_lookup_alter_ne, !list_lookup_insert_ne. }
  rewrite Er, step_ahead in Es. destruct (step e _) as [|r1]; [done|]. injection Es as <-. cbn in Hl.
  rewrite length_alter in Hl. apply lookup_lt_Some in Ea. destruct (lookup_lt_is_Some_2 (Router._interfaces r1) i) as [a1 E1]; [lia|].
  rewrite ahead_lookup, bool_decide_eq_true_2, E1 by done. by exists (ahead_of [f] a1).
Qed.

End Router.

(** *** The datagram sockets *)

(** The datagrams the thread took from its two sockets [ff] and [fi], in order, and those
    it sent on each. A datagram is sent whole or not at all, a call that fails sets
    [errno], and the other threads leave the two descriptors alone. *)
Class Wire (K : Type) `{Kernel K} `{SocketKernel K} `{Environment K} (ff fi : Z)
    (taken : K -> list (Z * bytes)) (sent : Z -> K -> list (option Address.Address * bytes)) : Prop := {
  wire_read : forall fd n k r errno data k', fd = ff \/ fd = fi -> k_read fd n k = (r, errno, data, k') ->
    (r < 0 -> errno <> 0) /\ (forall fd', sent fd' k' = sent fd' k) /\
    (0 <= r -> taken k' = taken k ++ [(fd, take (Z.to_nat r) data)]);
  wire_writev : forall iovs k r errno k', k_writev ff iovs k = (r, errno, k') ->
    (r < 0 -> errno <> 0) /\ taken k' = taken k /\ (forall fd', fd' <> ff -> sent fd' k' = sent fd' k) /\
    (0 <= r -> r = zlen (concat (map fst iovs)) /\ sent ff k' = sent ff k ++ [(None, concat (map fst iovs))]);
  wire_sendmsg : forall a iovs k r errno k', k_sendmsg fi (Some a) iovs k = (r, errno, k') ->
    (r < 0 -> errno <> 0) /\ taken k' = taken k /\ (forall fd', fd' <> fi -> sent fd' k' = sent fd' k) /\
    (0 <= r -> r = zlen (concat (map fst iovs)) /\ sent fi k' = sent fi k ++ [(Some a, concat (map fst iovs))]);
  wire_poll : forall ps t k r errno revents k', k_poll ps t k = (r, errno, revents, k') ->
    taken k' = taken k /\ forall fd, sent fd k' = sent fd k
}.

Lemma view_size_bound (l : BufferViewList.BufferViewList) : 0 <= BufferViewList.size l < 2 ^ 64.
Proof.
  unfold BufferViewList.size.
  assert (forall n, 0 <= n < 2 ^ 64 -> 0 <= fold_left (fun ret v => u64 (ret + zlen v)) l n < 2 ^ 64) as Hb; [|by apply Hb].
  induction l as [|v l IH]; intros n Hn; [done|]. cbn [fold_left]. apply IH. unfold u64. apply Z.mod_pos_bound. lia.
Qed.

Section Wire.
Context {K : Type} `{Resolver} `{Kernel K} `{SocketKernel K} `{Environment K} (ff fi : Z)
  (taken : K -> list (Z * bytes)) (sent : Z -> K -> list (option Address.Address * bytes)).
Context `{!Wire K ff fi taken sent}.

Lemma write_whole l w k :
  fd_num w = ff ->
  outcome ordinary (fun '(_, (w', k')) => fd_num w' = ff /\ write_count w' = u32 (write_count w + 1) /\
      taken k' = taken k /\ sent ff k' = sent ff k ++ [(None, concat l)] /\
      forall fd', fd' <> ff -> sent fd' k' = sent fd' k) (write l true (w, k)).
Proof.
  intros Hw. unfold write. generalize (Z.to_nat (BufferViewList.size l)) as m. intros m. cbn [write_loop]. rewrite Hw.
  destruct (k_writev ff _ k) as [[r errno] k'] eqn:Er. destruct (wire_writev _ _ _ _ _ Er) as (Hn&Ht&Ho&Hs).
  eapply outcome_bind; [by apply system_call_sets|]. intros n [-> Hr]. destruct (Hs Hr) as [Ez Es].
  rewrite WriteTheorems.as_iovecs_bytes in *. pose proof (view_size_bound l) as Hb.
  destruct (_ && _); [done|]. destruct (Z.ltb_spec (BufferViewList.size l) r) as [|Hle]; [done|].
  destruct (WriteTheorems.view_remove_prefix r l) as (l'&->&El'); [lia|lia|]. rewrite bindR_ok.
  rewrite drop_ge in El' by (unfold zlen in *; lia). rewrite WriteTheorems.view_size, El' by (rewrite El'; done).
  cbn. split; [exact Hw|done].
Qed.

Lemma sendto_whole a l w k :
  fd_num w = fi ->
  outcome ordinary (fun '(w', k') => fd_num w' = fi /\ write_count w' = u32 (write_count w + 1) /\
      taken k' = taken k /\ sent fi k' = sent fi k ++ [(Some a, concat l)] /\
      forall fd', fd' <> fi -> sent fd' k' = sent fd' k) (UDPSocket.sendto a l (w, k)).
Proof.
  intros Hw. unfold UDPSocket.sendto, UDPSocket.sendmsg_helper. rewrite Hw.
  destruct (k_sendmsg fi _ _ k) as [[r errno] k'] eqn:Er. destruct (wire_sendmsg _ _ _ _ _ _ Er) as (Hn&Ht&Ho&Hs).
  rewrite WriteTheorems.as_iovecs_bytes in *.
  eapply outcome_bind with (P := fun k1 => k1 = k' /\ 0 <= r).
  - eapply outcome_bind; [by apply system_call_sets|]. intros n [-> Hr]. by destruct (_ =? _).
  - intros k1 [-> Hr]. destruct (Hs Hr). cbn. split; [exact Hw|done].
Qed.

Lemma read_one w k :
  fd_num w = ff \/ fd_num w = fi ->
  outcome ordinary (fun '(data, (w', k')) => fd_num w' = fd_num w /\ read_count w' = u32 (read_count w + 1) /\
      taken k' = taken k ++ [(fd_num w, data)] /\ forall fd', sent fd' k' = sent fd' k) (read (2 ^ 64 - 1) (w, k)).
Proof.
  intros Hw. eapply outcome_mono; [apply read_calls; [|done]|done|].
  - intros n r errno data k' Er. by destruct (wire_read _ _ _ _ _ _ _ Hw Er).
  - intros [data [w' k']] (_&?&?&n&r&errno&d&Er&Hr&->). destruct (wire_read _ _ _ _ _ _ _ Hw Er) as (_&?&Ht).
    by rewrite Ht.
Qed.

End Wire.

(** *** The thread *)
Section Relaying.
Context {K : Type} `{Resolver} `{Kernel K} `{SocketKernel K} `{Environment K} (ff fi : Z)
  (taken : K -> list (Z * bytes)) (sent : Z -> K -> list (option Address.Address * bytes)).
Context `{!Wire K ff fi taken sent} (shr32 : Z -> Z) (Hfd : ff <> fi).
Context (bounce : Address.Address) (r0 : Router.Router) (k0 : K).
Abbreviation St := (Net K).

Definition letter (x : nat * bytes) : Z * bytes := (match x.1 with O => ff | S _ => fi end, x.2).
Definition wire (f : EthernetFrame.EthernetFrame) : bytes :=
  concat (BufferViewList.of_buffer_list (EthernetFrame.serialize f)).

(** The router of the thread is the one of the specification, but for the frames that are
    sent. *)
Record relaying (n : nat) (s : St) : Prop := mk_relaying {
  rl_host : host_side s = 0;
  rl_internet : internet_side s = 1;
  rl_frame_fd : fd_num (frame_fd s) = ff;
  rl_socket : fd_num (internet_socket s) = fi;
  rl_bounce : bounce_address s = bounce;
  rl_table : in_table (router s);
  rl_routes : Router._route_table (router s) = Router._route_table r0;
  rl_run : exists es a b q0 q1, ticks es = n /\ Router._interfaces (router s) = [a; b] /\
    run shr32 es r0 = ok (Router.mkRouter [ahead_of q0 a; ahead_of q1 b] (Router._route_table r0)) /\
    taken (kernel s) = taken k0 ++ map letter (arrivals es) /\
    sent ff (kernel s) = sent ff k0 ++ map (fun f => (None, wire f)) q0 /\
    sent fi (kernel s) = sent fi k0 ++ map (fun f => (Some bounce, wire f)) q1
}.

(** The frames queued for an interface. *)
Definition queued (i : Z) (s : St) : Prop := has_frames i s = true.

Lemma queued_lookup i s :
  queued i s <-> exists a, Router._interfaces (router s) !! Z.to_nat i = Some a /\ NetworkInterface.frames_out (base a) <> [].
Proof.
  unfold queued, has_frames, Router.interface. destruct (_ !! _) as [a|]; cbn.
  - rewrite negb_true_iff, bool_decide_eq_false. split; [by exists a|]. by intros (b&[= <-]&?).
  - split; [done|]. by intros (a&?&_).
Qed.

(** A step of the specification on the thread's own router. *)
Lemma relaying_step n s e k r1 :
  relaying n s -> step shr32 e (router s) = ok r1 -> kept (router s) r1 ->
  taken k = taken (kernel s) ++ map letter (arrival e) -> (forall fd, sent fd k = sent fd (kernel s)) ->
  relaying (n + ticks [e]) (s <| router := r1 |> <| kernel := k |>).
Proof.
  intros [Hh Hi Hff Hfi Hb Ht Hr (es&a&b&q0&q1&Hn&Ei&Er&Et&E0&E1)] Es [Kl Kt] Hk Hs. split; cbn -[arrivals ticks]; try done.
  - by apply (kept_in_table (router s)).
  - congruence.
  - assert (run shr32 (es ++ [e]) r0 = behind (ahead_at 0 q0) (behind (ahead_at 1 q1) (ok r1))) as Erun.
    { rewrite run_snoc, Er, bindR_ok, <- Es.
      assert (Router.mkRouter [ahead_of q0 a; ahead_of q1 b] (Router._route_table r0) = ahead_at 0 q0 (ahead_at 1 q1 (router s))) as ->.
      { destruct (router s). cbn in *. subst. done. }
      by rewrite !step_ahead. }
    rewrite Ei in Kl. destruct r1 as [l t]. cbn in Kl, Kt. destruct l as [|a' [|b' [|]]]; try done.
    exists (es ++ [e]), a', b', q0, q1. rewrite ticks_snoc, arrivals_snoc, Hn, Hk, !Hs, Et, map_app, app_assoc.
    split; [done|]. split; [done|]. split; [|done]. rewrite Erun. cbn. by rewrite Kt, Hr.
Qed.

Lemma frame_received n s i w0 w1 k data :
  relaying n s -> (i = 0 /\ fd_num w0 = ff /\ fd_num w1 = fi \/ i = 1 /\ fd_num w0 = ff /\ fd_num w1 = fi) ->
  taken k = taken (kernel s) ++ [letter (Z.to_nat i, data)] -> (forall fd, sent fd k = sent fd (kernel s)) ->
  outcome ordinary (fun s' => relaying n s' /\ frame_fd s' = w0 /\ internet_socket s' = w1 /\
      host_side s' = host_side s /\ internet_side s' = internet_side s /\
      forall j, queued j s -> queued j s')
    (receive shr32 i data (s <| frame_fd := w0 |> <| internet_socket := w1 |> <| kernel := k |>)).
Proof.
  intros R Hi Ht Hs. set (s1 := s <| frame_fd := w0 |> <| internet_socket := w1 |> <| kernel := kernel s |>).
  assert (relaying n s1) as R1. { destruct R. destruct Hi as [(_&?&?)|(_&?&?)]; split; done. }
  pose proof R1 as [_ _ _ _ _ Htab _ (es&a&b&q0&q1&_&Ei&_)].
  assert (Z.to_nat i < length (Router._interfaces (router s)))%nat as Hlt.
  { change (router s) with (router s1). rewrite Ei. destruct Hi as [[-> _]|[-> _]]; cbn; lia. }
  pose proof (step_plain shr32 (Arrives (Z.to_nat i) data) (router s) Htab ltac:(by intros ? ? [= <- <-])) as P.
  assert (forall r1, step shr32 (Arrives (Z.to_nat i) data) (router s) = ok r1 -> kept (router s) r1 ->
    let s' := s1 <| router := r1 |> <| kernel := k |> in
    relaying n s' /\ frame_fd s' = w0 /\ internet_socket s' = w1 /\ host_side s' = host_side s /\
    internet_side s' = internet_side s /\ forall j, queued j s -> queued j s') as Hdone.
  { intros r1 Es K1 s'. split; [|do 4 (split; [done|])].
    - pose proof (relaying_step n s1 _ k r1 R1 Es K1 Ht Hs) as R2. cbn [ticks] in R2. by rewrite Nat.add_0_r in R2.
    - intros j (x&Ex&Hx)%queued_lookup. apply queued_lookup. by apply (step_frames shr32 _ _ _ _ _ Es Ex Hx), K1. }
  cbn [step] in P, Hdone. unfold receive. destruct (EthernetFrame.parse _ _) as [e|[f res]]; [done|].
  cbn [bindR] in P, Hdone |- *. destruct (bool_decide (res <> NoError)).
  { pose proof (Hdone (router s) ltac:(done) ltac:(done)) as D. by destruct s. }
  eapply outcome_bind with (P := fun _ => True).
  { unfold show. destruct (debug _); [|done]. eapply outcome_bind; [apply summary_plain|done]. }
  intros _ _. unfold Router.interface, on_frame in *. cbn [router].
  change (router (s <| frame_fd := w0 |> <| internet_socket := w1 |> <| kernel := k |>)) with (router s).
  destruct (Router._interfaces (router s) !! Z.to_nat i) as [x|]; [|done]. rewrite bindR_ok.
  destruct (recv_frame f x) as [e|x']; [done|]. cbn [bindR] in P, Hdone |- *. unfold route, set_interface. cbn [router].
  set (r1 := (router s) <| Router._interfaces ::= insert (Z.to_nat i) x' |>) in *.
  match goal with |- context [Router.route shr32 ?x] => change x with r1 end. destruct (Router.route shr32 r1) as [[e|r2]|]; [done| |done].
  apply (Hdone r2); done.
Qed.

Lemma host_to_router_outcome n s :
  relaying n s ->
  outcome ordinary (fun s' => relaying n s' /\ read_count (frame_fd s') = u32 (read_count (frame_fd s) + 1) /\
      host_side s' = host_side s /\ internet_side s' = internet_side s /\ forall j, queued j s -> queued j s')
    (host_to_router shr32 s).
Proof.
  intros R. unfold host_to_router. eapply outcome_bind; [apply (read_one ff fi taken sent); left; apply R|].
  intros [data [w k]] (Hf&Hc&Ht&Hs). pose proof (rl_host _ _ R) as Hh.
  pose proof (frame_received n s 0 w (internet_socket s) k data R) as P.
  replace (s <| frame_fd := w |> <| internet_socket := internet_socket s |> <| kernel := k |>)
    with (s <| frame_fd := w |> <| kernel := k |>) in P by (by destruct s).
  rewrite Hh. eapply outcome_mono; [apply P|done|].
  - left. split; [done|]. rewrite Hf. split; apply R.
  - rewrite Ht. unfold letter. cbn. by rewrite (rl_frame_fd _ _ R).
  - done.
  - intros s' (?&->&_&?&?&?). split; [done|]. split; [exact Hc|]. split; [congruence|done].
Qed.

Lemma internet_to_router_outcome n s :
  relaying n s ->
  outcome ordinary (fun s' => relaying n s' /\ read_count (internet_socket s') = u32 (read_count (internet_socket s) + 1) /\
      host_side s' = host_side s /\ internet_side s' = internet_side s /\ forall j, queued j s -> queued j s')
    (internet_to_router shr32 s).
Proof.
  intros R. unfold internet_to_router. eapply outcome_bind; [apply (read_one ff fi taken sent); right; apply R|].
  intros [data [w k]] (Hf&Hc&Ht&Hs). pose proof (rl_internet _ _ R) as Hh.
  pose proof (frame_received n s 1 (frame_fd s) w k data R) as P.
  replace (s <| frame_fd := frame_fd s |> <| internet_socket := w |> <| kernel := k |>)
    with (s <| internet_socket := w |> <| kernel := k |>) in P by (by destruct s).
  rewrite Hh. eapply outcome_mono; [apply P|done|].
  - right. split; [done|]. rewrite Hf. split; apply R.
  - rewrite Ht. unfold letter. cbn. by rewrite (rl_socket _ _ R).
  - done.
  - intros s' (?&_&->&?&?&?). split; [done|]. split; [exact Hc|]. split; [done|]. split; [congruence|done].
Qed.

(** Taking the first frame of a queue. *)
Lemma pop_ahead q f a q' :
  NetworkInterface.frames_out (base a) = f :: q' -> ahead_of q a = ahead_of (q ++ [f]) (pop_frame a).
Proof.
  intros E. unfold ahead_of. destruct a as [m ds]. cbn in *. unfold pop_frame. cbn. f_equal. apply ahead_take. unfold NetworkInterface.frames_out in E. by rewrite E.
Qed.

Lemma pop_queued i j s a s' :
  Router._interfaces (router s') = <[Z.to_nat i := pop_frame a]> (Router._interfaces (router s)) ->
  Z.to_nat i <> Z.to_nat j -> queued j s -> queued j s'.
Proof. intros E Hij (x&Ex&Hx)%queued_lookup. apply queued_lookup. exists x. by rewrite E, list_lookup_insert_ne. Qed.

Lemma router_to_host_outcome n s :
  relaying n s -> queued 0 s ->
  outcome ordinary (fun s' => relaying n s' /\ write_count (frame_fd s') = u32 (write_count (frame_fd s) + 1) /\
      host_side s' = host_side s /\ internet_side s' = internet_side s /\ (queued 1 s -> queued 1 s'))
    (router_to_host s).
Proof.
  intros R (x&Ex&Hx)%queued_lookup. unfold router_to_host, front, Router.interface. rewrite (rl_host _ _ R), Ex, bindR_ok.
  destruct (NetworkInterface.frames_out (base x)) as [|f q] eqn:Eq; [done|]. rewrite bindR_ok.
  eapply outcome_bind with (P := fun _ => True).
  { unfold show. destruct (debug _); [|done]. eapply outcome_bind; [apply summary_plain|done]. }
  intros _ _. eapply outcome_bind; [apply (write_whole ff fi taken sent); apply R|].
  intros [m [w k]] (Hf&Hc&Ht&Hs&Ho).
  destruct R as [Hh Hi Hff Hfi Hb Htab Hr (es&a&b&q0&q1&Hn&Ei&Er&Et&E0&E1)].
  rewrite Ei in Ex. injection Ex as <-. split; [split; try done|].
  - unfold in_table in *. cbn. by rewrite length_insert.
  - exists es, (pop_frame a), b, (q0 ++ [f]), q1. split; [done|]. split; [cbn; by rewrite Ei|].
    split; [by rewrite <- (pop_ahead _ _ _ _ Eq)|]. cbn. split; [congruence|].
    rewrite Hs, E0, map_app, app_assoc. split; [done|]. rewrite Ho by done. done.
  - split; [exact Hc|]. split; [done|]. split; [done|]. by apply (pop_queued 0 1 s a).
Qed.

Lemma router_to_internet_outcome n s :
  relaying n s -> queued 1 s ->
  outcome ordinary (fun s' => relaying n s' /\ write_count (internet_socket s') = u32 (write_count (internet_socket s) + 1) /\
      host_side s' = host_side s /\ internet_side s' = internet_side s /\ (queued 0 s -> queued 0 s'))
    (router_to_internet s).
Proof.
  intros R (x&Ex&Hx)%queued_lookup. unfold router_to_internet, front, Router.interface. rewrite (rl_internet _ _ R), Ex, bindR_ok.
  destruct (NetworkInterface.frames_out (base x)) as [|f q] eqn:Eq; [done|]. rewrite bindR_ok.
  eapply outcome_bind with (P := fun _ => True).
  { unfold show. destruct (debug _); [|done]. eapply outcome_bind; [apply summary_plain|done]. }
  intros _ _. rewrite (rl_bounce _ _ R). eapply outcome_bind; [apply (sendto_whole ff fi taken sent); apply R|].
  intros [w k] (Hf&Hc&Ht&Hs&Ho).
  destruct R as [Hh Hi Hff Hfi Hb Htab Hr (es&a&b&q0&q1&Hn&Ei&Er&Et&E0&E1)].
  rewrite Ei in Ex. injection Ex as <-. split; [split; try done|].
  - unfold in_table in *. cbn. by rewrite length_insert.
  - exists es, a, (pop_frame b), q0, (q1 ++ [f]). split; [done|]. split; [cbn; by rewrite Ei|].
    split; [by rewrite <- (pop_ahead _ _ _ _ Eq)|]. cbn. split; [congruence|].
    rewrite Hs, E1, map_app, app_assoc. split; [|done]. rewrite Ho by done. done.
  - split; [exact Hc|]. split; [done|]. split; [done|]. by apply (pop_queued 1 0 s b).
Qed.

(** The four rules, in their order. *)
Inductive hop := HostIn | HostOut | InternetOut | InternetIn.
#[local] Instance hop_eq_dec : EqDecision hop.
Proof. solve_decision. Defined.

Definition rule_of (h : hop) : EventLoop.Rule St :=
  match h with
  | HostIn => EventLoop.mkRule frame_fd EventLoop.In (host_to_router shr32) EventLoop.always EventLoop.nothing
  | HostOut => EventLoop.mkRule frame_fd EventLoop.Out router_to_host (fun s => has_frames (host_side s) s) EventLoop.nothing
  | InternetOut => EventLoop.mkRule internet_socket EventLoop.Out router_to_internet
                     (fun s => has_frames (internet_side s) s) EventLoop.nothing
  | InternetIn => EventLoop.mkRule internet_socket EventLoop.In (internet_to_router shr32) EventLoop.always EventLoop.nothing
  end.
Definition all_hops : list hop := [HostIn; HostOut; InternetOut; InternetIn].

Lemma rules_hops : rules shr32 = map rule_of all_hops.
Proof. reflexivity. Qed.

Definition relies (h : hop) (s : St) : Prop :=
  match h with HostOut => queued 0 s | InternetOut => queued 1 s | _ => True end.

Lemma network_contract n : EventLoopTheorems.contract rule_of (fun _ s => relaying n s) relies (fun _ _ => True) ordinary.
Proof.
  split.
  - intros l i s _ R _. destruct i; cbn; try done; rewrite ?(rl_host _ _ R), ?(rl_internet _ _ R);
      by destruct (has_frames _ s) eqn:E.
  - intros l ps t s r errno revents s' R. unfold EventLoop.poll, net_poll.
    destruct (k_poll _ _ _) as [[[r1 e1] rev1] k'] eqn:Ep. intros [= <- <- <- <-].
    destruct (wire_poll _ _ _ _ _ _ _ Ep) as [Ht Hs]. split.
    + destruct R as [? ? ? ? ? ? ? (es&a&b&q0&q1&R)]. split; try done. exists es, a, b, q0, q1. cbn. by rewrite Ht, !Hs.
    + by intros [].
  - intros l1 i l2 s R. destruct i; (split; [done|]; split; [by intros j|done]).
  - intros l i s _ R Hp. destruct i; cbn -[u32 has_frames]; (eapply outcome_mono;
      [first [by apply host_to_router_outcome|by apply router_to_host_outcome
             |by apply router_to_internet_outcome|by apply internet_to_router_outcome]|done|];
      intros s' (?&Hc&_&_&Hq); split; [done|]; split; [intros []; cbn; auto; done|];
      left; rewrite Hc; zmod).
Qed.

(** *** Turns *)
Definition in_turn (n : nat) (t : list (EventLoop.Rule St) * St) : Prop :=
  relaying n t.2 /\ exists ids, NoDup ids /\ t.1 = map rule_of ids.

Lemma tick_outcome n s :
  relaying n s ->
  outcome ordinary (relaying (S n))
    (let! s := tick_interface (host_side s) s in tick_interface (internet_side s) s).
Proof.
  intros R. pose proof R as [Hh Hi _ _ _ _ _ (es&a&b&q0&q1&_&Ei&_)].
  pose proof (relaying_step n s Passes (kernel s) _ R eq_refl (tick_kept (router s))) as R'.
  cbn [arrival map ticks] in R'. rewrite app_nil_r, Nat.add_1_r in R'. specialize (R' eq_refl (fun _ => eq_refl)).
  destruct s as [[l t] h i w0 w1 ba d k]. cbn in Hh, Hi, Ei. subst l h i. exact R'.
Qed.

Lemma network_turn_outcome n t :
  in_turn n t ->
  outcome (fun e => ordinary e \/ e = EventLoop.polled_error)
    (fun '(more, t') => if more : bool then in_turn (S n) t' else True) (network_turn t).
Proof.
  destruct t as [rs s]. intros [R (ids&Hd&E)]. cbn in R, E. subst rs. unfold network_turn. cbn [fst snd].
  eapply outcome_bind; [apply (EventLoopTheorems.wait_outcome _ _ _ _ _ (network_contract n)); done|].
  intros [[ret rs] s1] (ids1&Hs&->&R1&_).
  assert (outcome (fun e => ordinary e \/ e = EventLoop.polled_error)
    (fun '(more, t') => if more : bool then in_turn (S n) t' else True)
    (let! s := tick_interface (host_side s1) s1 in
     let! s := tick_interface (internet_side s) s in ok (negb (aborted (kernel s)), (map rule_of ids1, s)))) as Hgo.
  { pose proof (tick_outcome n s1 R1) as T. destruct (tick_interface (host_side s1) s1) as [e|s2]; [by left|].
    cbn [bindR] in *. destruct (tick_interface (internet_side s2) s2) as [e|s3]; [by left|]. cbn in *.
    destruct (negb _); [|done]. split; [done|]. exists ids1. split; [by eapply sublist_NoDup|done]. }
  by destruct ret.
Qed.

(** The states in which the thread begins a turn, after so many others. *)
Inductive turned (t : list (EventLoop.Rule St) * St) : nat -> list (EventLoop.Rule St) * St -> Prop :=
  | turned_start : turned t 0 t
  | turned_more n t1 t2 : turned t n t1 -> network_turn t1 = ok (true, t2) -> turned t (S n) t2.

Lemma turned_in_turn t n t' : in_turn 0 t -> turned t n t' -> in_turn n t'.
Proof.
  intros H0'. induction 1 as [|n t1 t2 _ IH E]; [done|]. pose proof (network_turn_outcome n t1 IH) as P. by rewrite E in P.
Qed.

Lemma network_thread_throws fuel n t e :
  in_turn n t -> network_thread fuel t = Some (throw e) -> ordinary e \/ e = EventLoop.polled_error.
Proof.
  revert n t. induction fuel as [|fuel IH]; intros n t It; cbn [network_thread]; [done|].
  pose proof (network_turn_outcome n t It) as P. destruct (network_turn t) as [e'|[[] t']]; [|by apply (IH (S n))|done].
  by intros [= ->].
Qed.

End Relaying.

Section Network.
Context {K : Type} `{Resolver} `{Kernel K} `{SocketKernel K} `{Environment K}
  (taken : K -> list (Z * bytes)) (sent : Z -> K -> list (option Address.Address * bytes)).

(** A state the thread can start in: the router has its two interfaces. *)
Record connected (s : Net K) : Prop := mk_connected {
  cn_host : host_side s = 0;
  cn_internet : internet_side s = 1;
  cn_fds : fd_num (frame_fd s) <> fd_num (internet_socket s);
  cn_interfaces : length (Router._interfaces (router s)) = 2%nat;
  cn_table : in_table (router s)
}.

Lemma connected_in_turn shr32 s :
  connected s -> in_turn (fd_num (frame_fd s)) (fd_num (internet_socket s)) taken sent shr32 (bounce_address s) (router s)
    (kernel s) 0 (rules shr32, s).
Proof.
  intros [Hh Hi _ Hl Ht]. split.
  - destruct (Router._interfaces (router s)) as [|a [|b [|]]] eqn:Ei; try done. split; try done.
    exists [], a, b, [], []. split; [done|]. split; [done|]. split; [|cbn; by rewrite !app_nil_r].
    assert (forall x, ahead_of [] x = x) as Hnil by (intros [m ds]; unfold ahead_of; cbn; by rewrite ahead_nil).
    rewrite !Hnil. cbn. destruct (router s). cbn in *. by subst.
  - exists all_hops. split; [|apply rules_hops].
    repeat (apply NoDup_cons; split; [rewrite ?not_elem_of_cons; repeat split; try done; apply not_elem_of_nil|]). apply NoDup_nil_2.
Qed.

(** C14. The network thread of lab7 refines the router. Whenever it begins a turn, the
    datagrams it took from its two sockets, in their order and with its turns between
    them as the times the clock moved, lead the router from its first state to the present
    one, and the frames the router's interfaces have put out meanwhile are, in order and
    without loss, those sent on the two sockets, followed by those still queued. The
    thread is never ended by a busy wait, nor by undefined behaviour. *)
Theorem lab7_network_relays shr32 s
  `{!Wire K (fd_num (frame_fd s)) (fd_num (internet_socket s)) taken sent} :
  connected s ->
  (forall n rs s', turned (rules shr32, s) n (rs, s') ->
     exists es a b q0 q1, ticks es = n /\
       taken (kernel s') = taken (kernel s) ++
         map (letter (fd_num (frame_fd s)) (fd_num (internet_socket s))) (arrivals es) /\
       Router._interfaces (router s') = [a; b] /\
       run shr32 es (router s) = ok ((router s') <| Router._interfaces := [ahead_of q0 a; ahead_of q1 b] |>) /\
       sent (fd_num (frame_fd s)) (kernel s') =
         sent (fd_num (frame_fd s)) (kernel s) ++ map (fun f => (None, wire f)) q0 /\
       sent (fd_num (internet_socket s)) (kernel s') =
         sent (fd_num (internet_socket s)) (kernel s) ++ map (fun f => (Some (bounce_address s), wire f)) q1) /\
  (forall fuel e, network_thread fuel (rules shr32, s) = Some (throw e) ->
     e <> EventLoop.busy_wait /\ e <> undefined).
Proof.
  intros C. pose proof (connected_in_turn shr32 s C) as I0. split.
  - intros n rs s' T. destruct (turned_in_turn _ _ _ _ _ (cn_fds _ C) _ _ _ _ _ _ I0 T)
      as [[_ _ _ _ _ _ Hr (es&a&b&q0&q1&Hn&Ei&Er&Et&E0&E1)] _]. cbn in *.
    exists es, a, b, q0, q1. do 3 (split; [done|]). by rewrite Hr.
  - intros fuel e Ef.
    destruct (network_thread_throws _ _ _ _ _ (cn_fds _ C) _ _ _ _ _ _ _ I0 Ef) as [(?&_&_&_&?)| ->]; done.
Qed.

End Network.

End Lab7Theorems.
