(* ===== verification/Lab7Path.v ===== *)
(** * A segment's way through lab7

    The routers that apps/lab7.cc sets up at the two ends send the networks they name the
    right way, and a TCP segment written by the adapter of one end goes through both of
    them and is read by the adapter of the other. *)
From S2P Require Import Prelude Buffers Parser Checksum TcpSegment Ipv4 Ethernet Addresses.
From S2P Require Import Interface Router Descriptor Adapters Socket EventLoop SpongeSocket.
From S2P Require Import SocketTheorems Lab7.

Module Lab7Path.
Import AsyncNetworkInterface NetworkInterface EthernetFrame InterfaceTheorems AdapterTheorems Lab7 Lab7Theorems.

#[local] Arguments IPv4Datagram.serialize : simpl never.
#[local] Arguments Address.ipv4_numeric : simpl never.
#[local] Arguments Address.from_ipv4_numeric : simpl never.
#[local] Arguments Router.forwarded : simpl never.
#[local] Arguments send_datagram : simpl never.

(** ** One hop *)

(** The interface has the Ethernet address of [ip] in its cache, and the entry is young. *)
Definition resolved (ip : Z) (mac : EthernetAddress) (n : NetworkInterface) : Prop :=
  recent (_cache_time n) ip _arp_cache_timeout n = true /\ cached_address ip n = mac.

(** The datagram on its way in a frame. *)
Definition ip_frame (dst src : EthernetAddress) (body : BufferList.BufferList) : EthernetFrame :=
  mkEthernetFrame (EthernetHeader.mkEthernetHeader dst src EthernetHeader.TYPE_IPv4) body.
Definition on_wire (f : EthernetFrame) : bytes := BufferList.concatenate (serialize f).

Lemma send_resolved d a ip mac n :
  Address.ipv4_numeric a = ok ip -> resolved ip mac n -> Ipv4Theorems.sendable d ->
  exists l, IPv4Datagram.serialize d = ok l /\
    send_datagram d a n = ok (push_frame (ip_frame mac (_ethernet_address n) l) n).
Proof.
  intros Ea [Hr Hc] Hd. destruct (Ipv4Theorems.parse_serialized_datagram d Hd) as (l&El&_). exists l. split; [done|].
  unfold send_datagram. rewrite Ea, bindR_ok, Hr, El, bindR_ok, Hc. done.
Qed.

(** What arrives of a datagram. *)
Definition arrives_as (d d' : IPv4Datagram.IPv4Datagram) : Prop :=
  exists c p, d' = IPv4Datagram.mkIPv4Datagram ((IPv4Datagram.header d) <| IPv4Header.cksum := c |>) [p] /\
    Buffer.str p = BufferList.concatenate (IPv4Datagram.payload d) /\ Buffer.wf p /\ 0 <= c < 2 ^ 16.

Lemma arrives_sendable d d' : Ipv4Theorems.sendable d -> arrives_as d d' -> Ipv4Theorems.sendable d'.
Proof.
  intros ([]&Hw&Hl) (c&p&->&Hp&Hb&Hc). split; [by constructor|]. split.
  - split; [by constructor|]. change (zlen (Buffer.str p ++ []) < 2 ^ 63). rewrite app_nil_r, Hp. apply Hw.
  - cbn in *. rewrite Hl. f_equal. rewrite BufferList.size_concatenate by done. rewrite <- Hp. unfold BufferList.size. cbn.
    change (zlen (Buffer.str p)) with (Buffer.size p). rewrite u64_small; [done|]. pose proof (Buffer.size_range p Hb). lia.
Qed.

Lemma frame_arrives d l src n :
  Ipv4Theorems.sendable d -> IPv4Datagram.serialize d = ok l ->
  address_ok (_ethernet_address n) -> address_ok src ->
  exists g d', parse (Buffer.make (on_wire (ip_frame (_ethernet_address n) src l))) default_frame = ok (g, NoError) /\
    recv_frame g n = ok (n, Some d') /\ arrives_as d d'.
Proof.
  intros Hd El Hn Hs. destruct (deliver_ipv4 d l src n Hd El Hn Hs) as (c&p&E&Hp).
  set (f := mkEthernetFrame _ _) in E. unfold deliver in E. fold (ip_frame (_ethernet_address n) src l) in f. fold (on_wire f) in E.
  destruct (EthernetTheorems.parse_frame_total (Buffer.make (on_wire f)) default_frame) as (g&q&Eg&_).
  - apply Buffer.make_wf. pose proof (Ipv4Theorems.zlen_serialized d l Hd El) as Hl. destruct Hd as ([]&_).
    unfold on_wire. change (BufferList.concatenate (serialize f)) with
      (EthernetHeader.serialize (header f) ++ BufferList.concatenate l). unfold EthernetHeader.serialize.
    autorewrite with unparse zlen. destruct Hn as [Hn _], Hs as [Hs _].
    rewrite !zlen_address_bytes. cbn. unfold zlen in *. rewrite Hn, Hs. lia.
  - exists g, (IPv4Datagram.mkIPv4Datagram ((IPv4Datagram.header d) <| IPv4Header.cksum := c |>) [p]).
    split; [done|]. rewrite Eg in E. split; [exact E|]. by exists c, p.
Qed.

(** A router with nothing to route; [up] goes from interface 0 to interface 1. *)
Definition crossing (up : bool) (nin nout : NetworkInterface) (table : list Router.RouteMsg) : Router.Router :=
  let a := mkAsyncNetworkInterface nin [] in
  let b := mkAsyncNetworkInterface nout [] in
  Router.mkRouter (if up then [a; b] else [b; a]) table.
Definition entry (up : bool) : nat := if up then 0 else 1.

(** Where [route] leads: the next address and the interface. *)
Definition next_of (dst : Z) (route : Router.RouteMsg) : Z * Z :=
  (if Router.next_hop route =? 0 then dst else Router.next_hop route, Router.interface_num route).

Section Hop.
Context (shr32 : Z -> Z) (up : bool) (nin nout : NetworkInterface) (table : list Router.RouteMsg).
Context (d : IPv4Datagram.IPv4Datagram) (dst : Z) (route : Router.RouteMsg) (hop : Z).

Lemma router_hop l src mac :
  IPv4Header.dst (IPv4Datagram.header d) = dst -> Router.best_match shr32 dst table = Some route ->
  next_of dst route = (hop, if up then 1 else 0) -> 0 <= hop < 2 ^ 32 ->
  resolved hop mac nout -> address_ok (_ethernet_address nin) -> address_ok src ->
  Ipv4Theorems.sendable d -> 1 < IPv4Header.ttl (IPv4Datagram.header d) -> IPv4Datagram.serialize d = ok l ->
  exists d1 l', arrives_as d d1 /\ Ipv4Theorems.sendable (Router.forwarded d1) /\
    IPv4Datagram.serialize (Router.forwarded d1) = ok l' /\
    step shr32 (Arrives (entry up) (on_wire (ip_frame (_ethernet_address nin) src l))) (crossing up nin nout table) =
    ok (crossing up nin (push_frame (ip_frame mac (_ethernet_address nout) l') nout) table).
Proof.
  intros Hdst Hb [= Eh Hi] Hh Hr Hn Hs Hd Ht El. destruct (frame_arrives d l src nin Hd El Hn Hs) as (g&d1&Ep&Er&Ha).
  pose proof (arrives_sendable d d1 Hd Ha) as Hd1.
  assert (IPv4Header.ttl (IPv4Datagram.header d1) = IPv4Header.ttl (IPv4Datagram.header d) /\
          IPv4Header.dst (IPv4Datagram.header (Router.forwarded d1)) = dst) as [Et Ed] by (rewrite <- Hdst; by destruct Ha as (c&p&->&_)).
  assert (Ipv4Theorems.sendable (Router.forwarded d1)) as Hf by (apply RouterTheorems.forwarded_sendable; [done|lia]).
  destruct (send_resolved (Router.forwarded d1) _ _ _ _ (AddressTheorems.ipv4_numeric_from hop Hh) Hr Hf) as (l'&El'&Es).
  exists d1, l'. do 3 (split; [done|]). cbn [step]. rewrite Ep, bindR_ok, bool_decide_eq_false_2 by auto.
  assert (Router.route_one_datagram shr32 d1 ((crossing up nin nout table) <| Router._interfaces ::=
      insert (entry up) (mkAsyncNetworkInterface nin [d1]) |>) =
    Some (ok ((crossing up nin (push_frame (ip_frame mac (_ethernet_address nout) l') nout) table) <| Router._interfaces ::=
      insert (entry up) (mkAsyncNetworkInterface nin [d1]) |>))) as E1.
  { unfold Router.route_one_datagram. cbv zeta. rewrite Et, Ed.
    destruct (Z.eqb_spec (IPv4Header.ttl (IPv4Datagram.header d)) 0); [lia|].
    destruct (Z.eqb_spec (IPv4Header.ttl (IPv4Datagram.header d)) 1); [lia|]. cbn [orb].
    match goal with |- context [Router.best_match shr32 dst ?t] => change t with table end. rewrite Hb, Eh. unfold Router.send_on. rewrite Hi.
    destruct up; [change (Z.to_nat 1) with 1%nat|change (Z.to_nat 0) with 0%nat]; cbn; by rewrite Es. }
  assert (AsyncNetworkInterface.recv_frame g (mkAsyncNetworkInterface nin []) = ok (mkAsyncNetworkInterface nin [d1])) as Ea
    by (unfold AsyncNetworkInterface.recv_frame; cbn [base]; by rewrite Er).
  assert (Router._interfaces (crossing up nin nout table) !! entry up = Some (mkAsyncNetworkInterface nin [])) as Ei
    by (by destruct up).
  unfold on_frame. rewrite Ei, Ea, bindR_ok, RouterTheorems.route_eq.
  replace (concat (RouterTheorems.queues _)) with [d1] by (by destruct up). cbn [RouterTheorems.forward_all].
  rewrite E1. by destruct up.
Qed.

End Hop.

(** ** The two routers

    [c] is true at the client's end. *)
(** 192.168.0.1 and 172.16.0.1; 10.0.0.192 and 10.0.0.172; 192.168.0.50 and 172.16.0.100;
    192.168.0.0/16 and 172.16.0.0/12. *)
Definition gateway (c : bool) : Z := if c then 3232235521 else 2886729729.
Definition outside (c : bool) : Z := if c then 167772352 else 167772332.
Definition host (c : bool) : Z := if c then 3232235570 else 2886729828.
Definition network (c : bool) : Z * Z := if c then (3232235520, 16) else (2886729728, 12).
Definition internet : Z * Z := (167772160, 8).

Definition within (net : Z * Z) (dst : Z) : bool := (net.1 <=? dst) && (dst <? net.1 + 2 ^ (32 - net.2)).

(** Where a router is to send what is for [dst]: the next address, and the interface. *)
Definition way (c : bool) (dst : Z) : option (Z * Z) :=
  if within (network c) dst then Some (dst, 0)
  else if within internet dst then Some (dst, 1)
  else if within (network (negb c)) dst then Some (outside (negb c), 1)
  else None.

Definition table (c : bool) : list Router.RouteMsg :=
  [Router.mkRouteMsg (network c).1 (network c).2 0 0; Router.mkRouteMsg internet.1 internet.2 0 1;
   Router.mkRouteMsg (network (negb c)).1 (network (negb c)).2 (outside (negb c)) 1].

(** The widths of the host parts. *)
Ltac eval_widths := repeat match goal with
  | |- context [32 - ?n] => let x := eval vm_compute in (32 - n) in change (32 - n) with x
  | H : context [32 - ?n] |- _ => let x := eval vm_compute in (32 - n) in change (32 - n) with x in H
  end.

(** A prefix applies to the addresses of its network. *)
Lemma applies_within c dst route :
  0 <= dst < 2 ^ 32 -> route ∈ table c ->
  RouterTheorems.applies dst route <-> within (Router.route_prefix route, Router.prefix_length route) dst = true.
Proof.
  intros Hd Hr. unfold RouterTheorems.applies, within. rewrite andb_true_iff, Z.leb_le, Z.ltb_lt.
  destruct c; cbn in Hr; repeat (apply elem_of_cons in Hr as [->|Hr]);
    try (by apply not_elem_of_nil in Hr); cbn [Router.route_prefix Router.prefix_length network internet negb fst snd];
    rewrite !Z.shiftr_div_pow2 by lia; eval_widths; split; intros; try split; Z.div_mod_to_equations; lia.
Qed.

Lemma best_match_way shr32 c dst :
  0 <= dst < 2 ^ 32 -> next_of dst <$> Router.best_match shr32 dst (table c) = way c dst.
Proof.
  intros Hd. assert (Forall RouterTheorems.route_ok (table c)) as Hok by (destruct c; repeat constructor; cbn; lia).
  pose proof (RouterTheorems.consider_spec shr32 dst Hd (table c) Hok) as Hs. unfold Router.best_match.
  destruct (fold_left _ _ _) as [m [route|]]; cbn [snd fmap option_fmap option_map].
  - destruct Hs as [_ (t1&t2&E&Ha&_)]. assert (route ∈ table c) as Hr by (rewrite E; apply elem_of_app; right; by left).
    apply (applies_within c) in Ha; [|done..]. clear E. unfold way, within, next_of in *.
    apply andb_true_iff in Ha as [H1%Z.leb_le H2%Z.ltb_lt].
    destruct c; cbn in Hr; repeat (apply elem_of_cons in Hr as [->|Hr]); try (by apply not_elem_of_nil in Hr);
      cbn [Router.route_prefix Router.prefix_length Router.next_hop Router.interface_num network internet negb fst snd] in *; eval_widths;
      repeat (match goal with |- context [?a <=? ?b] => destruct (Z.leb_spec a b) end;
              match goal with |- context [?a <? ?b] => destruct (Z.ltb_spec a b) end; cbn [andb]);
      try done; lia.
  - destruct Hs as [_ Hs].
    assert (forall route, route ∈ table c -> within (Router.route_prefix route, Router.prefix_length route) dst = false) as Hn.
    { intros route Hr. apply not_true_iff_false. intros Hw%(applies_within c); [|done..]. by apply (Hs route Hr). }
    unfold way. assert (forall k route, table c !! k = Some route ->
      within (Router.route_prefix route, Router.prefix_length route) dst = false) as Hk
      by (intros k route Hk; by eapply Hn, list_elem_of_lookup_2).
    pose proof (Hk 0%nat _ eq_refl) as E1. pose proof (Hk 1%nat _ eq_refl) as E2. pose proof (Hk 2%nat _ eq_refl) as E3.
    cbn [Router.route_prefix Router.prefix_length] in *. rewrite <- !surjective_pairing in *. by rewrite E1, E2, E3.
Qed.

Section Topology.
Context `{ResolverSpec} (Hntoa : forall ip, 0 <= ip < 2 ^ 32 -> inet_ntoa ip = NumericResolver.dotted ip).

Lemma named str ip :
  0 <= ip < 2 ^ 32 -> bytes_of_string str = NumericResolver.dotted ip ->
  Address.of_ip_port (bytes_of_string str) 0 = ok (AddressTheorems.ipv4_address ip 0).
Proof. intros Hi ->. rewrite <- Hntoa by done. by apply AddressTheorems.of_ip_port_numeric. Qed.

Lemma new_interface_eq rd str ip r :
  0 <= ip < 2 ^ 32 -> bytes_of_string str = NumericResolver.dotted ip ->
  new_interface rd str r = ok (Router.add_interface (of_interface
    (make (random_router_ethernet_address rd) (AddressTheorems.ipv4_address ip 0))) r).
Proof. intros Hi Hs. unfold new_interface. by rewrite (named str ip). Qed.

Lemma new_route_direct prefix p len id r :
  0 <= p < 2 ^ 32 -> bytes_of_string prefix = NumericResolver.dotted p ->
  new_route prefix len None id r = ok (r <| Router._route_table ::= fun t => t ++ [Router.mkRouteMsg p len 0 id] |>).
Proof.
  intros Hp Ep. unfold new_route. rewrite (named prefix p), bindR_ok by done.
  by rewrite AddressTheorems.ipv4_numeric_address, !bindR_ok.
Qed.
Lemma new_route_via prefix p len str hop id r :
  0 <= p < 2 ^ 32 -> bytes_of_string prefix = NumericResolver.dotted p ->
  0 <= hop < 2 ^ 32 -> bytes_of_string str = NumericResolver.dotted hop ->
  new_route prefix len (Some str) id r = ok (r <| Router._route_table ::= fun t => t ++ [Router.mkRouteMsg p len hop id] |>).
Proof.
  intros Hp Ep Hh Eh. unfold new_route. rewrite (named prefix p), bindR_ok by done.
  rewrite AddressTheorems.ipv4_numeric_address, bindR_ok by done. rewrite (named str hop), !bindR_ok by done.
  unfold Router.add_route. by rewrite AddressTheorems.ipv4_numeric_address, !bindR_ok.
Qed.

Definition first_router (c : bool) (rd1 rd2 : list Z) : Router.Router :=
  Router.mkRouter
    [of_interface (make (random_router_ethernet_address rd1) (AddressTheorems.ipv4_address (gateway c) 0));
     of_interface (make (random_router_ethernet_address rd2) (AddressTheorems.ipv4_address (outside c) 0))] (table c).

Lemma set_up_router_eq c rd1 rd2 : set_up_router c rd1 rd2 = ok (first_router c rd1 rd2, 0, 1).
Proof.
  unfold set_up_router. destruct c.
  - rewrite (new_interface_eq _ _ (gateway true)), bindR_ok by done. cbn [Router.add_interface].
    rewrite (new_interface_eq _ _ (outside true)), bindR_ok by done. cbn [Router.add_interface].
    rewrite (new_route_direct _ 3232235520), bindR_ok by done. rewrite (new_route_direct _ 167772160), bindR_ok by done.
    by rewrite (new_route_via _ 2886729728 _ _ 167772332), bindR_ok by done.
  - rewrite (new_interface_eq _ _ (gateway false)), bindR_ok by done. cbn [Router.add_interface].
    rewrite (new_interface_eq _ _ (outside false)), bindR_ok by done. cbn [Router.add_interface].
    rewrite (new_route_direct _ 2886729728), bindR_ok by done. rewrite (new_route_direct _ 167772160), bindR_ok by done.
    by rewrite (new_route_via _ 3232235520 _ _ 167772352), bindR_ok by done.
Qed.

(** The routers that lab7 sets up are connected the way the thread expects and send
    every address the way their networks lie: the own network to the host's side, 10/8
    directly to the other side, the network of the other end through its router, and
    nothing else anywhere. *)
Theorem lab7_topology shr32 c rd1 rd2 :
  exists r, set_up_router c rd1 rd2 = ok (r, 0, 1) /\ length (Router._interfaces r) = 2%nat /\
    RouterTheorems.in_table r /\
    forall dst, 0 <= dst < 2 ^ 32 ->
      next_of dst <$> Router.best_match shr32 dst (Router._route_table r) = way c dst.
Proof.
  exists (first_router c rd1 rd2). split; [apply set_up_router_eq|]. split; [done|].
  split; [destruct c; repeat constructor; cbn; lia|]. intros dst. apply best_match_way.
Qed.

End Topology.

(** ** From adapter to adapter *)
Section Path.
Context `{ResolverSpec} (shr32 : Z -> Z) (c : bool) (pA pB : Z).
Context (a b : NetworkInterfaceAdapter) (nA0 nA1 nB1 nB0 : NetworkInterface).

(** The two ends and the routers between them once the addresses are resolved: the
    interfaces of the first router are [nA0] and [nA1], those of the second [nB1], on the
    Internet's side, and [nB0]. *)
Record linked : Prop := mk_linked {
  lk_ports : 0 <= pA < 2 ^ 16 /\ 0 <= pB < 2 ^ 16;
  lk_endpoint : endpoint (host c) pA (host (negb c)) pB (eth_base a);
  lk_next_hop : _next_hop a = AddressTheorems.ipv4_address (gateway c) 0;
  lk_idle : frames_out (_interface a) = [] /\ frames_out (_interface b) = [];
  lk_addresses : Forall (fun n => address_ok (_ethernet_address n)) [_interface a; nA0; nA1; nB1; nB0; _interface b];
  lk_gateway : resolved (gateway c) (_ethernet_address nA0) (_interface a);
  lk_peer : resolved (outside (negb c)) (_ethernet_address nB1) nA1;
  lk_host : resolved (host (negb c)) (_ethernet_address (_interface b)) nB0
}.

Lemma host_range e : 0 <= host e < 2 ^ 32.
Proof. by destruct e. Qed.

(** The routes a segment to the other host takes. *)
Lemma way_out : exists route, Router.best_match shr32 (host (negb c)) (table c) = Some route /\
  next_of (host (negb c)) route = (outside (negb c), 1).
Proof.
  pose proof (best_match_way shr32 c (host (negb c)) (host_range _)) as E.
  replace (way c _) with (Some (outside (negb c), 1)) in E by (by destruct c).
  destruct (Router.best_match _ _ _) as [route|]; [|done]. exists route. by apply (inj Some) in E.
Qed.
Lemma way_in : exists route, Router.best_match shr32 (host (negb c)) (table (negb c)) = Some route /\
  next_of (host (negb c)) route = (host (negb c), 0).
Proof.
  pose proof (best_match_way shr32 (negb c) (host (negb c)) (host_range _)) as E.
  replace (way _ _) with (Some (host (negb c), 0)) in E by (by destruct c).
  destruct (Router.best_match _ _ _) as [route|]; [|done]. exists route. by apply (inj Some) in E.
Qed.

(** A change of TTL and checksum, with the payload in one buffer. *)
Definition same_but_hops (d d' : IPv4Datagram.IPv4Datagram) : Prop :=
  (exists ck t, IPv4Datagram.header d' = (IPv4Datagram.header d) <| IPv4Header.cksum := ck |> <| IPv4Header.ttl := t |>) /\
  BufferList.concatenate (IPv4Datagram.payload d') = BufferList.concatenate (IPv4Datagram.payload d).

Lemma forwarded_hops d d1 : arrives_as d d1 -> same_but_hops d (Router.forwarded d1).
Proof. intros (ck&p&->&Hp&_). split; [by eexists _, _|]. rewrite <- Hp. apply app_nil_r. Qed.
Lemma same_but_hops_trans d d' d'' : same_but_hops d d' -> same_but_hops d' d'' -> same_but_hops d d''.
Proof.
  intros [(ck&t&E) Hp] [(ck'&t'&E') Hp']. split; [|congruence]. exists ck', t'. by rewrite E', E.
Qed.

Lemma adapter_writes seg :
  linked -> wrappable seg ->
  exists body l, TCPSegment.serialize (IPv4Header.pseudo_cksum (wrap_header (host c) (host (negb c)) seg)) (set_ports pA pB seg) = ok body /\
    let d := IPv4Datagram.mkIPv4Datagram (wrap_header (host c) (host (negb c)) seg) body in
    Ipv4Theorems.sendable d /\ IPv4Datagram.serialize d = ok l /\
    nia_write seg a =
      ok (a, [serialize (ip_frame (_ethernet_address nA0) (_ethernet_address (_interface a)) l)], set_ports pA pB seg).
Proof.
  intros [[HpA HpB] He Hn [Hi _] _ Hg _ _] Hw.
  destruct (wrap_datagram _ pA _ pB (host_range c) HpA (host_range (negb c)) HpB seg _ He Hw) as (body&Eb&Ew&Hd).
  assert (0 <= gateway c < 2 ^ 32) as Hgr by (by destruct c).
  destruct (send_resolved _ (_next_hop a) (gateway c) _ (_interface a)
    ltac:(rewrite Hn; by apply AddressTheorems.ipv4_numeric_address) Hg Hd) as (l&El&Es).
  exists body, l. split; [done|]. split; [done|]. split; [done|]. unfold nia_write, eth_write.
  rewrite Ew, bindR_ok, Es, bindR_ok. unfold send_pending. destruct a as [base [mac ip q now cache times his pend] hop]. cbn in *. by subst q.
Qed.

Lemma adapter_reads seg body d l src b' :
  linked -> wrappable seg -> accepts (host c) pA (host (negb c)) pB seg (eth_base b) b' ->
  TCPSegment.serialize (IPv4Header.pseudo_cksum (wrap_header (host c) (host (negb c)) seg)) (set_ports pA pB seg) = ok body ->
  same_but_hops (IPv4Datagram.mkIPv4Datagram (wrap_header (host c) (host (negb c)) seg) body) d ->
  Ipv4Theorems.sendable d -> IPv4Datagram.serialize d = ok l -> address_ok src ->
  exists got, carried pA pB seg got /\
    nia_read (on_wire (ip_frame (_ethernet_address (_interface b)) src l)) b = ok (b <| eth_base := b' |>, [], Some got).
Proof.
  intros [[HpA HpB] _ _ [_ Hi] Hm _ _ _] Hw Ha Eb [(ck&t&Eh) Ep] Hd El Hs.
  assert (address_ok (_ethernet_address (_interface b))) as Hmb by (do 5 apply Forall_cons_1 in Hm as [_ Hm]; by apply Forall_cons_1 in Hm as [? _]).
  destruct (frame_arrives d l src (_interface b) Hd El Hmb Hs) as (g&d'&Eg&Er&ck'&p&->&Hp&Hpw&_).
  destruct (unwrap_carried _ pA _ pB (host_range c) HpA (host_range (negb c)) HpB seg body
    ((IPv4Datagram.header d) <| IPv4Header.cksum := ck' |>) p (eth_base b) b' Hw Ha Eb Hpw) as (got&Hc&Eu).
  { rewrite Hp, Ep. done. }
  { exists ck', t. by rewrite Eh. }
  exists got. split; [done|]. unfold nia_read, eth_read. rewrite Eg, bindR_ok, bool_decide_eq_false_2 by auto.
  rewrite Er, bindR_ok. unfold send_pending. destruct b as [base [mac ip q now cache times his pend] hop].
  cbn [_interface frames_out _frames_out] in *. subst q. cbn -[unwrap_tcp_in_ip]. cbn in Eu. by rewrite Eu.
Qed.

(** C15. Once the addresses are resolved, a segment that the adapter of one end writes goes
    through both routers and is what the adapter of the other end reads, whichever end is
    the client's: the frame is taken by the router of the sender's side, which sends it to
    the other router, which sends it to the other host; there the segment comes out with
    its ports and checksum filled in, and a listening adapter has adopted the sender. *)
Theorem lab7_segment_crosses seg b' :
  linked -> wrappable seg -> accepts (host c) pA (host (negb c)) pB seg (eth_base b) b' ->
  exists w fA fB got,
    nia_write seg a = ok (a, [w], set_ports pA pB seg) /\
    step shr32 (Arrives 0 (BufferList.concatenate w)) (crossing true nA0 nA1 (table c)) =
      ok (crossing true nA0 (push_frame fA nA1) (table c)) /\
    step shr32 (Arrives 1 (on_wire fA)) (crossing false nB1 nB0 (table (negb c))) =
      ok (crossing false nB1 (push_frame fB nB0) (table (negb c))) /\
    nia_read (on_wire fB) b = ok (b <| eth_base := b' |>, [], Some got) /\ carried pA pB seg got.
Proof.
  intros L Hw Ha. destruct (adapter_writes seg L Hw) as (body&l&Eb&Hd&El&Ew).
  set (d := IPv4Datagram.mkIPv4Datagram _ _) in *. pose proof (lk_addresses L) as Hm.
  apply Forall_cons_1 in Hm as [HmA Hm]. apply Forall_cons_1 in Hm as [HmA0 Hm]. apply Forall_cons_1 in Hm as [HmA1 Hm].
  apply Forall_cons_1 in Hm as [HmB1 Hm]. apply Forall_cons_1 in Hm as [HmB0 _].
  destruct way_out as (route&Er&Eo). destruct way_in as (route'&Er'&Eo').
  assert (0 <= outside (negb c) < 2 ^ 32) as Hor by (by destruct c).
  destruct (router_hop shr32 true nA0 nA1 (table c) d (host (negb c)) route _ l (_ethernet_address (_interface a)) _
    eq_refl Er Eo Hor (lk_peer L)) as (d1&l1&A1&S1&E1&St1); [done..|].
  assert (1 < IPv4Header.ttl (IPv4Datagram.header (Router.forwarded d1)) /\
    IPv4Header.dst (IPv4Datagram.header (Router.forwarded d1)) = host (negb c)) as [Ht1 Ed1] by (by destruct A1 as (?&?&->&_)).
  destruct (router_hop shr32 false nB1 nB0 (table (negb c)) (Router.forwarded d1) (host (negb c)) route' _ l1
    (_ethernet_address nA1) _ Ed1 Er' Eo' (host_range _) (lk_host L)) as (d2&l2&A2&S2&E2&St2); [done..|].
  destruct (adapter_reads seg body (Router.forwarded d2) l2 (_ethernet_address nB0) b' L Hw Ha Eb) as (got&Hc&Eg); try done.
  { eapply same_but_hops_trans; [by apply forwarded_hops|by apply forwarded_hops]. }
  by eexists _, _, _, got.
Qed.

End Path.

(** ** Runs *)
Module Run.
Import FileDescriptor.

Definition letter := (Z * bytes)%type.
Record machine := mkMachine { inbox : list letter; took : list letter; mail : list (Z * (option Address.Address * bytes)) }.
Definition sent_on (fd : Z) (m : machine) : list (option Address.Address * bytes) :=
  map snd (filter (fun x => x.1 = fd) (mail m)).

(** The first datagram that waits at [fd], and the others. *)
Fixpoint pick (fd : Z) (l : list letter) : option (bytes * list letter) :=
  match l with
  | [] => None
  | e :: l => if e.1 =? fd then Some (e.2, l) else option_map (fun '(x, l) => (x, e :: l)) (pick fd l)
  end.

#[local] Instance machine_kernel : Kernel machine := {
  k_read fd n m :=
    match pick fd (inbox m) with
    | Some (d, l) => (zlen d, 0, d, mkMachine l (took m ++ [(fd, d)]) (mail m))
    | None => (-1, 11, [], m)
    end;
  k_writev fd iovs m := (zlen (concat (map fst iovs)), 0, mkMachine (inbox m) (took m) (mail m ++ [(fd, (None, concat (map fst iovs)))]));
  k_close fd m := (0, 0, m);
  k_fcntl fd cmd arg m := (0, 0, m)
}.
#[local] Instance machine_sockets : SocketKernel machine := {
  k_socket d t m := (5, 0, m);
  k_socketpair d t m := (0, 0, (2, 3), m);
  k_getsockopt fd level o m := (0, 0, (0, 4), m);
  k_setsockopt fd l o v m := (0, 0, m);
  k_getsockname fd m := (0, 0, ([], 0), m);
  k_getpeername fd m := (0, 0, ([], 0), m);
  k_bind fd a m := (0, 0, m);
  k_connect fd a m := (0, 0, m);
  k_shutdown fd how m := (0, 0, m);
  k_listen fd b m := (0, 0, m);
  k_accept fd m := (6, 0, m);
  k_recvfrom fd n m := (-1, 11, [], ([], 0), m);
  k_sendmsg fd to iovs m :=
    (zlen (concat (map fst iovs)), 0, mkMachine (inbox m) (took m) (mail m ++ [(fd, (to, concat (map fst iovs)))]));
  k_open path m := (4, 0, m);
  k_tunsetiff fd flags name m := (0, 0, m)
}.
(** A descriptor can be written, and read when a datagram waits at it. *)
#[local] Instance machine_environment : Environment machine := {
  k_poll ps timeout m := (1, 0, (fun i =>
    Z.lor EventLoop.POLLOUT (match pick (nth i (map EventLoop.poll_fd ps) 0) (inbox m) with Some _ => EventLoop.POLLIN | None => 0 end)), m);
  timestamp_ms m := (0, m);
  aborted m := false
}.

Lemma sent_on_app fd m x :
  map snd (filter (fun y => y.1 = fd) (mail m ++ [x])) = sent_on fd m ++ (if bool_decide (x.1 = fd) then [x.2] else []).
Proof.
  unfold sent_on. rewrite filter_app, map_app. f_equal.
  destruct (bool_decide_reflect (x.1 = fd)); [by rewrite filter_cons_True|by rewrite filter_cons_False].
Qed.

Lemma machine_wire ff fi : Wire machine ff fi took sent_on.
Proof.
  split.
  - intros fd n k r errno data k' _. cbn. destruct (pick fd (inbox k)) as [[d l]|]; intros [= <- <- <- <-]; [|by split].
    pose proof (zlen_nonneg d). split; [lia|]. split; [done|]. intros _. cbn. do 3 f_equal. by rewrite take_ge by (unfold zlen; lia).
  - intros iovs k r errno k' [= <- <- <-]. pose proof (zlen_nonneg (concat (map fst iovs))). split; [lia|]. split; [done|].
    split; [intros fd' Hf|intros _; split; [done|]]; unfold sent_on at 1; cbn; rewrite sent_on_app; cbn.
    + rewrite bool_decide_eq_false_2 by done. apply app_nil_r.
    + by rewrite bool_decide_eq_true_2.
  - intros a iovs k r errno k' [= <- <- <-]. pose proof (zlen_nonneg (concat (map fst iovs))). split; [lia|]. split; [done|].
    split; [intros fd' Hf|intros _; split; [done|]]; unfold sent_on at 1; cbn; rewrite sent_on_app; cbn.
    + rewrite bool_decide_eq_false_2 by done. apply app_nil_r.
    + by rewrite bool_decide_eq_true_2.
  - by intros ps t k r errno revents k' [= <- <- <- <-].
Qed.

#[local] Existing Instance NumericResolver.numeric_resolver.

(** Ethernet addresses, and interfaces that know one another. *)
Definition mac (n : Z) : EthernetAddress := [2; 0; 0; 0; 0; n].
Definition knowing (n ip : Z) (peer peer_mac : Z) : NetworkInterface :=
  mkNetworkInterface (mac n) (Address.from_ipv4_numeric ip) [] 0 {[peer := mac peer_mac]} {[peer := 0]} ∅ ∅.
Definition end_of (listen : bool) (ip p ip' p' : Z) (n : NetworkInterface) (hop : Z) : NetworkInterfaceAdapter :=
  mkEthernetAdapter (FdAdapterBase.mkFdAdapterBase
    (mkFdAdapterConfig (AddressTheorems.ipv4_address ip p) (AddressTheorems.ipv4_address ip' p') 0 0) listen) n
    (AddressTheorems.ipv4_address hop 0).

Definition client : NetworkInterfaceAdapter :=
  end_of false (host true) 4000 (host false) 1234 (knowing 1 (host true) (gateway true) 2) (gateway true).
Definition server : NetworkInterfaceAdapter :=
  end_of true (host false) 1234 0 0 (knowing 6 (host false) (gateway false) 5) (gateway false).
Definition client_in : NetworkInterface := knowing 2 (gateway true) (host true) 1.
Definition client_out : NetworkInterface := knowing 3 (outside true) (outside false) 4.
Definition server_out : NetworkInterface := knowing 4 (outside false) (outside true) 3.
Definition server_in : NetworkInterface := knowing 5 (gateway false) (host false) 6.

Lemma lab7_topology_witness :
  exists r, set_up_router true [] [] = ok (r, 0, 1) /\
    next_of (host false) <$> Router.best_match (fun x => x) (host false) (Router._route_table r) = Some (outside false, 1).
Proof.
  destruct (lab7_topology (H0 := NumericResolver.numeric_resolver_spec) (fun ip _ => eq_refl) (fun x => x) true [] []) as (r&E&_&_&Hw).
  exists r. split; [exact E|]. rewrite Hw by done. reflexivity.
Defined.

(** The thread of the client's end: a datagram of the host arrives, and goes out to the
    other router. *)
Definition host_frame : bytes :=
  match nia_write demo_syn client with
  | inr (_, [w], _) => BufferList.concatenate w
  | _ => []
  end.
Definition bounce : Address.Address := AddressTheorems.ipv4_address 2130706433 5000.
Definition client_net : Net machine :=
  mkNet (crossing true client_in client_out (table true)) 0 1 (mkFDWrapper 3 false false 0 0) (mkFDWrapper 4 false false 0 0)
    bounce true (mkMachine [(3, host_frame)] [] []).

Lemma two_turns_ok :
  match network_turn (rules (fun x => x), client_net) with
  | inr (true, t1) =>
      match network_turn t1 with
      | inr (true, t2) => map fst (mail (kernel t2.2)) = [4] /\ map fst (sent_on 4 (kernel t2.2)) = [Some bounce]
      | _ => False
      end
  | _ => False
  end.
Proof. vm_compute. split; reflexivity. Qed.

Lemma client_net_connected : connected client_net.
Proof. split; try done. repeat constructor. Qed.

Lemma lab7_network_relays_witness :
  exists t1 t2, network_turn (rules (fun x => x), client_net) = ok (true, t1) /\ network_turn t1 = ok (true, t2) /\
    exists es a b q0 f, ticks es = 2%nat /\ took (kernel t2.2) = map (Lab7Theorems.letter 3 4) (arrivals es) /\
      run (fun x => x) es (router client_net) =
        ok ((router t2.2) <| Router._interfaces := [RouterQueue.ahead_of q0 a; RouterQueue.ahead_of [f] b] |>).
Proof.
  pose proof two_turns_ok as Hd. revert Hd.
  destruct (network_turn (rules (fun x => x), client_net)) as [e|[[] t1]] eqn:E1; intros Hd; [destruct Hd| |destruct Hd].
  destruct (network_turn t1) as [e|[[] [rs2 s2]]] eqn:E2; [destruct Hd| |destruct Hd]. exists t1, (rs2, s2). split; [reflexivity|]. split; [exact E2|].
  destruct (lab7_network_relays (Wire0 := machine_wire 3 4) took sent_on (fun x => x) client_net client_net_connected) as [Hr _].
  destruct (Hr 2%nat rs2 s2) as (es&a&b&q0&q1&Ht&Ek&_&Er&_&Es).
  - eapply turned_more; [eapply turned_more; [apply turned_start|exact E1]|exact E2].
  - destruct Hd as [_ Hd]. cbn [snd] in Hd.
    assert (sent_on 4 (kernel s2) = map (fun f => (Some bounce, wire f)) q1) as Es' by exact Es.
    rewrite Es' in Hd. destruct q1 as [|f [|g q]]; [discriminate Hd| |discriminate Hd].
    exists es, a, b, q0, f. split; [exact Ht|]. split; [exact Ek|exact Er].
Defined.

Lemma lab7_segment_crosses_witness :
  exists w fA fB got,
    nia_write demo_syn client = ok (client, [w], set_ports 4000 1234 demo_syn) /\
    step (fun x => x) (Arrives 0 (BufferList.concatenate w)) (crossing true client_in client_out (table true)) =
      ok (crossing true client_in (push_frame fA client_out) (table true)) /\
    nia_read (on_wire fB) server = ok (server <| eth_base := demo_base false (host false) 1234 (host true) 4000 |>, [], Some got).
Proof.
  destruct (lab7_segment_crosses (H0 := NumericResolver.numeric_resolver_spec) (fun x => x) true 4000 1234 client server
    client_in client_out server_out server_in demo_syn (demo_base false (host false) 1234 (host true) 4000)) as (w&fA&fB&got&E1&E2&_&E3&_).
  - split.
    + split; split; reflexivity || (intros E; discriminate E).
    + split; reflexivity.
    + reflexivity.
    + split; reflexivity.
    + repeat constructor; done.
    + split; vm_compute; reflexivity.
    + split; vm_compute; reflexivity.
    + split; vm_compute; reflexivity.
  - exact demo_syn_wrappable.
  - split; [exists (host false); split; [split; reflexivity || (intros E; discriminate E)|reflexivity]|]. split; [reflexivity|]. split; reflexivity.
  - exists w, fA, fB, got. split; [exact E1|]. split; [exact E2|exact E3].
Defined.

End Run.

End Lab7Path.
