(* ===== verification/CString.v ===== *)
(** * The C string functions that the command lines are read with

    [strncmp], [strtol] with base 0, and [strtof] with the arithmetic of [float] as far as
    a loss rate needs it, as the C standard describes them in the "C" locale; and the way
    a program ends. A [char *] is the bytes before the terminating zero. *)
From S2P Require Import Prelude Parser Addresses.

(** ** Ends of a program *)

Definition EXIT_SUCCESS : Z := 0.
Definition EXIT_FAILURE : Z := 1.

(** A function that may call [exit]: it returns, or the program has ended with a status
    and what it has printed. *)
Inductive ended (A : Type) :=
  | Returned (a : A)
  | Exited (status : Z) (output : bytes).
Arguments Returned {A} a.
Arguments Exited {A} status output.

(** The status of a program whose [main] catches what is derived from [std::exception]. *)
Definition status_of {A} (r : result (ended A)) : Z :=
  match r with
  | inl _ => EXIT_FAILURE
  | inr (Returned _) => EXIT_SUCCESS
  | inr (Exited status _) => status
  end.

(** [strncmp(a, b, n) == 0] *)
Fixpoint strncmp (n : nat) (a b : bytes) : bool :=
  match n, a, b with
  | O, _, _ => true
  | S _, [], [] => true
  | S n, x :: a, y :: b => bool_decide (x = y) && strncmp n a b
  | _, _, _ => false
  end.

(** ** Integers *)

(** [isspace] *)
Definition isspace (c : byte) : bool :=
  let v := byte_to_Z c in (v =? 32) || ((9 <=? v) && (v <=? 13)).
Fixpoint skip_space (s : bytes) : bytes :=
  match s with
  | c :: s' => if isspace c then skip_space s' else s
  | [] => []
  end.

(** An optional sign. *)
Definition read_sign (s : bytes) : bool * bytes :=
  match s with
  | x2d :: s => (true, s)
  | x2b :: s => (false, s)
  | _ => (false, s)
  end.

(** The value of a digit or letter; 36 for other characters. *)
Definition digit_value (c : byte) : Z :=
  let v := byte_to_Z c in
  if (48 <=? v) && (v <=? 57) then v - 48
  else if (97 <=? v) && (v <=? 122) then v - 87
  else if (65 <=? v) && (v <=? 90) then v - 55
  else 36.

(** The leading digits in a base: their number, their count and the rest. *)
Fixpoint digits (base acc : Z) (count : nat) (s : bytes) : Z * nat * bytes :=
  match s with
  | c :: s' => if digit_value c <? base then digits base (base * acc + digit_value c) (S count) s'
               else (acc, count, s)
  | [] => (acc, count, [])
  end.

Definition is_x (c : byte) : bool := bool_decide (c = x78) || bool_decide (c = x58).

(** The base of a number that may have a prefix, and what follows the prefix. *)
Definition base_prefix (s : bytes) : Z * bytes :=
  match s with
  | x30 :: c :: s' => if is_x c then (16, s') else (8, s)
  | x30 :: _ => (8, s)
  | _ => (10, s)
  end.

Definition LONG_MAX : Z := 2 ^ 63 - 1.
Definition LONG_MIN : Z := - 2 ^ 63.

(** [strtol(s, nullptr, 0)] *)
Definition strtol (s : bytes) : Z :=
  let (negative, s) := read_sign (skip_space s) in
  let (base, s) := base_prefix s in
  let '(n, _, _) := digits base 0 0 s in
  if negative then Z.max LONG_MIN (- n) else Z.min LONG_MAX n.

(** ** Single-precision numbers

    A finite [float] is its sign, its significand of up to 24 bits and its exponent. *)
Inductive float :=
  | NaN
  | Infinity (negative : bool)
  | Finite (negative : bool) (m e : Z).

(** The quotient of [n] and [d], rounded to the nearest integer, ties to even. *)
Definition round_even (n d : Z) : Z :=
  let q := n / d in
  let r := n mod d in
  if 2 * r <? d then q else if d <? 2 * r then q + 1 else if Z.even q then q else q + 1.

(** [n / d * 2 ^ k] as a quotient. *)
Definition scaled (n d k : Z) : Z * Z := if 0 <=? k then (n * 2 ^ k, d) else (n, d * 2 ^ (- k)).

(** The largest [k] with [2 ^ k * d <= n]. *)
Definition binary_exponent (n d : Z) : Z :=
  let k := Z.log2 n - Z.log2 d in
  let (a, b) := scaled n d (- k) in
  if b <=? a then k else k - 1.

(** The [float] nearest to [n / d]: 24 bits, exponents from -149 up, and infinity for what
    rounds to 2^128 or more. *)
Definition nearest (negative : bool) (n d : Z) : float :=
  if n =? 0 then Finite negative 0 0
  else
    let e := Z.max (binary_exponent n d - 23) (-149) in
    let (a, b) := scaled n d (- e) in
    let m := round_even a b in
    if (104 <? e) || ((e =? 104) && (m =? 2 ^ 24)) then Infinity negative else Finite negative m e.

(** A finite number as a quotient. *)
Definition quotient (m e : Z) : Z * Z := scaled m 1 e.

(** [static_cast<float>(k) * x] for a [k] of at most 24 bits. *)
Definition times (k : Z) (x : float) : float :=
  match x with
  | NaN => NaN
  | Infinity negative => if k =? 0 then NaN else Infinity negative
  | Finite negative m e => let (n, d) := quotient m e in nearest negative (k * n) d
  end.

(** [static_cast<uint16_t>(x)]: the fraction is dropped; undefined where the rest is not
    the value of a [uint16_t]. *)
Definition to_uint16 (x : float) : result Z :=
  match x with
  | Finite negative m e =>
      let (n, d) := quotient m e in
      let v := if negative then - (n / d) else n / d in
      if (0 <=? v) && (v <? 2 ^ 16) then ok v else throw undefined
  | _ => throw undefined
  end.

(** The characters of [word], in either case, at the start of [s]. *)
Definition lower (c : byte) : byte :=
  let v := byte_to_Z c in if (65 <=? v) && (v <=? 90) then byte_of_Z (v + 32) else c.
Definition starts (word : string) (s : bytes) : bool :=
  let w := bytes_of_string word in bool_decide (take (length w) (map lower s) = w).

(** Digits with a point: the digits as one number, how many of them follow the point, how
    many there are, and the rest. *)
Definition significand (base : Z) (s : bytes) : Z * nat * nat * bytes :=
  let '(n, count, rest) := digits base 0 0 s in
  match rest with
  | x2e :: rest => let '(n, count', rest) := digits base n count rest in (n, (count' - count)%nat, count', rest)
  | _ => (n, 0%nat, count, rest)
  end.

(** An exponent after [letter]; 0 where there is none. *)
Definition exponent (letter : byte) (s : bytes) : Z :=
  match s with
  | c :: s =>
      if bool_decide (lower c = letter) then
        let (negative, s) := read_sign s in
        let '(n, _, _) := digits 10 0 0 s in
        if negative then - n else n
      else 0
  | [] => 0
  end.

Definition decimal (negative : bool) (s : bytes) : float :=
  let '(n, places, count, rest) := significand 10 s in
  if Nat.eqb count 0 then Finite false 0 0
  else
    let k := exponent x65 rest - Z.of_nat places in
    nearest negative (n * 10 ^ Z.max 0 k) (10 ^ Z.max 0 (- k)).

Definition hexadecimal (negative : bool) (s : bytes) : float :=
  let '(n, places, count, rest) := significand 16 s in
  if Nat.eqb count 0 then Finite negative 0 0
  else
    let k := exponent x70 rest - 4 * Z.of_nat places in
    nearest negative (n * 2 ^ Z.max 0 k) (2 ^ Z.max 0 (- k)).

(** [strtof(s, nullptr)] *)
Definition strtof (s : bytes) : float :=
  let (negative, s) := read_sign (skip_space s) in
  if starts "inf" s then Infinity negative
  else if starts "nan" s then NaN
  else if starts "0x" s then hexadecimal negative (drop 2 s)
  else decimal negative s.

(** What follows a [-Lu] or [-Ld] option: a loss rate as a fraction of 65535. *)
Definition loss_rate (s : bytes) : result Z := to_uint16 (times 65535 (strtof s)).

(** ** Decimal numbers are read back *)
Module CStringTheorems.

Lemma digit_value_decimal c :
  (digit_value c <? 10) = (0 <=? byte_to_Z c - 48) && (byte_to_Z c - 48 <=? 9) /\
  (digit_value c < 10 -> digit_value c = byte_to_Z c - 48).
Proof.
  unfold digit_value. set (v := byte_to_Z c).
  destruct (Z.leb_spec 48 v), (Z.leb_spec v 57); cbn [andb];
    destruct (Z.leb_spec 97 v), (Z.leb_spec v 122); cbn [andb];
    destruct (Z.leb_spec 65 v), (Z.leb_spec v 90); cbn [andb];
    destruct (Z.leb_spec 0 (v - 48)), (Z.leb_spec (v - 48) 9); cbn [andb]; try lia;
    split; try (apply Z.ltb_lt; lia); try (apply Z.ltb_ge; lia); lia.
Qed.

Lemma digits_read acc count s : (digits 10 acc count s).1.1 = (read_digits acc s).1.
Proof.
  revert acc count. induction s as [|c s IH]; intros acc count; cbn [digits read_digits]; [done|].
  destruct (digit_value_decimal c) as [E V]. rewrite E.
  destruct (_ && _) eqn:Eb; [|done]. apply Z.ltb_lt in E. by rewrite IH, V.
Qed.

Lemma digit_value_digit n : 0 <= n <= 9 -> digit_value (digit n) = n.
Proof.
  intros H. destruct (digit_value_decimal (digit n)) as [E V]. rewrite byte_to_Z_digit in * by done.
  rewrite V; [lia|]. apply Z.ltb_lt. rewrite E. destruct (Z.leb_spec 0 (48 + n - 48)), (Z.leb_spec (48 + n - 48) 9); lia.
Qed.

(** The first digit of a positive number is not zero. *)
Lemma dec_digits_positive fuel n :
  0 < n < 10 ^ Z.of_nat fuel -> exists d s, dec_digits fuel n = digit d :: s /\ 1 <= d <= 9.
Proof.
  revert n. induction fuel as [|fuel IH]; intros n Hn; [simpl in Hn; lia|].
  cbn [dec_digits]. destruct (Z.ltb_spec n 10) as [Hlt|Hge]; [exists n, []; split; [done|lia]|].
  rewrite Nat2Z.inj_succ, Z.pow_succ_r in Hn by lia.
  destruct (IH (n / 10)) as (d&s&->&Hd).
  { split; [Z.div_mod_to_equations; lia|apply Z.div_lt_upper_bound; lia]. }
  by exists d, (s ++ [digit (n mod 10)]).
Qed.

(** A number in decimal is read as itself. *)
Lemma strtol_to_string n : 0 <= n <= LONG_MAX -> strtol (to_string n) = n.
Proof.
  intros Hn. destruct (Z.eq_dec n 0) as [->|Hz]; [reflexivity|].
  unfold LONG_MAX in Hn.
  destruct (dec_digits_positive 20 n) as (d&s&E&Hd); [lia|]. fold (to_string n) in E.
  pose proof (read_to_string n [] ltac:(lia)) as R. rewrite app_nil_r in R.
  pose proof (digits_read 0 0 (to_string n)) as D. rewrite R in D. cbn [read_digits fst] in D.
  assert (d = 1 \/ d = 2 \/ d = 3 \/ d = 4 \/ d = 5 \/ d = 6 \/ d = 7 \/ d = 8 \/ d = 9) as Hc by lia.
  assert (read_sign (skip_space (to_string n)) = (false, to_string n) /\ base_prefix (to_string n) = (10, to_string n))
    as [Es Eb] by (rewrite E; repeat destruct Hc as [->|Hc]; subst; done).
  unfold strtol. rewrite Es, Eb. destruct (digits 10 0 0 (to_string n)) as [[m c] rest]. cbn [fst] in D. subst m.
  unfold LONG_MAX. lia.
Qed.

(** ** Loss rates *)

Lemma round_even_near n d : 0 < d -> 2 * Z.abs (round_even n d * d - n) <= d.
Proof.
  intros Hd. unfold round_even. pose proof (Z.div_mod n d ltac:(lia)) as E. pose proof (Z.mod_pos_bound n d Hd).
  generalize dependent (n / d). generalize dependent (n mod d). intros r Hr q E.
  replace (q * d) with (n - r) by lia.
  destruct (Z.ltb_spec (2 * r) d); [lia|]. assert ((q + 1) * d = n - r + d) as E1 by lia.
  destruct (Z.ltb_spec d (2 * r)); [lia|]. destruct (Z.even _); lia.
Qed.

Lemma round_even_nonneg n d : 0 < d -> 0 <= n -> 0 <= round_even n d.
Proof.
  intros Hd Hn. unfold round_even. assert (0 <= n / d) by (by apply Z.div_pos).
  by repeat case_match; lia.
Qed.

Lemma scaled_pos n d k : 0 <= k -> scaled n d k = (n * 2 ^ k, d).
Proof. intros H. unfold scaled. by destruct (Z.leb_spec 0 k); [|lia]. Qed.

Lemma scaled_neg n d k : k <= 0 -> scaled n d k = (n, d * 2 ^ (- k)).
Proof.
  intros H. unfold scaled. destruct (Z.leb_spec 0 k); [|done]. replace k with 0 by lia. f_equal; simpl; lia.
Qed.

(** [2 ^ k * d <= n] where [k] is the exponent, shifted so that the powers are of natural
    numbers. *)
Lemma binary_exponent_le n d j :
  0 < n -> 0 < d -> let k := binary_exponent n d in 0 <= j -> 0 <= k + j -> d * 2 ^ (k + j) <= n * 2 ^ j.
Proof.
  intros Hn Hd k Hj. subst k. unfold binary_exponent. set (k0 := Z.log2 n - Z.log2 d).
  destruct (scaled n d (- k0)) as [a b] eqn:E. destruct (Z.leb_spec b a) as [H|H]; intros Hk.
  - destruct (Z.le_gt_cases k0 0).
    + rewrite scaled_pos in E by lia. injection E as <- <-.
      replace j with (- k0 + (k0 + j)) at 2 by lia. rewrite (Z.pow_add_r 2 (- k0)) by lia. nia.
    + rewrite scaled_neg in E by lia. injection E as <- <-. rewrite Z.opp_involutive in H.
      rewrite Z.pow_add_r by lia. nia.
  - clear E H. pose proof (Z.log2_spec n Hn) as [Ln _]. pose proof (Z.log2_spec d Hd) as [_ Ld].
    pose proof (Z.log2_nonneg n). pose proof (Z.log2_nonneg d).
    transitivity (2 ^ (Z.log2 d + 1) * 2 ^ (k0 - 1 + j)).
    + apply Z.mul_le_mono_nonneg_r; [apply Z.pow_nonneg; lia|]. rewrite Z.add_1_r. lia.
    + rewrite <- Z.pow_add_r by lia. replace (Z.log2 d + 1 + (k0 - 1 + j)) with (Z.log2 n + j) by (unfold k0; lia).
      rewrite Z.pow_add_r by lia. apply Z.mul_le_mono_nonneg_r; [apply Z.pow_nonneg; lia|done].
Qed.

(** A quotient of at most [B] is rounded with an error of at most [B / 2 ^ 24]. *)
Lemma nearest_near neg n d B :
  0 <= n -> 0 < d -> n <= B * d -> 1 <= B <= 2 ^ 17 ->
  exists m e, nearest neg n d = Finite neg m e /\ e <= 0 /\ 0 <= m /\
    2 ^ 24 * Z.abs (m * d - n * 2 ^ (- e)) <= B * d * 2 ^ (- e).
Proof.
  intros Hn Hd HB [HB1 HB2]. unfold nearest. destruct (Z.eqb_spec n 0) as [->|Hz].
  { exists 0, 0. split_and!; try done; simpl; lia. }
  set (k := binary_exponent n d). set (e := Z.max (k - 23) (-149)).
  assert (k <= 17) as Hk.
  { destruct (Z.le_gt_cases k 17); [done|exfalso].
    pose proof (binary_exponent_le n d 0 ltac:(lia) Hd ltac:(lia) ltac:(lia)) as L. fold k in L.
    rewrite Z.add_0_r, Z.mul_1_r in L. pose proof (Z.pow_le_mono_r 2 18 k). nia. }
  assert (e <= 0 /\ -149 <= e /\ (e = -149 \/ e = k - 23)) as (He&He'&Hc) by lia.
  rewrite scaled_pos by lia. set (P := 2 ^ (- e)). assert (0 < P) as HP by (apply Z.pow_pos_nonneg; lia).
  pose proof (round_even_near (n * P) d Hd) as Hr. pose proof (round_even_nonneg (n * P) d Hd ltac:(nia)) as Hm.
  assert (2 ^ 23 <= B * P) as H23.
  { destruct Hc as [->|Hc]; [unfold P; lia|].
    pose proof (binary_exponent_le n d (- e) ltac:(lia) Hd ltac:(lia) ltac:(fold k; lia)) as L. fold k P in L.
    replace (k + - e) with 23 in L by lia. nia. }
  destruct (Z.ltb_spec 104 e); [lia|]. destruct (Z.eqb_spec e 104); [lia|]. cbn [orb andb].
  exists (round_even (n * P) d), e. split_and!; try done. fold P. nia.
Qed.

Lemma rate_scales n d :
  0 <= n <= d -> 0 < d ->
  exists v, to_uint16 (times 65535 (nearest false n d)) = ok v /\ 0 <= v <= 65535 /\
    128 * (v * d) <= 128 * (65535 * n) + d /\ 128 * (65535 * n) < 128 * ((v + 1) * d) + d.
Proof.
  intros Hn Hd. destruct (nearest_near false n d 1) as (m&e&->&He&Hm&Hne); [lia..|].
  set (P := 2 ^ (- e)) in *. assert (0 < P) as HP by (apply Z.pow_pos_nonneg; lia).
  unfold times, quotient. rewrite scaled_neg by done. fold P. rewrite Z.mul_1_l in *.
  assert (2 ^ 24 * m <= (2 ^ 24 + 1) * P) as HmP.
  { apply (Z.mul_le_mono_pos_r _ _ d); [done|]. nia. }
  destruct (nearest_near false (65535 * m) P (2 ^ 16)) as (m'&e'&->&He'&Hm'&Hne'); [lia|done|lia|lia|].
  set (P' := 2 ^ (- e')) in *. assert (0 < P') as HP' by (apply Z.pow_pos_nonneg; lia).
  unfold to_uint16, quotient. rewrite scaled_neg by done. fold P'. rewrite Z.mul_1_l.
  assert (128 * Z.abs (m' * d - 65535 * n * P') <= d * P') as Hall.
  { apply (Z.mul_le_mono_pos_r _ _ P); [done|].
    assert (2 ^ 24 * Z.abs (m' * P * d - 65535 * (m * d * P')) <= 2 ^ 16 * (d * P' * P)) by nia.
    assert (2 ^ 24 * Z.abs (m * d * P' - n * P * P') <= d * P' * P) by nia.
    replace (128 * Z.abs (m' * d - 65535 * n * P') * P) with (128 * Z.abs (m' * P * d - 65535 * (n * P * P'))) by nia.
    lia. }
  clear Hne Hne' HmP. clearbody P P'. pose proof (Z.div_mod m' P' ltac:(lia)) as Ed. pose proof (Z.mod_pos_bound m' P' HP').
  set (v := m' / P') in *. set (r := m' mod P') in *. clearbody v r. subst m'.
  assert (0 <= v) as Hv by nia.
  assert (128 * (v * d) <= 128 * (65535 * n) + d) as H1 by (apply (Z.mul_le_mono_pos_r _ _ P'); [done|nia]).
  assert (128 * (65535 * n) < 128 * ((v + 1) * d) + d) as H2 by (apply (Z.mul_lt_mono_pos_r P'); [done|nia]).
  assert (v <= 65535) as H3 by nia.
  exists v. destruct (Z.leb_spec 0 v), (Z.ltb_spec v (2 ^ 16)); [|lia..]. done.
Qed.

(** The number that a list of decimal digits stands for. *)
Definition decimal_value (ds : list Z) : Z := fold_left (fun acc d => 10 * acc + d) ds 0.

Lemma digits_digits ds acc count :
  Forall (fun d => 0 <= d <= 9) ds ->
  digits 10 acc count (map digit ds) = (fold_left (fun acc d => 10 * acc + d) ds acc, (count + length ds)%nat, []).
Proof.
  intros H. revert acc count. induction H as [|d ds Hd _ IH]; intros acc count; cbn [map digits fold_left length].
  - by rewrite Nat.add_0_r.
  - rewrite digit_value_digit by done. destruct (Z.ltb_spec d 10); [|lia]. rewrite IH. f_equal. f_equal. lia.
Qed.

Lemma decimal_value_range ds acc :
  Forall (fun d => 0 <= d <= 9) ds -> 0 <= acc ->
  acc * 10 ^ zlen ds <= fold_left (fun acc d => 10 * acc + d) ds acc < (acc + 1) * 10 ^ zlen ds.
Proof.
  intros H. revert acc. induction H as [|d ds Hd _ IH]; intros acc Ha; cbn [fold_left]; [change (zlen []) with 0; lia|].
  rewrite zlen_cons, Z.pow_add_r by (pose proof (zlen_nonneg ds); lia).
  specialize (IH (10 * acc + d) ltac:(lia)). assert (0 < 10 ^ zlen ds) by (apply Z.pow_pos_nonneg; [lia|apply zlen_nonneg]).
  nia.
Qed.

(** A loss rate written with digits after a point is in the range of its member: it is
    65535 times the rate, rounded down, up to the 1/128 that rounding to [float] twice may
    add or take away. *)
Theorem loss_rate_scales ds :
  Forall (fun d => 0 <= d <= 9) ds ->
  let n := decimal_value ds in let d := 10 ^ zlen ds in
  exists v, loss_rate (bytes_of_string "0." ++ map digit ds) = ok v /\ 0 <= v <= 65535 /\
    128 * (v * d) <= 128 * (65535 * n) + d /\ 128 * (65535 * n) < 128 * ((v + 1) * d) + d.
Proof.
  intros H n d. pose proof (decimal_value_range ds 0 H ltac:(lia)) as Hr.
  assert (strtof (bytes_of_string "0." ++ map digit ds) = nearest false n d) as E.
  { transitivity (decimal false (bytes_of_string "0." ++ map digit ds)); [reflexivity|].
    unfold decimal, significand. change (digits 10 0 0 (bytes_of_string "0." ++ map digit ds)) with (0, 1%nat, x2e :: map digit ds).
    cbv iota beta zeta. rewrite digits_digits by done. cbv iota beta zeta.
    replace (1 + length ds - 1)%nat with (length ds) by lia. cbn [Nat.add Nat.eqb exponent].
    f_equal; unfold n, d, decimal_value, zlen; [|f_equal; lia]. rewrite Z.max_l by lia. lia. }
  unfold loss_rate. rewrite E. apply rate_scales; unfold n, d, decimal_value in *; lia.
Qed.

Lemma loss_rate_scales_witness :
  exists v, loss_rate (bytes_of_string "0.25") = ok v /\ 128 * (v * 100) <= 128 * (65535 * 25) + 100 /\ 16383 <= v.
Proof.
  destruct (loss_rate_scales [2; 5]) as (v&E&_&H1&H2); [by repeat constructor|].
  exists v. change (decimal_value [2; 5]) with 25 in *. change (10 ^ zlen [2; 5]) with 100 in *.
  split; [exact E|]. split; [exact H1|lia].
Defined.

(** The ends of the scale, a number without a fraction, and one that is not a rate. *)
Lemma loss_rate_examples :
  loss_rate (bytes_of_string "0") = ok 0 /\ loss_rate (bytes_of_string "1") = ok 65535 /\
  loss_rate (bytes_of_string "5e-1") = ok 32767 /\ loss_rate (bytes_of_string "none") = ok 0 /\
  loss_rate (bytes_of_string "10") = throw undefined.
Proof. by vm_compute. Qed.

End CStringTheorems.
