(* ===== verification/Hexdump.v ===== *)
(** * [hexdump] (libsponge/util/util.cc)

    The hexadecimal listing that the programs print, as the text it puts on [cout], and a
    description of its layout that does not follow the loop. *)
From S2P Require Import Prelude Printing.

Module Hexdump.

(** A [std::stringstream] that is written to: its string and the put position, which is
    at the start after the constructor and after [str(s)]; a character written before the
    end replaces the one there. *)
Record stringstream := mkStringstream {
  str : bytes;
  put : nat
}.
Definition of_str (s : bytes) : stringstream := mkStringstream s 0.
Definition sputc (c : byte) (s : stringstream) : stringstream :=
  mkStringstream (take (put s) (str s) ++ [c] ++ drop (S (put s)) (str s)) (S (put s)).

(** [string(n, ' ')] *)
Definition spaces (n : Z) : bytes := replicate (Z.to_nat n) x20.

(** [isprint] in the C locale, and the character shown for a byte. *)
Definition isprint (b : byte) : bool := (32 <=? byte_to_Z b) && (byte_to_Z b <=? 126).
Definition shown (b : byte) : byte := if isprint b then b else x2e.

(** The local variables and what was printed. *)
Record Dump := mkDump {
  printed : Z;
  pchars : stringstream;
  out : bytes
}.
#[global] Instance eta_Dump : Eta Dump := fun d => mkDump (printed d) (pchars d) (out d).

Definition print (s : bytes) (d : Dump) : Dump := d <| out ::= fun o => o ++ s |>.

(** What precedes a byte: a line break, a new line's offset, or a space. *)
Definition separator (indent_string : bytes) (d : Dump) : Dump :=
  if Z.land (printed d) 15 =? 0 then
    let d := if negb (printed d =? 0)
             then print (spaces 4 ++ str (pchars d) ++ newline) d <| pchars := of_str (spaces 1) |>
             else d in
    print (indent_string ++ pad 8 (to_hex (printed d)) ++ bytes_of_string ":    ") d
  else if Z.land (printed d) 1 =? 0 then print (spaces 1) d
  else d.

Definition dump_byte (indent_string : bytes) (d : Dump) (b : byte) : Dump :=
  let d := print (pad 2 (to_hex (byte_to_Z b))) (separator indent_string d) in
  d <| pchars ::= sputc (shown b) |> <| printed ::= Z.add 1 |>.

(** [printed] counts as an [int]: the data has fewer than 2^31 bytes. *)
Definition last_line (d : Dump) : bytes :=
  let print_rem := (16 - Z.land (printed d) 15) mod 16 in
  out d ++ spaces (2 * print_rem + print_rem / 2 + 4) ++ str (pchars d) ++ newline ++ newline.
Definition hexdump (data : bytes) (indent : Z) : bytes :=
  last_line (fold_left (dump_byte (spaces indent)) data (mkDump 0 (of_str (spaces 1)) [])).

End Hexdump.

(** ** The layout *)
Module HexdumpTheorems.
Import Hexdump.

(** The bytes of a line in hexadecimal, in groups of two. *)
Fixpoint groups (row : bytes) : bytes :=
  match row with
  | [] => []
  | a :: row =>
      pad 2 (to_hex (byte_to_Z a)) ++
      match row with
      | [] => []
      | b :: row => pad 2 (to_hex (byte_to_Z b)) ++ (if row is [] then [] else spaces 1) ++ groups row
      end
  end.

(** Padded on the right. *)
Definition ljust (width : Z) (s : bytes) : bytes := s ++ spaces (width - zlen s).

(** A line: the offset, sixteen bytes in hexadecimal and as characters, each in a column
    of its own. *)
Definition dump_line (indent : Z) (offset : Z) (row : bytes) : bytes :=
  spaces indent ++ pad 8 (to_hex offset) ++ bytes_of_string ":    " ++
  ljust 39 (groups row) ++ spaces 4 ++ map shown row.

(** The data in lines of sixteen bytes, from the offset [p] on. *)
Fixpoint dump_lines (fuel : nat) (indent p : Z) (data : bytes) : bytes :=
  match fuel with
  | O => []
  | S fuel =>
      if bool_decide (data = []) then []
      else dump_line indent p (take 16 data) ++ newline ++ dump_lines fuel indent (p + 16) (drop 16 data)
  end.

(** Induction on a list two elements at a time. *)
Lemma pairs_ind (P : bytes -> Prop) :
  P [] -> (forall a, P [a]) -> (forall a b l, P l -> P (a :: b :: l)) -> forall l, P l.
Proof.
  intros H0 H1 H2 l. enough (P l /\ forall a, P (a :: l)) as [? _] by done.
  induction l as [|b l [IH1 IH2]]; [done|]. split; [apply IH2|]. intros a. by apply H2.
Qed.

Lemma groups_snoc row b :
  groups (row ++ [b]) =
  groups row ++ (if Nat.even (length row) && negb (bool_decide (row = [])) then spaces 1 else []) ++
  pad 2 (to_hex (byte_to_Z b)).
Proof.
  induction row as [|a|a a' row IH] using pairs_ind.
  - cbn [app groups]. by rewrite app_nil_r.
  - cbn [app groups Nat.even length andb]. by rewrite !app_nil_r.
  - cbn [app groups length Nat.even]. rewrite IH. destruct row as [|c row].
    + cbn [app groups length Nat.even]. rewrite !app_nil_r, <- !app_assoc. done.
    + cbn [app]. rewrite <- !app_assoc. done.
Qed.

Lemma zlen_hex_byte b : zlen (pad 2 (to_hex (byte_to_Z b))) = 2.
Proof. destruct (pad_hex_byte _ (byte_to_Z_range b)) as (x&y&->&_). done. Qed.

Lemma zlen_spaces n : 0 <= n -> zlen (spaces n) = n.
Proof. intros H. unfold spaces. rewrite zlen_replicate. lia. Qed.

(** The width of [n] bytes in groups of two. *)
Lemma zlen_groups row : row <> [] -> zlen (groups row) = 2 * zlen row + (zlen row - 1) / 2.
Proof.
  induction row as [|a|a a' row IH] using pairs_ind; [done|..]; intros _.
  - cbn [groups]. by rewrite app_nil_r, zlen_hex_byte.
  - cbn [groups]. rewrite !zlen_app, !zlen_hex_byte. destruct row as [|c row]; [done|].
    rewrite (zlen_cons a), (zlen_cons a'), IH by done. rewrite zlen_spaces by lia.
    generalize (zlen (c :: row)); intros z. Z.div_mod_to_equations. lia.
Qed.

Lemma sputc_end c s : sputc c (mkStringstream s (length s)) = mkStringstream (s ++ [c]) (length (s ++ [c])).
Proof.
  unfold sputc. cbn [str put]. rewrite take_ge, drop_ge, app_nil_r, length_app by lia. f_equal. cbn. lia.
Qed.

(** What precedes the first byte of a line, and a later one. *)
Lemma separator_first ind p pc o :
  0 <= p -> p mod 16 = 0 -> (p = 0 -> pc = of_str (spaces 1)) ->
  separator ind (mkDump p pc o) =
  mkDump p (of_str (spaces 1))
    (o ++ (if p =? 0 then [] else spaces 4 ++ str pc ++ newline) ++ ind ++ pad 8 (to_hex p) ++ bytes_of_string ":    ").
Proof.
  intros Hp Hm H0. unfold separator. cbn [printed]. change 15 with (Z.ones 4). rewrite Z.land_ones by lia.
  change (2 ^ 4) with 16. rewrite Hm. cbn [Z.eqb]. destruct (Z.eqb_spec p 0) as [->|Hne]; cbn [negb].
  - rewrite H0 by done. reflexivity.
  - unfold print. cbn [upd printed pchars out]. f_equal. by rewrite <- !app_assoc.
Qed.

Lemma separator_later ind p (n : nat) pc o :
  0 <= p -> p mod 16 = 0 -> (0 < n < 16)%nat ->
  separator ind (mkDump (p + Z.of_nat n) pc o) =
  mkDump (p + Z.of_nat n) pc (o ++ if Nat.even n then spaces 1 else []).
Proof.
  intros Hp Hm Hn. unfold separator. cbn [printed]. change (Z.land (p + Z.of_nat n) 1) with (Z.land (p + Z.of_nat n) (Z.ones 1)).
  change 15 with (Z.ones 4). rewrite !Z.land_ones by lia. change (2 ^ 4) with 16. change (2 ^ 1) with 2.
  assert (Nat.even n = ((p + Z.of_nat n) mod 2 =? 0)) as ->.
  { destruct (Nat.even n) eqn:E; symmetry; [apply Nat.even_spec in E as [m ->]; apply Z.eqb_eq|].
    - Z.div_mod_to_equations. lia.
    - assert (Nat.odd n = true) as [m ->]%Nat.odd_spec by (unfold Nat.odd; by rewrite E).
      apply Z.eqb_neq. Z.div_mod_to_equations. lia. }
  destruct (Z.eqb_spec ((p + Z.of_nat n) mod 16) 0); [Z.div_mod_to_equations; lia|].
  destruct (_ =? 0); [done|]. by rewrite app_nil_r.
Qed.

(** One line: from a state in which a multiple of sixteen bytes was printed. *)
Lemma dump_row ind row p pc o :
  row <> [] -> (length row <= 16)%nat -> 0 <= p -> p mod 16 = 0 -> (p = 0 -> pc = of_str (spaces 1)) ->
  fold_left (dump_byte ind) row (mkDump p pc o) =
  mkDump (p + zlen row) (mkStringstream (map shown row) (length (map shown row)))
    (o ++ (if p =? 0 then [] else spaces 4 ++ str pc ++ newline) ++
     ind ++ pad 8 (to_hex p) ++ bytes_of_string ":    " ++ groups row).
Proof.
  intros Hr Hl Hp Hm H0. induction row as [|b row IH] using rev_ind; [done|].
  rewrite length_app in Hl. cbn in Hl. rewrite fold_left_app. destruct row as [|a row].
  - cbn [fold_left app]. unfold dump_byte. rewrite separator_first by done.
    unfold print. cbn [upd printed pchars out eta_Dump]. f_equal; [unfold zlen; cbn; lia|].
    cbn [groups]. by rewrite app_nil_r, <- !app_assoc.
  - rewrite IH by (done || lia). cbn [fold_left]. unfold dump_byte, zlen. rewrite separator_later by (cbn in *; lia).
    unfold print. cbn [upd printed pchars out eta_Dump]. rewrite sputc_end, groups_snoc, map_app.
    f_equal; [rewrite length_app; cbn; lia|]. rewrite andb_true_r, <- !app_assoc. done.
Qed.

(** The end of the last line: the spaces fill the column of the bytes. *)
Lemma last_line_fills p row o :
  0 <= p -> p mod 16 = 0 -> row <> [] -> (length row <= 16)%nat ->
  last_line (mkDump (p + zlen row) (mkStringstream (map shown row) (length (map shown row))) (o ++ groups row)) =
  o ++ ljust 39 (groups row) ++ spaces 4 ++ map shown row ++ newline ++ newline.
Proof.
  intros Hp Hm Hr Hl. unfold last_line, ljust. cbn [printed out pchars str]. rewrite <- !app_assoc. do 2 f_equal.
  rewrite !app_assoc. do 3 f_equal. rewrite zlen_groups by done. change 15 with (Z.ones 4).
  rewrite Z.land_ones by lia. change (2 ^ 4) with 16. unfold spaces. rewrite <- replicate_add. f_equal.
  assert (1 <= zlen row <= 16) as Hz by (unfold zlen; destruct row; [done|cbn in *; lia]).
  rewrite <- Zplus_mod_idemp_l, Hm, Z.add_0_l. generalize dependent (zlen row). intros z Hz.
  Z.div_mod_to_equations. lia.
Qed.

Lemma dump_lines_fold fuel indent p pc o data :
  0 <= p -> p mod 16 = 0 -> (p = 0 -> pc = of_str (spaces 1)) -> data <> [] -> (length data <= fuel)%nat ->
  last_line (fold_left (dump_byte (spaces indent)) data (mkDump p pc o)) =
  o ++ (if p =? 0 then [] else spaces 4 ++ str pc ++ newline) ++ dump_lines fuel indent p data ++ newline.
Proof.
  revert p pc o data. induction fuel as [|fuel IH]; intros p pc o data Hp Hm H0 Hd Hf.
  { destruct data; [done|cbn in Hf; lia]. }
  cbn [dump_lines]. rewrite bool_decide_eq_false_2 by done.
  rewrite <- (take_drop 16 data) at 1. rewrite fold_left_app, dump_row; try done.
  2: by destruct data.
  2: rewrite length_take; lia.
  destruct (decide (drop 16 data = [])) as [E|E].
  - rewrite E. cbn [fold_left]. rewrite !app_assoc, last_line_fills; try done.
    2: by destruct data.
    2: rewrite length_take; lia.
    unfold dump_line. replace (dump_lines fuel indent (p + 16) []) with ([] : bytes) by (by destruct fuel).
    by rewrite !app_nil_r, <- !app_assoc.
  - assert (length (take 16 data) = 16%nat) as H16.
    { rewrite length_take. assert (0 < length (drop 16 data))%nat by (destruct (drop 16 data); [done|cbn; lia]).
      rewrite length_drop in *. lia. }
    assert (zlen (take 16 data) = 16) as Hz by (unfold zlen; by rewrite H16).
    rewrite Hz, IH; try done; try lia.
    2: by rewrite <- Zplus_mod_idemp_l, Hm.
    2: rewrite length_drop; lia.
    destruct (Z.eqb_spec (p + 16) 0); [lia|]. cbn [str]. unfold dump_line, ljust.
    rewrite zlen_groups, Hz by (by destruct data). change (spaces (39 - (2 * 16 + (16 - 1) / 2))) with ([] : bytes).
    by rewrite app_nil_r, <- !app_assoc.
Qed.

(** C37. The listing of a non-empty buffer is its lines of sixteen bytes: the offset, the
    bytes in groups of two and the characters, with the three columns aligned on the last
    line too, and an empty line at the end. *)
Theorem hexdump_layout data indent :
  data <> [] -> zlen data < 2 ^ 31 ->
  hexdump data indent = dump_lines (length data) indent 0 data ++ newline.
Proof. intros Hd _. unfold hexdump. by rewrite (dump_lines_fold (length data)). Qed.

Lemma hexdump_layout_witness :
  hexdump (bytes_of_string "sponge sends IPv4") 2 =
    bytes_of_string "  00000000:    7370 6f6e 6765 2073 656e 6473 2049 5076    sponge sends IPv" ++ newline ++
    bytes_of_string "  00000010:    34                                         4" ++ newline ++ newline.
Proof. rewrite hexdump_layout by done. reflexivity. Defined.

End HexdumpTheorems.
