(* ===== verification/Random.v ===== *)
(** * The clock and the random generator (libsponge/util/util.cc)

    [timestamp_ms] over a steady clock, and [get_random_generator], which seeds an
    [std::mt19937] from a [std::random_device] through a [std::seed_seq]. The engine and
    the seed sequence are those of the C++ standard, [rand.eng.mers] and
    [rand.util.seedseq]; the device's numbers are an argument. *)
From S2P Require Import Prelude.

Module Clock.

(** [program_start] is a static variable that the first call sets. Each call reads the
    clock; the readings, in nanoseconds, are arguments. *)
Definition timestamp_ms (program_start : option Z) (first now : Z) : Z * option Z :=
  let start := match program_start with Some t => t | None => first end in
  (u64 (Z.quot (now - start) 1000000), Some start).

(** Calls with the readings [first] and [now] of each, from the start of the program; the
    first is used by the first call only. *)
Fixpoint timestamps (program_start : option Z) (readings : list (Z * Z)) : list Z :=
  match readings with
  | [] => []
  | (first, now) :: readings =>
      let (t, program_start) := timestamp_ms program_start first now in
      t :: timestamps program_start readings
  end.

(** The clock does not go back, and does not run for 2^63 ns, which is 292 years. *)
Fixpoint steady (last : Z) (readings : list (Z * Z)) : Prop :=
  match readings with
  | [] => True
  | (first, now) :: readings => last <= first <= now /\ now < 2 ^ 63 /\ steady now readings
  end.

Lemma timestamp_value start now :
  0 <= now - start < 2 ^ 63 -> u64 (Z.quot (now - start) 1000000) = (now - start) / 1000000.
Proof.
  intros H. rewrite Z.quot_div_nonneg by lia. apply u64_small. split; [apply Z.div_pos; lia|].
  apply Z.div_lt_upper_bound; lia.
Qed.

Lemma timestamps_eq start last readings :
  0 <= start <= last -> steady last readings ->
  timestamps (Some start) readings = map (fun r => (r.2 - start) / 1000000) readings.
Proof.
  revert last. induction readings as [|[first now] readings IH]; intros last Hs Hr; [done|].
  destruct Hr as (Hl&Hn&Hr). cbn [timestamps timestamp_ms map snd]. rewrite timestamp_value by lia. f_equal. apply (IH now); [lia|done].
Qed.

(** The differences the socket's loop takes between two calls: time does not run
    backwards, and they are off by less than a millisecond. *)
Theorem timestamps_steady first now readings i t1 t2 n1 n2 :
  0 <= first -> steady first ((first, now) :: readings) ->
  timestamps None ((first, now) :: readings) !! i = Some t1 ->
  timestamps None ((first, now) :: readings) !! S i = Some t2 ->
  ((first, now) :: readings).*2 !! i = Some n1 -> ((first, now) :: readings).*2 !! S i = Some n2 ->
  0 <= t1 <= t2 /\ u64 (t2 - t1) = t2 - t1 /\ Z.abs ((t2 - t1) * 1000000 - (n2 - n1)) < 1000000.
Proof.
  intros H0 Hs. pose proof Hs as (Hl&Hn&Hr).
  assert (timestamps None ((first, now) :: readings) = map (fun r => (r.2 - first) / 1000000) ((first, now) :: readings)) as ->.
  { cbn [timestamps timestamp_ms map snd]. rewrite timestamp_value by lia. f_equal. apply (timestamps_eq first now); [lia|done]. }
  assert (forall i r1 r2 l last, first <= last -> steady last l -> l !! i = Some r1 -> l !! S i = Some r2 ->
    first <= r1.2 <= r2.2 /\ r2.2 < 2 ^ 63) as Hmono.
  { clear -H0. intros i. induction i as [|i IH]; intros r1 r2 l last Hf Hs E1 E2;
      (destruct l as [|[f1 m1] l]; [done|]); destruct Hs as (Hl&Hn&Hs).
    - destruct l as [|[f2 m2] l]; [done|]. cbn in E1, E2. simplify_eq. destruct Hs as (?&?&_). cbn. lia.
    - cbn in E1, E2. eapply (IH r1 r2 l m1); [lia|done|done|done]. }
  change (map ?f ?l) with (f <$> l). rewrite !list_lookup_fmap.
  destruct (((first, now) :: readings) !! i) as [r1|] eqn:E1; [|done].
  destruct (((first, now) :: readings) !! S i) as [r2|] eqn:E2; [|done]. cbn. intros [= <-] [= <-] [= <-] [= <-].
  destruct (Hmono i r1 r2 _ first ltac:(lia) Hs E1 E2) as [? ?].
  assert (0 <= (r1.2 - first) / 1000000 <= (r2.2 - first) / 1000000) as Hd
    by (split; [apply Z.div_pos; lia|apply Z.div_le_mono; lia]).
  assert ((r2.2 - first) / 1000000 < 2 ^ 63) by (apply Z.div_lt_upper_bound; lia).
  split; [done|]. split; [apply u64_small; lia|]. Z.div_mod_to_equations. lia.
Qed.

End Clock.

Module Random.

(** ** [std::seed_seq] *)

(** [T(x)] of [seed_seq::generate]. *)
Definition mix (x : Z) : Z := Z.lxor x (Z.shiftr x 27).

(** The element at [k] modulo the length, and its replacement. *)
Definition at_mod (l : list Z) (k : nat) : Z := nth (k mod length l) l 0.
Definition set_mod (k : nat) (x : Z) (l : list Z) : list Z := <[(k mod length l)%nat := x]> l.

(** The first loop, for step [k]; [p] and [q] are the offsets of the standard. *)
Definition stir_add (p q : nat) (v : list Z) (k : nat) (b : list Z) : list Z :=
  let n := length b in
  let r1 := u32 (1664525 * mix (Z.lxor (Z.lxor (at_mod b k) (at_mod b (k + p))) (at_mod b (k + n - 1)))) in
  let r2 := u32 (r1 + if (k =? 0)%nat then zlen v
                      else if (k <=? length v)%nat then Z.of_nat (k mod n) + nth (k - 1) v 0
                      else Z.of_nat (k mod n)) in
  let b := set_mod (k + p) (u32 (at_mod b (k + p) + r1)) b in
  let b := set_mod (k + q) (u32 (at_mod b (k + q) + r2)) b in
  set_mod k r2 b.

(** The second loop. *)
Definition stir_xor (p q : nat) (k : nat) (b : list Z) : list Z :=
  let n := length b in
  let r3 := u32 (1566083941 * mix (u32 (at_mod b k + at_mod b (k + p) + at_mod b (k + n - 1)))) in
  let r4 := u32 (r3 - Z.of_nat (k mod n)) in
  let b := set_mod (k + p) (Z.lxor (at_mod b (k + p)) r3) b in
  let b := set_mod (k + q) (Z.lxor (at_mod b (k + q)) r4) b in
  set_mod k r4 b.

Definition offset_t (n : nat) : nat :=
  if (623 <=? n)%nat then 11 else if (68 <=? n)%nat then 7 else if (39 <=? n)%nat then 5
  else if (7 <=? n)%nat then 3 else (n - 1) / 2.

(** [seed_seq(v).generate] for [n] words, [n] not zero. *)
Definition generate (v : list Z) (n : nat) : list Z :=
  let t := offset_t n in
  let p := ((n - t) / 2)%nat in
  let q := (p + t)%nat in
  let m := Nat.max (length v + 1) n in
  let b := fold_left (fun b k => stir_add p q v k b) (seq 0 m) (replicate n 2341178251) in
  fold_left (fun b k => stir_xor p q k b) (seq m n) b.

(** ** [std::mt19937] *)
Definition state_size : nat := 624.
Definition shift_size : nat := 397.
Definition xor_mask : Z := 2567483615.

(** The last 624 numbers of the sequence, the oldest first. *)
Definition mt19937 : Type := list Z.

(** The next number of the sequence. *)
Definition twist (x : mt19937) : Z :=
  let y := Z.lor (Z.land (nth 0 x 0) (2 ^ 31)) (Z.land (nth 1 x 0) (2 ^ 31 - 1)) in
  Z.lxor (Z.lxor (nth shift_size x 0) (Z.shiftr y 1)) (if Z.odd y then xor_mask else 0).
Definition temper (x : Z) : Z :=
  let z := Z.lxor x (Z.shiftr x 11) in
  let z := Z.lxor z (Z.land (u32 (Z.shiftl z 7)) 2636928640) in
  let z := Z.lxor z (Z.land (u32 (Z.shiftl z 15)) 4022730752) in
  Z.lxor z (Z.shiftr z 18).
(** [operator()] *)
Definition next (x : mt19937) : Z * mt19937 :=
  let y := twist x in (temper y, tail x ++ [y]).

(** [mt19937(seed)] with a seed sequence: the words it generates, unless they are a state
    that would stay zero. *)
Definition stuck (x : mt19937) : bool :=
  (Z.land (nth 0 x 0) (2 ^ 31) =? 0) && forallb (fun y => y =? 0) (tail x).
Definition of_seed_seq (v : list Z) : mt19937 :=
  let x := generate v state_size in
  if stuck x then 2 ^ 31 :: tail x else x.

(** [mt19937(seed)] with a number, the default being 5489. *)
Fixpoint seed_loop (n : nat) (i : Z) (x : Z) : list Z :=
  match n with
  | O => []
  | S n => let x := u32 (1812433253 * Z.lxor x (Z.shiftr x 30) + i) in x :: seed_loop n (i + 1) x
  end.
Definition of_number (value : Z) : mt19937 := u32 value :: seed_loop (state_size - 1) 1 (u32 value).

(** [n] numbers of a generator. *)
Fixpoint draw {G} (rd : G -> Z * G) (n : nat) (g : G) : list Z * G :=
  match n with
  | O => ([], g)
  | S n => let (x, g) := rd g in let (l, g) := draw rd n g in (x :: l, g)
  end.

(** [rd] is the random device. *)
Definition get_random_generator {G} (rd : G -> Z * G) (g : G) : mt19937 * G :=
  let (seed_data, g) := draw rd state_size g in (of_seed_seq (map u32 seed_data), g).

End Random.

Module RandomTheorems.
Import Random.

(** The words that the standard's algorithm gives for the seeds 1 to 5, and the first
    number of the default seed. *)
Lemma seed_seq_words : generate [1; 2; 3; 4; 5] 10 =
  [4204997637; 4246533866; 1856049002; 1129615051; 690460811; 1075771511; 46783058; 3904109078; 1534123438; 1495905678].
Proof. vm_compute. reflexivity. Qed.
Lemma default_first : (next (of_number 5489)).1 = 3499211612.
Proof. vm_compute. reflexivity. Qed.

End RandomTheorems.
