(* ===== verification/CommandLine.v ===== *)
(** * The command lines of tcp_ipv4, tcp_udp and tcp_ip_ethernet
    (apps/tcp_ipv4.cc, apps/tcp_udp.cc, apps/tcp_ip_ethernet.cc)

    The three [get_config]s are loops over [argv] with a chain of comparisons; a chain is
    a table here, in the order of the comparisons, and the loop is shared. *)
From S2P Require Import Prelude Sender Addresses Adapters CString.

Module CommandLine.

(** What the loop does at an option: set something; set something from the argument after
    it, where [err] is the message when there is none; or print the usage and end. *)
Inductive action (St : Type) :=
  | Flag (f : St -> St)
  | Takes (err : string) (f : bytes -> St -> result St)
  | Help.
Arguments Flag {St} f.
Arguments Takes {St} err f.
Arguments Help {St}.

Section Loop.
Context {St : Type}.

(** The literal, the third argument of [strncmp], and what follows the comparison. *)
Definition option_case : Type := string * nat * action St.

Fixpoint chosen (table : list option_case) (arg : bytes) : option (action St) :=
  match table with
  | [] => None
  | (literal, n, a) :: table => if strncmp n (bytes_of_string literal) arg then Some a else chosen table arg
  end.

Context (table : list option_case) (show_usage : bytes -> option bytes -> bytes).

(** [argv[i]]; outside of the array it is undefined. *)
Definition arg (argv : list bytes) (i : Z) : result bytes :=
  match argv !! Z.to_nat i with Some a => ok a | None => throw undefined end.

Definition check_argc (argv : list bytes) (curr : Z) (err : string) : result (ended unit) :=
  let! argv0 := arg argv 0 in
  ok (if zlen argv <=? curr + 3 then Exited 1 (show_usage argv0 (Some (bytes_of_string err))) else Returned tt).

(** The loop: [curr] and the settings when it is left. *)
Fixpoint get_options (fuel : nat) (argv : list bytes) (curr : Z) (st : St) : option (result (ended (Z * St))) :=
  match fuel with
  | O => None
  | S fuel =>
      if 2 <? zlen argv - curr then
        let? a := Some (arg argv curr) in
        let? argv0 := Some (arg argv 0) in
        match chosen table a with
        | Some (Flag f) => get_options fuel argv (curr + 1) (f st)
        | Some (Takes err f) =>
            let? c := Some (check_argc argv curr err) in
            match c with
            | Returned _ =>
                let? v := Some (arg argv (curr + 1)) in
                let? st := Some (f v st) in
                get_options fuel argv (curr + 2) st
            | Exited status output => Some (ok (Exited status output))
            end
        | Some Help => Some (ok (Exited 0 (show_usage argv0 None)))
        | None =>
            Some (ok (Exited 1 (show_usage argv0 (Some (bytes_of_string "ERROR: unrecognized option " ++ a)))))
        end
      else Some (ok (Returned (curr, st)))
  end.

(** Each round moves [curr] on, so that there are fewer rounds than arguments. *)
Definition options (argv : list bytes) (st : St) : option (result (ended (Z * St))) :=
  get_options (S (length argv)) argv 1 st.

End Loop.
Arguments option_case : clear implicits.

(** What follows the loop, when it returns. *)
Definition finish {A B} (o : option (result (ended A))) (f : A -> result (ended B)) : option (result (ended B)) :=
  let? e := o in
  match e with
  | Returned a => Some (f a)
  | Exited status output => Some (ok (Exited status output))
  end.

(** The lines of the usage messages. *)
Definition row (s : string) : bytes := bytes_of_string s ++ [x0a].
Definition row_value (s : string) (v : bytes) : bytes := bytes_of_string s ++ v ++ [x0a].
Definition usage_line (argv0 : bytes) : bytes :=
  bytes_of_string "Usage: " ++ argv0 ++ row " [options] <host> <port>" ++ [x0a].
Definition usage_end (msg : option bytes) : bytes := (match msg with Some m => m | None => [] end) ++ [x0a].

(** The members that [-w] and [-t] set; the conversions are to [size_t] and [uint16_t]. *)
Definition set_window (v : bytes) (c : TCPConfig.TCPConfig) : TCPConfig.TCPConfig :=
  c <| TCPConfig.recv_capacity := u64 (strtol v) |>.
Definition set_timeout (v : bytes) (c : TCPConfig.TCPConfig) : TCPConfig.TCPConfig :=
  c <| TCPConfig.rt_timeout := u16 (strtol v) |>.
Definition set_loss_up (v : bytes) (c : FdAdapterConfig) : result FdAdapterConfig :=
  let! r := loss_rate v in ok (c <| loss_rate_up := r |>).
Definition set_loss_dn (v : bytes) (c : FdAdapterConfig) : result FdAdapterConfig :=
  let! r := loss_rate v in ok (c <| loss_rate_dn := r |>).

End CommandLine.

(** ** tcp_ipv4 *)
Module TcpIpv4.
Import CommandLine.

Definition TUN_DFLT : bytes := bytes_of_string "tun144".
Definition LOCAL_ADDRESS_DFLT : bytes := bytes_of_string "169.254.144.9".

Definition show_usage (argv0 : bytes) (msg : option bytes) : bytes :=
  usage_line argv0 ++
  row "   Option                                                          Default" ++
  row "   --                                                              --" ++ [x0a] ++
  row "   -l              Server (listen) mode.                           (client mode)" ++
  row "                   In server mode, <host>:<port> is the address to bind." ++ [x0a] ++
  row_value "   -a <addr>       Set source address (client mode only)           " LOCAL_ADDRESS_DFLT ++
  row "   -s <port>       Set source port (client mode only)              (random)" ++ [x0a] ++
  row_value "   -w <winsz>      Use a window of <winsz> bytes                   "
    (to_string TCPConfig.MAX_PAYLOAD_SIZE) ++ [x0a] ++
  row_value "   -t <tmout>      Set rt_timeout to tmout                         "
    (to_string TCPConfig.TIMEOUT_DFLT) ++ [x0a] ++
  row_value "   -d <tundev>     Connect to tun <tundev>                         " TUN_DFLT ++ [x0a] ++
  row "   -Lu <loss>      Set uplink loss to <rate> (float in 0..1)       (no loss)" ++
  row "   -Ld <loss>      Set downlink loss to <rate> (float in 0..1)     (no loss)" ++ [x0a] ++
  row "   -h              Show this message." ++ [x0a] ++
  usage_end msg.

(** The variables of [get_config]. *)
Record Settings := mkSettings {
  c_fsm : TCPConfig.TCPConfig;
  c_filt : FdAdapterConfig;
  tundev : option bytes;
  listen : bool;
  source_address : bytes;
  source_port : bytes
}.
#[global] Instance eta_Settings : Eta Settings := fun s =>
  mkSettings (c_fsm s) (c_filt s) (tundev s) (listen s) (source_address s) (source_port s).

Definition table : list (option_case Settings) := [
  ("-l", 3%nat, Flag (fun s => s <| listen := true |>));
  ("-a", 3%nat, Takes "ERROR: -a requires one argument." (fun v s => ok (s <| source_address := v |>)));
  ("-s", 3%nat, Takes "ERROR: -s requires one argument." (fun v s => ok (s <| source_port := v |>)));
  ("-w", 3%nat, Takes "ERROR: -w requires one argument." (fun v s => ok (s <| c_fsm ::= set_window v |>)));
  ("-t", 3%nat, Takes "ERROR: -t requires one argument." (fun v s => ok (s <| c_fsm ::= set_timeout v |>)));
  ("-d", 3%nat, Takes "ERROR: -t requires one argument." (fun v s => ok (s <| tundev := Some v |>)));
  ("-Lu", 3%nat, Takes "ERROR: -Lu requires one argument."
     (fun v s => let! c := set_loss_up v (c_filt s) in ok (s <| c_filt := c |>)));
  ("-Ld", 3%nat, Takes "ERROR: -Lu requires one argument."
     (fun v s => let! c := set_loss_dn v (c_filt s) in ok (s <| c_filt := c |>)));
  ("-h", 3%nat, Help)]%string.

Section Config.
Context `{Resolver}.

(** [random] is the number drawn for the source port. *)
Definition initial (random : Z) : result Settings :=
  let! c := default_config in
  ok (mkSettings TCPConfig.default_config c None false LOCAL_ADDRESS_DFLT (to_string (u16 random))).

(** The positional arguments. *)
Definition positional (argv : list bytes) (curr : Z) (s : Settings)
    : result (ended (TCPConfig.TCPConfig * FdAdapterConfig * bool * option bytes)) :=
  if listen s then
    let! service := arg argv (curr + 1) in
    let! a := Address.of_hostname (bytes_of_string "0") service in
    let! port := Address.port a in
    if port =? 0 then
      let! argv0 := arg argv 0 in
      ok (Exited 1 (show_usage argv0 (Some (bytes_of_string "ERROR: listen port cannot be zero in server mode."))))
    else ok (Returned (c_fsm s, (c_filt s) <| source := a |>, true, tundev s))
  else
    let! host := arg argv curr in
    let! service := arg argv (curr + 1) in
    let! d := Address.of_hostname host service in
    let! a := Address.of_hostname (source_address s) (source_port s) in
    ok (Returned (c_fsm s, (c_filt s) <| destination := d |> <| source := a |>, false, tundev s)).

Definition get_config (random : Z) (argv : list bytes)
    : option (result (ended (TCPConfig.TCPConfig * FdAdapterConfig * bool * option bytes))) :=
  let? s := Some (initial random) in
  finish (options table show_usage argv s) (fun '(curr, s) => positional argv curr s).

End Config.
End TcpIpv4.

(** ** tcp_udp *)
Module TcpUdp.
Import CommandLine.

Definition show_usage (argv0 : bytes) (msg : option bytes) : bytes :=
  usage_line argv0 ++
  row "   Option                                                          Default" ++
  row "   --                                                              --" ++ [x0a] ++
  row "   -l              Server (listen) mode.                           (client mode)" ++
  row "                   In server mode, <host>:<port> is the address to bind." ++ [x0a] ++
  row_value "   -w <winsz>      Use a window of <winsz> bytes                   "
    (to_string TCPConfig.MAX_PAYLOAD_SIZE) ++ [x0a] ++
  row_value "   -t <tmout>      Set rt_timeout to tmout                         "
    (to_string TCPConfig.TIMEOUT_DFLT) ++ [x0a] ++
  row "   -Lu <loss>      Set uplink loss to <rate> (float in 0..1)       (no loss)" ++
  row "   -Ld <loss>      Set downlink loss to <rate> (float in 0..1)     (no loss)" ++ [x0a] ++
  row "   -h              Show this message and quit." ++ [x0a] ++
  usage_end msg.

Record Settings := mkSettings {
  c_fsm : TCPConfig.TCPConfig;
  c_filt : FdAdapterConfig;
  listen : bool
}.
#[global] Instance eta_Settings : Eta Settings := fun s => mkSettings (c_fsm s) (c_filt s) (listen s).

Definition table : list (option_case Settings) := [
  ("-l", 3%nat, Flag (fun s => s <| listen := true |>));
  ("-w", 3%nat, Takes "ERROR: -w requires one argument." (fun v s => ok (s <| c_fsm ::= set_window v |>)));
  ("-t", 3%nat, Takes "ERROR: -t requires one argument." (fun v s => ok (s <| c_fsm ::= set_timeout v |>)));
  ("-Lu", 3%nat, Takes "ERROR: -Lu requires one argument."
     (fun v s => let! c := set_loss_up v (c_filt s) in ok (s <| c_filt := c |>)));
  ("-Ld", 3%nat, Takes "ERROR: -Lu requires one argument."
     (fun v s => let! c := set_loss_dn v (c_filt s) in ok (s <| c_filt := c |>)));
  ("-h", 3%nat, Help)]%string.

Section Config.
Context `{Resolver}.

Definition initial : result Settings :=
  let! c := default_config in ok (mkSettings TCPConfig.default_config c false).

Definition positional (argv : list bytes) (s : Settings)
    : result (ended (TCPConfig.TCPConfig * FdAdapterConfig * bool)) :=
  if listen s then
    let! service := arg argv (zlen argv - 1) in
    let! a := Address.of_hostname (bytes_of_string "0") service in
    ok (Returned (c_fsm s, (c_filt s) <| source := a |>, true))
  else
    let! host := arg argv (zlen argv - 2) in
    let! service := arg argv (zlen argv - 1) in
    let! d := Address.of_hostname host service in
    ok (Returned (c_fsm s, (c_filt s) <| destination := d |>, false)).

Definition get_config (argv : list bytes)
    : option (result (ended (TCPConfig.TCPConfig * FdAdapterConfig * bool))) :=
  let? s := Some initial in
  finish (options table show_usage argv s) (fun '(_, s) => positional argv s).

End Config.
End TcpUdp.

(** ** tcp_ip_ethernet *)
Module TcpIpEthernet.
Import CommandLine.

Definition TAP_DFLT : bytes := bytes_of_string "tap10".
Definition LOCAL_ADDRESS_DFLT : bytes := bytes_of_string "169.254.10.9".
Definition GATEWAY_DFLT : bytes := bytes_of_string "169.254.10.1".

Definition show_usage (argv0 : bytes) (msg : option bytes) : bytes :=
  usage_line argv0 ++
  row "   Option                                                          Default" ++
  row "   --                                                              --" ++ [x0a] ++
  row_value "   -a <addr>       Set IP source address (client mode only)        " LOCAL_ADDRESS_DFLT ++
  row "   -s <port>       Set TCP source port (client mode only)          (random)" ++ [x0a] ++
  row_value "   -n <addr>       Set IP next-hop address                         " GATEWAY_DFLT ++
  row_value "   -w <winsz>      Use a window of <winsz> bytes                   "
    (to_string TCPConfig.MAX_PAYLOAD_SIZE) ++ [x0a] ++
  row_value "   -t <tmout>      Set rt_timeout to tmout                         "
    (to_string TCPConfig.TIMEOUT_DFLT) ++ [x0a] ++
  row_value "   -d <tapdev>     Connect to tap <tapdev>                         " TAP_DFLT ++ [x0a] ++
  row "   -h              Show this message." ++ [x0a] ++
  usage_end msg.

Record Settings := mkSettings {
  c_fsm : TCPConfig.TCPConfig;
  c_filt : FdAdapterConfig;
  tapdev : bytes;
  source_address : bytes;
  source_port : bytes;
  next_hop_address : bytes
}.
#[global] Instance eta_Settings : Eta Settings := fun s =>
  mkSettings (c_fsm s) (c_filt s) (tapdev s) (source_address s) (source_port s) (next_hop_address s).

Definition table : list (option_case Settings) := [
  ("-a", 3%nat, Takes "ERROR: -a requires one argument." (fun v s => ok (s <| source_address := v |>)));
  ("-s", 3%nat, Takes "ERROR: -s requires one argument." (fun v s => ok (s <| source_port := v |>)));
  ("-n", 3%nat, Takes "ERROR: -n requires one argument." (fun v s => ok (s <| next_hop_address := v |>)));
  ("-w", 3%nat, Takes "ERROR: -w requires one argument." (fun v s => ok (s <| c_fsm ::= set_window v |>)));
  ("-t", 3%nat, Takes "ERROR: -t requires one argument." (fun v s => ok (s <| c_fsm ::= set_timeout v |>)));
  ("-d", 3%nat, Takes "ERROR: -t requires one argument." (fun v s => ok (s <| tapdev := v |>)));
  ("-h", 3%nat, Help)]%string.

Section Config.
Context `{Resolver}.

Definition initial (random : Z) : result Settings :=
  let! c := default_config in
  ok (mkSettings TCPConfig.default_config c TAP_DFLT LOCAL_ADDRESS_DFLT (to_string (u16 random)) GATEWAY_DFLT).

Definition positional (argv : list bytes) (curr : Z) (s : Settings)
    : result (ended (TCPConfig.TCPConfig * FdAdapterConfig * Address.Address * bytes)) :=
  let! host := arg argv curr in
  let! service := arg argv (curr + 1) in
  let! d := Address.of_hostname host service in
  let! a := Address.of_hostname (source_address s) (source_port s) in
  let! next_hop := Address.of_hostname (next_hop_address s) (bytes_of_string "0") in
  ok (Returned (c_fsm s, (c_filt s) <| destination := d |> <| source := a |>, next_hop, tapdev s)).

Definition get_config (random : Z) (argv : list bytes)
    : option (result (ended (TCPConfig.TCPConfig * FdAdapterConfig * Address.Address * bytes))) :=
  let? s := Some (initial random) in
  finish (options table show_usage argv s) (fun '(curr, s) => positional argv curr s).

End Config.
End TcpIpEthernet.

(** ** What the loop reads *)
Module CommandLineTheorems.
Import CommandLine.

Section Loop.
Context {St : Type} (table : list (option_case St)) (show_usage : bytes -> option bytes -> bytes).

(** An option with its argument, if it takes one. *)
Definition word : Type := bytes * option bytes.
Definition words (ws : list word) : list bytes :=
  concat (map (fun w => w.1 :: match w.2 with Some v => [v] | None => [] end) ws).

(** [reads ws st st']: the options are those of the table, and they lead from one to the
    other. *)
Inductive reads : list word -> St -> St -> Prop :=
  | reads_nil st : reads [] st st
  | reads_flag name f ws st st' :
      chosen table name = Some (Flag f) -> reads ws (f st) st' -> reads ((name, None) :: ws) st st'
  | reads_takes name err f v ws st st1 st' :
      chosen table name = Some (Takes err f) -> f v st = ok st1 -> reads ws st1 st' ->
      reads ((name, Some v) :: ws) st st'.

Lemma arg_app pre x rest : arg (pre ++ x :: rest) (zlen pre) = ok x.
Proof. unfold arg, zlen. by rewrite Nat2Z.id, list_lookup_middle. Qed.

Lemma arg_first argv0 rest : arg (argv0 :: rest) 0 = ok argv0.
Proof. done. Qed.

(** One round, at an argument that is followed by two more at least. *)
Lemma get_options_step fuel argv0 pre a rest st :
  (2 <= length rest)%nat ->
  let argv := argv0 :: pre ++ a :: rest in
  get_options table show_usage (S fuel) argv (1 + zlen pre) st =
  match chosen table a with
  | Some (Flag f) => get_options table show_usage fuel argv (1 + zlen (pre ++ [a])) (f st)
  | Some (Takes err f) =>
      match rest with
      | v :: _ :: _ :: _ =>
          let? st := Some (f v st) in get_options table show_usage fuel argv (1 + zlen (pre ++ [a; v])) st
      | _ => Some (ok (Exited 1 (show_usage argv0 (Some (bytes_of_string err)))))
      end
  | Some Help => Some (ok (Exited 0 (show_usage argv0 None)))
  | None => Some (ok (Exited 1 (show_usage argv0 (Some (bytes_of_string "ERROR: unrecognized option " ++ a)))))
  end.
Proof.
  intros Hr argv. cbn [get_options]. pose proof (zlen_nonneg pre).
  assert (zlen argv = 2 + zlen pre + zlen rest) as Hz by (unfold argv; autorewrite with zlen; lia).
  assert (2 <= zlen rest) as Hr' by (unfold zlen; lia).
  assert (arg argv (1 + zlen pre) = ok a) as Ea.
  { unfold argv. rewrite app_comm_cons. replace (1 + zlen pre) with (zlen (argv0 :: pre)) by (by rewrite zlen_cons).
    apply arg_app. }
  destruct (Z.ltb_spec 2 (zlen argv - (1 + zlen pre))); [|lia]. rewrite Ea. cbn [bindO ok]. change (arg argv 0) with (ok argv0).
  cbn [bindO ok]. destruct (chosen table a) as [[f|err f|]|]; try done; [by rewrite zlen_app, Z.add_assoc|]. unfold check_argc. change (arg argv 0) with (ok argv0).
  rewrite bindR_ok, Hz. destruct rest as [|v [|b [|c rest]]]; cbn [length] in Hr; [lia|lia| |].
  { change (zlen [v; b]) with 2. by destruct (Z.leb_spec (2 + zlen pre + 2) (1 + zlen pre + 3)); [|lia]. }
  rewrite (zlen_cons v), (zlen_cons b), (zlen_cons c). pose proof (zlen_nonneg rest).
  destruct (Z.leb_spec (2 + zlen pre + (1 + (1 + (1 + zlen rest)))) (1 + zlen pre + 3)); [lia|]. cbn [bindO ok].
  assert (arg argv (1 + zlen pre + 1) = ok v) as ->; [|by rewrite zlen_app, Z.add_assoc].
  unfold argv. rewrite app_comm_cons. change (a :: v :: b :: c :: rest) with ([a] ++ v :: b :: c :: rest).
  rewrite app_assoc. replace (1 + zlen pre + 1) with (zlen ((argv0 :: pre) ++ [a])) by (autorewrite with zlen; lia).
  apply arg_app.
Qed.

(** Reading options moves on to what follows them. *)
Lemma get_options_reads ws st st' argv0 pre rest fuel :
  reads ws st st' -> (2 <= length rest)%nat ->
  get_options table show_usage (length ws + fuel) (argv0 :: pre ++ words ws ++ rest) (1 + zlen pre) st =
  get_options table show_usage fuel (argv0 :: pre ++ words ws ++ rest) (1 + zlen (pre ++ words ws)) st'.
Proof.
  intros R Hr. revert pre. induction R as [st|name f ws st st' E R IH|name err f v ws st st1 st' E Ef R IH]; intros pre.
  - unfold words. cbn. by rewrite app_nil_r.
  - change (words ((name, None) :: ws)) with ([name] ++ words ws). rewrite <- !app_assoc. cbn [length Nat.add].
    change ([name] ++ words ws ++ rest) with (name :: words ws ++ rest).
    rewrite get_options_step, E by (rewrite length_app; lia).
    specialize (IH (pre ++ [name])). rewrite <- !app_assoc in IH. exact IH.
  - change (words ((name, Some v) :: ws)) with ([name; v] ++ words ws). rewrite <- !app_assoc. cbn [length Nat.add].
    change ([name; v] ++ words ws ++ rest) with (name :: v :: words ws ++ rest).
    rewrite get_options_step, E by (cbn; rewrite length_app; lia).
    destruct (words ws ++ rest) as [|b [|c l]] eqn:El.
    + apply app_eq_nil in El as [_ ->]. cbn in Hr. lia.
    + apply (f_equal length) in El. rewrite length_app in El. cbn in El. lia.
    + rewrite Ef. cbn [bindO ok]. specialize (IH (pre ++ [name; v])). rewrite <- !app_assoc in IH. exact IH.
Qed.

Lemma length_words ws : (length ws <= length (words ws))%nat.
Proof.
  unfold words. induction ws as [|[n [v|]] ws IH]; [done|..]; cbn in *; lia.
Qed.

(** All options are read, and what is left are the last two arguments. *)
Lemma options_reads ws st st' argv0 host port :
  reads ws st st' ->
  options table show_usage (argv0 :: words ws ++ [host; port]) st =
  Some (ok (Returned (1 + zlen (words ws), st'))).
Proof.
  intros R. unfold options. pose proof (length_words ws). set (argv := argv0 :: words ws ++ [host; port]).
  assert (S (length argv) = (length ws + S (length argv - length ws))%nat) as ->
    by (unfold argv; cbn; rewrite length_app; cbn; lia).
  pose proof (get_options_reads ws st st' argv0 [] [host; port] (S (length argv - length ws)) R ltac:(cbn; lia)) as E.
  cbn [app] in E. change (1 + zlen []) with 1 in E. unfold argv at 2. rewrite E. cbn [get_options].
  destruct (Z.ltb_spec 2 (zlen (argv0 :: words ws ++ [host; port]) - (1 + zlen (words ws)))) as [L|]; [|done].
  rewrite zlen_cons, zlen_app in L. change (zlen [host; port]) with 2 in L. lia.
Qed.

(** At most one round per argument is needed. *)
Lemma get_options_total fuel argv0 argv curr st :
  1 <= curr -> zlen (argv0 :: argv) - curr <= Z.of_nat fuel -> (0 < fuel)%nat ->
  get_options table show_usage fuel (argv0 :: argv) curr st <> None.
Proof.
  revert curr st. induction fuel as [|fuel IH]; intros curr st Hc Hf Hp; [lia|]. cbn [get_options].
  destruct (Z.ltb_spec 2 (zlen (argv0 :: argv) - curr)); [|done].
  destruct (arg (argv0 :: argv) curr) as [e|a]; [done|]. cbn [bindO]. change (arg (argv0 :: argv) 0) with (ok argv0).
  cbn [bindO ok]. destruct (chosen table a) as [[f|err f|]|]; [apply IH; lia| |done|done].
  destruct (check_argc _ _ _ _) as [e|[u|status output]]; [done| |done]. cbn [bindO].
  destruct (arg (argv0 :: argv) (curr + 1)) as [e|v]; [done|]. cbn [bindO].
  destruct (f v st) as [e|st1]; [done|]. cbn [bindO]. apply IH; lia.
Qed.

(** Where the loop stops after options that it has read. *)
Lemma options_stop argv0 ws st st' a rest :
  reads ws st st' -> (2 <= length rest)%nat ->
  let argv := argv0 :: words ws ++ a :: rest in
  (chosen table a = None -> options table show_usage argv st =
     Some (ok (Exited 1 (show_usage argv0 (Some (bytes_of_string "ERROR: unrecognized option " ++ a)))))) /\
  (forall err f, chosen table a = Some (Takes err f) -> length rest = 2%nat ->
     options table show_usage argv st = Some (ok (Exited 1 (show_usage argv0 (Some (bytes_of_string err)))))) /\
  (chosen table a = Some Help -> options table show_usage argv st = Some (ok (Exited 0 (show_usage argv0 None)))).
Proof.
  intros R Hr argv.
  assert (exists fuel, options table show_usage argv st =
    get_options table show_usage (S fuel) argv (1 + zlen (words ws)) st') as [fuel ->].
  { pose proof (length_words ws). exists (length argv - length ws)%nat. unfold options.
    assert (S (length argv) = (length ws + S (length argv - length ws))%nat) as ->
      by (unfold argv; cbn; rewrite length_app; cbn; lia).
    apply (get_options_reads ws st st' argv0 [] (a :: rest) _ R). cbn. lia. }
  unfold argv. rewrite get_options_step by done. split_and!; [by intros ->| |by intros ->].
  intros err f -> Hl. by destruct rest as [|? [|? [|]]].
Qed.

(** On every command line the loop over the options ends. After options that it reads it
    stops, with the usage on the output, at an option that is not in the table and at one
    whose argument is missing, with status 1, and at the one for help, with status 0. *)
Theorem options_end argv0 ws st st' a rest :
  reads ws st st' -> (2 <= length rest)%nat ->
  let argv := argv0 :: words ws ++ a :: rest in
  (forall argv' st0, options table show_usage (argv0 :: argv') st0 <> None) /\
  (chosen table a = None -> options table show_usage argv st =
     Some (ok (Exited 1 (show_usage argv0 (Some (bytes_of_string "ERROR: unrecognized option " ++ a)))))) /\
  (forall err f, chosen table a = Some (Takes err f) -> length rest = 2%nat ->
     options table show_usage argv st = Some (ok (Exited 1 (show_usage argv0 (Some (bytes_of_string err)))))) /\
  (chosen table a = Some Help -> options table show_usage argv st = Some (ok (Exited 0 (show_usage argv0 None)))).
Proof.
  intros R Hr argv. split; [|by apply (options_stop argv0 ws st st')].
  intros argv' st0. unfold options. apply get_options_total; [lia|unfold zlen; lia|lia].
Qed.

End Loop.
End CommandLineTheorems.

(** ** The configurations *)
Module ConfigTheorems.
Import CommandLine CommandLineTheorems CStringTheorems.

Lemma set_window_number n c :
  0 <= n < 2 ^ 63 -> set_window (to_string n) c = c <| TCPConfig.recv_capacity := n |>.
Proof. intros H. unfold set_window. rewrite strtol_to_string by (unfold LONG_MAX; lia). by rewrite u64_small by lia. Qed.

Lemma set_timeout_number n c :
  0 <= n < 2 ^ 16 -> set_timeout (to_string n) c = c <| TCPConfig.rt_timeout := n |>.
Proof. intros H. unfold set_timeout. rewrite strtol_to_string by (unfold LONG_MAX; lia). by rewrite u16_small by lia. Qed.

(** The last two of the arguments. *)
Lemma arg_host argv0 ws host port : arg (argv0 :: words ws ++ [host; port]) (1 + zlen (words ws)) = ok host.
Proof.
  rewrite app_comm_cons. replace (1 + zlen (words ws)) with (zlen (argv0 :: words ws)) by (by rewrite zlen_cons).
  apply arg_app.
Qed.
Lemma arg_port argv0 ws host port : arg (argv0 :: words ws ++ [host; port]) (1 + zlen (words ws) + 1) = ok port.
Proof.
  change [host; port] with ([host] ++ [port]). rewrite app_assoc, app_comm_cons.
  replace (1 + zlen (words ws) + 1) with (zlen (argv0 :: words ws ++ [host])) by (autorewrite with zlen; lia).
  apply arg_app.
Qed.

Section Ipv4.
Context `{Resolver}.
Import TcpIpv4.

(** The options of tcp_ipv4, with their values. *)
Inductive ipv4_option :=
  | Listen
  | SourceAddress (a : bytes)
  | SourcePort (p : bytes)
  | Window (n : Z)
  | Timeout (ms : Z)
  | Device (d : bytes)
  | LossUp (text : bytes) (rate : Z)
  | LossDown (text : bytes) (rate : Z).

Definition ipv4_word (o : ipv4_option) : word :=
  match o with
  | Listen => (bytes_of_string "-l", None)
  | SourceAddress a => (bytes_of_string "-a", Some a)
  | SourcePort p => (bytes_of_string "-s", Some p)
  | Window n => (bytes_of_string "-w", Some (to_string n))
  | Timeout ms => (bytes_of_string "-t", Some (to_string ms))
  | Device d => (bytes_of_string "-d", Some d)
  | LossUp text _ => (bytes_of_string "-Lu", Some text)
  | LossDown text _ => (bytes_of_string "-Ld", Some text)
  end.

Definition ipv4_valid (o : ipv4_option) : Prop :=
  match o with
  | Window n => 0 <= n < 2 ^ 63
  | Timeout ms => 0 <= ms < 2 ^ 16
  | LossUp text rate | LossDown text rate => loss_rate text = ok rate
  | _ => True
  end.

Definition ipv4_set (s : Settings) (o : ipv4_option) : Settings :=
  match o with
  | Listen => s <| listen := true |>
  | SourceAddress a => s <| source_address := a |>
  | SourcePort p => s <| source_port := p |>
  | Window n => s <| c_fsm ::= fun c => c <| TCPConfig.recv_capacity := n |> |>
  | Timeout ms => s <| c_fsm ::= fun c => c <| TCPConfig.rt_timeout := ms |> |>
  | Device d => s <| tundev := Some d |>
  | LossUp _ rate => s <| c_filt ::= fun c => c <| loss_rate_up := rate |> |>
  | LossDown _ rate => s <| c_filt ::= fun c => c <| loss_rate_dn := rate |> |>
  end.

Lemma ipv4_reads os s : Forall ipv4_valid os -> reads table (map ipv4_word os) s (fold_left ipv4_set os s).
Proof.
  intros Hv. revert s. induction Hv as [|o os Ho _ IH]; intros s; [constructor|]. cbn [map fold_left].
  specialize (IH (ipv4_set s o)).
  destruct o; (eapply reads_flag; [reflexivity|exact IH]) || (eapply reads_takes; [reflexivity|cbv beta|exact IH]);
    cbn [ipv4_valid ipv4_set upd] in *; try reflexivity.
  - by rewrite set_window_number.
  - by rewrite set_timeout_number.
  - unfold set_loss_up. by rewrite Ho.
  - unfold set_loss_dn. by rewrite Ho.
Qed.

End Ipv4.
Section Udp.
Context `{Resolver}.
Import TcpUdp.

Inductive udp_option :=
  | UdpListen
  | UdpWindow (n : Z)
  | UdpTimeout (ms : Z)
  | UdpLossUp (text : bytes) (rate : Z)
  | UdpLossDown (text : bytes) (rate : Z).

Definition udp_word (o : udp_option) : word :=
  match o with
  | UdpListen => (bytes_of_string "-l", None)
  | UdpWindow n => (bytes_of_string "-w", Some (to_string n))
  | UdpTimeout ms => (bytes_of_string "-t", Some (to_string ms))
  | UdpLossUp text _ => (bytes_of_string "-Lu", Some text)
  | UdpLossDown text _ => (bytes_of_string "-Ld", Some text)
  end.
Definition udp_valid (o : udp_option) : Prop :=
  match o with
  | UdpListen => True
  | UdpWindow n => 0 <= n < 2 ^ 63
  | UdpTimeout ms => 0 <= ms < 2 ^ 16
  | UdpLossUp text rate | UdpLossDown text rate => loss_rate text = ok rate
  end.
Definition udp_set (s : Settings) (o : udp_option) : Settings :=
  match o with
  | UdpListen => s <| listen := true |>
  | UdpWindow n => s <| c_fsm ::= fun c => c <| TCPConfig.recv_capacity := n |> |>
  | UdpTimeout ms => s <| c_fsm ::= fun c => c <| TCPConfig.rt_timeout := ms |> |>
  | UdpLossUp _ rate => s <| c_filt ::= fun c => c <| loss_rate_up := rate |> |>
  | UdpLossDown _ rate => s <| c_filt ::= fun c => c <| loss_rate_dn := rate |> |>
  end.

Lemma udp_reads os s : Forall udp_valid os -> reads table (map udp_word os) s (fold_left udp_set os s).
Proof.
  intros Hv. revert s. induction Hv as [|o os Ho _ IH]; intros s; [constructor|]. cbn [map fold_left].
  specialize (IH (udp_set s o)).
  destruct o; (eapply reads_flag; [reflexivity|exact IH]) || (eapply reads_takes; [reflexivity|cbv beta|exact IH]);
    cbn [udp_valid udp_set upd] in *.
  - by rewrite set_window_number.
  - by rewrite set_timeout_number.
  - unfold set_loss_up. by rewrite Ho.
  - unfold set_loss_dn. by rewrite Ho.
Qed.

(** tcp_udp reads its command line: options set what they stand for, in order, with
    numbers and loss rates converted to the members' types, and the last two arguments are
    the peer of a client and, of a server, the port. *)
Theorem tcp_udp_config argv0 os host port c0 :
  default_config = ok c0 -> Forall udp_valid os ->
  let argv := argv0 :: words (map udp_word os) ++ [host; port] in
  let s := fold_left udp_set os (mkSettings TCPConfig.default_config c0 false) in
  (forall d, listen s = false -> Address.of_hostname host port = ok d ->
     get_config argv = Some (ok (Returned (c_fsm s, (c_filt s) <| destination := d |>, false)))) /\
  (forall a, listen s = true -> Address.of_hostname (bytes_of_string "0") port = ok a ->
     get_config argv = Some (ok (Returned (c_fsm s, (c_filt s) <| source := a |>, true)))).
Proof.
  intros Hc Hv argv s. unfold get_config, initial. rewrite Hc, bindR_ok. cbn [bindO ok].
  unfold argv at 1 3. rewrite (options_reads _ _ _ _ s) by (by apply udp_reads). cbn [finish bindO ok].
  unfold positional. replace (zlen argv - 2) with (1 + zlen (words (map udp_word os))) by
    (unfold argv; rewrite zlen_cons, zlen_app; change (zlen [host; port]) with 2; lia).
  replace (zlen argv - 1) with (1 + zlen (words (map udp_word os)) + 1) by
    (unfold argv; rewrite zlen_cons, zlen_app; change (zlen [host; port]) with 2; lia).
  unfold argv. rewrite arg_host, arg_port. cbn [bindR ok]. split.
  - intros d -> ->. done.
  - intros a -> ->. done.
Qed.

End Udp.

Section Ethernet.
Context `{Resolver}.
Import TcpIpEthernet.

Inductive ethernet_option :=
  | EthSourceAddress (a : bytes)
  | EthSourcePort (p : bytes)
  | EthNextHop (a : bytes)
  | EthWindow (n : Z)
  | EthTimeout (ms : Z)
  | EthDevice (d : bytes).

Definition ethernet_word (o : ethernet_option) : word :=
  match o with
  | EthSourceAddress a => (bytes_of_string "-a", Some a)
  | EthSourcePort p => (bytes_of_string "-s", Some p)
  | EthNextHop a => (bytes_of_string "-n", Some a)
  | EthWindow n => (bytes_of_string "-w", Some (to_string n))
  | EthTimeout ms => (bytes_of_string "-t", Some (to_string ms))
  | EthDevice d => (bytes_of_string "-d", Some d)
  end.
Definition ethernet_valid (o : ethernet_option) : Prop :=
  match o with
  | EthWindow n => 0 <= n < 2 ^ 63
  | EthTimeout ms => 0 <= ms < 2 ^ 16
  | _ => True
  end.
Definition ethernet_set (s : Settings) (o : ethernet_option) : Settings :=
  match o with
  | EthSourceAddress a => s <| source_address := a |>
  | EthSourcePort p => s <| source_port := p |>
  | EthNextHop a => s <| next_hop_address := a |>
  | EthWindow n => s <| c_fsm ::= fun c => c <| TCPConfig.recv_capacity := n |> |>
  | EthTimeout ms => s <| c_fsm ::= fun c => c <| TCPConfig.rt_timeout := ms |> |>
  | EthDevice d => s <| tapdev := d |>
  end.

Lemma ethernet_reads os s : Forall ethernet_valid os -> reads table (map ethernet_word os) s (fold_left ethernet_set os s).
Proof.
  intros Hv. revert s. induction Hv as [|o os Ho _ IH]; intros s; [constructor|]. cbn [map fold_left].
  specialize (IH (ethernet_set s o)).
  destruct o; (eapply reads_takes; [reflexivity|cbv beta|exact IH]);
    cbn [ethernet_valid ethernet_set upd] in *; try reflexivity.
  - by rewrite set_window_number.
  - by rewrite set_timeout_number.
Qed.

(** tcp_ip_ethernet reads its command line in the same way. *)
Theorem tcp_ip_ethernet_config random argv0 os host port c0 d a n :
  default_config = ok c0 -> Forall ethernet_valid os ->
  let argv := argv0 :: words (map ethernet_word os) ++ [host; port] in
  let s := fold_left ethernet_set os (mkSettings TCPConfig.default_config c0 TAP_DFLT LOCAL_ADDRESS_DFLT
    (to_string (u16 random)) GATEWAY_DFLT) in
  Address.of_hostname host port = ok d -> Address.of_hostname (source_address s) (source_port s) = ok a ->
  Address.of_hostname (next_hop_address s) (bytes_of_string "0") = ok n ->
  get_config random argv = Some (ok (Returned
    (c_fsm s, (c_filt s) <| destination := d |> <| source := a |>, n, tapdev s))).
Proof.
  intros Hc Hv argv s Ed Ea En. unfold get_config, initial. rewrite Hc, bindR_ok. cbn [bindO ok].
  unfold argv at 1. rewrite (options_reads _ _ _ _ s) by (by apply ethernet_reads). cbn [finish bindO ok].
  unfold positional, argv. rewrite arg_host, arg_port, !bindR_ok, Ed, bindR_ok, Ea, bindR_ok, En. done.
Qed.

End Ethernet.

(** ** Runs *)
Module Run.
Import NumericResolver AddressTheorems.
#[local] Existing Instance short_resolver.

Definition strings (l : list string) : list bytes := map bytes_of_string l.

Lemma options_end_witness :
  options TcpUdp.table TcpUdp.show_usage (strings ["tcp_udp"; "-w"; "500"; "-q"; "10.0.0.1"; "80"]%string)
    (TcpUdp.mkSettings TCPConfig.default_config (mkFdAdapterConfig (ipv4_address 0 0) (ipv4_address 0 0) 0 0) false) =
  Some (ok (Exited 1 (TcpUdp.show_usage (bytes_of_string "tcp_udp")
    (Some (bytes_of_string "ERROR: unrecognized option -q"))))).
Proof.
  refine (proj1 (proj2 (options_end TcpUdp.table TcpUdp.show_usage (bytes_of_string "tcp_udp")
    (map udp_word [UdpWindow 500]) _ _ (bytes_of_string "-q") (strings ["10.0.0.1"; "80"]%string) (udp_reads _ _ _) _)) _).
  - constructor; [cbn; lia|constructor].
  - cbn. lia.
  - reflexivity.
Defined.

(** Options that only begin with [-Lu] or [-Ld] are taken for them. *)
Lemma long_option_accepted : chosen TcpUdp.table (bytes_of_string "-Luxury") = chosen TcpUdp.table (bytes_of_string "-Lu").
Proof. reflexivity. Qed.

End Run.
End ConfigTheorems.
