(* ===== verification/Programs.v ===== *)
(** * The small programs (apps/tcp_ipv4.cc, tcp_udp.cc, tcp_ip_ethernet.cc, tcp_native.cc,
    webget.cc, tun.cc)

    The [main] functions in front of a socket and [bidirectional_stream_copy], the client
    for web pages, and the listing of what arrives on a TUN device. A [main] gives the exit
    status; [None] means that a loop is still running. *)
From S2P Require Import Prelude Buffers Parser TcpSegment Ipv4 Ethernet Sender Addresses Interface.
From S2P Require Import Descriptor Adapters Socket EventLoop SpongeSocket StreamCopy Printing Hexdump CString.
From S2P Require Import CommandLine.

Module Programs.
Import FileDescriptor CommandLine.

(** ** Sockets of this library *)
Section Sponge.
Context {K : Type} `{Resolver} `{Kernel K} `{SocketKernel K} `{Environment K}.

Section Use.
Context {A In Out : Type} `{HA : Adapter A In Out} `{!Device In Out K}.

(** [connect] or [listen_and_accept], then the copy on the owner's descriptor, then
    [wait_until_closed]. The copy runs beside the thread that [connect] has started, which
    is in its environment. *)
Definition converse (fuel : nat) (listen : bool) (isn : Z) (c_fsm : TCPConfig.TCPConfig) (c_filt : FdAdapterConfig)
    (s : TCPSpongeSocket.TCPSpongeSocket A K) : option (result (TCPSpongeSocket.TCPSpongeSocket A K)) :=
  let? t := (if listen then TCPSpongeSocket.listen_and_accept fuel isn c_fsm c_filt s
             else TCPSpongeSocket.connect fuel isn c_fsm c_filt s) in
  let s := t.2 in
  let? (_, c) := StreamCopy.bidirectional_stream_copy fuel (TCPSpongeSocket._owner s) (TCPSpongeSocket.kernel s) in
  Some (TCPSpongeSocket.wait_until_closed
          (s <| TCPSpongeSocket._owner := StreamCopy.socket c |> <| TCPSpongeSocket.kernel := StreamCopy.kernel c |>)).
End Use.

(** The end of a [main] with a [try] block. *)
Definition exit_status {A} (r : option (result (ended A))) : option Z := fmap status_of r.
Definition return_ {A} (r : option (result A)) : option (result (ended A)) := let? a := r in Some (ok (Returned a)).

(** The random engine of [LossyFdAdapter]. *)
Context {G : Type} (next : G -> Z * G).

(** tcp_ipv4: the socket over the TUN device. *)
Definition ipv4_socket (g : G) (tun_dev_name : option bytes) (k : K)
    : result (TCPSpongeSocket.TCPSpongeSocket (LossyFdAdapter G TCPOverIPv4OverTunFdAdapter) K) :=
  let! (w, k) := TunTapFD.TunFD (default TcpIpv4.TUN_DFLT tun_dev_name) k in
  let! c := default_config in
  TCPSpongeSocket.make (mkLossy g (mkTunAdapter (FdAdapterBase.mkFdAdapterBase c false))) w k.

Definition tcp_ipv4_main (fuel : nat) (g : G) (random isn : Z) (argv : list bytes) (k : K) : option Z :=
  if zlen argv <? 3 then Some EXIT_FAILURE
  else exit_status
    (let? e := TcpIpv4.get_config random argv in
     match e with
     | Exited status output => Some (ok (Exited status output))
     | Returned (c_fsm, c_filt, listen, tun_dev_name) =>
         let? s := Some (ipv4_socket g tun_dev_name k) in
         return_ (converse (HA := lossy_adapter next) fuel listen isn c_fsm c_filt s)
     end).

(** tcp_udp: the socket over a UDP socket, bound when it listens. *)
Definition udp_socket (g : G) (listen : bool) (c_filt : FdAdapterConfig) (k : K)
    : result (TCPSpongeSocket.TCPSpongeSocket (LossyFdAdapter G TCPOverUDPSocketAdapter) K) :=
  let! (w, k) := UDPSocket.make k in
  let! (w, k) := if listen then Socket.bind (source c_filt) (w, k) else ok (w, k) in
  let! c := default_config in
  TCPSpongeSocket.make (mkLossy g (FdAdapterBase.mkFdAdapterBase c false)) w k.

Definition tcp_udp_main (fuel : nat) (g : G) (isn : Z) (argv : list bytes) (k : K) : option Z :=
  if zlen argv <? 3 then Some EXIT_FAILURE
  else exit_status
    (let? e := TcpUdp.get_config argv in
     match e with
     | Exited status output => Some (ok (Exited status output))
     | Returned (c_fsm, c_filt, listen) =>
         let? s := Some (udp_socket g listen c_filt k) in
         return_ (converse (HA := lossy_adapter next) fuel listen isn c_fsm c_filt s)
     end).

(** tcp_ip_ethernet: the socket over a TAP device. The adapter's constructor writes a frame
    to the device. *)
Definition ethernet_socket (rd : list Z) (tap_dev_name : bytes) (ip_address next_hop : Address.Address) (k : K)
    : result (TCPSpongeSocket.TCPSpongeSocket TCPOverIPv4OverEthernetAdapter K) :=
  let! (w, k) := TunTapFD.TapFD tap_dev_name k in
  let! c := default_config in
  let (a, out) := make_ethernet_adapter (FdAdapterBase.mkFdAdapterBase c false)
                    (random_private_ethernet_address rd) ip_address next_hop in
  let! (w, k) := fold_left (fun (r : result (FDWrapper * K)) o => let! s := r in dev_write o s) out (ok (w, k)) in
  TCPSpongeSocket.make a w k.

Definition tcp_ip_ethernet_main (fuel : nat) (rd : list Z) (random isn : Z) (argv : list bytes) (k : K) : option Z :=
  if zlen argv <? 3 then Some EXIT_FAILURE
  else exit_status
    (let? e := TcpIpEthernet.get_config random argv in
     match e with
     | Exited status output => Some (ok (Exited status output))
     | Returned (c_fsm, c_filt, next_hop, tap_dev_name) =>
         let? s := Some (ethernet_socket rd tap_dev_name (source c_filt) next_hop k) in
         return_ (converse fuel false isn c_fsm c_filt s)
     end).

(** ** tcp_native: a socket of the kernel

    The listening socket is closed when it goes out of scope. *)
Definition SOCKET_BACKLOG : Z := 16.

Definition native_socket (server_mode : bool) (argv : list bytes) (k : K) : result (FDWrapper * K) :=
  if server_mode then
    let! s := TCPSocket.make k in
    let! s := Socket.set_reuseaddr s in
    let! host := arg argv 2 in
    let! service := arg argv 3 in
    let! a := Address.of_hostname host service in
    let! s := Socket.bind a s in
    let! s := TCPSocket.listen SOCKET_BACKLOG s in
    let! (new, s) := TCPSocket.accept s in
    ok (new, destroy s)
  else
    let! s := TCPSocket.make k in
    let! host := arg argv 1 in
    let! service := arg argv 2 in
    let! a := Address.of_hostname host service in
    Socket.connect a s.

Definition tcp_native_main (fuel : nat) (argv : list bytes) (k : K) : option Z :=
  let server_mode := match argv !! 1%nat with Some a => strncmp 3 (bytes_of_string "-l") a | None => false end in
  if (zlen argv <? 3) || (server_mode && (zlen argv <? 4)) then Some EXIT_FAILURE
  else exit_status
    (let? (w, k) := Some (native_socket server_mode argv k) in
     return_ (StreamCopy.bidirectional_stream_copy fuel w k)).

End Sponge.
End Programs.

(** ** Command lines that are refused *)
Module ProgramTheorems.
Import CommandLine CommandLineTheorems ConfigTheorems Programs.

Section Status.
Context {K : Type} `{Resolver} `{Kernel K} `{SocketKernel K} `{Environment K} {G : Type} (next : G -> Z * G).

(** tcp_ipv4 ends before it opens the device, with the status for failure, when arguments
    are missing or after valid options there is one that it does not know or whose argument
    is missing, and with success when it is asked for help. *)
Theorem tcp_ipv4_refuses fuel g random isn argv0 os a rest c0 k :
  default_config = ok c0 -> Forall ipv4_valid os -> (2 <= length rest)%nat ->
  let argv := argv0 :: words (map ipv4_word os) ++ a :: rest in
  tcp_ipv4_main next fuel g random isn [argv0] k = Some EXIT_FAILURE /\
  (chosen TcpIpv4.table a = None -> tcp_ipv4_main next fuel g random isn argv k = Some EXIT_FAILURE) /\
  (forall err f, chosen TcpIpv4.table a = Some (Takes err f) -> length rest = 2%nat ->
     tcp_ipv4_main next fuel g random isn argv k = Some EXIT_FAILURE) /\
  (chosen TcpIpv4.table a = Some Help -> tcp_ipv4_main next fuel g random isn argv k = Some EXIT_SUCCESS).
Proof.
  intros Hc Hv Hr argv. split; [done|]. unfold tcp_ipv4_main.
  assert ((zlen argv <? 3) = false) as ->.
  { apply Z.ltb_ge. unfold argv, zlen. cbn. rewrite length_app. cbn. lia. }
  unfold TcpIpv4.get_config, TcpIpv4.initial. rewrite Hc, bindR_ok. cbn [bindO ok].
  destruct (options_stop TcpIpv4.table TcpIpv4.show_usage argv0 (map ipv4_word os) _ _ a rest
    (ipv4_reads os (TcpIpv4.mkSettings TCPConfig.default_config c0 None false TcpIpv4.LOCAL_ADDRESS_DFLT
       (to_string (u16 random))) Hv) Hr) as (Hnone&Htakes&Hhelp). unfold argv. split_and!.
  - intros E. by rewrite (Hnone E).
  - intros err f E El. by rewrite (Htakes err f E El).
  - intros E. by rewrite (Hhelp E).
Qed.

End Status.
End ProgramTheorems.
