(* ===== verification/WebGet.v ===== *)
(** * The client for web pages (apps/webget.cc)

    [get_URL] over the kernel's sockets, and that against a server it fetches the whole
    page. *)
From S2P Require Import Prelude Buffers Addresses Descriptor Adapters Socket CString.

Module WebGet.
Import FileDescriptor.

Definition crlf : bytes := [x0d; x0a].

(** The four writes. *)
Definition request_lines (host path : bytes) : list bytes :=
  [bytes_of_string "GET " ++ path ++ bytes_of_string " HTTP/1.1" ++ crlf;
   bytes_of_string "Host: " ++ host ++ crlf;
   bytes_of_string "Connection: close" ++ crlf;
   crlf].

Section Calls.
Context {K : Type} `{Resolver} `{Kernel K} `{SocketKernel K}.

Fixpoint write_lines (lines : list bytes) (s : FDWrapper * K) : result (FDWrapper * K) :=
  match lines with
  | [] => ok s
  | l :: lines => let! (_, s) := write (BufferViewList.of_string l) true s in write_lines lines s
  end.

(** The loop, with what was printed; [None] when it is still running. *)
Fixpoint print_all (fuel : nat) (out : bytes) (s : FDWrapper * K) : option (result (bytes * (FDWrapper * K))) :=
  match fuel with
  | O => None
  | S fuel =>
      if negb (eof s.1) then
        let? (data, s) := Some (read (2 ^ 64 - 1) s) in
        print_all fuel (out ++ data) s
      else Some (ok (out, s))
  end.

(** What is printed, and the socket at the end. *)
Definition get_URL (fuel : nat) (host path : bytes) (k : K) : option (result (bytes * (FDWrapper * K))) :=
  let? addr := Some (Address.of_hostname host (bytes_of_string "http")) in
  let? s := Some (TCPSocket.make k) in
  let? s := Some (Socket.connect addr s) in
  let? s := Some (write_lines (request_lines host path) s) in
  let? (out, s) := print_all fuel [] s in
  let? s := Some (close s) in
  Some (ok (out, s)).

(** The program; [None] in the place of the status is [abort]. *)
Definition main (fuel : nat) (argv : list bytes) (k : K) : option (option Z) :=
  match argv with
  | [] => Some None
  | [_; host; path] =>
      match get_URL fuel host path k with
      | None => None
      | Some (inl _) => Some (Some EXIT_FAILURE)
      | Some (inr _) => Some (Some EXIT_SUCCESS)
      end
  | _ => Some (Some EXIT_FAILURE)
  end.

End Calls.
End WebGet.

(** ** Fetching a page *)
Module WebGetTheorems.
Import FileDescriptor WriteTheorems WebGet.

(** A kernel with a server behind [fd]: [sent] are the bytes that the client has sent and
    [given] those it has received; the server answers the request [r] with [page r] and
    then closes the connection. Calls may transfer less than they were asked to. *)
Class WebServer (K : Type) `{Kernel K} `{SocketKernel K} (page : bytes -> bytes) (fd : Z) (sent given : K -> bytes) : Prop := {
  ws_socket : forall k, exists errno k', k_socket Address.AF_INET SOCK_STREAM k = (fd, errno, k') /\
    sent k' = [] /\ given k' = [];
  ws_connect : forall a k, exists errno k', k_connect fd a k = (0, errno, k') /\ sent k' = sent k /\ given k' = given k;
  ws_writev : forall iovs k r errno k', k_writev fd iovs k = (r, errno, k') ->
    0 <= r <= zlen (concat (map fst iovs)) /\ (concat (map fst iovs) <> [] -> 0 < r) /\
    sent k' = sent k ++ take (Z.to_nat r) (concat (map fst iovs)) /\ given k' = given k;
  ws_read : forall n k r errno data k', 0 < n -> k_read fd n k = (r, errno, data, k') ->
    0 <= r <= n /\ zlen (take (Z.to_nat r) data) = r /\ sent k' = sent k /\
    given k' = given k ++ take (Z.to_nat r) data /\
    (given k `prefix_of` page (sent k) ->
     given k' `prefix_of` page (sent k) /\ (r = 0 -> given k = page (sent k)));
  ws_close : forall k, exists errno k', k_close fd k = (0, errno, k') /\ sent k' = sent k /\ given k' = given k
}.

Section Server.
Context {K : Type} `{Resolver} `{Kernel K} `{SocketKernel K}.
Context (page : bytes -> bytes) (fd : Z) (sent given : K -> bytes) `{!WebServer K page fd sent given}.
Hypothesis Hfd : 0 <= fd.

(** The kernel as a sink for the request, and as it leaves the answer alone. *)
#[local] Instance server_sink : Sink K fd sent.
Proof. intros iovs k r errno k' E. apply ws_writev in E. tauto. Qed.

Lemma writes_keep_given fuel l total w k t w' k' :
  fd_num w = fd -> write_loop fuel true l total (w, k) = ok (t, (w', k')) -> given k' = given k.
Proof.
  revert l total w k. induction fuel as [|fuel IH]; intros l total w k Hw; cbn [write_loop]; [by intros [= <- <- <-]|].
  destruct (k_writev _ _ k) as [[r errno] k1] eqn:E. rewrite Hw in E. apply ws_writev in E as (_&_&_&Hg).
  destruct (SystemCall _ _ _ _) as [|n]; [done|]. cbn [bindR]. destruct (_ && _); [done|]. destruct (_ <? _); [done|].
  destruct (BufferViewList.remove_prefix _ _) as [|l']; [done|]. cbn [bindR]. destruct (_ && _).
  - intros E. rewrite <- Hg. eapply IH; [|exact E]. by destruct w.
  - intros [= <- <- <-]. done.
Qed.

Lemma write_lines_sends lines w k :
  fd_num w = fd -> Forall (fun l => zlen l < 2 ^ 63) lines -> eof w = false ->
  exists w' k', write_lines lines (w, k) = ok (w', k') /\ fd_num w' = fd /\ eof w' = false /\
    sent k' = sent k ++ concat lines /\ given k' = given k.
Proof.
  intros Hw Hl He. revert w k Hw He. induction Hl as [|l lines Hl _ IH]; intros w k Hw He; cbn [write_lines concat].
  { exists w, k. by rewrite app_nil_r. }
  unfold write. assert (concat (BufferViewList.of_string l) = l) as El by (cbn; by rewrite app_nil_r).
  destruct (write_loop_writes fd sent (S (Z.to_nat (BufferViewList.size (BufferViewList.of_string l))))
    (BufferViewList.of_string l) 0 w k Hw) as (w1&k1&E&Hs&Hf&_&Ee).
  { rewrite view_size by (rewrite El; lia). pose proof (zlen_nonneg (concat (BufferViewList.of_string l))). lia. }
  { lia. }
  { rewrite El. lia. }
  pose proof (writes_keep_given _ _ _ _ _ _ _ _ Hw E) as Hg. rewrite E, bindR_ok.
  destruct (IH w1 k1 Hf ltac:(congruence)) as (w2&k2&->&Hf2&He2&Hs2&Hg2). exists w2, k2.
  rewrite Hs2, Hs, El, <- app_assoc, Hg2. by split_and!.
Qed.

(** Reading to the end gives the rest of the page. *)
Lemma print_all_prints fuel out w k :
  fd_num w = fd -> eof w = false -> given k `prefix_of` page (sent k) ->
  (length (page (sent k)) + 2 <= fuel + length (given k))%nat ->
  exists rest w' k', print_all fuel out (w, k) = Some (ok (out ++ rest, (w', k'))) /\
    given k ++ rest = page (sent k) /\ fd_num w' = fd /\ given k' = page (sent k) /\ sent k' = sent k.
Proof.
  revert out w k. induction fuel as [|fuel IH]; intros out w k Hw He Hp Hf.
  { apply prefix_length in Hp. lia. }
  cbn [print_all fst]. rewrite He. cbn [negb]. unfold read. change (Z.min BUFFER_SIZE (2 ^ 64 - 1)) with 1048576.
  destruct (k_read (fd_num w) 1048576 k) as [[[r errno] data] k1] eqn:E. rewrite Hw in E.
  apply ws_read in E as (Hr&Hz&Hs&Hg&Hpage); [|lia]. destruct (Hpage Hp) as [Hp1 Hend].
  unfold SystemCall. destruct (Z.leb_spec 0 r); [|lia]. cbn [orb]. rewrite bindR_ok. change (0 <? 2 ^ 64 - 1) with true.
  cbn [andb]. destruct (Z.ltb_spec 1048576 r); [lia|]. cbn [bindO ok].
  destruct (Z.eqb_spec r 0) as [->|Hr0].
  - specialize (Hend eq_refl). change (take (Z.to_nat 0) data) with ([] : bytes) in *. rewrite app_nil_r in *.
    destruct fuel as [|fuel]; [rewrite Hend in Hf; lia|]. cbn [print_all].
    exists [], (register_read (w <| _eof := true |>)), k1. rewrite !app_nil_r.
    split_and!; try done; congruence.
  - assert (length (take (Z.to_nat r) data) = Z.to_nat r) as Hlen by (unfold zlen in Hz; lia).
    destruct (IH (out ++ take (Z.to_nat r) data) (register_read w) k1) as (rest&w'&k'&->&Hrest&Hw'&Hg'&Hs').
    + by destruct w.
    + by destruct w.
    + by rewrite Hs.
    + rewrite Hs, Hg, length_app. lia.
    + exists (take (Z.to_nat r) data ++ rest), w', k'. rewrite <- app_assoc, Hs, Hg in *.
      rewrite <- app_assoc in Hrest. split_and!; congruence.
Qed.

(** C32. Against a server that answers a request with a page and closes, [get_URL] sends
    exactly the request, ends, and prints exactly the page, however little the kernel
    transfers at a time. *)
Theorem get_URL_fetches host path addr k :
  Address.of_hostname host (bytes_of_string "http") = ok addr -> zlen host + zlen path < 2 ^ 62 ->
  let request := concat (request_lines host path) in
  exists w k', get_URL (length (page request) + 2) host path k = Some (ok (page request, (w, k'))) /\
    sent k' = request /\ given k' = page request.
Proof.
  intros Ha Hz request. unfold get_URL. rewrite Ha. cbn [bindO ok]. unfold TCPSocket.make, Socket.make.
  destruct (ws_socket (K := K) k) as (e0&k0&->&Hs0&Hg0). unfold SystemCall. destruct (Z.leb_spec 0 fd); [|lia]. cbn [orb].
  rewrite bindR_ok. unfold FileDescriptor.make. destruct (Z.ltb_spec fd 0); [lia|]. rewrite bindR_ok. cbn [bindO ok].
  unfold Socket.connect. cbn [fd_num _fd]. destruct (ws_connect addr k0) as (e1&k1&->&Hs1&Hg1). cbn [Z.leb orb].
  change (SystemCall "connect" 0 e1 0) with (ok 0 : result Z). rewrite bindR_ok. cbn [bindO ok].
  assert (Forall (fun l => zlen l < 2 ^ 63) (request_lines host path)) as Hl.
  { pose proof (zlen_nonneg host). pose proof (zlen_nonneg path).
    unfold request_lines. rewrite !Forall_cons, !zlen_app.
    change (zlen (bytes_of_string "GET ")) with 4. change (zlen (bytes_of_string " HTTP/1.1")) with 9.
    change (zlen (bytes_of_string "Host: ")) with 6. change (zlen (bytes_of_string "Connection: close")) with 17.
    change (zlen crlf) with 2. split_and!; [lia..|constructor]. }
  destruct (write_lines_sends (request_lines host path) (mkFDWrapper fd false false 0 0) k1) as (w2&k2&->&Hw2&He2&Hs2&Hg2);
    [done..|]. cbn [bindO ok]. rewrite Hs1, Hs0 in Hs2. rewrite Hg1, Hg0 in Hg2. cbn [app] in Hs2. fold request in Hs2.
  destruct (print_all_prints (length (page request) + 2) [] w2 k2) as (rest&w3&k3&->&Hrest&Hw3&Hg3&Hs3); [done|done| | |].
  { rewrite Hg2. apply prefix_nil. }
  { rewrite Hs2, Hg2. cbn. lia. }
  rewrite Hs2 in *. rewrite Hg2 in Hrest. cbn [app] in Hrest. subst rest. cbn [bindO ok app]. unfold close. rewrite Hw3.
  destruct (ws_close (K := K) k3) as (e4&k4&->&Hs4&Hg4). change (SystemCall "close" 0 e4 0) with (ok 0 : result Z).
  rewrite bindR_ok. cbn [bindO ok]. exists (w3 <| _closed := true |> <| _eof := true |>), k4.
  split; [done|]. split; congruence.
Qed.

End Server.

(** *** A server *)
Module Run.
Import NumericResolver.

(** [sent] and [given] themselves; at most three bytes at a time. *)
Record server := mkServer {
  sent : bytes;
  given : bytes
}.

(** The page, for the one request that it knows. *)
Definition request : bytes := concat (request_lines (bytes_of_string "10.0.0.1") (bytes_of_string "/hello")).
Definition page (r : bytes) : bytes :=
  if bool_decide (r = request) then bytes_of_string "HTTP/1.1 200 OK" ++ crlf ++ crlf ++ bytes_of_string "hello, world"
  else bytes_of_string "HTTP/1.1 404 Not Found".

#[local] Instance server_kernel : Kernel server := {
  k_read fd n k :=
    let d := take (Z.to_nat (Z.min n 3)) (drop (length (given k)) (page (sent k))) in
    (zlen d, 0, d, mkServer (sent k) (given k ++ d));
  k_writev fd iovs k :=
    let d := take 3 (concat (map fst iovs)) in (zlen d, 0, mkServer (sent k ++ d) (given k));
  k_close fd k := (0, 0, k);
  k_fcntl fd cmd a k := (0, 0, k)
}.
#[local] Instance server_sockets : SocketKernel server := {
  k_socket d t m := (5, 0, mkServer [] []);
  k_socketpair d t m := (0, 0, (2, 3), m);
  k_getsockopt fd level o m := (0, 0, (0, 4), m);
  k_setsockopt fd l o v m := (0, 0, m);
  k_getsockname fd m := (0, 0, ([], 0), m);
  k_getpeername fd m := (0, 0, ([], 0), m);
  k_bind fd a m := (0, 0, m);
  k_connect fd a m := (0, 0, m);
  k_shutdown fd how m := (0, 0, m);
  k_listen fd b m := (0, 0, m);
  k_accept fd m := (6, 0, m);
  k_recvfrom fd n m := (0, 0, [], ([], 0), m);
  k_sendmsg fd to iovs m := (0, 0, m);
  k_open p m := (4, 0, m);
  k_tunsetiff fd flags name m := (0, 0, m)
}.
(** Numeric addresses, with the one service. *)
#[local] Instance http_resolver : Resolver := {
  inet_ntoa := dotted;
  getaddrinfo node service := numeric_addrinfo node
    (if bool_decide (service = bytes_of_string "http") then bytes_of_string "80" else service);
  getnameinfo := numeric_nameinfo
}.

#[local] Arguments page : simpl never.

Lemma server_serves : WebServer server page 5 sent given.
Proof.
  split.
  - intros k. by exists 0, (mkServer [] []).
  - intros a k. by exists 0, k.
  - intros iovs k r errno k' [= <- <- <-]. set (d := concat (map fst iovs)). cbn [sent given].
    rewrite zlen_take. pose proof (zlen_nonneg d). split; [lia|]. split.
    + intros Hd. destruct d; [done|]. rewrite zlen_cons. pose proof (zlen_nonneg d). lia.
    + split; [|done]. f_equal. replace (Z.to_nat (Z.min (Z.of_nat 3) (zlen d))) with (3 `min` length d)%nat by (unfold zlen; lia).
      by rewrite <- take_take, firstn_all.
  - intros n k r errno data k' Hn [= <- <- <- <-]. cbn [sent given]. set (t := drop _ _). set (m := Z.to_nat (Z.min n 3)).
    assert (Z.of_nat m = Z.min n 3) as Hm by (unfold m; lia). clearbody m.
    rewrite (take_ge (take m t)) by (unfold zlen; lia). pose proof (zlen_nonneg t).
    split; [rewrite zlen_take in *; lia|]. split; [done|]. split; [done|]. split; [done|]. intros Hp.
    destruct Hp as [u Hu]. assert (t = u) as Ht by (unfold t; rewrite Hu; by apply drop_app_length). split.
    + rewrite Hu, Ht. apply prefix_app. apply prefix_take.
    + intros Hz. rewrite zlen_take in Hz. assert (zlen t = 0) as Ht0 by lia. rewrite Ht in Ht0.
      assert (u = []) as -> by (destruct u; [done|rewrite zlen_cons in Ht0; pose proof (zlen_nonneg u); lia]). by rewrite app_nil_r in Hu.
  - intros k. by exists 0, k.
Qed.

Lemma get_URL_fetches_witness :
  exists w k', get_URL (length (page request) + 2) (bytes_of_string "10.0.0.1") (bytes_of_string "/hello") (mkServer [] []) =
    Some (ok (bytes_of_string "HTTP/1.1 200 OK" ++ crlf ++ crlf ++ bytes_of_string "hello, world", (w, k'))).
Proof.
  destruct (get_URL_fetches page 5 sent given (WebServer0 := server_serves) ltac:(lia)
    (bytes_of_string "10.0.0.1") (bytes_of_string "/hello") (AddressTheorems.ipv4_address 167772161 80) (mkServer [] []))
    as (w&k'&E&_).
  - by vm_compute.
  - by vm_compute.
  - exists w, k'. exact E.
Defined.

End Run.
End WebGetTheorems.
