(* ===== verification/TunDump.v ===== *)
(** * The listing of a TUN device (apps/tun.cc)

    Every packet that arrives is printed, in hexadecimal and, as far as it can be parsed,
    with the fields of its headers. *)
From S2P Require Import Prelude Wrapping Buffers Parser TcpSegment Ipv4 Addresses Descriptor Adapters Socket Printing Hexdump.
From S2P Require Import CString.

Module TunDump.
Import FileDescriptor.

(** The part for TCP. *)
Definition show_tcp (ip_dgram : IPv4Datagram.IPv4Datagram) : result bytes :=
  let h := IPv4Datagram.header ip_dgram in
  let! b := BufferList.to_buffer (IPv4Datagram.payload ip_dgram) in
  let! (tcp_seg, r) := TCPSegment.parse b (IPv4Header.pseudo_cksum h) TCPSegment.default_segment in
  ok (newline ++ bytes_of_string "Attempting to parse as a TCP segment... " ++
      if bool_decide (r <> NoError) then bytes_of_string "failed." ++ newline
      else bytes_of_string "success! payload len=" ++ to_string (Buffer.size (TCPSegment.payload tcp_seg)) ++
           bytes_of_string ", TCP header contents:" ++ newline ++
           tcp_header_to_string (TCPSegment.header tcp_seg) ++ newline).

(** What is printed for a packet: one turn of the loop. *)
Definition show_packet (buffer : bytes) : result bytes :=
  let start := newline ++ newline ++ bytes_of_string "***" ++ newline ++ bytes_of_string "*** Got packet:" ++ newline ++
               bytes_of_string "***" ++ newline ++ Hexdump.hexdump buffer 0 ++
               bytes_of_string "attempting to parse as ipv4 datagram... " in
  let! (ip_dgram, r) := IPv4Datagram.parse (Buffer.make buffer) IPv4Datagram.default_datagram in
  if bool_decide (r <> NoError) then ok (start ++ bytes_of_string "failed." ++ newline)
  else
    let h := IPv4Datagram.header ip_dgram in
    let ip := start ++ bytes_of_string "success! totlen=" ++ to_string (IPv4Header.len h) ++
              bytes_of_string ", IPv4 header contents:" ++ newline ++ ipv4_header_to_string h in
    if negb (IPv4Header.proto h =? IPv4Header.PROTO_TCP)
    then ok (ip ++ newline ++ bytes_of_string "Not TCP, skipping." ++ newline)
    else let! t := show_tcp ip_dgram in ok (ip ++ t).

Section Main.
Context {K : Type} `{Kernel K} `{SocketKernel K}.

(** The loop, for [fuel] packets: what was printed and the device, or the exception that
    ends it. *)
Fixpoint show_packets (fuel : nat) (out : bytes) (s : FDWrapper * K) : result (bytes * (FDWrapper * K)) :=
  match fuel with
  | O => ok (out, s)
  | S fuel =>
      let! (buffer, s) := read (2 ^ 64 - 1) s in
      let! text := show_packet buffer in
      show_packets fuel (out ++ text) s
  end.

(** The program: only an exception ends it, with this status. *)
Definition main (fuel : nat) (k : K) : option Z :=
  match (let! s := TunTapFD.TunFD (bytes_of_string "tun144") k in show_packets fuel [] s) with
  | inl _ => Some EXIT_FAILURE
  | inr _ => None
  end.

End Main.
End TunDump.

Module TunDumpTheorems.
Import TunDump AdapterTheorems.

Section Link.
Context `{ResolverSpec}.
Context (ipA pA ipB pB : Z).
Hypotheses (HipA : 0 <= ipA < 2 ^ 32) (HpA : 0 <= pA < 2 ^ 16)
  (HipB : 0 <= ipB < 2 ^ 32) (HpB : 0 <= pB < 2 ^ 16).

(** What the adapter writes to a TUN device is shown as a datagram with a segment: its
    length, the header with both addresses, and the ports, flags and numbers of the segment
    as they were sent. *)
Theorem tun_shows_segment seg a :
  endpoint ipA pA ipB pB (tun_base a) -> wrappable seg ->
  exists l c ck, tun_write seg a = ok ([l], set_ports pA pB seg) /\
    show_packet (BufferList.concatenate l) = ok (
      newline ++ newline ++ bytes_of_string "***" ++ newline ++ bytes_of_string "*** Got packet:" ++ newline ++
      bytes_of_string "***" ++ newline ++ Hexdump.hexdump (BufferList.concatenate l) 0 ++
      bytes_of_string "attempting to parse as ipv4 datagram... " ++ bytes_of_string "success! totlen=" ++
      to_string (20 + 4 * TCPHeader.doff (TCPSegment.header seg) + Buffer.size (TCPSegment.payload seg)) ++
      bytes_of_string ", IPv4 header contents:" ++ newline ++
      ipv4_header_to_string ((wrap_header ipA ipB seg) <| IPv4Header.cksum := c |>) ++ newline ++
      bytes_of_string "Attempting to parse as a TCP segment... " ++ bytes_of_string "success! payload len=" ++
      to_string (Buffer.size (TCPSegment.payload seg)) ++ bytes_of_string ", TCP header contents:" ++ newline ++
      tcp_header_to_string ((TCPSegment.header (set_ports pA pB seg)) <| TCPHeader.cksum := ck |>) ++ newline).
Proof.
  intros Ha Hw. destruct (wrap_datagram ipA pA ipB pB HipA HpA HipB HpB seg _ Ha Hw) as (body&Es&Ew&Hd).
  destruct (Ipv4Theorems.parse_serialized_datagram _ Hd) as (l&El&P).
  pose proof (Ipv4Theorems.zlen_serialized _ _ Hd El) as Hl.
  destruct (P (Buffer.make (BufferList.concatenate l)) IPv4Datagram.default_datagram) as (c&p&_&Ep&Hs&Hp&_).
  { apply Buffer.make_wf. destruct Hd as ([]&_). lia. }
  { by rewrite Buffer.str_make. }
  destruct (TcpSegmentTheorems.parse_serialized_segment _ _ (wrap_sendable ipA pA ipB pB HipA HpA HipB HpB seg Hw)) as (body'&E'&P').
  rewrite Es in E'. unfold ok in E'. injection E' as <-.
  destruct (P' (NetParser.buffer p) TCPSegment.default_segment Hp Hs) as (ck&q&Eq&Hq&_).
  exists l, c, ck. unfold tun_write. rewrite Ew, bindR_ok, El, bindR_ok. split; [done|].
  unfold show_packet. rewrite Ep, bindR_ok, bool_decide_eq_false_2 by (intros []; done).
  change (IPv4Datagram.header (IPv4Datagram.mkIPv4Datagram (wrap_header ipA ipB seg) body)) with (wrap_header ipA ipB seg).
  set (h := (wrap_header ipA ipB seg) <| IPv4Header.cksum := c |>).
  change (IPv4Datagram.header (IPv4Datagram.mkIPv4Datagram h _)) with h. change (IPv4Header.proto h =? IPv4Header.PROTO_TCP) with true.
  cbn [negb]. unfold show_tcp. cbn [IPv4Datagram.payload IPv4Datagram._payload BufferList.to_buffer].
  change (IPv4Datagram.header (IPv4Datagram.mkIPv4Datagram h _)) with h.
  change (IPv4Header.pseudo_cksum h) with (IPv4Header.pseudo_cksum (wrap_header ipA ipB seg)).
  rewrite bindR_ok, Eq, bindR_ok, bool_decide_eq_false_2, bindR_ok by (intros []; done).
  change (IPv4Header.len h) with (20 + 4 * TCPHeader.doff (TCPSegment.header seg) + Buffer.size (TCPSegment.payload seg)).
  f_equal. rewrite <- !app_assoc. unfold Buffer.size in *. cbn [TCPSegment.payload TCPSegment._payload]. by rewrite Hq.
Qed.

End Link.

Import NumericResolver.
Definition adapter : TCPOverIPv4OverTunFdAdapter :=
  mkTunAdapter (FdAdapterBase.mkFdAdapterBase
    (mkFdAdapterConfig (AddressTheorems.ipv4_address 167772161 1024) (AddressTheorems.ipv4_address 167772162 80) 0 0) false).

Lemma tun_shows_segment_witness :
  exists l, tun_write TCPSegment.default_segment adapter = ok ([l], set_ports 1024 80 TCPSegment.default_segment) /\
    is_ok (show_packet (BufferList.concatenate l)).
Proof.
  destruct (tun_shows_segment 167772161 1024 167772162 80 ltac:(lia) ltac:(lia) ltac:(lia) ltac:(lia)
    TCPSegment.default_segment adapter) as (l&c&ck&E&Es).
  - by split.
  - repeat split; simpl; try done; by unfold wrapping_ok.
  - exists l. split; [exact E|]. eexists. exact Es.
Defined.

End TunDumpTheorems.
