(* ===== verification/Tcpdump.v ===== *)
(** * The packet dump (apps/udp_tcpdump.cc)

    TCP segments in UDP datagrams, as tcp_udp sends them, shown as they pass an interface.
    The capture library is the class [Pcap]; a packet is its captured bytes, and reading
    outside of them is undefined. *)
From S2P Require Import Prelude Wrapping Buffers Parser Checksum TcpSegment Addresses Printing Hexdump CString CommandLine.

(** libpcap: [pcap_open_live] gives an error message or a handle, which is part of the
    state; [pcap_next_ex] gives its return value and the captured bytes. *)
Class Pcap (K : Type) := {
  pcap_open_live : option bytes -> Z -> Z -> Z -> K -> option bytes * K;
  pcap_datalink : K -> Z;
  pcap_datalink_val_to_description : Z -> bytes;
  pcap_compile : bytes -> K -> Z * K;
  pcap_setfilter : K -> Z * K;
  pcap_geterr : K -> bytes;
  pcap_next_ex : K -> Z * bytes * K
}.

Module Tcpdump.
Import CommandLine.

(** ** Arguments *)
Definition show_usage (arg0 : bytes) (errmsg : option bytes) : bytes :=
  bytes_of_string "Usage: " ++ arg0 ++ row " [-i <intf>] [-F <file>] [-h|--help] <expression>" ++ [x0a] ++
  row "  -i <intf>    only capture packets from <intf> (default: all)" ++ [x0a] ++
  row "  -F <file>    reads in a filter expression from <file>" ++
  row "               <expression> is ignored if -F is supplied." ++ [x0a] ++
  row "  -h, --help   show this message" ++ [x0a] ++
  row "  <expression> a filter expression in pcap-filter(7) syntax" ++
  match errmsg with Some m => [x0a] ++ m | None => [] end ++ [x0a].

Definition check_arg (argv : list bytes) (curr : Z) (errmsg : string) : result (ended unit) :=
  let! arg0 := arg argv 0 in
  ok (if zlen argv <=? curr + 1 then Exited 1 (show_usage arg0 (Some (bytes_of_string errmsg))) else Returned tt).

(** [curr] at the end, and the device. *)
Fixpoint parse_loop (fuel : nat) (argv : list bytes) (curr : Z) (dev : option bytes)
    : option (result (ended (Z * option bytes))) :=
  match fuel with
  | O => None
  | S fuel =>
      if curr <? zlen argv then
        let? a := Some (arg argv curr) in
        if strncmp 3 (bytes_of_string "-i") a then
          let? c := Some (check_arg argv curr "ERROR: -i requires an argument") in
          match c with
          | Returned _ => let? d := Some (arg argv (curr + 1)) in parse_loop fuel argv (curr + 2) (Some d)
          | Exited status output => Some (ok (Exited status output))
          end
        else if strncmp 3 (bytes_of_string "-h") a || strncmp 7 (bytes_of_string "--help") a then
          let? arg0 := Some (arg argv 0) in Some (ok (Exited 0 (show_usage arg0 None)))
        else Some (ok (Returned (curr, dev)))
      else Some (ok (Returned (curr, dev)))
  end.
Definition parse_arguments (argv : list bytes) : option (result (ended (Z * option bytes))) :=
  parse_loop (S (length argv)) argv 1 None.

(** ** Packets *)

(** [data[i]], and [n] bytes from [data + i] on. *)
Definition at_ (data : bytes) (i : Z) : result Z :=
  match data !! Z.to_nat i with
  | Some b => if 0 <=? i then ok (byte_to_Z b) else throw undefined
  | None => throw undefined
  end.
Definition read_at (data : bytes) (i n : Z) : result bytes :=
  if (0 <=? i) && (i + n <=? zlen data) then ok (slice data i (i + n)) else throw undefined.

Section Addresses.
(** [inet_ntop]: the family and the address's bytes. *)
Context (inet_ntop : Z -> bytes -> option bytes).

Definition AF_INET6 : Z := 10.
Definition inet4_addr (data : bytes) (i : Z) : result bytes :=
  let! a := read_at data i 4 in
  ok (match inet_ntop Address.AF_INET a with Some s => s | None => bytes_of_string "unknown" end).
Definition inet6_addr (data : bytes) (i : Z) : result bytes :=
  let! a := read_at data i 16 in
  ok (match inet_ntop AF_INET6 a with Some s => s | None => bytes_of_string "unknown" end).

(** The extension headers of IPv6: the offset of what follows them, or, with what is
    printed on [cerr], that there is no such. *)
Fixpoint extensions (fuel : nat) (len : Z) (data : bytes) (nxt data_offset : Z) : option (result (bytes + Z)) :=
  match fuel with
  | O => None
  | S fuel =>
      if negb (nxt =? 17) then
        if negb (nxt =? 0) && negb (nxt =? 43) && negb (nxt =? 60) then
          Some (ok (inl (bytes_of_string "Not UDP or fragmented; ")))
        else
          let? nxt := Some (at_ data data_offset) in
          let? l := Some (at_ data (data_offset + 1)) in
          let data_offset := data_offset + 8 * (1 + l) in
          if len <? data_offset + 2 then Some (ok (inl [])) else extensions fuel len data nxt data_offset
      else Some (ok (inr data_offset))
  end.

(** The offset of the UDP payload with the source and destination, or what is printed on
    [cerr] before -1 is returned. An extension has at least eight bytes. *)
Definition process_ipv4_ipv6 (len : Z) (data : bytes) : option (result (bytes + Z * bytes * bytes)) :=
  if len <? 1 then Some (ok (inl []))
  else
    let? b := Some (at_ data 0) in
    let pt := Z.land b 240 in
    if pt =? 64 then
      let data_offset := Z.land b 15 * 4 in
      if len <? data_offset then Some (ok (inl []))
      else
        Some (let! proto := at_ data 9 in
              if negb (proto =? 17) then ok (inl (bytes_of_string "Not UDP; "))
              else
                let! src := inet4_addr data 12 in
                let! dst := inet4_addr data 16 in
                ok (inr (data_offset + 8, src, dst)))
    else if pt =? 96 then
      if len <? 42 then Some (ok (inl []))
      else
        let? nxt := Some (at_ data 6) in
        let? e := extensions (S (Z.to_nat len)) len data nxt 40 in
        match e with
        | inl err => Some (ok (inl err))
        | inr data_offset =>
            Some (let! src := inet6_addr data 8 in
                  let! dst := inet6_addr data 24 in
                  ok (inr (data_offset + 8, src, dst)))
        end
    else Some (ok (inl [])).

(** ** Link types *)
Definition DLT_NULL : Z := 0.
Definition DLT_EN10MB : Z := 1.
Definition DLT_RAW : Z := 12.
Definition DLT_LINUX_SLL : Z := 113.
Definition DLT_LINUX_SLL2 : Z := 276.
Definition supported (dlt : Z) : bool :=
  (dlt =? DLT_RAW) || (dlt =? DLT_NULL) || (dlt =? DLT_EN10MB) || (dlt =? DLT_LINUX_SLL) || (dlt =? DLT_LINUX_SLL2).

(** What the code does after looking at the link header. *)
Inductive link :=
  | Header (hdr_off : Z)
  | Skip (err : bytes)
  | Mysterious.

Definition malformed : link := Skip (row "[INFO] Skipping malformed packet.").
Definition not_ip : link := Skip (row "[INFO] Skipping non-IP packet.").

(** An EtherType at [i], after a header of [hdr_off] bytes. *)
Definition ethertype (hdr_off i : Z) (pkt_data : bytes) : result link :=
  if zlen pkt_data <? hdr_off then ok malformed
  else
    let! a := at_ pkt_data i in
    let! b := at_ pkt_data (i + 1) in
    let pt := u16 (Z.lor (Z.shiftl a 8) b) in
    ok (if negb (pt =? 2048) && negb (pt =? 34525) then not_ip else Header hdr_off).

Definition link_header (dl_type : Z) (pkt_data : bytes) : result link :=
  if dl_type =? DLT_NULL then
    if zlen pkt_data <? 4 then ok malformed
    else
      let! pt := at_ pkt_data 3 in
      ok (if negb (pt =? 2) && negb (pt =? 24) && negb (pt =? 28) && negb (pt =? 30) then not_ip else Header 4)
  else if dl_type =? DLT_EN10MB then ethertype 14 12 pkt_data
  else if dl_type =? DLT_LINUX_SLL then ethertype 16 14 pkt_data
  else if dl_type =? DLT_LINUX_SLL2 then ethertype 20 0 pkt_data
  else if negb (dl_type =? DLT_RAW) then ok Mysterious
  else ok (Header 0).

(** ** Output *)

(** What a turn of the loop puts on [cout] and [cerr]. *)
Record output := mkOutput {
  cout : bytes;
  cerr : bytes
}.
Definition on_cout (s : bytes) : output := mkOutput s [].
Definition on_cerr (s : bytes) : output := mkOutput [] s.

(** The description of the segment in a UDP payload. *)
Definition describe (src dst payload : bytes) (seg : TCPSegment.TCPSegment) (res : ParseResult) : bytes :=
  let h := TCPSegment.header seg in
  let seqlen := u32 (TCPSegment.length_in_sequence_space seg) in
  src ++ bytes_of_string ":" ++ to_string (TCPHeader.sport h) ++ bytes_of_string " > " ++
  dst ++ bytes_of_string ":" ++ to_string (TCPHeader.dport h) ++ newline ++ bytes_of_string "    Flags [" ++
  flag (TCPHeader.urg h) "U" ++ flag (TCPHeader.psh h) "P" ++ flag (TCPHeader.rst h) "R" ++
  flag (TCPHeader.syn h) "S" ++ flag (TCPHeader.fin h) "F" ++ flag (TCPHeader.ack h) "." ++
  bytes_of_string "] cksum 0x" ++ pad 4 (to_hex (TCPHeader.cksum h)) ++
  bytes_of_string (if bool_decide (res = NoError) then " (correct)" else " (incorrect!)") ++
  bytes_of_string " seq " ++ wrapping_dec (TCPHeader.seqno h) ++
  (if 0 <? seqlen then bytes_of_string ":" ++ wrapping_dec (Wrapping.plus (TCPHeader.seqno h) seqlen) else []) ++
  bytes_of_string " ack " ++ wrapping_dec (TCPHeader.ackno h) ++ bytes_of_string " win " ++ to_string (TCPHeader.win h) ++
  bytes_of_string " length " ++ to_string (zlen payload) ++ newline.

Definition show_payload (src dst payload : bytes) : result bytes :=
  let! (seg, res) := TCPSegment.parse (Buffer.make payload) 0 TCPSegment.default_segment in
  ok ((if ParseResult_to_Z BadChecksum <? ParseResult_to_Z res
       then bytes_of_string "(did not recognize TCP header) src: " ++ src ++ bytes_of_string " dst: " ++ dst ++ newline
       else describe src dst payload seg res) ++
      Hexdump.hexdump payload 8).

(** One packet: [false] is the return after a link type that is not known. *)
Definition show_packet (dl_type : Z) (pkt_data : bytes) : option (result (bool * output)) :=
  let? l := Some (link_header dl_type pkt_data) in
  match l with
  | Skip err => Some (ok (true, on_cerr err))
  | Mysterious => Some (ok (false, on_cerr (bytes_of_string "Mysterious datalink type. Giving up.")))
  | Header hdr_off =>
      let? p := process_ipv4_ipv6 (zlen pkt_data - hdr_off) (drop (Z.to_nat hdr_off) pkt_data) in
      match p with
      | inl err => Some (ok (true, on_cerr (err ++ row "Error parsing IPv4/IPv6 packet. Skipping.")))
      | inr (start_off, src, dst) =>
          let payload_off := u64 (hdr_off + start_off) in
          let payload_len := u64 (zlen pkt_data - payload_off) in
          Some (let! payload := read_at pkt_data payload_off payload_len in
                let! text := show_payload src dst payload in
                ok (true, on_cout text))
      end
  end.

(** ** The program *)
Section Main.
Context {K : Type} `{Pcap K}.

(** The text put on both streams so far. *)
Definition add (a b : output) : output := mkOutput (cout a ++ cout b) (cerr a ++ cerr b).

(** The handle with the capture running, and its link type. *)
Definition open_capture (dev : option bytes) (k : K) : ended (Z * bytes * K) :=
  let intro := match dev with
               | Some d => bytes_of_string "Capturing on interface " ++ d
               | None => bytes_of_string "Capturing on all interfaces"
               end in
  match pcap_open_live dev 65535 0 100 k with
  | (Some errbuf, k) => Exited 1 (intro ++ newline ++ bytes_of_string "Error initiating capture: " ++ errbuf ++ newline)
  | (None, k) =>
      let dlt := pcap_datalink k in
      let description := pcap_datalink_val_to_description dlt in
      if negb (supported dlt)
      then Exited 1 (intro ++ newline ++ bytes_of_string "Error: unsupported datalink type " ++ description ++ newline)
      else Returned (dlt, intro ++ bytes_of_string " (type: " ++ description ++ bytes_of_string ")" ++ newline, k)
  end.

Definition filter_expression (argv : list bytes) (exp_start : Z) : bytes :=
  concat (map (fun a => a ++ [x20]) (drop (Z.to_nat exp_start) argv)).

Definition set_filter (argv : list bytes) (exp_start : Z) (k : K) : ended (bytes * K) :=
  let e := filter_expression argv exp_start in
  let said := bytes_of_string "Using filter expression: " ++ e ++ newline in
  let (r, k) := pcap_compile e k in
  if negb (r =? 0) then
    Exited EXIT_FAILURE (said ++ bytes_of_string "Error compiling filter expression: " ++ pcap_geterr k ++ newline)
  else
    let (r, k) := pcap_setfilter k in
    if negb (r =? 0) then
      Exited EXIT_FAILURE (said ++ bytes_of_string "Error configuring packet filter: " ++ pcap_geterr k ++ newline)
    else Returned (said, k).

(** The loop, for at most [fuel] calls of [pcap_next_ex]: the status and the output. The
    message after an error is taken from a handle that was closed. *)
Fixpoint capture (fuel : nat) (dl_type : Z) (o : output) (k : K) : option (result (Z * output)) :=
  match fuel with
  | O => None
  | S fuel =>
      let '(next_ret, pkt_data, k) := pcap_next_ex k in
      if 0 <=? next_ret then
        if next_ret =? 0 then capture fuel dl_type o k
        else
          let? (go_on, o') := show_packet dl_type pkt_data in
          if go_on : bool then capture fuel dl_type (add o o') k else Some (ok (EXIT_FAILURE, add o o'))
      else if next_ret =? -1 then Some (throw undefined)
      else Some (ok (EXIT_SUCCESS, o))
  end.

Definition main (fuel : nat) (argv : list bytes) (k : K) : option (result (Z * output)) :=
  let? a := parse_arguments argv in
  match a with
  | Exited status text => Some (ok (status, on_cout text))
  | Returned (exp_start, dev) =>
      match open_capture dev k with
      | Exited status text => Some (ok (status, on_cout text))
      | Returned (dl_type, text, k) =>
          match set_filter argv exp_start k with
          | Exited status text' => Some (ok (status, on_cout (text ++ text')))
          | Returned (text', k) => capture fuel dl_type (on_cout (text ++ text')) k
          end
      end
  end.

End Main.
End Addresses.
End Tcpdump.

(** ** What is found in a packet *)
Module TcpdumpTheorems.
Import Tcpdump.

Lemma at_inside data i : 0 <= i < zlen data -> exists b, data !! Z.to_nat i = Some b /\ at_ data i = ok (byte_to_Z b).
Proof.
  intros Hi. destruct (lookup_lt_is_Some_2 data (Z.to_nat i)) as [b E]; [unfold zlen in Hi; lia|].
  exists b. split; [done|]. unfold at_. rewrite E. by destruct (Z.leb_spec 0 i); [|lia].
Qed.

Lemma at_lookup data i b : 0 <= i -> data !! Z.to_nat i = Some b -> at_ data i = ok (byte_to_Z b).
Proof. intros Hi E. unfold at_. rewrite E. by destruct (Z.leb_spec 0 i); [|lia]. Qed.

Lemma read_at_inside data i n : 0 <= i -> i + n <= zlen data -> read_at data i n = ok (slice data i (i + n)).
Proof. intros Hi Hn. unfold read_at. by destruct (Z.leb_spec 0 i), (Z.leb_spec (i + n) (zlen data)); [|lia..]. Qed.

(** The loop over the extensions stays inside of the packet and ends. *)
Lemma extensions_inside fuel data nxt off :
  0 <= off -> off + 2 <= zlen data -> zlen data - off < Z.of_nat fuel ->
  exists e, extensions fuel (zlen data) data nxt off = Some (ok e) /\
    match e with inl _ => True | inr off' => off <= off' /\ off' + 2 <= zlen data end.
Proof.
  revert nxt off. induction fuel as [|fuel IH]; intros nxt off H0 H2 Hf; [lia|]. cbn [extensions].
  destruct (nxt =? 17); cbn [negb]; [exists (inr off); by split_and!|].
  destruct (_ && _ && _); [eexists (inl _); by split|].
  destruct (at_inside data off ltac:(lia)) as (b&_&->). cbn [bindO ok].
  destruct (at_inside data (off + 1) ltac:(lia)) as (l&_&->). cbn [bindO ok].
  pose proof (byte_to_Z_range l).
  destruct (Z.ltb_spec (zlen data) (off + 8 * (1 + byte_to_Z l) + 2)); [eexists (inl _); by split|].
  destruct (IH (byte_to_Z b) (off + 8 * (1 + byte_to_Z l))) as (e&->&He); [lia..|].
  exists e. split; [done|]. destruct e; [done|lia].
Qed.

(** The loop over the arguments ends; [-i] takes the device, and the rest, from the first
    argument that is no option, is the filter. *)
Lemma parse_loop_total fuel argv0 argv curr dev :
  1 <= curr -> zlen (argv0 :: argv) - curr < Z.of_nat fuel -> (0 < fuel)%nat ->
  parse_loop fuel (argv0 :: argv) curr dev <> None.
Proof.
  revert curr dev. induction fuel as [|fuel IH]; intros curr dev Hc Hf Hp; [lia|]. cbn [parse_loop].
  destruct (Z.ltb_spec curr (zlen (argv0 :: argv))); [|done].
  destruct (CommandLine.arg (argv0 :: argv) curr) as [e|a]; [done|]. cbn [bindO].
  destruct (strncmp 3 _ a); [|by destruct (_ || _)].
  destruct (check_arg _ _ _) as [e|[u|status output]]; [done| |done]. cbn [bindO].
  destruct (CommandLine.arg (argv0 :: argv) (curr + 1)) as [e|d]; [done|]. cbn [bindO]. apply IH; lia.
Qed.

Theorem arguments_read argv0 dev expression :
  (forall argv, parse_arguments (argv0 :: argv) <> None) /\
  (match expression with
   | e :: _ => strncmp 3 (bytes_of_string "-i") e = false /\ strncmp 3 (bytes_of_string "-h") e = false /\
               strncmp 7 (bytes_of_string "--help") e = false
   | [] => True
   end ->
   parse_arguments (argv0 :: bytes_of_string "-i" :: dev :: expression) = Some (ok (Returned (3, Some dev)))).
Proof.
  split; [intros argv; unfold parse_arguments; apply parse_loop_total; unfold zlen; lia|].
  intros He. unfold parse_arguments. set (argv := argv0 :: _). cbn [length parse_loop].
  assert (zlen argv = 3 + zlen expression) as Hz by (unfold argv; rewrite !zlen_cons; lia).
  pose proof (zlen_nonneg expression). destruct (Z.ltb_spec 1 (zlen argv)); [|lia].
  change (CommandLine.arg argv 1) with (ok (bytes_of_string "-i")). cbn [bindO ok].
  change (strncmp 3 (bytes_of_string "-i") (bytes_of_string "-i")) with true. cbv iota. unfold check_arg.
  change (CommandLine.arg argv 0) with (ok argv0). rewrite bindR_ok. destruct (Z.leb_spec (zlen argv) (1 + 1)); [lia|].
  cbn [bindO ok]. change (CommandLine.arg argv (1 + 1)) with (ok dev). cbn [bindO ok]. cbn [argv length parse_loop].
  change (1 + 2) with 3. destruct expression as [|e expression].
  - reflexivity.
  - destruct (Z.ltb_spec 3 (zlen argv)); [|rewrite zlen_cons in Hz; pose proof (zlen_nonneg expression); lia].
    change (CommandLine.arg argv 3) with (ok e). cbn [bindO ok]. destruct He as (->&->&->). done.
Qed.

(** The option [-F] of the usage message is not known: it is part of the filter. *)
Lemma file_option_unknown argv0 file :
  parse_arguments [argv0; bytes_of_string "-F"; file] = Some (ok (Returned (1, None))).
Proof. reflexivity. Qed.

Section Packets.
Context (inet_ntop : Z -> bytes -> option bytes).

(** Reading the headers of a packet ends, whatever its bytes; it stays inside of the
    packet, unless an IPv4 header claims to be shorter than it can be; and the payload
    that it finds starts at most eight bytes after the end. *)
Theorem process_inside data :
  process_ipv4_ipv6 inet_ntop (zlen data) data <> None /\
  ((forall b rest, data = b :: rest -> Z.land (byte_to_Z b) 240 = 64 -> 5 <= Z.land (byte_to_Z b) 15) ->
   exists r, process_ipv4_ipv6 inet_ntop (zlen data) data = Some (ok r) /\
     match r with inl _ => True | inr (off, _, _) => 28 <= off <= zlen data + 8 end).
Proof.
  unfold process_ipv4_ipv6. destruct (Z.ltb_spec (zlen data) 1) as [|Hl].
  { split; [done|]. intros _. by exists (inl []). }
  destruct data as [|b rest]; [done|]. change (at_ (b :: rest) 0) with (ok (byte_to_Z b)). cbn [bindO ok].
  set (data := b :: rest) in *. destruct (Z.eqb_spec (Z.land (byte_to_Z b) 240) 64) as [E4|N4].
  - destruct (Z.ltb_spec (zlen data) (Z.land (byte_to_Z b) 15 * 4)) as [|Ho]; [split; [done|]; intros _; by exists (inl [])|].
    split; [done|]. intros H5. specialize (H5 b rest eq_refl E4).
    destruct (at_inside data 9 ltac:(lia)) as (p&_&->). rewrite bindR_ok.
    destruct (negb _); [by eexists (inl _)|]. unfold inet4_addr. rewrite !read_at_inside by lia. cbn [bindR ok].
    eexists (inr _). split; [reflexivity|]. cbv beta iota. lia.
  - destruct (Z.eqb_spec (Z.land (byte_to_Z b) 240) 96) as [E6|N6]; [|split; [done|]; intros _; by exists (inl [])].
    destruct (Z.ltb_spec (zlen data) 42) as [|H42]; [split; [done|]; intros _; by exists (inl [])|].
    destruct (at_inside data 6 ltac:(lia)) as (n&_&->). cbn [bindO ok].
    destruct (extensions_inside (S (Z.to_nat (zlen data))) data (byte_to_Z n) 40) as (e&->&He); [lia..|].
    cbn [bindO ok]. destruct e as [err|off]; [split; [done|]; intros _; by exists (inl err)|].
    unfold inet6_addr. rewrite !read_at_inside by lia. cbn [bindR ok]. split; [done|]. intros _.
    eexists (inr _). split; [reflexivity|]. cbv beta iota. lia.
Qed.

(** *** Well-formed packets *)

(** Extension headers: each names the type of the next and has its length in units of
    eight bytes, not counting the first; the last one is followed by UDP. *)
Fixpoint ext_chain (nxt : Z) (exts : list bytes) : Prop :=
  match exts with
  | [] => nxt = 17
  | e :: exts =>
      (nxt = 0 \/ nxt = 43 \/ nxt = 60) /\
      match e with
      | n :: l :: _ => zlen e = 8 * (1 + byte_to_Z l) /\ ext_chain (byte_to_Z n) exts
      | _ => False
      end
  end.

(** An address as text. *)
Definition host (family : Z) (a : bytes) : bytes :=
  match inet_ntop family a with Some s => s | None => bytes_of_string "unknown" end.

(** The headers below UDP, of IPv4 with options or of IPv6 with extensions, with the
    addresses of the sender and of the receiver. *)
Inductive carries_udp : bytes -> bytes -> bytes -> Prop :=
  | carries_v4 b hdr ihl : byte_to_Z b = 64 + ihl -> 5 <= ihl <= 15 -> zlen (b :: hdr) = 4 * ihl ->
      (b :: hdr) !! 9%nat = Some x11 ->
      carries_udp (b :: hdr) (host Address.AF_INET (slice (b :: hdr) 12 16)) (host Address.AF_INET (slice (b :: hdr) 16 20))
  | carries_v6 b hdr n exts : 96 <= byte_to_Z b < 112 -> zlen (b :: hdr) = 40 -> (b :: hdr) !! 6%nat = Some n ->
      ext_chain (byte_to_Z n) exts ->
      carries_udp ((b :: hdr) ++ concat exts) (host AF_INET6 (slice (b :: hdr) 8 24)) (host AF_INET6 (slice (b :: hdr) 24 40)).

(** The headers of the link types, of packets with IPv4 or IPv6 in them; that of loopback
    devices is not among them, see [loopback_skipped]. *)
Definition ip_type (t : bytes) : Prop := t = [x08; x00] \/ t = [x86; xdd].
Inductive linked : Z -> bytes -> Prop :=
  | linked_raw : linked DLT_RAW []
  | linked_ethernet a t : zlen a = 12 -> ip_type t -> linked DLT_EN10MB (a ++ t)
  | linked_sll a t : zlen a = 14 -> ip_type t -> linked DLT_LINUX_SLL (a ++ t)
  | linked_sll2 t a : ip_type t -> zlen a = 18 -> linked DLT_LINUX_SLL2 (t ++ a).

Lemma at_app pre b rest : at_ (pre ++ b :: rest) (zlen pre) = ok (byte_to_Z b).
Proof. apply at_lookup; [apply zlen_nonneg|]. unfold zlen. by rewrite Nat2Z.id, list_lookup_middle. Qed.

Lemma extensions_chain fuel exts nxt pre rest len :
  ext_chain nxt exts -> zlen (pre ++ concat exts ++ rest) = len -> 2 <= zlen rest -> (length exts < fuel)%nat ->
  extensions fuel len (pre ++ concat exts ++ rest) nxt (zlen pre) = Some (ok (inr (zlen (pre ++ concat exts)))).
Proof.
  revert fuel nxt pre. induction exts as [|e exts IH]; intros fuel nxt pre Hc Hlen Hr Hf;
    (destruct fuel as [|fuel]; [cbn in Hf; lia|]); cbn [extensions ext_chain concat] in *.
  - subst nxt. cbn. by rewrite app_nil_r.
  - destruct Hc as [Hn Hc]. destruct e as [|n [|l e]]; [done..|]. destruct Hc as [He Hc].
    assert (negb (nxt =? 17) = true /\ negb (nxt =? 0) && negb (nxt =? 43) && negb (nxt =? 60) = false) as [-> ->]
      by (by destruct Hn as [->|[->| ->]]).
    rewrite <- app_assoc. cbn [app]. rewrite at_app. cbn [bindO ok].
    assert (at_ (pre ++ n :: l :: e ++ concat exts ++ rest) (zlen pre + 1) = ok (byte_to_Z l)) as ->.
    { change (n :: l :: e ++ concat exts ++ rest) with ([n] ++ l :: e ++ concat exts ++ rest). rewrite app_assoc.
      replace (zlen pre + 1) with (zlen (pre ++ [n])) by (by rewrite zlen_app). apply at_app. }
    cbn [bindO ok]. rewrite <- He. pose proof (zlen_nonneg (concat exts)).
    destruct (Z.ltb_spec len (zlen pre + zlen (n :: l :: e) + 2)) as [Hb|_].
    { subst len. rewrite !zlen_app in Hb. cbn [concat] in Hb. rewrite ?zlen_app in Hb. lia. }
    specialize (IH fuel (byte_to_Z n) (pre ++ n :: l :: e)). rewrite <- !app_assoc in IH. cbn [app] in IH.
    rewrite <- zlen_app. apply IH; [done| |done|cbn in Hf; lia].
    subst len. by rewrite <- app_assoc.
Qed.

Lemma chain_length nxt exts : ext_chain nxt exts -> (length exts <= length (concat exts))%nat.
Proof.
  revert nxt. induction exts as [|e exts IH]; intros nxt; [done|]. cbn [ext_chain]. intros [_ H].
  destruct e as [|n [|l e]]; [done..|]. destruct H as [_ H]. specialize (IH _ H). cbn. rewrite length_app. lia.
Qed.

(** The headers are taken for what they are. *)
Lemma slice_front {A} (s t : list A) i j : 0 <= i <= j -> j <= zlen s -> slice (s ++ t) i j = slice s i j.
Proof.
  intros Hi Hj. unfold slice, zlen in *. rewrite drop_app_le by lia. apply take_app_le. rewrite length_drop. lia.
Qed.

Lemma process_finds hdr src dst rest :
  carries_udp hdr src dst -> 2 <= zlen rest ->
  process_ipv4_ipv6 inet_ntop (zlen (hdr ++ rest)) (hdr ++ rest) = Some (ok (inr (zlen hdr + 8, src, dst))).
Proof.
  intros Hc Hr. destruct Hc as [b hdr ihl Hb Hi Hz H9|b hdr n exts Hb Hz H6 Hx]; unfold process_ipv4_ipv6.
  - assert (zlen ((b :: hdr) ++ rest) = 4 * ihl + zlen rest) as Hl by (rewrite zlen_app; lia).
    rewrite Hl. destruct (Z.ltb_spec (4 * ihl + zlen rest) 1); [lia|].
    change (at_ ((b :: hdr) ++ rest) 0) with (ok (byte_to_Z b)). cbn [bindO ok]. rewrite Hb.
    assert (Z.land (64 + ihl) 240 = 64 /\ Z.land (64 + ihl) 15 = ihl) as [-> ->].
    { assert (ihl = 5 \/ ihl = 6 \/ ihl = 7 \/ ihl = 8 \/ ihl = 9 \/ ihl = 10 \/ ihl = 11 \/ ihl = 12 \/ ihl = 13 \/
        ihl = 14 \/ ihl = 15) as Hcases by lia. by repeat destruct Hcases as [->|Hcases]; subst. }
    cbn [Z.eqb]. change (64 =? 64) with true. cbv iota. destruct (Z.ltb_spec (4 * ihl + zlen rest) (ihl * 4)); [lia|].
    rewrite (at_lookup _ 9 x11); [|lia|by apply lookup_app_l_Some]. rewrite bindR_ok. cbn [negb Z.eqb].
    change (negb (byte_to_Z x11 =? 17)) with false. cbv iota.
    unfold inet4_addr. rewrite !read_at_inside by lia. cbn [bindR ok]. rewrite !slice_front by lia.
    unfold host. repeat f_equal. lia.
  - rewrite <- app_assoc. pose proof (zlen_nonneg (concat exts)). set (data := (b :: hdr) ++ concat exts ++ rest).
    assert (zlen data = 40 + zlen (concat exts) + zlen rest) as Hl by (unfold data; rewrite !zlen_app; lia).
    destruct (Z.ltb_spec (zlen data) 1); [lia|]. change (at_ data 0) with (ok (byte_to_Z b)). cbn [bindO ok].
    assert (Z.land (byte_to_Z b) 240 = 96) as ->.
    { assert (forallb (fun k => Z.land (96 + Z.of_nat k) 240 =? 96) (seq 0 16) = true) as Hf by done.
      rewrite forallb_forall in Hf. specialize (Hf (Z.to_nat (byte_to_Z b - 96)) ltac:(apply in_seq; lia)).
      apply Z.eqb_eq in Hf. rewrite <- Hf. f_equal. lia. }
    change (96 =? 64) with false. change (96 =? 96) with true. cbv iota. destruct (Z.ltb_spec (zlen data) 42); [lia|].
    rewrite (at_lookup data 6 n); [|lia|by apply lookup_app_l_Some]. cbn [bindO ok].
    rewrite <- Hz. unfold data. rewrite (extensions_chain _ exts); [|done|done|done|].
    2: { apply chain_length in Hx. unfold zlen. rewrite Nat2Z.id, !length_app. lia. }
    cbn [bindO ok]. unfold inet6_addr. fold data. rewrite !read_at_inside by lia. cbn [bindR ok].
    unfold data. rewrite !slice_front by lia. rewrite Hz. reflexivity.
Qed.

Lemma ethertype_found off i pre t rest :
  ip_type t -> zlen pre = i -> off <= zlen (pre ++ t ++ rest) -> ethertype off i (pre ++ t ++ rest) = ok (Header off).
Proof.
  intros Ht <- Hl. unfold ethertype. destruct (Z.ltb_spec (zlen (pre ++ t ++ rest)) off); [lia|].
  assert (exists a b, t = [a; b] /\
    (negb (u16 (Z.lor (Z.shiftl (byte_to_Z a) 8) (byte_to_Z b)) =? 2048) &&
     negb (u16 (Z.lor (Z.shiftl (byte_to_Z a) 8) (byte_to_Z b)) =? 34525) = false)) as (a&b&->&E)
    by (destruct Ht as [->| ->]; by eexists _, _).
  cbn [app]. rewrite at_app, bindR_ok.
  change (a :: b :: rest) with ([a] ++ b :: rest). rewrite app_assoc.
  replace (zlen pre + 1) with (zlen (pre ++ [a])) by (by rewrite zlen_app). rewrite at_app, bindR_ok. cbv zeta. by rewrite E.
Qed.

Lemma link_found dl lh rest : linked dl lh -> link_header dl (lh ++ rest) = ok (Header (zlen lh)).
Proof.
  intros [|a t Ha Ht|a t Ha Ht|t a Ht Ha]; unfold link_header.
  - done.
  - change (DLT_EN10MB =? DLT_NULL) with false. change (DLT_EN10MB =? DLT_EN10MB) with true. cbv iota.
    rewrite <- app_assoc, zlen_app, Ha. rewrite ethertype_found; [by destruct Ht as [->| ->]|done|done|].
    rewrite !zlen_app, Ha. pose proof (zlen_nonneg rest). assert (zlen t = 2) by (by destruct Ht as [->| ->]). lia.
  - change (DLT_LINUX_SLL =? DLT_NULL) with false. change (DLT_LINUX_SLL =? DLT_EN10MB) with false.
    change (DLT_LINUX_SLL =? DLT_LINUX_SLL) with true. cbv iota.
    rewrite <- app_assoc, zlen_app, Ha. rewrite ethertype_found; [by destruct Ht as [->| ->]|done|done|].
    rewrite !zlen_app, Ha. pose proof (zlen_nonneg rest). assert (zlen t = 2) by (by destruct Ht as [->| ->]). lia.
  - change (DLT_LINUX_SLL2 =? DLT_NULL) with false. change (DLT_LINUX_SLL2 =? DLT_EN10MB) with false.
    change (DLT_LINUX_SLL2 =? DLT_LINUX_SLL) with false. change (DLT_LINUX_SLL2 =? DLT_LINUX_SLL2) with true. cbv iota.
    rewrite <- app_assoc, zlen_app, Ha. change (t ++ a ++ rest) with ([] ++ t ++ a ++ rest).
    rewrite ethertype_found; [by destruct Ht as [->| ->]|done|done|].
    cbn [app]. rewrite !zlen_app, Ha. pose proof (zlen_nonneg rest). assert (zlen t = 2) by (by destruct Ht as [->| ->]). lia.
Qed.

(** The payload of a UDP datagram is what is shown. *)
Lemma packet_payload dl lh hdr src dst udp payload :
  linked dl lh -> carries_udp hdr src dst -> zlen udp = 8 -> zlen (lh ++ hdr ++ udp ++ payload) < 2 ^ 31 ->
  show_packet inet_ntop dl (lh ++ hdr ++ udp ++ payload) =
    Some (let! text := show_payload src dst payload in ok (true, on_cout text)).
Proof.
  intros Hl Hh Hu Hz. unfold show_packet. rewrite link_found by done. cbn [bindO ok].
  rewrite !zlen_app in *. pose proof (zlen_nonneg lh). pose proof (zlen_nonneg hdr). pose proof (zlen_nonneg payload).
  rewrite drop_app_length' by (unfold zlen; lia). replace (zlen lh + (zlen hdr + (zlen udp + zlen payload)) - zlen lh)
    with (zlen (hdr ++ udp ++ payload)) by (rewrite !zlen_app; lia).
  rewrite (process_finds hdr src dst (udp ++ payload) Hh) by (rewrite zlen_app; lia). cbn [bindO ok].
  rewrite u64_small by lia. rewrite u64_small by lia.
  rewrite read_at_inside by (rewrite ?zlen_app; lia). rewrite bindR_ok.
  replace (slice _ _ _) with payload; [done|]. symmetry. unfold slice.
  rewrite (app_assoc hdr), (app_assoc lh), drop_app_length' by (unfold zlen in *; rewrite !length_app; lia).
  apply take_ge. unfold zlen in *. lia.
Qed.

(** *** What a line says

    The text names both ends, and its numbers, read as C reads them, and its letters are
    the fields of the segment; [n] is the length of the datagram's payload, which the code shows for the
    segment's. *)
Definition letters (h : TCPHeader.TCPHeader) : list (byte * bool) :=
  [(x55, TCPHeader.urg h); (x50, TCPHeader.psh h); (x52, TCPHeader.rst h); (x53, TCPHeader.syn h);
   (x46, TCPHeader.fin h); (x2e, TCPHeader.ack h)].
Definition shows (src dst : bytes) (seg : TCPSegment.TCPSegment) (n : Z) (text : bytes) : Prop :=
  let h := TCPSegment.header seg in
  let occupies := zlen (Buffer.str (TCPSegment.payload seg)) + Z_of_bool (TCPHeader.syn h) + Z_of_bool (TCPHeader.fin h) in
  exists sport dport flags cksum seqno last ackno win size,
    text = src ++ bytes_of_string ":" ++ sport ++ bytes_of_string " > " ++ dst ++ bytes_of_string ":" ++ dport ++ newline ++
      bytes_of_string "    Flags [" ++ flags ++ bytes_of_string "] cksum 0x" ++ cksum ++ bytes_of_string " (correct)" ++
      bytes_of_string " seq " ++ seqno ++ last ++ bytes_of_string " ack " ++ ackno ++ bytes_of_string " win " ++ win ++
      bytes_of_string " length " ++ size ++ newline /\
    strtol sport = TCPHeader.sport h /\ strtol dport = TCPHeader.dport h /\
    (forall c b, (c, b) ∈ letters h -> c ∈ flags <-> b = true) /\
    strtol seqno = raw_value (TCPHeader.seqno h) /\
    (if 0 <? occupies
     then exists e, last = bytes_of_string ":" ++ e /\ strtol e = (raw_value (TCPHeader.seqno h) + occupies) mod 2 ^ 32
     else last = []) /\
    strtol ackno = raw_value (TCPHeader.ackno h) /\ strtol win = TCPHeader.win h /\ strtol size = n.

Lemma elem_of_flag c b s x : bytes_of_string s = [x] -> c ∈ flag b s <-> b = true /\ c = x.
Proof. intros E. unfold flag. rewrite E. destruct b; [rewrite list_elem_of_singleton; tauto|]. rewrite elem_of_nil. by split; [|intros []]. Qed.

Lemma flag_letters urg psh rst syn fin ack c b :
  (c, b) ∈ [(x55, urg); (x50, psh); (x52, rst); (x53, syn); (x46, fin); (x2e, ack)] ->
  c ∈ flag urg "U" ++ flag psh "P" ++ flag rst "R" ++ flag syn "S" ++ flag fin "F" ++ flag ack "." <-> b = true.
Proof.
  intros H. rewrite !elem_of_app, (elem_of_flag _ _ _ x55), (elem_of_flag _ _ _ x50), (elem_of_flag _ _ _ x52),
    (elem_of_flag _ _ _ x53), (elem_of_flag _ _ _ x46), (elem_of_flag _ _ _ x2e) by done.
  repeat (apply elem_of_cons in H as [[= -> ->]|H]); [..|by apply not_elem_of_nil in H];
    (split; [intros H'; repeat destruct H' as [H'|H']; by destruct H'|tauto]).
Qed.

Lemma describe_shows src dst payload ck seg c p :
  TcpSegmentTheorems.sendable ck seg -> Buffer.str p = Buffer.str (TCPSegment.payload seg) -> zlen payload < 2 ^ 31 ->
  shows src dst seg (zlen payload)
    (describe src dst payload (TCPSegment.mkTCPSegment ((TCPSegment.header seg) <| TCPHeader.cksum := c |>) p) NoError).
Proof.
  intros (Hw&Hb&Hck&Hs) Hp Hz. pose proof (zlen_nonneg payload). pose proof (zlen_nonneg (Buffer.str (TCPSegment.payload seg))) as Hn.
  unfold shows. set (h := TCPSegment.header seg) in *. pose proof Hw as [? ? Hq Ha ? ? ? ?]. unfold wrapping_ok in Hq, Ha.
  set (occupies := zlen _ + _ + _). assert (zlen (Buffer.str (TCPSegment.payload seg)) < 2 ^ 20) as Hl.
  { unfold Buffer.size in Hs. lia. }
  assert (u32 (TCPSegment.length_in_sequence_space (TCPSegment.mkTCPSegment (h <| TCPHeader.cksum := c |>) p)) = occupies) as El.
  { unfold TCPSegment.length_in_sequence_space, occupies. cbn. rewrite Hp.
    destruct (TCPHeader.syn h), (TCPHeader.fin h); cbn [Z_of_bool];
      rewrite (u64_small (zlen _ + _)), u64_small, u32_small by lia; lia. }
  assert (0 <= occupies < 2 ^ 21) as Ho by (unfold occupies; destruct (TCPHeader.syn h), (TCPHeader.fin h); cbn; lia).
  exists (to_string (TCPHeader.sport h)), (to_string (TCPHeader.dport h)),
    (flag (TCPHeader.urg h) "U" ++ flag (TCPHeader.psh h) "P" ++ flag (TCPHeader.rst h) "R" ++
     flag (TCPHeader.syn h) "S" ++ flag (TCPHeader.fin h) "F" ++ flag (TCPHeader.ack h) "."), (pad 4 (to_hex c)),
    (wrapping_dec (TCPHeader.seqno h)),
    (if 0 <? occupies then bytes_of_string ":" ++ wrapping_dec (Wrapping.plus (TCPHeader.seqno h) occupies) else []),
    (wrapping_dec (TCPHeader.ackno h)), (to_string (TCPHeader.win h)), (to_string (zlen payload)).
  split.
  { unfold describe. cbv zeta. rewrite El. cbn [TCPSegment.header TCPSegment._header]. by rewrite <- !app_assoc. }
  unfold wrapping_dec. rewrite !CStringTheorems.strtol_to_string by (unfold LONG_MAX; lia).
  split; [done|]. split; [done|]. split; [intros c' b; apply flag_letters|]. split; [done|]. split; [|done].
  destruct (0 <? occupies); [|done]. eexists. split; [done|]. cbn [Wrapping.plus raw_value].
  rewrite CStringTheorems.strtol_to_string; [done|]. pose proof (u32_range (raw_value (TCPHeader.seqno h) + occupies)).
  unfold LONG_MAX. lia.
Qed.

(** C33. A segment that is sent in a UDP datagram, below raw IP, Ethernet or either of Linux's cooked headers
    and below any header of IPv4 with options or of IPv6 with extensions, is shown by
    a line with the addresses in the header and the fields of the segment, the
    checksum as correct ([shows]), and the dump of its bytes. *)
Theorem tcpdump_shows_segment dl lh hdr src dst udp seg :
  linked dl lh -> carries_udp hdr src dst -> zlen udp = 8 -> TcpSegmentTheorems.sendable 0 seg ->
  exists l, TCPSegment.serialize 0 seg = ok l /\
    let payload := BufferList.concatenate l in
    (zlen (lh ++ hdr ++ udp ++ payload) < 2 ^ 31 ->
     exists text, shows src dst seg (zlen payload) text /\
       show_packet inet_ntop dl (lh ++ hdr ++ udp ++ payload) =
         Some (ok (true, on_cout (text ++ Hexdump.hexdump payload 8)))).
Proof.
  intros Hl Hh Hu Hs. destruct (TcpSegmentTheorems.parse_serialized_segment 0 seg Hs) as (l&E&P).
  exists l. split; [done|]. cbv zeta. intros Hz.
  rewrite (packet_payload dl lh hdr src dst udp (BufferList.concatenate l)) by done.
  assert (zlen (BufferList.concatenate l) < 2 ^ 31) as Hz'.
  { rewrite !zlen_app in Hz. pose proof (zlen_nonneg lh). pose proof (zlen_nonneg hdr). lia. }
  destruct (P (Buffer.make (BufferList.concatenate l)) TCPSegment.default_segment) as (c&p&Ep&Hp&_).
  { apply Buffer.make_wf. lia. }
  { apply Buffer.str_make. }
  eexists. split; [by eapply (describe_shows src dst (BufferList.concatenate l) 0 seg c p)|].
  unfold show_payload. by rewrite Ep, bindR_ok.
Qed.

(** Where the code goes astray: the protocol of a header of no length is read from outside
    of the packet; so is the payload of a datagram cut off in the UDP header; a segment
    with a wrong checksum is shown with a header of zeros; and the loopback header of a
    little-endian host is not recognised. *)
Lemma short_header_undefined : process_ipv4_ipv6 inet_ntop 1 [x40] = Some (throw undefined).
Proof. reflexivity. Qed.

Definition cut_datagram : bytes := x45 :: replicate 8 x00 ++ [x11] ++ replicate 10 x00.
Lemma cut_datagram_undefined : show_packet inet_ntop DLT_RAW cut_datagram = Some (throw undefined).
Proof. reflexivity. Qed.

Lemma bad_checksum_blank src dst payload :
  bool_of_Z (InternetChecksum.value (InternetChecksum.add payload (InternetChecksum.make 0))) = true ->
  show_payload src dst payload =
    ok (describe src dst payload TCPSegment.default_segment BadChecksum ++ Hexdump.hexdump payload 8).
Proof. intros H. unfold show_payload, TCPSegment.parse. rewrite Buffer.str_make, H. reflexivity. Qed.

Lemma loopback_skipped rest :
  show_packet inet_ntop DLT_NULL ([x02; x00; x00; x00] ++ rest) =
  Some (ok (true, on_cerr (CommandLine.row "[INFO] Skipping non-IP packet."))).
Proof.
  unfold show_packet, link_header. change (DLT_NULL =? DLT_NULL) with true. cbv iota.
  destruct (Z.ltb_spec (zlen ([x02; x00; x00; x00] ++ rest)) 4) as [H|_]; [|reflexivity].
  rewrite zlen_app in H. change (zlen [x02; x00; x00; x00]) with 4 in H. pose proof (zlen_nonneg rest). lia.
Qed.

End Packets.

(** *** Runs *)
Module Run.

Definition no_names (family : Z) (a : bytes) : option bytes := None.

(** A hop-by-hop header and UDP behind a header of IPv6. *)
Definition v6_header : bytes := x60 :: replicate 39 x00.
Definition hop_by_hop : bytes := x11 :: replicate 7 x00.

Lemma process_inside_witness :
  exists r, process_ipv4_ipv6 no_names 48 (v6_header ++ hop_by_hop) = Some (ok r) /\ r = inl [].
Proof.
  destruct (proj2 (process_inside no_names (v6_header ++ hop_by_hop))) as (r&E&_).
  - intros b rest [= <- _]. by vm_compute.
  - exists r. split; [exact E|]. vm_compute in E. congruence.
Defined.

Definition syn : TCPSegment.TCPSegment :=
  TCPSegment.default_segment <| TCPSegment._header ::= fun h =>
    h <| TCPHeader.syn := true |> <| TCPHeader.sport := 1024 |> <| TCPHeader.dport := 80 |> |>.
Lemma syn_sendable : TcpSegmentTheorems.sendable 0 syn.
Proof. repeat split; simpl; try done; by unfold wrapping_ok. Qed.

Lemma tcpdump_shows_segment_witness :
  exists l, TCPSegment.serialize 0 syn = ok l /\
    let payload := BufferList.concatenate l in
    exists text, shows (bytes_of_string "unknown") (bytes_of_string "unknown") syn (zlen payload) text /\
      show_packet no_names DLT_EN10MB
        ((replicate 12 x00 ++ [x86; xdd]) ++ (v6_header ++ concat [hop_by_hop]) ++ replicate 8 x00 ++ payload) =
      Some (ok (true, on_cout (text ++ Hexdump.hexdump payload 8))).
Proof.
  destruct (tcpdump_shows_segment no_names DLT_EN10MB (replicate 12 x00 ++ [x86; xdd])
    (v6_header ++ concat [hop_by_hop]) (bytes_of_string "unknown") (bytes_of_string "unknown") (replicate 8 x00) syn)
    as (l&E&H).
  - apply linked_ethernet; [reflexivity|by right].
  - apply (carries_v6 no_names x60 (replicate 39 x00) x00 [hop_by_hop]); [by vm_compute|reflexivity..|].
    split; [by left|]. by split.
  - reflexivity.
  - apply syn_sendable.
  - exists l. split; [exact E|]. apply H. vm_compute in E. injection E as <-. reflexivity.
Defined.

End Run.
End TcpdumpTheorems.
